(* ===== verification/_CoqProject ===== *)
-Q . S2P
Prelude.v
GoFloat.v
GoString.v
GoTime.v
GoFmt.v
GoRegexp.v
Types.v
OErrors.v
Planner.v
RateLimit.v
Ring.v
Progress.v
Recent.v
Config.v
S3.v
License.v
FS.v
Cache.v
SharedCache.v
Qpdf.v
Json.v
GoNet.v
NetPolicy.v
ContainerStats.v
Worker.v
Leader.v
Pool.v
Pooled.v
Probe.v
CSVInput.v
LibreOffice.v
Email.v
Gotenberg.v
Http.v
Cursor.v
FanOut.v
Orchestrator.v
EndToEnd.v
PoolConversion.v
Repeat.v
Transparent.v
Server.v
Convert.v
Delivery.v
Posted.v
ConvertHTML.v
PostedHTML.v
Views.v
App.v
Admission.v
