(* ===== verification/Prelude.v ===== *)
(** * A verification library for the office-convert orchestrator

    The orchestrator ([src/cmd/orchestrator], [src/internal]) is a Go service that
    converts office documents to PDF.  A request is rate limited, its input is
    fetched and probed, a planner cuts the pages into chunks, worker processes
    render the chunks (one process each, or a pool that has loaded the document),
    [qpdf] merges the chunk PDFs into the response, and a cache keeps finished
    chunks and documents.  This library models the service's own logic, in Go's
    arithmetic and with its error paths, and proves what each part promises.

    ** The parts, and how they correspond to the code

    Go itself:
    - this file: results ([(T, error)]), 64-bit integers with wrap-around
      ([+!], [-!], [*!]), the lists and tactics the other files share;
    - [GoFloat.v]: [float64] as IEEE 754 binary64, conversions included;
    - [GoString.v], [GoFmt.v], [GoTime.v]: strings as bytes, [strconv], [strings],
      the float and quote formats, instants, durations and calendar dates;
    - [Json.v]: [encoding/json] on the worker protocol and on bodies;
    - [GoRegexp.v], [GoNet.v]: matching a regular expression, [net/url] and IP
      addresses, as far as the program uses them;
    - [FS.v]: files, system calls that may fail, the response being sent.

    The program ([internal/...]), one file per package, operations under their Go
    names; state is passed explicitly, a [sync.Mutex] section is one operation:
    - [Types.v] ([types]), [OErrors.v] ([oerrors]), [Config.v] ([config]);
    - [Probe.v] ([probe]): the format of an input and its page estimate;
    - [Planner.v] ([planner]): chunk sizes, the plan, halving, cache keys;
    - [License.v] ([license]), [RateLimit.v] ([ratelimit]);
    - [CSVInput.v] ([csvinput]): a CSV file as a spreadsheet;
    - [Ring.v], [Progress.v], [Recent.v] ([obs]): heartbeats and timings, progress
      of running jobs, finished conversions and their pages; [Cursor.v]: the
      tokens of the pages;
    - [S3.v] ([s3]), [Cache.v] ([cache]), [Qpdf.v] ([qpdf]); [SharedCache.v]: the
      cache under concurrent writers, readers and clearing;
    - [NetPolicy.v] ([netpolicy]): the fetches a page may make, in Go and as the
      pattern given to Chromium;
    - [ContainerStats.v] ([containerstats]): control groups and worker processes;
    - [Worker.v] ([worker/worker.go]): command line, exit codes, protocol lines;
      [Leader.v] ([worker/pool.go], [ForkedPoolLeader]), [Pooled.v] ([PooledWorker]
      and its lines) and [Pool.v] (the pools);
    - [LibreOffice.v] ([libreoffice]), [Email.v] ([email]), [Gotenberg.v]
      ([gotenberg]): the engines beside the workers;
    - [FanOut.v] ([orchestrator], [renderAll]) and [Orchestrator.v] (the rest of
      [orchestrator]): [ConvertJob] over all of the above;
    - [EndToEnd.v], [PoolConversion.v], [Repeat.v], [Transparent.v]: the theorems
      about a whole conversion, with one process per chunk, through a pool,
      repeated, and over a cache that has some of it;
    - [Http.v], [Server.v] ([server/server.go], [finishStream] and the helpers of
      [convert.go]): diagnostics, the streaming writer, slots, records, scratch
      files and the S3 copy;
    - [Convert.v] ([server/convert.go]): [POST /v1/convert];
    - [ConvertHTML.v] ([server/convert_html.go]): the two HTML endpoints;
    - [Delivery.v], [Posted.v], [PostedHTML.v]: a whole request of either handler,
      from the upload to the PDF;
    - [Views.v] ([server/health.go] and the other endpoints of [server.go]);
    - [App.v] ([cmd/orchestrator/main.go], [server.New], the routes and the
      middleware, [oclog]): the process;
    - [Admission.v]: the slots and the counter of jobs under concurrent requests.

    ** How they interact

    [ConvertJob] calls the cache, the probe, the planner, a worker or a pool and
    [qpdf], and reports to the progress store; in [Orchestrator.v] it is one
    state-passing program over the files, the counters and that store.  What other
    programs do is an argument with the documented behaviour as its laws: the
    worker processes are the class [Workers], a writer is the record [Sink],
    [qpdf] the record [Qpdf], Go's [Pool] interface the record [PoolOps], the
    AWS SDK and the XML and ZIP readers are arguments of the operations that use
    them.  [PoolConversion.serves] is what a conversion relies on from a pool;
    [new_pool_serves] shows it of both pools.  Where goroutines interleave the
    model is a step relation, or a list of events in any order, and the theorems
    are about all its runs: the semaphore and the cancellation of [renderAll]
    ([FanOut.v]), the sequence numbers and channels of the forked pool
    ([Leader.v]), the queue of a worker ([Pooled.v]), the checkout of workers
    ([Pool.v]), the files of the cache ([SharedCache.v]) and the admission of
    requests ([Admission.v]).  The executable pipeline renders in one of those
    orders; [in_order_equivalent] says what that means for the others, and
    [lone_writer_is_atomic_write], [acquire_steps] and [release_steps] relate the
    relations to the executable operations.

    A request is a program on the state of the server ([Server.Handler]): it ends,
    waits for ever or panics.  Its steps are related to the state they leave in
    four ways, each with its rule for sequences: [hrel] (what every step keeps),
    [hpost] (what a response looks like after a step that ends), [safe] (no panic,
    a consistent state) and [yields] (the step does end, and in such a state).
    [convert] and [convertHTML] run [ConvertJob], the engines and the S3 client
    inside such a program.  The process ([App.v]) starts with [main] and then takes
    events in any order: requests, which the router hands to these programs, and
    the standard error of workers.

    ** What the theorems show

    - A conversion: [conversion_sends_document] (the response is the whole
      document, in order, also when chunks had to be halved),
      [pool_conversion_sends_document] (the same through a pool, for the pages the
      workers count, whatever the probe estimated),
      [convert_job_response] (whatever fails, a success is a complete document and
      an error before the merge leaves the response alone),
      [repeat_is_served_from_cache] (the same bytes again get the same document,
      from the cache), [honest_cache_is_transparent] (the cache does not show),
      [subdivision_terminates].
    - A document that is posted comes back as its PDF, byte for byte, with one
      process per chunk, through a pool ([posted_document_comes_back],
      [pooled_document_comes_back]) and over any honest cache, which stays honest
      ([posted_over_honest_cache]); a page comes back as the PDF its engine made
      ([posted_page_comes_back], [worker_page_comes_back]).
    - A request: it is answered once, by a diagnostic or a PDF, and recorded as
      answered ([convert_answers], [convert_html_answers]); its slot comes back
      ([convert_balanced]), its S3 copy is what the client got
      ([s3_copy_is_the_response]) and its clean-up stays in its own directory
      ([scratch_disjoint]).
    - The process: it listens or says why not ([main_outcome]); whatever it is
      sent, nothing panics, slots stay within [MAX_JOBS] and stores within their
      bounds ([process_invariant]); the same bound when requests interleave
      ([admission_invariant], [refused_only_when_full]); every request has an id
      ([request_id_bound]).
    - Planning: plans tile the document, are greedy and bounded; halving; sizes.
    - Concurrency: bounded, ordered, fail-fast rendering without deadlock; answers
      reach their own caller, of a forked leader by number and of a worker by
      order ([answers_in_step]); calls return; workers are used by one call at a
      time; a pool starts as a whole or leaves nothing running.
    - Files: writes to the cache are all or nothing under any failing system
      calls, and readers see whole entries whoever writes and clears meanwhile
      ([readers_see_whole_entries]); keys do not collide; the merge streams
      everything or fails.
    - Services: the limiter refines a list of clients in order of use; rings,
      progress and pages are bounded and complete; configuration and license
      follow their rules; allowlists come before the network.
    - The protocol: commands cannot be split or injected, exit codes and protocol
      errors agree, standard error reaches the right store.
    - The edges: CSV is read as written and shown as it was, an HTML page is a PDF
      or an error of the right class, health, pages and statistics say what is;
      a page token decodes to what was encoded ([cursor_roundtrip]); the two forms
      of the network policy agree on ordinary URLs ([deny_list_agrees]); every
      worker process is listed ([list_workers_complete]).

    The findings are theorems too: [nested_subdivision_fails],
    [subdivision_shares_next_file], [cancelled_fan_succeeds],
    [seam_gap_not_covered], [unsorted_walk_skips], [request_id_escapes_scratch],
    [literals_stored_as_numbers], [late_line_answers_next_call],
    [exits_with_requests_in_flight], [pattern_misses], [pattern_adds],
    [overshoot], [stat_line_panics].

    ** Bounds and fuel

    Integers wrap at 64 bits; where a theorem needs a bound (page counts below
    2^62, at most 4096 chunks for the names of halved chunks) it says so.  Loops
    that are not structural have fuel that the code cannot use up: the planner's
    loops consume a page each, the JSON parser has twice the length of its text
    ([Json.parse_value_fuel]), the subdivision has 65 levels
    ([subdivision_terminates]), the token and line loops consume their input.

    ** Not modelled

    The text of log lines (which of them are written is modelled); the listening
    socket, the delivery of signals and the parsing of HTTP requests; which route
    the router selects for a path; the contents of the two embedded pages and of
    the kernel's files.  The other programs and services are arguments: workers,
    [qpdf], [soffice], Chromium, S3, the file system's failures.  Whole requests
    run one at a time over a state that says which slots the others hold; they
    interleave where they share state without a lock, on the slots and the
    counter of jobs and on the files of the cache.  Time-outs are outcomes the
    environment may choose, not clocks; a client that goes away is a failing
    write, and a cancelled context is modelled where it changes a result, in
    [renderAll] and in the checkout of a worker. *)
From stdpp Require Export base tactics list gmap strings pretty option.
From Stdlib Require Export ZArith Lia Bool.

(** ** Fallible results

    A Go function returning [(T, error)] is a function into [result E T]:
    [Ok v] is [(v, nil)], [Err e] is [(_, e)] with [e <> nil]. *)

Inductive result (E A : Type) : Type :=
| Ok (a : A)
| Err (e : E).
Arguments Ok {E A} a.
Arguments Err {E A} e.

#[export] Instance result_ret {E} : MRet (result E) := @Ok E.
#[export] Instance result_bind {E} : MBind (result E) := λ A B f r,
  match r with Ok a => f a | Err e => Err e end.
#[export] Instance result_fmap {E} : FMap (result E) := λ A B f r,
  match r with Ok a => Ok (f a) | Err e => Err e end.

Definition is_ok {E A} (r : result E A) : bool :=
  match r with Ok _ => true | Err _ => false end.

Lemma bind_ok_inv {E A B} (r : result E A) (f : A → result E B) b :
  r ≫= f = Ok b → ∃ a, r = Ok a ∧ f a = Ok b.
Proof. destruct r; simpl; [eauto|discriminate]. Qed.

(** ** Go's [int] and [int64]: 64-bit two's complement on [Z] *)

Declare Scope go_scope.
Delimit Scope go_scope with go.

Definition min_i64 : Z := (- 2 ^ 63)%Z.
Definition max_i64 : Z := (2 ^ 63 - 1)%Z.
Definition in_i64 (z : Z) : Prop := (- 2 ^ 63 <= z < 2 ^ 63)%Z.

(** [i64 z] is [z] wrapped to 64 bits, the result of a Go [+], [-] or [*]
    whose mathematical value is [z]. *)
Definition i64 (z : Z) : Z := ((z + 2 ^ 63) mod 2 ^ 64 - 2 ^ 63)%Z.

Notation "a +! b" := (i64 (a + b)%Z) (at level 50, left associativity) : go_scope.
Notation "a -! b" := (i64 (a - b)%Z) (at level 50, left associativity) : go_scope.
Notation "a *! b" := (i64 (a * b)%Z) (at level 40, left associativity) : go_scope.

Lemma i64_id z : in_i64 z → i64 z = z.
Proof. unfold in_i64, i64. intros H. rewrite Z.mod_small; lia. Qed.

Lemma i64_range z : in_i64 (i64 z).
Proof.
  unfold in_i64, i64. pose proof (Z.mod_pos_bound (z + 2 ^ 63) (2 ^ 64)). lia.
Qed.

Lemma i64_idemp z : i64 (i64 z) = i64 z.
Proof. apply i64_id, i64_range. Qed.

(** Removes every wrap whose argument is provably in range. *)
Ltac i64_norm :=
  repeat match goal with
  | |- context [i64 ?z] => rewrite (i64_id z) by (unfold in_i64 in *; lia)
  | H : context [i64 ?z] |- _ => rewrite (i64_id z) in H by (unfold in_i64 in *; lia)
  end.

(** ** Automation *)

Create HintDb gohints.
#[export] Hint Resolve i64_range : gohints.
Create Rewrite HintDb gorew.
#[export] Hint Rewrite i64_idemp : gorew.

(** Case analysis on the boolean integer comparisons of a translated guard. *)
Ltac guard_cases :=
  match goal with
  | |- context [(?a <=? ?b)%Z] => destruct (Z.leb_spec a b)
  | |- context [(?a <? ?b)%Z] => destruct (Z.ltb_spec a b)
  | |- context [(?a =? ?b)%Z] => destruct (Z.eqb_spec a b)
  end.

(** ** Lists *)

Section lists.
Context {A : Type}.
Implicit Types l : list A.

(** The suffix of at most [n] elements: what [buf[len(buf)-n:]] keeps. *)
Definition last_n (n : nat) (l : list A) : list A := drop (length l - n) l.

Lemma last_n_length n l : length (last_n n l) = Nat.min n (length l).
Proof. unfold last_n. rewrite length_drop. lia. Qed.

Lemma last_n_all n l : length l <= n → last_n n l = l.
Proof. intros. unfold last_n. by replace (length l - n) with 0 by lia. Qed.

Lemma last_n_suffix n l : last_n n l `suffix_of` l.
Proof. exists (take (length l - n) l). unfold last_n. by rewrite take_drop. Qed.

(** Trimming to [n] after each append loses nothing that a single final trim
    would have kept. *)
Lemma last_n_app n l k : last_n n (last_n n l ++ k) = last_n n (l ++ k).
Proof.
  unfold last_n. rewrite !length_app, length_drop.
  destruct (decide (length l <= n)) as [Hle|Hgt].
  - replace (length l - n) with 0 by lia. simpl. f_equal. lia.
  - rewrite <- (drop_app_le l k (length l - n)) by lia.
    rewrite drop_drop. f_equal. lia.
Qed.
End lists.
