(* ===== verification/GoFloat.v ===== *)
(** * Go's [float64]

    IEEE 754 binary64 with round-to-nearest-even, as the executable
    specification [SpecFloat] of the standard library at [prec = 53] and
    [emax = 1024]; no axioms.  The conversions [float64(int)] and [int(float64)]
    are defined on top.  Everything the orchestrator computes in floating point
    (megabyte estimates, token buckets, progress weights) goes through these
    operations, so its rounding is the program's rounding.  Go permits a
    compiler to fuse [x*y + z]; the amd64 compiler the image is built with does
    not, and neither do these definitions.

    The lemmas say that the operations stay inside the canonical numbers, that
    comparison is the comparison of the represented values, and that rounding
    keeps signs and never crosses a representable bound. *)
From stdpp Require Import base tactics numbers.
From Stdlib Require Import ZArith Lia Bool SpecFloat.
From S2P Require Import Prelude.
Local Open Scope Z_scope.

Abbreviation f64 := spec_float (only parsing).

Definition f64_of_Z (z : Z) : f64 := binary_normalize 53 1024 z 0 false.
Definition fadd : f64 → f64 → f64 := SFadd 53 1024.
Definition fsub : f64 → f64 → f64 := SFsub 53 1024.
Definition fmul : f64 → f64 → f64 := SFmul 53 1024.
Definition fdiv : f64 → f64 → f64 := SFdiv 53 1024.

(** Go's [<], [<=] and [==] on floats: false when an operand is a NaN. *)
Definition flt (x y : f64) : bool := SFltb x y.
Definition fle (x y : f64) : bool := SFleb x y.
Definition feq (x y : f64) : bool := SFeqb x y.

(** The constant [n/d], correctly rounded ([n] and [d] below 2^53). *)
Definition f64_ratio (n d : Z) : f64 := fdiv (f64_of_Z n) (f64_of_Z d).

Definition f0 : f64 := S754_zero false.
Definition f1 : f64 := f64_of_Z 1.

Declare Scope f64_scope.
Delimit Scope f64_scope with f64.
Notation "x + y" := (fadd x y) : f64_scope.
Notation "x - y" := (fsub x y) : f64_scope.
Notation "x * y" := (fmul x y) : f64_scope.
Notation "x / y" := (fdiv x y) : f64_scope.
Notation "x <? y" := (flt x y) : f64_scope.
Notation "x <=? y" := (fle x y) : f64_scope.
Notation "x =? y" := (feq x y) : f64_scope.

(** Truncation toward zero; [None] for NaN and the infinities. *)
Definition ftrunc (x : f64) : option Z :=
  match x with
  | S754_zero _ => Some 0
  | S754_finite s m e =>
      Some (cond_Zopp s (if 0 <=? e then Z.pos m * 2 ^ e else Z.pos m / 2 ^ (- e)))
  | _ => None
  end.

(** [int(x)] for a float [x] whose truncation does not fit in 64 bits is
    implementation-dependent in Go; the value is an argument of the model. *)
Class GoArch := { int_of_f64_oob : f64 → Z;
                  int_of_f64_oob_range : ∀ x, in_i64 (int_of_f64_oob x) }.

Definition int_of_f64 `{GoArch} (x : f64) : Z :=
  match ftrunc x with
  | Some z => if (min_i64 <=? z) && (z <=? max_i64) then z else int_of_f64_oob x
  | None => int_of_f64_oob x
  end.

(** amd64's CVTTSD2SQ returns the "integer indefinite" value. *)
#[export] Program Instance amd64 : GoArch := {| int_of_f64_oob := λ _, min_i64 |}.
Next Obligation. intros; cbv; split; [discriminate|reflexivity]. Qed.

(** ** Canonical numbers and the values they represent *)

Definition fvalid (x : f64) : Prop := valid_binary 53 1024 x = true.

Definition ffinite (x : f64) : bool :=
  match x with S754_zero _ | S754_finite _ _ _ => true | _ => false end.

(** A finite number as an integer multiple of 2^-1074, the least positive
    binary64 number. *)
Definition fscaled (x : f64) : Z :=
  match x with
  | S754_finite s m e => cond_Zopp s (Z.pos m * 2 ^ (e + 1074))
  | _ => 0
  end.

Lemma digits2_log2 m : Z.pos (digits2_pos m) = Z.log2 (Z.pos m) + 1.
Proof.
  induction m as [m IH|m IH|]; cbn [digits2_pos]; [| |done].
  - rewrite Pos2Z.inj_succ, IH, (Pos2Z.inj_xI m), Z.log2_succ_double by lia. lia.
  - rewrite Pos2Z.inj_succ, IH, (Pos2Z.inj_xO m), Z.log2_double by lia. lia.
Qed.

Lemma digits_bounds m (d := Z.pos (digits2_pos m)) :
  0 < d ∧ 2 ^ (d - 1) <= Z.pos m < 2 ^ d.
Proof.
  subst d. rewrite digits2_log2. pose proof (Z.log2_nonneg (Z.pos m)).
  pose proof (Z.log2_spec (Z.pos m) ltac:(lia)) as Hs.
  rewrite Z.add_simpl_r, Z.add_1_r. split; [lia|exact Hs].
Qed.

Lemma digits_unique m d : 0 < d → 2 ^ (d - 1) <= Z.pos m < 2 ^ d → Z.pos (digits2_pos m) = d.
Proof.
  intros Hd Hm. rewrite digits2_log2. rewrite (Z.log2_unique (Z.pos m) (d - 1)); [lia|lia|].
  by rewrite <- Z.add_1_r, Z.sub_add.
Qed.

Lemma fexp_def e : fexp 53 1024 e = Z.max (e - 53) (-1074).
Proof. reflexivity. Qed.

Lemma valid_finite s m e :
  fvalid (S754_finite s m e) ↔
  fexp 53 1024 (Z.pos (digits2_pos m) + e) = e ∧ e <= 971.
Proof.
  unfold fvalid, valid_binary, bounded, canonical_mantissa.
  rewrite andb_true_iff, Z.eqb_eq, Z.leb_le. reflexivity.
Qed.

(** A canonical mantissa: 53 bits, or fewer at the least exponent. *)
Lemma valid_mantissa s m e :
  fvalid (S754_finite s m e) →
  -1074 <= e <= 971 ∧ Z.pos m < 2 ^ 53 ∧ (e = -1074 ∨ 2 ^ 52 <= Z.pos m).
Proof.
  intros [Hc He]%valid_finite. rewrite fexp_def in Hc.
  destruct (digits_bounds m) as (Hd & Hlo & Hhi).
  assert (Z.pos (digits2_pos m) <= 53) as Hd53 by lia.
  split; [lia|]. split.
  - eapply Z.lt_le_trans; [exact Hhi|]. apply Z.pow_le_mono_r; lia.
  - destruct (decide (e = -1074)); [by left|right].
    replace 52 with (Z.pos (digits2_pos m) - 1) by lia. exact Hlo.
Qed.

Lemma mantissa_valid s m e :
  -1074 <= e <= 971 → Z.pos m < 2 ^ 53 → (e = -1074 ∨ 2 ^ 52 <= Z.pos m) →
  fvalid (S754_finite s m e).
Proof.
  intros He Hm Hc. apply valid_finite. split; [|lia]. rewrite fexp_def.
  destruct (digits_bounds m) as (Hd & Hlo & Hhi).
  assert (Z.pos (digits2_pos m) <= 53).
  { enough (Z.pos (digits2_pos m) - 1 < 53) by lia.
    apply (Z.pow_lt_mono_r_iff 2); lia. }
  destruct Hc as [->|Hc]; [lia|].
  enough (52 < Z.pos (digits2_pos m)) by lia.
  apply (Z.pow_lt_mono_r_iff 2); lia.
Qed.

(** ** Rounding *)

Lemma iter_pos_nat {A} (f : A → A) p x : SpecFloat.iter_pos f p x = Nat.iter (Pos.to_nat p) f x.
Proof.
  revert x. induction p as [p IH|p IH|]; intros x; cbn [SpecFloat.iter_pos].
  - rewrite !IH, Pos2Nat.inj_xI, Nat.iter_succ_r, <- Nat.iter_add. f_equal. lia.
  - rewrite !IH, Pos2Nat.inj_xO, <- Nat.iter_add. f_equal. lia.
  - done.
Qed.

Lemma shr_1_spec m r s :
  0 <= m →
  shr_1 (Build_shr_record m r s) = Build_shr_record (m / 2) (Z.odd m) (r || s).
Proof.
  intros Hm. destruct m as [|p|p]; [done| |lia].
  rewrite <- Z.div2_div. by destruct p.
Qed.

Lemma shr_iter k m r s :
  0 <= m →
  let mrs := Nat.iter k shr_1 (Build_shr_record m r s) in
  shr_m mrs = m / 2 ^ Z.of_nat k ∧
  (r = false → s = false → m mod 2 ^ Z.of_nat k = 0 → shr_r mrs = false ∧ shr_s mrs = false).
Proof.
  intros Hm. induction k as [|k [IHm IHrs]].
  { cbn. rewrite Z.div_1_r. done. }
  cbn zeta. rewrite Nat.iter_succ.
  destruct (Nat.iter k shr_1 (Build_shr_record m r s)) as [mk rk sk]; cbn in IHm, IHrs.
  assert (0 <= mk) as Hmk by (subst mk; apply Z.div_pos; lia).
  rewrite shr_1_spec by done. cbn [shr_m shr_r shr_s].
  rewrite Nat2Z.inj_succ, Z.pow_succ_r by lia. split.
  - rewrite IHm, Z.div_div, Z.mul_comm by lia. done.
  - intros -> -> Hmod. rewrite Z.mul_comm, Z.rem_mul_r in Hmod by lia.
    pose proof (Z.mod_pos_bound m (2 ^ Z.of_nat k) ltac:(lia)).
    pose proof (Z.mod_pos_bound (m / 2 ^ Z.of_nat k) 2 ltac:(lia)).
    destruct IHrs as [-> ->]; [done|done|nia|]. split; [|done].
    rewrite Zodd_mod, IHm.
    by replace ((m / 2 ^ Z.of_nat k) mod 2) with 0 by nia.
Qed.

Lemma shr_spec mrs e n :
  0 <= shr_m mrs →
  let '(mrs', e') := shr mrs e n in
  e' = e + Z.max 0 n ∧ shr_m mrs' = shr_m mrs / 2 ^ Z.max 0 n ∧
  (shr_r mrs = false → shr_s mrs = false → shr_m mrs mod 2 ^ Z.max 0 n = 0 →
   shr_r mrs' = false ∧ shr_s mrs' = false).
Proof.
  intros Hm. destruct mrs as [m r s]; cbn in Hm. destruct n as [|p|p]; cbn [shr].
  - cbn. rewrite Z.div_1_r. split; [lia|done].
  - rewrite iter_pos_nat. replace (Z.max 0 (Z.pos p)) with (Z.pos p) by lia.
    pose proof (shr_iter (Pos.to_nat p) m r s Hm) as Hi. cbn zeta in Hi.
    rewrite positive_nat_Z in Hi. split; [done|exact Hi].
  - cbn. rewrite Z.div_1_r. split; [lia|done].
Qed.

Lemma shr_record_of_loc_m m l : shr_m (shr_record_of_loc m l) = m.
Proof. by destruct l as [|[]]. Qed.

Definition zdigits (m : Z) : Z := match m with Z0 => 0 | Zpos p | Zneg p => Z.pos (digits2_pos p) end.

Lemma Zdigits2_zdigits m : Zdigits2 m = zdigits m.
Proof. by destruct m. Qed.

Lemma zdigits_bounds m : 0 < m → 0 < zdigits m ∧ 2 ^ (zdigits m - 1) <= m < 2 ^ zdigits m.
Proof. intros. destruct m as [|p|p]; [lia| |lia]. apply digits_bounds. Qed.

Lemma zdigits_unique m d : 0 < d → 2 ^ (d - 1) <= m < 2 ^ d → zdigits m = d.
Proof.
  intros Hd Hm. pose proof (Z.pow_pos_nonneg 2 (d - 1) ltac:(lia) ltac:(lia)).
  destruct m as [|p|p]; [lia| |lia]. by apply digits_unique.
Qed.

Lemma zdigits_le m k : 0 <= k → 0 <= m < 2 ^ k → zdigits m <= k.
Proof.
  intros Hk Hm. destruct (decide (m = 0)) as [->|]; [done|].
  destruct (zdigits_bounds m ltac:(lia)) as (Hd & Hlo & _).
  enough (zdigits m - 1 < k) by lia. apply (Z.pow_lt_mono_r_iff 2); lia.
Qed.

(** The one rounding step of [binary_round_aux]: truncate the mantissa to the
    target exponent [F], add at most one unit, and none if nothing was lost. *)
Definition rne_step (mx ex : Z) (lx : location) : Z * Z :=
  let '(mrs, e) := shr_fexp 53 1024 mx ex lx in
  (round_nearest_even (shr_m mrs) (loc_of_shr_record mrs), e).

Lemma rne_step_spec mx ex lx (F := fexp 53 1024 (zdigits mx + ex)) :
  0 <= mx → ex <= F →
  let '(m2, e) := rne_step mx ex lx in
  e = F ∧ mx / 2 ^ (F - ex) <= m2 <= mx / 2 ^ (F - ex) + 1 ∧
  (lx = loc_Exact → mx mod 2 ^ (F - ex) = 0 → m2 = mx / 2 ^ (F - ex)).
Proof.
  intros Hm HF. unfold rne_step, shr_fexp. rewrite Zdigits2_zdigits. fold F.
  pose proof (shr_spec (shr_record_of_loc mx lx) ex (F - ex)) as Hs.
  rewrite shr_record_of_loc_m in Hs. specialize (Hs Hm).
  destruct (shr _ _ _) as [[m1 r s] e]. cbn in Hs |- *.
  replace (Z.max 0 (F - ex)) with (F - ex) in Hs by lia.
  destruct Hs as (-> & -> & Hrs). split; [lia|].
  assert (∀ q l, q <= round_nearest_even q l <= q + 1) as Hrne.
  { intros q [|[]]; cbn; try destruct (Z.even q); lia. }
  split; [apply Hrne|]. intros -> Hmod.
  destruct Hrs as [-> ->]; [done|done|done|]. done.
Qed.

Lemma trunc_mantissa_bound mx ex (F := fexp 53 1024 (zdigits mx + ex)) :
  0 <= mx → ex <= F →
  0 <= mx / 2 ^ (F - ex) < 2 ^ 53 ∧
  (F = -1074 ∨ 2 ^ 52 <= mx / 2 ^ (F - ex)) ∧ -1074 <= F.
Proof.
  intros Hm HF. set (n := F - ex) in *. assert (0 <= n) as Hn by lia.
  assert (0 < 2 ^ n) as Hp by (apply Z.pow_pos_nonneg; lia).
  assert (F = Z.max (zdigits mx + ex - 53) (-1074)) as HFd by apply fexp_def.
  destruct (decide (mx = 0)) as [->|Hmx].
  { rewrite Z.div_0_l by lia. cbn in HFd. repeat split; lia. }
  destruct (zdigits_bounds mx ltac:(lia)) as (Hd & Hlo & Hhi).
  split; [split|split; [|lia]].
  - apply Z.div_pos; lia.
  - apply Z.div_lt_upper_bound; [lia|]. rewrite <- Z.pow_add_r by lia.
    eapply Z.lt_le_trans; [exact Hhi|]. apply Z.pow_le_mono_r; lia.
  - destruct (decide (F = -1074)) as [|HF']; [by left|right].
    apply Z.div_le_lower_bound; [lia|]. rewrite <- Z.pow_add_r by lia.
    etransitivity; [|exact Hlo]. apply Z.pow_le_mono_r; lia.
Qed.

(** [binary_round_aux] is two such steps (the second renormalises a mantissa
    that rounded up to 2^53) and an overflow test. *)
Lemma binary_round_aux_steps sx mx ex lx :
  binary_round_aux 53 1024 sx mx ex lx =
  let '(m2, e2) := rne_step mx ex lx in
  let '(mrs, e3) := shr_fexp 53 1024 m2 e2 loc_Exact in
  match shr_m mrs with
  | Z0 => S754_zero sx
  | Zpos m => if e3 <=? 971 then S754_finite sx m e3 else S754_infinity sx
  | _ => S754_nan
  end.
Proof.
  unfold binary_round_aux, rne_step. by destruct (shr_fexp 53 1024 mx ex lx) as [mrs' e'].
Qed.

(** Renormalisation keeps the value and yields a canonical pair. *)
Lemma renorm_spec m2 F :
  0 <= m2 <= 2 ^ 53 → -1074 <= F → (F = -1074 ∨ 2 ^ 52 <= m2) →
  let '(mrs, e3) := shr_fexp 53 1024 m2 F loc_Exact in
  0 <= shr_m mrs < 2 ^ 53 ∧ F <= e3 ∧ shr_m mrs * 2 ^ (e3 - F) = m2 ∧
  (e3 = -1074 ∨ 2 ^ 52 <= shr_m mrs).
Proof.
  intros Hm HF Hc. unfold shr_fexp. rewrite Zdigits2_zdigits, fexp_def.
  set (n := Z.max (zdigits m2 + F - 53) (-1074) - F).
  pose proof (shr_spec (shr_record_of_loc m2 loc_Exact) F n) as Hs.
  rewrite shr_record_of_loc_m in Hs. specialize (Hs ltac:(lia)).
  destruct (shr _ _ _) as [mrs e3]. destruct Hs as (-> & -> & _).
  destruct (decide (m2 = 2 ^ 53)) as [->|Hne].
  - assert (Z.max 0 n = 1) as -> by (subst n; change (zdigits (2 ^ 53)) with 54; lia).
    replace (F + 1 - F) with 1 by lia. change (2 ^ 53 / 2 ^ 1) with (2 ^ 52). lia.
  - assert (zdigits m2 <= 53) by (apply zdigits_le; lia).
    assert (Z.max 0 n = 0) as -> by lia. rewrite Z.pow_0_r, Z.div_1_r.
    replace (F + 0 - F) with 0 by lia. lia.
Qed.

(** The result of rounding [mx * 2^ex] (with [lx] what was already lost),
    described by its exponent [F] and the rounded mantissa [m2]. *)
Lemma binary_round_aux_spec sx mx ex lx (F := fexp 53 1024 (zdigits mx + ex)) :
  0 <= mx → ex <= F →
  ∃ m2, mx / 2 ^ (F - ex) <= m2 <= mx / 2 ^ (F - ex) + 1 ∧
    (lx = loc_Exact → mx mod 2 ^ (F - ex) = 0 → m2 = mx / 2 ^ (F - ex)) ∧
    match binary_round_aux 53 1024 sx mx ex lx with
    | S754_zero s => s = sx ∧ m2 = 0
    | S754_finite s m e => s = sx ∧ fvalid (S754_finite s m e) ∧ F <= e ∧ Z.pos m * 2 ^ (e - F) = m2
    | S754_infinity s => s = sx ∧ 2 ^ (52 + 972 + 1074) <= m2 * 2 ^ (F + 1074)
    | S754_nan => False
    end.
Proof.
  intros Hm HF. destruct (trunc_mantissa_bound mx ex Hm HF) as (Hb & Hc & HF0).
  pose proof (rne_step_spec mx ex lx Hm HF) as Hstep. fold F in Hb, Hc, HF0, Hstep.
  rewrite binary_round_aux_steps. destruct (rne_step mx ex lx) as [m2 e].
  destruct Hstep as (-> & Hle & Hex). exists m2. split; [done|]. split; [done|].
  pose proof (renorm_spec m2 F ltac:(lia) HF0 ltac:(lia)) as Hr.
  destruct (shr_fexp 53 1024 m2 F loc_Exact) as [mrs e3].
  destruct Hr as (Hm3 & Hge & Hval & Hcan).
  destruct (shr_m mrs) as [|m3|m3]; [split; [done|lia]| |lia].
  destruct (Z.leb_spec e3 971).
  - split; [done|]. split; [|done]. apply mantissa_valid; lia.
  - split; [done|]. rewrite <- Hval, <- Z.mul_assoc.
    rewrite <- Z.pow_add_r by lia. replace (e3 - F + (F + 1074)) with (e3 + 1074) by lia.
    rewrite <- Z.add_assoc, Z.pow_add_r by lia.
    apply Z.mul_le_mono_nonneg; [lia|lia|apply Z.pow_nonneg; lia|].
    apply Z.pow_le_mono_r; lia.
Qed.

(** ** The operations stay inside the canonical numbers *)

Lemma binary_round_aux_valid sx mx ex lx :
  0 <= mx → ex <= fexp 53 1024 (zdigits mx + ex) →
  fvalid (binary_round_aux 53 1024 sx mx ex lx).
Proof.
  intros Hm HF. destruct (binary_round_aux_spec sx mx ex lx Hm HF) as (m2 & _ & _ & Hr).
  destruct (binary_round_aux _ _ _ _ _ _); try done. by destruct Hr as (_ & Hv & _).
Qed.

Lemma fexp_mono a b : a <= b → fexp 53 1024 a <= fexp 53 1024 b.
Proof. rewrite !fexp_def. lia. Qed.

Lemma iter_xO m d : Z.pos (Pos.iter xO m d) = Z.pos m * 2 ^ Z.pos d.
Proof.
  induction d as [|d IH] using Pos.peano_ind.
  - cbn [Pos.iter]. lia.
  - rewrite Pos.iter_succ, Pos2Z.inj_xO, IH, Pos2Z.inj_succ, Z.pow_succ_r by lia. lia.
Qed.

(** Aligning a mantissa to a smaller exponent keeps the value. *)
Lemma shl_align_spec m e e' :
  let '(m', k) := shl_align m e e' in
  k = Z.min e e' ∧ Z.pos m' = Z.pos m * 2 ^ (e - k).
Proof.
  unfold shl_align. destruct (e' - e) as [|d|d] eqn:Hd; cbn.
  - split; [lia|]. rewrite Z.sub_diag. lia.
  - split; [lia|]. rewrite Z.sub_diag. lia.
  - split; [lia|]. rewrite iter_xO. do 2 f_equal. lia.
Qed.

Lemma zdigits_shift m k : 0 < m → 0 <= k → zdigits (m * 2 ^ k) = zdigits m + k.
Proof.
  intros Hm Hk. destruct (zdigits_bounds m Hm) as (Hd & Hlo & Hhi).
  assert (0 < 2 ^ k) by (apply Z.pow_pos_nonneg; lia).
  apply zdigits_unique; [lia|].
  replace (zdigits m + k - 1) with (zdigits m - 1 + k) by lia.
  rewrite !Z.pow_add_r by lia. nia.
Qed.

(** [binary_round] first aligns, so that its mantissa is precise enough. *)
Lemma binary_round_aligned sx m e :
  ∃ mz ez, binary_round 53 1024 sx m e = binary_round_aux 53 1024 sx (Z.pos mz) ez loc_Exact ∧
    ez = Z.min e (fexp 53 1024 (zdigits (Z.pos m) + e)) ∧ Z.pos mz = Z.pos m * 2 ^ (e - ez) ∧
    ez <= fexp 53 1024 (zdigits (Z.pos mz) + ez) ∧ (-1074 <= e → -1074 <= ez).
Proof.
  unfold binary_round. set (F := fexp 53 1024 _).
  assert (F = fexp 53 1024 (zdigits (Z.pos m) + e)) as HF by done. clearbody F.
  pose proof (shl_align_spec m e F) as Hs. destruct (shl_align m e F) as [mz ez].
  destruct Hs as [-> Hmz]. exists mz, (Z.min e F). split; [done|].
  split; [by rewrite HF|]. split; [done|]. rewrite Hmz, zdigits_shift by lia.
  replace (zdigits (Z.pos m) + (e - Z.min e F) + Z.min e F)
    with (zdigits (Z.pos m) + e) by lia.
  rewrite <- HF. split; [lia|]. rewrite HF, fexp_def. lia.
Qed.

Lemma binary_round_valid sx m e : fvalid (binary_round 53 1024 sx m e).
Proof.
  destruct (binary_round_aligned sx m e) as (mz & ez & -> & _ & _ & HF & _).
  by apply binary_round_aux_valid.
Qed.

Lemma binary_normalize_valid z e s : fvalid (binary_normalize 53 1024 z e s).
Proof. destruct z; [done|apply binary_round_valid..]. Qed.

Lemma f64_of_Z_valid z : fvalid (f64_of_Z z).
Proof. apply binary_normalize_valid. Qed.

Lemma fadd_valid x y : fvalid x → fvalid y → fvalid (fadd x y).
Proof.
  unfold fadd. destruct x as [[]|[]| |], y as [[]|[]| |]; cbn [SFadd]; try done.
  intros _ _. apply binary_normalize_valid.
Qed.

Lemma fsub_valid x y : fvalid x → fvalid y → fvalid (fsub x y).
Proof.
  unfold fsub. destruct x as [[]|[]| |], y as [[]|[]| |]; cbn [SFsub]; try done.
  intros _ _. apply binary_normalize_valid.
Qed.

(** A product of canonical mantissas has enough bits to be rounded. *)
Lemma mul_exponent_ok s m e s' m' e' :
  fvalid (S754_finite s m e) → fvalid (S754_finite s' m' e') →
  e + e' <= fexp 53 1024 (zdigits (Z.pos (m * m')) + (e + e')).
Proof.
  intros Hx Hy. destruct (valid_mantissa _ _ _ Hx) as (He & Hm & Hc).
  destruct (valid_mantissa _ _ _ Hy) as (He' & Hm' & Hc').
  rewrite fexp_def. destruct (zdigits_bounds (Z.pos (m * m')) ltac:(lia)) as (Hd & _ & Hhi).
  assert (2 ^ 52 <= Z.pos (m * m') → 52 < zdigits (Z.pos (m * m'))) as Hbig.
  { intros H. apply (Z.pow_lt_mono_r_iff 2); lia. }
  lia.
Qed.

Lemma fmul_valid x y : fvalid x → fvalid y → fvalid (fmul x y).
Proof.
  unfold fmul. destruct x as [|[]| |sx mx ex], y as [|[]| |sy my ey]; cbn [SFmul]; try done.
  intros Hx Hy. apply binary_round_aux_valid; [lia|]. by eapply mul_exponent_ok.
Qed.

Lemma fdiv_core_spec m1 e1 m2 e2 :
  let '(q, e, l) := SFdiv_core_binary 53 1024 (Z.pos m1) e1 (Z.pos m2) e2 in
  0 <= q ∧ e <= fexp 53 1024 (zdigits q + e).
Proof.
  unfold SFdiv_core_binary. rewrite !Zdigits2_zdigits.
  set (d1 := zdigits (Z.pos m1)). set (d2 := zdigits (Z.pos m2)).
  set (e' := Z.min _ _). set (s := e1 - e2 - e').
  assert (e' <= fexp 53 1024 (d1 + e1 - (d2 + e2)) ∧ 0 <= s) as [He' Hs] by lia.
  assert (match s with Z0 => Z.pos m1 | Z.pos _ => Z.shiftl (Z.pos m1) s | Z.neg _ => 0 end
    = Z.pos m1 * 2 ^ s) as ->.
  { destruct s; [lia|by rewrite Z.shiftl_mul_pow2|lia]. }
  destruct (Z.div_eucl (Z.pos m1 * 2 ^ s) (Z.pos m2)) as [q r] eqn:Hq.
  assert (q = Z.pos m1 * 2 ^ s / Z.pos m2) as -> by (unfold Z.div; by rewrite Hq).
  assert (0 < 2 ^ s) by (apply Z.pow_pos_nonneg; lia).
  split; [apply Z.div_pos; lia|]. etransitivity; [exact He'|]. apply fexp_mono.
  enough (d1 + s - d2 <= zdigits (Z.pos m1 * 2 ^ s / Z.pos m2)) by lia.
  destruct (zdigits_bounds (Z.pos m1) ltac:(lia)) as (Hd1 & Hlo1 & _). fold d1 in Hd1, Hlo1.
  destruct (zdigits_bounds (Z.pos m2) ltac:(lia)) as (Hd2 & _ & Hhi2). fold d2 in Hd2, Hhi2.
  destruct (decide (d1 + s - d2 <= 0)) as [Hn|Hn].
  { transitivity 0; [done|]. by destruct (_ / _). }
  assert (2 ^ (d1 + s - d2 - 1) <= Z.pos m1 * 2 ^ s / Z.pos m2) as Hqlo.
  { apply Z.div_le_lower_bound; [lia|].
    transitivity (2 ^ d2 * 2 ^ (d1 + s - d2 - 1)).
    { apply Z.mul_le_mono_nonneg_r; [apply Z.pow_nonneg|]; lia. }
    rewrite <- Z.pow_add_r by lia. replace (d2 + _) with (d1 - 1 + s) by lia.
    rewrite Z.pow_add_r by lia. nia. }
  assert (0 < 2 ^ (d1 + s - d2 - 1)) by (apply Z.pow_pos_nonneg; lia).
  destruct (zdigits_bounds (Z.pos m1 * 2 ^ s / Z.pos m2) ltac:(lia)) as (_ & _ & Hhi).
  enough (d1 + s - d2 - 1 < zdigits (Z.pos m1 * 2 ^ s / Z.pos m2)) by lia.
  apply (Z.pow_lt_mono_r_iff 2); [lia| |lia].
  destruct (zdigits_bounds (Z.pos m1 * 2 ^ s / Z.pos m2)); lia.
Qed.

Lemma fdiv_valid x y : fvalid x → fvalid y → fvalid (fdiv x y).
Proof.
  unfold fdiv. destruct x as [|[]| |sx mx ex], y as [|[]| |sy my ey]; cbn [SFdiv]; try done.
  intros _ _. pose proof (fdiv_core_spec mx ex my ey) as Hs.
  destruct (SFdiv_core_binary _ _ _ _ _ _) as [[q e] l].
  destruct Hs. by apply binary_round_aux_valid.
Qed.

#[export] Hint Resolve f64_of_Z_valid fadd_valid fsub_valid fmul_valid fdiv_valid : gohints.

(** ** Comparison *)

(** The order key of a number that is not a NaN. *)
Definition fkey (x : f64) : Z * Z * Z :=
  match x with
  | S754_infinity true => (-2, 0, 0)
  | S754_finite true m e => (-1, - e, - Z.pos m)
  | S754_zero _ | S754_nan => (0, 0, 0)
  | S754_finite false m e => (1, e, Z.pos m)
  | S754_infinity false => (2, 0, 0)
  end.

Definition fnum (x : f64) : bool := match x with S754_nan => false | _ => true end.

Definition key_lt (a b : Z * Z * Z) : Prop :=
  let '(a1, a2, a3) := a in let '(b1, b2, b3) := b in
  a1 < b1 ∨ (a1 = b1 ∧ (a2 < b2 ∨ (a2 = b2 ∧ a3 < b3))).
Definition key_le (a b : Z * Z * Z) : Prop := key_lt a b ∨ a = b.

Lemma fcompare_key x y :
  match SFcompare x y with
  | Some Lt => fnum x = true ∧ fnum y = true ∧ key_lt (fkey x) (fkey y)
  | Some Eq => fnum x = true ∧ fnum y = true ∧ fkey x = fkey y
  | Some Gt => fnum x = true ∧ fnum y = true ∧ key_lt (fkey y) (fkey x)
  | None => fnum x = false ∨ fnum y = false
  end.
Proof.
  destruct x as [[]|[]| |[] m e], y as [[]|[]| |[] m' e']; cbn; auto 8; try lia;
    change (Pos.compare_cont Eq m m') with (Pos.compare m m');
    destruct (Z.compare_spec e e'); subst; repeat split; try lia;
    destruct (Pos.compare_spec m m'); subst; repeat split; try done; lia.
Qed.

Lemma key_lt_irrefl a : ¬ key_lt a a.
Proof. destruct a as [[]]. cbn. lia. Qed.

Lemma key_lt_asym a b : key_lt a b → ¬ key_le b a.
Proof.
  destruct a as [[]], b as [[]]. unfold key_le, key_lt. intros ? [?|[=]]; lia.
Qed.

Lemma flt_key x y : flt x y = true ↔ fnum x = true ∧ fnum y = true ∧ key_lt (fkey x) (fkey y).
Proof.
  unfold flt, SFltb. pose proof (fcompare_key x y) as Hc.
  destruct (SFcompare x y) as [[]|]; split; try done; intros (H1 & H2 & H3).
  - destruct Hc as (_ & _ & Hc). rewrite Hc in H3. by apply key_lt_irrefl in H3.
  - destruct Hc as (_ & _ & Hc). destruct (key_lt_asym _ _ H3). by left.
  - rewrite H1, H2 in Hc. destruct Hc; discriminate.
Qed.

Lemma fle_key x y : fle x y = true ↔ fnum x = true ∧ fnum y = true ∧ key_le (fkey x) (fkey y).
Proof.
  unfold fle, SFleb, key_le. pose proof (fcompare_key x y) as Hc.
  destruct (SFcompare x y) as [[]|]; split; try done; try tauto; intros (H1 & H2 & H3).
  - destruct Hc as (_ & _ & Hc). by destruct (key_lt_asym _ _ Hc).
  - rewrite H1, H2 in Hc. destruct Hc; discriminate.
Qed.

Lemma fle_refl x : fnum x = true → fle x x = true.
Proof. intros H. apply fle_key. split_and!; [done|done|by right]. Qed.

Lemma fle_trans x y z : fle x y = true → fle y z = true → fle x z = true.
Proof.
  rewrite !fle_key. intros (Hx & Hy & H1) (_ & Hz & H2). split_and!; [done|done|].
  unfold key_le, key_lt in *. destruct (fkey x) as [[]], (fkey y) as [[]], (fkey z) as [[]].
  destruct H1 as [H1|[=]], H2 as [H2|[=]]; subst; first [left; lia|by right].
Qed.

Lemma flt_trans x y z : flt x y = true → flt y z = true → flt x z = true.
Proof.
  rewrite !flt_key. intros (Hx & Hy & H1) (_ & Hz & H2). split_and!; [done|done|].
  unfold key_lt in *. destruct (fkey x) as [[]], (fkey y) as [[]], (fkey z) as [[]]. lia.
Qed.

Lemma flt_irrefl x : flt x x = false.
Proof. apply not_true_is_false. rewrite flt_key. intros (_ & _ & H). by apply key_lt_irrefl in H. Qed.

Lemma flt_le x y : flt x y = true → fle x y = true.
Proof. rewrite flt_key, fle_key. unfold key_le. tauto. Qed.

(** On numbers, [<] and [>=] are complementary. *)
Lemma flt_not_ge x y : fnum x = true → fnum y = true → flt x y = negb (fle y x).
Proof.
  intros Hx Hy. apply eq_true_iff_eq. rewrite negb_true_iff, <- not_true_iff_false.
  rewrite flt_key, fle_key. split.
  - intros (_ & _ & H) (_ & _ & H'). by destruct (key_lt_asym _ _ H).
  - intros H. split_and!; [done|done|].
    assert (¬ key_le (fkey y) (fkey x)) as Hn by tauto.
    unfold key_le, key_lt in *. destruct (fkey x) as [[a b] c], (fkey y) as [[a' b'] c'].
    assert (a = a' → b = b' → c = c' → False) by (intros -> -> ->; apply Hn; by right).
    lia.
Qed.

Lemma feq_key x y : feq x y = true ↔ fnum x = true ∧ fnum y = true ∧ fkey x = fkey y.
Proof.
  unfold feq, SFeqb. pose proof (fcompare_key x y) as Hc.
  destruct (SFcompare x y) as [[]|]; split; try done; intros (H1 & H2 & H3).
  - destruct Hc as (_ & _ & Hc). rewrite H3 in Hc. by apply key_lt_irrefl in Hc.
  - destruct Hc as (_ & _ & Hc). rewrite H3 in Hc. by apply key_lt_irrefl in Hc.
  - rewrite H1, H2 in Hc. destruct Hc; discriminate.
Qed.

(** Trichotomy: neither [==] nor [<] nor [>] only with a NaN. *)
Lemma f_trichotomy x y :
  fnum x = true → fnum y = true → feq x y = false → flt x y = false → flt y x = true.
Proof.
  intros Hx Hy He Hl. rewrite <- not_true_iff_false in He, Hl.
  rewrite feq_key in He. rewrite flt_key in Hl |- *. split_and!; [done|done|].
  assert (¬ key_lt (fkey x) (fkey y)) as Hl' by tauto. clear Hl. unfold key_lt in *. destruct (fkey x) as [[a b] c], (fkey y) as [[a' b'] c'].
  assert (¬ (a = a' ∧ b = b' ∧ c = c')) by (intros (-> & -> & ->); tauto). lia.
Qed.

(** On canonical numbers the comparison is the comparison of the values. *)
Lemma scaled_mono m e m' e' :
  fvalid (S754_finite false m e) → fvalid (S754_finite false m' e') →
  key_lt (1, e, Z.pos m) (1, e', Z.pos m') →
  Z.pos m * 2 ^ (e + 1074) < Z.pos m' * 2 ^ (e' + 1074).
Proof.
  intros Hx Hy Hk. destruct (valid_mantissa _ _ _ Hx) as (He & Hm & Hc).
  destruct (valid_mantissa _ _ _ Hy) as (He' & Hm' & Hc').
  destruct Hk as [|[_ [Hlt|[-> Hlt]]]]; [lia| |].
  - assert (0 < 2 ^ (e + 1074)) by (apply Z.pow_pos_nonneg; lia).
    replace (e' + 1074) with (1 + (e' - e - 1) + (e + 1074)) by lia.
    rewrite (Z.pow_add_r 2 (1 + _)), (Z.pow_add_r 2 1) by lia.
    set (Q := 2 ^ (e' - e - 1)). assert (0 < Q) by (apply Z.pow_pos_nonneg; lia).
    change (2 ^ 1) with 2. assert (Z.pos m < Z.pos m' * 2) by lia.
    rewrite Z.mul_assoc. apply Z.mul_lt_mono_pos_r; [done|].
    clear Hm Hc Hm' Hc'. nia.
  - apply Z.mul_lt_mono_pos_r; [apply Z.pow_pos_nonneg; lia|done].
Qed.

Lemma fvalid_sign s s' m e : fvalid (S754_finite s m e) → fvalid (S754_finite s' m e).
Proof. done. Qed.

Lemma flt_scaled_mono x y :
  fvalid x → fvalid y → ffinite x = true → ffinite y = true →
  flt x y = true → fscaled x < fscaled y.
Proof.
  intros Hx Hy Fx Fy (_ & _ & Hk)%flt_key.
  assert (∀ m e, 0 <= e + 1074 → 0 < Z.pos m * 2 ^ (e + 1074)) as Hpos.
  { intros m e H. apply Z.mul_pos_pos; [lia|]. apply Z.pow_pos_nonneg; lia. }
  destruct x as [|[]| |sx m e], y as [|[]| |sy m' e']; try done.
  - destruct s, s0; cbn in Hk; lia.
  - destruct (valid_mantissa _ _ _ Hy) as (He & _). specialize (Hpos m' e').
    destruct s, sy; cbn in *; lia.
  - destruct (valid_mantissa _ _ _ Hx) as (He & _). specialize (Hpos m e).
    destruct s, sx; cbn in *; lia.
  - destruct (valid_mantissa _ _ _ Hx) as (He & _). destruct (valid_mantissa _ _ _ Hy) as (He' & _).
    pose proof (Hpos m e). pose proof (Hpos m' e').
    destruct sx, sy; cbn [fscaled cond_Zopp fkey] in *; try (cbn in Hk; lia).
    + pose proof (scaled_mono m' e' m e Hy Hx). cbn in *. lia.
    + by apply (scaled_mono m e m' e' Hx Hy).
Qed.

Lemma fkey_scaled x y :
  ffinite x = true → ffinite y = true → fkey x = fkey y → fscaled x = fscaled y.
Proof.
  destruct x as [|[]| |[] m e], y as [|[]| |[] m' e']; cbn [fkey ffinite];
    intros Fx Fy Hk; try done; injection Hk as He Hm;
    assert (e = e') as -> by lia; assert (m = m') as -> by lia; done.
Qed.

Lemma ffinite_fnum x : ffinite x = true → fnum x = true.
Proof. by destruct x. Qed.

Lemma fle_scaled x y :
  fvalid x → fvalid y → ffinite x = true → ffinite y = true →
  fle x y = true ↔ fscaled x <= fscaled y.
Proof.
  intros Hx Hy Fx Fy. pose proof (ffinite_fnum x Fx). pose proof (ffinite_fnum y Fy). split.
  - intros Hle. destruct (flt x y) eqn:Hlt; [apply flt_scaled_mono in Hlt; auto; lia|].
    destruct (feq x y) eqn:Heq.
    + apply feq_key in Heq as (_ & _ & Hk%fkey_scaled); [lia|done|done].
    + pose proof (f_trichotomy x y) as Ht. rewrite (flt_not_ge y x), Hle in Ht by done.
      by discriminate Ht.
  - intros Hs. destruct (fle x y) eqn:Hle; [done|].
    assert (flt y x = true) as Hlt%flt_scaled_mono by (by rewrite flt_not_ge, Hle). all: auto. lia.
Qed.

(** A canonical number is determined by its value, signed zeros apart. *)
Lemma fscaled_inj x y :
  fvalid x → fvalid y → ffinite x = true → ffinite y = true →
  fscaled x = fscaled y → fscaled x ≠ 0 → x = y.
Proof.
  intros Hx Hy Fx Fy He Hne.
  assert (fle x y = true) as (_ & _ & H1)%fle_key by (apply fle_scaled; auto; lia).
  assert (fle y x = true) as (_ & _ & H2)%fle_key by (apply fle_scaled; auto; lia).
  assert (fkey x = fkey y) as Hk.
  { destruct H1 as [H1|]; [|done]. by destruct (key_lt_asym _ _ H1). }
  destruct x as [|[]| |[] m e], y as [|[]| |[] m' e']; cbn [fkey ffinite] in *; try done;
    injection Hk as He' Hm'; f_equal; lia.
Qed.

(** ** Signs and bounds of rounded results *)

(** Rounding a positive value never crosses a representable upper bound, and
    yields a finite number not below zero. *)
(** A mantissa that is rounded to nearest stays below what it was below, when that
    has at most 53 bits. *)
Lemma rounded_below mz ez my ey m2 :
  let F := fexp 53 1024 (zdigits (Z.pos mz) + ez) in let G := 2 ^ (F - ez) in
  ez <= F → -1074 <= ez → -1074 <= F → -1074 <= ey → Z.pos my < 2 ^ 53 →
  m2 <= Z.pos mz / G + 1 → (Z.pos mz mod G = 0 → m2 = Z.pos mz / G) →
  Z.pos mz * 2 ^ (ez + 1074) <= Z.pos my * 2 ^ (ey + 1074) →
  m2 * 2 ^ (F + 1074) <= Z.pos my * 2 ^ (ey + 1074).
Proof.
  intros F G HF Hez HF0 Hey Hmy Hm2 Hex Hle'. assert (0 < G) as HG by (apply Z.pow_pos_nonneg; lia).
  assert (2 ^ (F + 1074) = G * 2 ^ (ez + 1074)) as HFG.
  { subst G. rewrite <- Z.pow_add_r by lia. f_equal. lia. }
  assert (0 < 2 ^ (ez + 1074)) as Hpe by (apply Z.pow_pos_nonneg; lia).
  assert (F <= ey ∨ ey < F) as [HFey|HFey] by lia.
  - set (k := Z.pos my * 2 ^ (ey - F)).
    assert (Z.pos my * 2 ^ (ey + 1074) = k * 2 ^ (F + 1074)) as Hk.
    { subst k. rewrite <- Z.mul_assoc, <- Z.pow_add_r by lia. do 2 f_equal. lia. }
    rewrite Hk in Hle' |- *. rewrite HFG, Z.mul_assoc in Hle'.
    apply Z.mul_le_mono_pos_r in Hle'; [|done].
    apply Z.mul_le_mono_nonneg_r; [apply Z.pow_nonneg; lia|].
    pose proof (Z.div_mod (Z.pos mz) G ltac:(lia)) as Hdm.
    pose proof (Z.mod_pos_bound (Z.pos mz) G HG).
    destruct (decide (Z.pos mz mod G = 0)) as [H0|H0]; [rewrite (Hex H0); nia|nia].
  - exfalso. destruct (zdigits_bounds (Z.pos mz) ltac:(lia)) as (Hd & Hlo & _).
    assert (F = zdigits (Z.pos mz) + ez - 53) as HFd by (subst F; rewrite fexp_def in *; lia).
    assert (Z.pos my * 2 ^ (ey + 1074) < 2 ^ 53 * 2 ^ (ey + 1074)) as Hup.
    { apply Z.mul_lt_mono_pos_r; [apply Z.pow_pos_nonneg; lia|lia]. }
    assert (2 ^ (zdigits (Z.pos mz) - 1) * 2 ^ (ez + 1074) <= Z.pos mz * 2 ^ (ez + 1074)) as Hdn.
    { apply Z.mul_le_mono_nonneg_r; lia. }
    rewrite <- Z.pow_add_r in Hup, Hdn by lia.
    assert (2 ^ (53 + (ey + 1074)) <= 2 ^ (zdigits (Z.pos mz) - 1 + (ez + 1074))).
    { apply Z.pow_le_mono_r; lia. }
    lia.
Qed.

Lemma binary_round_le m e y :
  -1074 <= e → fvalid y → ffinite y = true →
  Z.pos m * 2 ^ (e + 1074) <= fscaled y →
  let r := binary_round 53 1024 false m e in
  ffinite r = true ∧ 0 <= fscaled r <= fscaled y.
Proof.
  intros He Hvy Hfy Hle. cbn zeta.
  destruct (binary_round_aligned false m e) as (mz & ez & -> & Heze & Hmz & HF & Hez).
  specialize (Hez He). set (F := fexp 53 1024 (zdigits (Z.pos mz) + ez)) in *.
  destruct (binary_round_aux_spec false (Z.pos mz) ez loc_Exact ltac:(lia) HF)
    as (m2 & Hm2 & Hex & Hres). fold F in Hm2, Hex, Hres. specialize (Hex eq_refl).
  destruct (trunc_mantissa_bound (Z.pos mz) ez ltac:(lia) HF) as (Hb & _ & HF0). fold F in Hb, HF0.
  set (G := 2 ^ (F - ez)) in *. assert (0 < G) as HG by (apply Z.pow_pos_nonneg; lia).
  assert (Z.pos mz * 2 ^ (ez + 1074) <= fscaled y) as Hle'.
  { rewrite Hmz, <- Z.mul_assoc, <- Z.pow_add_r by lia.
    by replace (e - ez + (ez + 1074)) with (e + 1074) by lia. }
  destruct y as [s|s| |sy my ey]; [cbn in Hle'; lia|done|done|].
  destruct sy; cbn [fscaled cond_Zopp] in Hle' |- *.
  { assert (0 < 2 ^ (ey + 1074)) by (destruct (valid_mantissa _ _ _ Hvy); apply Z.pow_pos_nonneg; lia).
    nia. }
  destruct (valid_mantissa _ _ _ Hvy) as (Hey & Hmy & Hcy).
  assert (m2 * 2 ^ (F + 1074) <= Z.pos my * 2 ^ (ey + 1074)) as Hkey
    by exact (rounded_below mz ez my ey m2 HF Hez HF0 (proj1 Hey) Hmy (proj2 Hm2) Hex Hle').
  assert (2 ^ 53 * 2 ^ (971 + 1074) <= 2 ^ (52 + 972 + 1074)) as Hbig by (vm_compute; discriminate).
  destruct (binary_round_aux _ _ _ _ _ _) as [s|s| |s m3 e3]; [cbn; lia| |done|].
  - exfalso. destruct Hres as [_ Hov].
    assert (Z.pos my * 2 ^ (ey + 1074) < 2 ^ 53 * 2 ^ (971 + 1074)); [|lia].
    apply (Z.lt_le_trans _ (2 ^ 53 * 2 ^ (ey + 1074))).
    + apply Z.mul_lt_mono_pos_r; [apply Z.pow_pos_nonneg; lia|lia].
    + apply Z.mul_le_mono_nonneg_l; [lia|]. apply Z.pow_le_mono_r; lia.
  - destruct Hres as (-> & Hv & HFe & Hval). cbn [ffinite fscaled cond_Zopp]. split; [done|].
    replace (e3 + 1074) with (e3 - F + (F + 1074)) by lia.
    rewrite Z.pow_add_r, Z.mul_assoc, Hval by lia. split; [|done].
    apply Z.mul_nonneg_nonneg; [lia|apply Z.pow_nonneg; lia].
Qed.

(** The mantissa of a finite number aligned to a smaller exponent. *)
Lemma aligned_scaled s m e ez :
  -1074 <= ez <= e →
  cond_Zopp s (Z.pos (fst (shl_align m e ez))) * 2 ^ (ez + 1074) = fscaled (S754_finite s m e).
Proof.
  intros He. pose proof (shl_align_spec m e ez) as Hs.
  destruct (shl_align m e ez) as [m' k]. destruct Hs as [-> Hm].
  replace (Z.min e ez) with ez in Hm by lia. cbn [fst fscaled].
  assert (2 ^ (e + 1074) = 2 ^ (e - ez) * 2 ^ (ez + 1074)) as Hp.
  { rewrite <- Z.pow_add_r by lia. f_equal. lia. }
  rewrite Hm, Hp. destruct s; cbn [cond_Zopp]; lia.
Qed.

Lemma fscaled_finite_nonzero s m e :
  fvalid (S754_finite s m e) → fscaled (S754_finite s m e) ≠ 0.
Proof.
  intros (He & _)%valid_mantissa.
  assert (0 < Z.pos m * 2 ^ (e + 1074)).
  { apply Z.mul_pos_pos; [lia|]. apply Z.pow_pos_nonneg; lia. }
  destruct s; cbn [fscaled cond_Zopp]; lia.
Qed.

(** [x - y] for [0 <= y <= x] stays between [0] and [x]. *)
Lemma fsub_bounds x y :
  fvalid x → fvalid y → ffinite x = true → ffinite y = true →
  0 <= fscaled y <= fscaled x →
  ffinite (fsub x y) = true ∧ 0 <= fscaled (fsub x y) <= fscaled x.
Proof.
  intros Hx Hy Fx Fy Hle. unfold fsub.
  destruct x as [sx|sx| |sx mx ex], y as [sy|sy| |sy my ey]; try done.
  - by destruct sx, sy.
  - apply fscaled_finite_nonzero in Hy. cbn [fscaled] in Hle, Hy. lia.
  - cbn [SFsub]. split; [done|]. cbn [fscaled] in *. lia.
  - destruct (valid_mantissa _ _ _ Hx) as (Hex & _). destruct (valid_mantissa _ _ _ Hy) as (Hey & _).
    cbn [SFsub]. set (ez := Z.min ex ey).
    pose proof (aligned_scaled sx mx ex ez ltac:(lia)) as Hax.
    pose proof (aligned_scaled sy my ey ez ltac:(lia)) as Hay.
    set (zx := cond_Zopp sx _) in *. set (zy := cond_Zopp sy _) in *.
    assert (0 < 2 ^ (ez + 1074)) by (apply Z.pow_pos_nonneg; lia).
    destruct (zx - zy) as [|m|m] eqn:Hz; cbn [binary_normalize].
    + split; [done|]. change (fscaled (S754_zero false)) with 0. lia.
    + apply binary_round_le; [lia|done|done|]. rewrite <- Hz, Z.mul_sub_distr_r, Hax, Hay. lia.
    + exfalso. nia.
Qed.

(** *** Non-negative numbers: zero, positive, or [+Inf]; closed under [+], [*]
    and [/]. *)
Definition fnonneg (x : f64) : bool :=
  match x with
  | S754_zero _ => true
  | S754_infinity s | S754_finite s _ _ => negb s
  | S754_nan => false
  end.

Lemma fnonneg_fle x : fnonneg x = true ↔ fle f0 x = true.
Proof. destruct x as [[]|[]| |[]]; done. Qed.

Lemma fnonneg_scaled x : fnonneg x = true → 0 <= fscaled x.
Proof.
  destruct x as [[]|[]| |[] m e]; cbn; try done; intros _.
  apply Z.mul_nonneg_nonneg; [lia|apply Z.pow_nonneg; lia].
Qed.

Lemma fscaled_nonneg x : fvalid x → ffinite x = true → 0 <= fscaled x → fnonneg x = true.
Proof.
  intros Hv Hf Hs. destruct x as [s|s| |[] m e]; try done.
  pose proof (fscaled_finite_nonzero _ _ _ Hv). apply fvalid_sign with (s' := false) in Hv.
  assert (0 <= fscaled (S754_finite false m e)) by (by apply fnonneg_scaled).
  cbn [fscaled cond_Zopp] in *. lia.
Qed.

Lemma binary_round_aux_sign mx ex lx :
  0 <= mx → ex <= fexp 53 1024 (zdigits mx + ex) →
  fnonneg (binary_round_aux 53 1024 false mx ex lx) = true.
Proof.
  intros Hm HF. destruct (binary_round_aux_spec false mx ex lx Hm HF) as (m2 & _ & _ & Hr).
  destruct (binary_round_aux _ _ _ _ _ _) as [s|s| |s m e]; [done| |done|];
    by destruct Hr as [-> _].
Qed.

Lemma binary_normalize_nonneg z e : 0 <= z → fnonneg (binary_normalize 53 1024 z e false) = true.
Proof.
  intros Hz. destruct z as [|m|m]; [done| |lia]. cbn [binary_normalize].
  destruct (binary_round_aligned false m e) as (mz & ez & -> & _ & _ & HF & _).
  by apply binary_round_aux_sign.
Qed.

Lemma f64_of_Z_nonneg z : 0 <= z → fnonneg (f64_of_Z z) = true.
Proof. apply binary_normalize_nonneg. Qed.

Lemma fadd_nonneg x y : fnonneg x = true → fnonneg y = true → fnonneg (fadd x y) = true.
Proof.
  unfold fadd. destruct x as [[]|[]| |[] mx ex], y as [[]|[]| |[] my ey]; try done.
  intros _ _. cbn [SFadd cond_Zopp]. apply binary_normalize_nonneg. lia.
Qed.

Lemma fmul_nonneg x y :
  fvalid x → fvalid y → ffinite x = true → ffinite y = true →
  fnonneg x = true → fnonneg y = true → fnonneg (fmul x y) = true.
Proof.
  intros Hx Hy. unfold fmul. destruct x as [[]|[]| |[] mx ex], y as [[]|[]| |[] my ey]; try done.
  intros _ _ _ _. cbn [SFmul xorb] in *. apply binary_round_aux_sign; [lia|].
  by eapply mul_exponent_ok.
Qed.

Lemma fdiv_nonneg x y :
  ffinite x = true → (∃ m e, y = S754_finite false m e) →
  fnonneg x = true → fnonneg (fdiv x y) = true.
Proof.
  intros Fx (my & ey & ->). unfold fdiv. destruct x as [[]|[]| |[] mx ex]; try done.
  intros _. cbn [SFdiv xorb]. pose proof (fdiv_core_spec mx ex my ey) as Hs.
  destruct (SFdiv_core_binary _ _ _ _ _ _) as [[q e] l].
  destruct Hs. by apply binary_round_aux_sign.
Qed.

Lemma fdiv_not_negzero m e m' e' :
  fdiv (S754_finite false m e) (S754_finite false m' e') ≠ S754_zero true.
Proof.
  unfold fdiv. cbn [SFdiv xorb]. pose proof (fdiv_core_spec m e m' e') as Hs.
  destruct (SFdiv_core_binary _ _ _ _ _ _) as [[q x] lx]. destruct Hs as [Hq HF].
  destruct (binary_round_aux_spec false q x lx Hq HF) as (m2 & _ & _ & Hr).
  destruct (binary_round_aux _ _ _ _ _ _); try done. by destruct Hr as [-> _].
Qed.

(** ** Exact cases *)

(** An integer of at most 53 bits times a power of two is represented. *)
Lemma binary_round_exact s m e :
  Z.pos m < 2 ^ 53 → -1074 <= e <= 900 →
  let r := binary_round 53 1024 s m e in
  ffinite r = true ∧ fscaled r = cond_Zopp s (Z.pos m * 2 ^ (e + 1074)).
Proof.
  intros Hm He. cbn zeta.
  destruct (binary_round_aligned s m e) as (mz & ez & -> & Heze & Hmz & HF & Hez).
  specialize (Hez ltac:(lia)). set (F := fexp 53 1024 (zdigits (Z.pos mz) + ez)) in *.
  assert (F = ez) as HFz.
  { assert (zdigits (Z.pos m) <= 53) by (apply zdigits_le; lia).
    assert (zdigits (Z.pos mz) = zdigits (Z.pos m) + (e - ez)) as Hdg.
    { rewrite Hmz, zdigits_shift; lia. }
    subst F. rewrite Hdg, fexp_def. rewrite fexp_def in Heze. lia. }
  destruct (binary_round_aux_spec s (Z.pos mz) ez loc_Exact ltac:(lia) HF)
    as (m2 & _ & Hex & Hres). fold F in Hex, Hres.
  rewrite HFz in *. rewrite Z.sub_diag, Z.pow_0_r, Z.div_1_r, Z.mod_1_r in Hex.
  rewrite (Hex eq_refl eq_refl) in Hres.
  assert (Z.pos mz * 2 ^ (ez + 1074) = Z.pos m * 2 ^ (e + 1074)) as Hval.
  { rewrite Hmz, <- Z.mul_assoc, <- Z.pow_add_r by lia. do 2 f_equal. lia. }
  destruct (binary_round_aux _ _ _ _ _ _) as [s'|s'| |s' m3 e3]; [lia| |done|].
  - exfalso. destruct Hres as [_ Hov]. rewrite Hval in Hov.
    assert (Z.pos m * 2 ^ (e + 1074) < 2 ^ 53 * 2 ^ (e + 1074)) as Hup.
    { apply Z.mul_lt_mono_pos_r; [apply Z.pow_pos_nonneg; lia|done]. }
    rewrite <- Z.pow_add_r in Hup by lia.
    assert (2 ^ (53 + (e + 1074)) <= 2 ^ (52 + 972 + 1074)) by (apply Z.pow_le_mono_r; lia).
    lia.
  - destruct Hres as (-> & Hv & HFe & Hval3). cbn [ffinite fscaled]. split; [done|].
    rewrite <- Hval, <- Hval3, <- Z.mul_assoc, <- Z.pow_add_r by lia.
    do 3 f_equal. lia.
Qed.

Lemma f64_of_Z_exact z :
  Z.abs z < 2 ^ 53 → ffinite (f64_of_Z z) = true ∧ fscaled (f64_of_Z z) = z * 2 ^ 1074.
Proof.
  intros Hz. unfold f64_of_Z. destruct z as [|m|m]; cbn [binary_normalize]; [done| |].
  - apply binary_round_exact; lia.
  - destruct (binary_round_exact true m 0) as [Hf Hs]; [lia|lia|]. split; [done|].
    rewrite Hs. cbn [cond_Zopp]. lia.
Qed.

Definition fhuge : f64 := S754_finite false (2 ^ 52) 960.

Lemma f64_of_Z_pos z : 0 < z < 2 ^ 53 → ∃ m e, f64_of_Z z = S754_finite false m e.
Proof.
  intros Hz. destruct (f64_of_Z_exact z ltac:(lia)) as [Hf Hs].
  assert (fnonneg (f64_of_Z z) = true) as Hn by (apply binary_normalize_nonneg; lia).
  destruct (f64_of_Z z) as [s|s| |[] m e]; try done; [|eauto].
  cbn [fscaled] in Hs. assert (0 < z * 2 ^ 1074); [|lia]. apply Z.mul_pos_pos; [lia|].
  by apply Z.pow_pos_nonneg.
Qed.

Lemma fhuge_ok : fvalid fhuge ∧ ffinite fhuge = true ∧ fscaled fhuge = 2 ^ 2075 * 2 ^ 11.
Proof. split_and!; by vm_compute. Qed.

(** [int] truncates a non-negative number: the floor of its value. *)
Lemma ftrunc_floor x :
  fvalid x → ffinite x = true → 0 <= fscaled x → ftrunc x = Some (fscaled x / 2 ^ 1074).
Proof.
  intros Hv Hf Hs. destruct x as [s|s| |s m e]; try done.
  destruct (valid_mantissa _ _ _ Hv) as (He & _).
  assert (0 < Z.pos m * 2 ^ (e + 1074)).
  { apply Z.mul_pos_pos; [lia|]. apply Z.pow_pos_nonneg; lia. }
  cbn [ftrunc fscaled] in *. destruct s; cbn [cond_Zopp] in *; [lia|]. f_equal.
  destruct (Z.leb_spec 0 e).
  - rewrite Z.pow_add_r, Z.mul_assoc, Z.div_mul by lia. done.
  - replace (2 ^ 1074) with (2 ^ (- e) * 2 ^ (e + 1074)).
    + rewrite Z.div_mul_cancel_r; [done| |]; apply Z.pow_nonzero; lia.
    + rewrite <- Z.pow_add_r by lia. f_equal. lia.
Qed.

Lemma ftrunc_bounds x n :
  fvalid x → ffinite x = true → 0 <= fscaled x <= n * 2 ^ 1074 →
  ∃ t, ftrunc x = Some t ∧ 0 <= t <= n.
Proof.
  intros Hv Hf Hs. rewrite ftrunc_floor by (done || lia). eexists. split; [done|].
  assert (0 < 2 ^ 1074) by lia. split; [apply Z.div_pos; lia|]. apply Z.div_le_upper_bound; lia.
Qed.

(** [int] of a number whose truncation fits in 64 bits. *)
Lemma int_of_f64_fits `{GoArch} x z : ftrunc x = Some z → in_i64 z → int_of_f64 x = z.
Proof.
  unfold int_of_f64, in_i64, min_i64, max_i64. intros -> Hz.
  destruct (Z.leb_spec (- 2 ^ 63) z), (Z.leb_spec z (2 ^ 63 - 1)); try lia. done.
Qed.

(** ** Results far from overflow are finite *)

Lemma round_aux_bounded s mx ex lx :
  0 <= mx → ex <= fexp 53 1024 (zdigits mx + ex) → zdigits mx + ex <= 1001 →
  let r := binary_round_aux 53 1024 s mx ex lx in
  ffinite r = true ∧ Z.abs (fscaled r) <= 2 ^ 2075.
Proof.
  intros Hm HF Hd. cbn zeta.
  destruct (binary_round_aux_spec s mx ex lx Hm HF) as (m2 & Hm2 & _ & Hr).
  destruct (trunc_mantissa_bound mx ex Hm HF) as (Hb & _ & HF0).
  set (F := fexp 53 1024 (zdigits mx + ex)) in *.
  assert (F <= 948) as HF' by (unfold F; rewrite fexp_def; lia).
  assert (0 <= m2 * 2 ^ (F + 1074) <= 2 ^ 2075) as Hbound.
  { split; [apply Z.mul_nonneg_nonneg; [lia|apply Z.pow_nonneg; lia]|].
    transitivity (2 ^ 53 * 2 ^ (948 + 1074)); [|by rewrite <- Z.pow_add_r].
    apply Z.mul_le_mono_nonneg; [lia|lia|apply Z.pow_nonneg; lia|apply Z.pow_le_mono_r; lia]. }
  destruct (binary_round_aux _ _ _ _ _ _) as [s'|s'| |s' m e].
  - split; [done|]. cbn. by apply Z.pow_nonneg.
  - exfalso. destruct Hr as [_ Hr].
    assert (2 ^ 2075 < 2 ^ (52 + 972 + 1074)) by (apply Z.pow_lt_mono_r; lia). lia.
  - done.
  - destruct Hr as (_ & _ & HFe & Hv). split; [done|]. cbn [fscaled].
    replace (Z.abs (cond_Zopp s' (Z.pos m * 2 ^ (e + 1074)))) with (m2 * 2 ^ (F + 1074)); [lia|].
    rewrite <- Hv, <- Z.mul_assoc, <- Z.pow_add_r by lia.
    replace (e - F + (F + 1074)) with (e + 1074) by lia.
    assert (0 <= Z.pos m * 2 ^ (e + 1074)) by (apply Z.mul_nonneg_nonneg; [lia|apply Z.pow_nonneg; lia]).
    destruct s'; cbn [cond_Zopp]; lia.
Qed.

Lemma fdiv_core_digits m1 e1 m2 e2 :
  let '(q, e, _) := SFdiv_core_binary 53 1024 (Z.pos m1) e1 (Z.pos m2) e2 in
  zdigits q + e <= Z.max (zdigits (Z.pos m1) + e1 - (zdigits (Z.pos m2) + e2) + 1) 0.
Proof.
  unfold SFdiv_core_binary. rewrite !Zdigits2_zdigits.
  set (d1 := zdigits (Z.pos m1)). set (d2 := zdigits (Z.pos m2)).
  set (e' := Z.min _ _). set (s := e1 - e2 - e').
  assert (e' <= Z.max (d1 + e1 - (d2 + e2)) 0 ∧ 0 <= s) as [He' Hs].
  { pose proof (fexp_def (d1 + e1 - (d2 + e2))). lia. }
  assert (match s with Z0 => Z.pos m1 | Z.pos _ => Z.shiftl (Z.pos m1) s | Z.neg _ => 0 end
    = Z.pos m1 * 2 ^ s) as ->.
  { destruct s; [lia|by rewrite Z.shiftl_mul_pow2|lia]. }
  destruct (Z.div_eucl (Z.pos m1 * 2 ^ s) (Z.pos m2)) as [q r] eqn:Hq.
  assert (q = Z.pos m1 * 2 ^ s / Z.pos m2) as Hqd by (unfold Z.div; by rewrite Hq). clear Hq.
  assert (0 < 2 ^ s) by (apply Z.pow_pos_nonneg; lia).
  destruct (zdigits_bounds (Z.pos m1) ltac:(lia)) as (Hd1 & _ & Hhi1). fold d1 in Hd1, Hhi1.
  destruct (zdigits_bounds (Z.pos m2) ltac:(lia)) as (Hd2 & Hlo2 & _). fold d2 in Hd2, Hlo2.
  destruct (decide (q = 0)) as [->|Hne]; [change (zdigits 0) with 0; lia|].
  assert (0 < q) by (assert (0 <= q) by (subst q; apply Z.div_pos; lia); lia).
  assert (q * Z.pos m2 <= Z.pos m1 * 2 ^ s) as Hqm.
  { subst q. rewrite Z.mul_comm. apply Z.mul_div_le. lia. }
  destruct (zdigits_bounds q ltac:(lia)) as (Hdq & Hloq & _).
  assert (2 ^ (zdigits q - 1 + (d2 - 1)) < 2 ^ (d1 + s)) as Hpow.
  { rewrite !Z.pow_add_r by lia. eapply Z.le_lt_trans; [|apply Z.mul_lt_mono_pos_r; eauto].
    etransitivity; [|exact Hqm]. apply Z.mul_le_mono_nonneg; try lia; apply Z.pow_nonneg; lia. }
  apply Z.pow_lt_mono_r_iff in Hpow; lia.
Qed.

Lemma fscaled_digits s m e k :
  fvalid (S754_finite s m e) → 0 <= k → Z.abs (fscaled (S754_finite s m e)) < 2 ^ (k + 1074) →
  zdigits (Z.pos m) + e <= k.
Proof.
  intros (He & _)%valid_mantissa Hk Hs. cbn [fscaled] in Hs.
  destruct (zdigits_bounds (Z.pos m) ltac:(lia)) as (Hd & Hlo & _).
  assert (2 ^ (zdigits (Z.pos m) - 1 + (e + 1074)) < 2 ^ (k + 1074)) as Hp.
  { eapply Z.le_lt_trans; [|exact Hs]. rewrite Z.pow_add_r by lia.
    assert (0 < 2 ^ (e + 1074)) by (apply Z.pow_pos_nonneg; lia).
    destruct s; cbn [cond_Zopp]; nia. }
  apply Z.pow_lt_mono_r_iff in Hp; lia.
Qed.

Lemma fdiv_finite x y :
  fvalid x → fvalid y → ffinite x = true → ffinite y = true →
  Z.abs (fscaled x) < 2 ^ 2073 → 2 ^ 1074 <= fscaled y →
  ffinite (fdiv x y) = true ∧ Z.abs (fscaled (fdiv x y)) <= 2 ^ 2075.
Proof.
  intros Hx Hy Fx Fy Hsx Hsy. unfold fdiv.
  assert (0 < 2 ^ 1074) by lia.
  destruct y as [|[]| |sy my ey]; try done.
  destruct x as [sx| | |sx mx ex]; try done.
  apply (fscaled_digits _ _ _ 999) in Hsx; [|done..].
  assert (1 <= zdigits (Z.pos my) + ey) as Hdy.
  { destruct (decide (zdigits (Z.pos my) + ey <= 0)) as [Hle|]; [exfalso|lia].
    destruct (valid_mantissa _ _ _ Hy) as (He & _). destruct sy; cbn [fscaled cond_Zopp] in Hsy.
    { assert (0 <= Z.pos my * 2 ^ (ey + 1074)); [|lia].
      apply Z.mul_nonneg_nonneg; [lia|apply Z.pow_nonneg; lia]. }
    destruct (zdigits_bounds (Z.pos my) ltac:(lia)) as (Hd & _ & Hhi).
    assert (Z.pos my * 2 ^ (ey + 1074) < 2 ^ (zdigits (Z.pos my) + (ey + 1074))) as Hup.
    { rewrite (Z.pow_add_r 2 (zdigits _)) by lia. apply Z.mul_lt_mono_pos_r; [apply Z.pow_pos_nonneg|]; lia. }
    assert (2 ^ (zdigits (Z.pos my) + (ey + 1074)) <= 2 ^ 1074) by (apply Z.pow_le_mono_r; lia). lia. }
  cbn [SFdiv]. pose proof (fdiv_core_spec mx ex my ey) as Hs.
  pose proof (fdiv_core_digits mx ex my ey) as Hd.
  destruct (SFdiv_core_binary _ _ _ _ _ _) as [[q e] l]. destruct Hs.
  apply round_aux_bounded; lia.
Qed.

(** A sum of non-negative numbers below a representable bound stays below it. *)
Lemma fadd_bounds x y b :
  fvalid x → fvalid y → fvalid b → ffinite x = true → ffinite y = true → ffinite b = true →
  0 <= fscaled x → 0 <= fscaled y → fscaled x + fscaled y <= fscaled b →
  ffinite (fadd x y) = true ∧ 0 <= fscaled (fadd x y) <= fscaled b.
Proof.
  intros Hx Hy Hb Fx Fy Fb H0x H0y Hle. unfold fadd.
  destruct x as [sx|sx| |sx mx ex], y as [sy|sy| |sy my ey]; try discriminate.
  - destruct sx, sy; (split; [reflexivity|cbn in *; lia]).
  - split; [reflexivity|cbn [fscaled SFadd] in *; lia].
  - split; [reflexivity|cbn [fscaled SFadd] in *; lia].
  - pose proof (fscaled_finite_nonzero _ _ _ Hx). pose proof (fscaled_finite_nonzero _ _ _ Hy).
    destruct (valid_mantissa _ _ _ Hx) as (Hex & _). destruct (valid_mantissa _ _ _ Hy) as (Hey & _).
    cbn [SFadd]. set (ez := Z.min ex ey).
    pose proof (aligned_scaled sx mx ex ez ltac:(lia)) as Hax.
    pose proof (aligned_scaled sy my ey ez ltac:(lia)) as Hay.
    set (zx := cond_Zopp sx _) in *. set (zy := cond_Zopp sy _) in *.
    assert (0 < 2 ^ (ez + 1074)) by (apply Z.pow_pos_nonneg; lia).
    destruct (zx + zy) as [|m|m] eqn:Hz; cbn [binary_normalize].
    + exfalso. nia.
    + apply binary_round_le; [lia|done|done|]. rewrite <- Hz, Z.mul_add_distr_r, Hax, Hay. lia.
    + exfalso. nia.
Qed.

#[export] Hint Resolve f64_of_Z_nonneg fadd_nonneg fmul_nonneg fle_refl : gohints.

(** ** Exact division of integers *)

Lemma f64_of_Z_form z :
  z ≠ 0 → Z.abs z < 2 ^ 53 →
  ∃ m e, f64_of_Z z = S754_finite (z <? 0) m e ∧ e <= 0 ∧ Z.pos m = Z.abs z * 2 ^ (- e).
Proof.
  intros Hz Hb. destruct (f64_of_Z_exact z Hb) as [Hf Hs].
  pose proof (f64_of_Z_valid z) as Hv.
  assert (0 < 2 ^ 1074) as Hp by lia.
  destruct (f64_of_Z z) as [s|s| |s m e]; try done; [cbn in Hs; lia|].
  exists m, e. destruct (valid_mantissa _ _ _ Hv) as (He & Hm & Hc). cbn [fscaled] in Hs.
  assert (0 < Z.pos m * 2 ^ (e + 1074)) as Hpos.
  { apply Z.mul_pos_pos; [lia|]. apply Z.pow_pos_nonneg; lia. }
  assert (s = (z <? 0)) as ->.
  { destruct s; cbn [cond_Zopp] in Hs; destruct (Z.ltb_spec z 0); try done; nia. }
  split; [done|].
  assert (Z.pos m * 2 ^ (e + 1074) = Z.abs z * 2 ^ 1074) as Habs.
  { destruct (Z.ltb_spec z 0); cbn [cond_Zopp] in Hs; lia. }
  assert (e <= 0) as He0.
  { destruct (decide (e <= 0)) as [|Hgt]; [done|exfalso].
    destruct Hc as [|Hc]; [lia|].
    assert (2 ^ 52 * 2 ^ (1 + 1074) <= Z.pos m * 2 ^ (e + 1074)).
    { apply Z.mul_le_mono_nonneg; [lia|done|by apply Z.pow_nonneg|]. apply Z.pow_le_mono_r; lia. }
    assert (2 ^ 52 * 2 ^ (1 + 1074) = 2 ^ 53 * 2 ^ 1074) as Hpow by by rewrite <- !Z.pow_add_r.
    nia. }
  split; [done|].
  replace 1074 with (- e + (e + 1074)) in Habs at 2 by lia.
  rewrite (Z.pow_add_r 2 (- e)), Z.mul_assoc in Habs by lia.
  apply Z.mul_cancel_r in Habs; [done|]. apply Z.pow_nonzero; lia.
Qed.

Lemma round_exact_int s k e :
  0 < k < 2 ^ 53 → -1074 <= e <= 0 →
  let r := binary_round_aux 53 1024 s (k * 2 ^ (- e)) e loc_Exact in
  e <= fexp 53 1024 (zdigits (k * 2 ^ (- e)) + e) →
  fvalid r ∧ ffinite r = true ∧ fscaled r = cond_Zopp s (k * 2 ^ 1074).
Proof.
  intros Hk He r HF. assert (0 < 2 ^ (- e)) as Hpe by (apply Z.pow_pos_nonneg; lia).
  assert (zdigits (k * 2 ^ (- e)) + e = zdigits k) as Hd by (rewrite zdigits_shift; lia).
  assert (zdigits k <= 53) by (apply zdigits_le; lia).
  destruct (zdigits_bounds k ltac:(lia)) as (Hdk & Hlo & _).
  destruct (binary_round_aux_spec s (k * 2 ^ (- e)) e loc_Exact ltac:(nia) HF) as (m2 & _ & Hex & Hr).
  destruct (round_aux_bounded s (k * 2 ^ (- e)) e loc_Exact ltac:(nia) HF ltac:(lia)) as [Hfin _].
  rewrite Hd in *. set (F := fexp 53 1024 (zdigits k)) in *.
  assert (F <= 0) by (unfold F; rewrite fexp_def; lia).
  assert (k * 2 ^ (- e) = k * 2 ^ (- F) * 2 ^ (F - e)) as Hsplit.
  { rewrite <- Z.mul_assoc, <- Z.pow_add_r by lia. do 2 f_equal. lia. }
  rewrite Hsplit in Hex. assert (2 ^ (F - e) ≠ 0) by (apply Z.pow_nonzero; lia).
  rewrite Z.mod_mul, Z.div_mul in Hex by done. specialize (Hex eq_refl eq_refl). subst m2.
  fold r in Hr, Hfin. destruct r as [s'|s'| |s' m e']; try done.
  - destruct Hr as [_ Hr]. assert (0 < 2 ^ (- F)) by (apply Z.pow_pos_nonneg; lia). nia.
  - destruct Hr as (-> & Hv & HFe & Hval). split; [done|]. split; [done|]. cbn [fscaled].
    f_equal. assert (-1074 <= F) by (unfold F; rewrite fexp_def; lia).
    replace (e' + 1074) with (e' - F + (F + 1074)) by lia.
    rewrite Z.pow_add_r, Z.mul_assoc, Hval, <- Z.mul_assoc, <- Z.pow_add_r by lia.
    do 2 f_equal. lia.
Qed.

Lemma div_eucl_exact q p : Z.div_eucl (q * Z.pos p) (Z.pos p) = (q, 0).
Proof.
  pose proof (Z.div_mul q (Z.pos p) ltac:(lia)) as Hq. pose proof (Z.mod_mul q (Z.pos p) ltac:(lia)) as Hr.
  unfold Z.div, Z.modulo in Hq, Hr. destruct (Z.div_eucl _ _) as [q' r]. by subst.
Qed.

Lemma fdiv_exact_int b k :
  0 < b → k ≠ 0 → Z.abs (b * k) < 2 ^ 53 → fdiv (f64_of_Z (b * k)) (f64_of_Z b) = f64_of_Z k.
Proof.
  intros Hb Hk Hbk. assert (Z.abs k < 2 ^ 53 ∧ b < 2 ^ 53) as [Hk53 Hb53] by nia.
  destruct (f64_of_Z_form (b * k) ltac:(nia) Hbk) as (m1 & e1 & H1 & He1 & Hm1).
  destruct (f64_of_Z_form b ltac:(lia) ltac:(lia)) as (m2 & e2 & H2 & He2 & Hm2).
  assert (-1074 <= e1 ∧ -1074 <= e2) as [He1' He2'].
  { pose proof (f64_of_Z_valid (b * k)) as Hv1. pose proof (f64_of_Z_valid b) as Hv2.
    rewrite H1 in Hv1. rewrite H2 in Hv2. apply valid_mantissa in Hv1, Hv2. lia. }
  unfold fdiv. rewrite H1, H2. assert ((b <? 0) = false) as -> by (apply Z.ltb_ge; lia).
  assert ((b * k <? 0) = (k <? 0)) as ->.
  { destruct (Z.ltb_spec k 0), (Z.ltb_spec (b * k) 0); try done; nia. }
  cbn [SFdiv]. rewrite xorb_false_r.
  pose proof (fdiv_core_spec m1 e1 m2 e2) as Hspec.
  unfold SFdiv_core_binary in *. rewrite !Zdigits2_zdigits in *.
  set (d1 := zdigits (Z.pos m1)) in *. set (d2 := zdigits (Z.pos m2)) in *.
  set (e' := Z.min _ _) in *. set (s := e1 - e2 - e') in *.
  assert (-1074 <= e' <= 0 ∧ 0 <= s) as [He' Hs].
  { assert (d1 = zdigits (Z.abs (b * k)) - e1) as Hd1.
    { unfold d1. rewrite Hm1, zdigits_shift by lia. lia. }
    assert (d2 = zdigits (Z.abs b) - e2) as Hd2 by (unfold d2; rewrite Hm2, zdigits_shift; lia).
    assert (zdigits (Z.abs (b * k)) <= 53) by (apply zdigits_le; lia).
    assert (0 < zdigits (Z.abs b)) by (apply zdigits_bounds; lia).
    pose proof (fexp_def (d1 + e1 - (d2 + e2))) as Hfx. lia. }
  assert (match s with Z0 => Z.pos m1 | Z.pos _ => Z.shiftl (Z.pos m1) s | Z.neg _ => 0 end
    = Z.pos m1 * 2 ^ s) as Hsh.
  { destruct s; [lia|by rewrite Z.shiftl_mul_pow2|lia]. }
  rewrite Hsh in *.
  assert (Z.pos m1 * 2 ^ s = Z.abs k * 2 ^ (- e') * Z.pos m2) as Hdivides.
  { rewrite Hm1, Hm2, Z.abs_mul, (Z.abs_eq b) by lia.
    replace (b * Z.abs k * 2 ^ (- e1) * 2 ^ s) with (b * Z.abs k * (2 ^ (- e1) * 2 ^ s)) by lia.
    replace (Z.abs k * 2 ^ (- e') * (b * 2 ^ (- e2))) with (b * Z.abs k * (2 ^ (- e') * 2 ^ (- e2))) by lia.
    rewrite <- !Z.pow_add_r by lia. do 2 f_equal. lia. }
  rewrite Hdivides in *.
  rewrite div_eucl_exact in *. destruct Hspec as [_ HF].
  assert (new_location (Z.pos m2) 0 = loc_Exact) as ->.
  { unfold new_location. destruct (Z.even (Z.pos m2)); done. }
  destruct (round_exact_int (k <? 0) (Z.abs k) e' ltac:(lia) He' HF) as (Hv & Hfin & Hval).
  destruct (f64_of_Z_exact k Hk53) as [Hfk Hsk]. assert (0 < 2 ^ 1074) by lia.
  assert (fscaled (binary_round_aux 53 1024 (k <? 0) (Z.abs k * 2 ^ (- e')) e' loc_Exact) = k * 2 ^ 1074) as Hv'.
  { rewrite Hval. destruct (Z.ltb_spec k 0); cbn [cond_Zopp]; lia. }
  apply fscaled_inj; auto with gohints; [by rewrite Hv', Hsk|rewrite Hv'; lia].
Qed.

(** A whole number converts back to itself. *)
Lemma ftrunc_of_Z z : Z.abs z < 2 ^ 53 → ftrunc (f64_of_Z z) = Some z.
Proof.
  intros Hz. destruct (decide (z = 0)) as [->|Hne]; [done|].
  destruct (f64_of_Z_form z Hne Hz) as (m & e & -> & He & Hm). cbn [ftrunc]. f_equal.
  assert ((if 0 <=? e then Z.pos m * 2 ^ e else Z.pos m / 2 ^ (- e)) = Z.abs z) as ->.
  { destruct (Z.leb_spec 0 e).
    - assert (e = 0) as -> by lia. rewrite Hm. change (2 ^ (- 0)) with 1. change (2 ^ 0) with 1. lia.
    - rewrite Hm. apply Z.div_mul. apply Z.pow_nonzero; lia. }
  destruct (Z.ltb_spec z 0); cbn [cond_Zopp]; lia.
Qed.

Lemma int_of_f64_of_Z `{GoArch} z : Z.abs z < 2 ^ 53 → int_of_f64 (f64_of_Z z) = z.
Proof. intros Hz. apply int_of_f64_fits; [by apply ftrunc_of_Z|]. unfold in_i64. lia. Qed.

(** Adding zero to a whole number. *)
Lemma fadd_of_Z_0 z : Z.abs z < 2 ^ 53 → fadd (f64_of_Z z) f0 = f64_of_Z z.
Proof.
  intros Hz. destruct (decide (z = 0)) as [->|Hne]; [done|].
  by destruct (f64_of_Z_form z Hne Hz) as (m & e & -> & _).
Qed.
