(* ===== verification/GoString.v ===== *)
(** * Go strings

    A Go [string] or [[]byte] is a byte string: [string] here, one [ascii] per
    byte.  Go source literals with escapes above 0x7f become explicit byte
    lists.  This file translates what the orchestrator uses of the packages
    [strings], [bytes], [strconv] and [unicode/utf8]; Unicode-aware functions
    ([ToLower], [TrimSpace]) decode UTF-8 the way [utf8.DecodeRune] does.  The
    case table for runes beyond ASCII is data of the Go distribution and is an
    argument ([UnicodeTables]). *)
From stdpp Require Import base tactics list strings numbers.
From Stdlib Require Import ZArith Lia Bool Ascii.
From S2P Require Import Prelude.
Local Open Scope Z_scope.

#[global] Arguments String.append s1 s2 : simpl nomatch.

(** ** Bytes *)

Definition byte_of (c : ascii) : Z := Z.of_N (N_of_ascii c).
Definition of_byte (b : Z) : ascii := ascii_of_N (Z.to_N b).

Fixpoint bytes (s : string) : list Z :=
  match s with EmptyString => [] | String c s => byte_of c :: bytes s end.
Fixpoint of_bytes (l : list Z) : string :=
  match l with [] => EmptyString | b :: l => String (of_byte b) (of_bytes l) end.

Lemma byte_of_range c : 0 <= byte_of c < 256.
Proof. destruct c as [[] [] [] [] [] [] [] []]; cbv; split; congruence. Qed.

Lemma of_byte_of c : of_byte (byte_of c) = c.
Proof. unfold of_byte, byte_of. rewrite N2Z.id. apply ascii_N_embedding. Qed.

Lemma byte_of_inj c d : byte_of c = byte_of d → c = d.
Proof. intros H. rewrite <- (of_byte_of c), H. apply of_byte_of. Qed.

Lemma of_bytes_bytes s : of_bytes (bytes s) = s.
Proof. induction s as [|c s IH]; simpl; [done|]. by rewrite of_byte_of, IH. Qed.

Lemma bytes_inj s t : bytes s = bytes t → s = t.
Proof. intros H. rewrite <- (of_bytes_bytes s), H. apply of_bytes_bytes. Qed.

Lemma bytes_app s t : bytes (s +:+ t) = bytes s ++ bytes t.
Proof. induction s as [|c s IH]; simpl; [done|]. by rewrite IH. Qed.

Lemma bytes_length s : length (bytes s) = String.length s.
Proof. induction s; simpl; auto. Qed.

Lemma string_app_assoc (a b c : string) : (a +:+ b) +:+ c = a +:+ (b +:+ c).
Proof. induction a as [|x a IH]; simpl; [done|]. by rewrite IH. Qed.

Lemma string_app_empty_r (a : string) : a +:+ "" = a.
Proof. induction a as [|x a IH]; simpl; [done|]. by rewrite IH. Qed.

(** ** Searching *)

Definition str_len (s : string) : Z := Z.of_nat (String.length s).

(** [strings.HasPrefix(s, p)] *)
Fixpoint has_prefix (s p : string) {struct p} : bool :=
  match p, s with
  | EmptyString, _ => true
  | String a p, String b s => (a =? b)%char && has_prefix s p
  | _, _ => false
  end.

(** [s[len(p):]] when [p] is a prefix of [s] *)
Fixpoint str_drop (n : nat) (s : string) : string :=
  match n, s with S n, String _ s => str_drop n s | _, _ => s end.
Fixpoint str_take (n : nat) (s : string) : string :=
  match n, s with S n, String c s => String c (str_take n s) | _, _ => EmptyString end.

Fixpoint str_rev_app (s acc : string) : string :=
  match s with EmptyString => acc | String c s => str_rev_app s (String c acc) end.
Definition str_rev (s : string) : string := str_rev_app s "".

(** [strings.HasSuffix(s, p)] *)
Definition has_suffix (s p : string) : bool := has_prefix (str_rev s) (str_rev p).

(** [strings.Contains(s, sub)] *)
Fixpoint contains (s sub : string) : bool :=
  has_prefix s sub || match s with EmptyString => false | String _ s => contains s sub end.

Definition trim_prefix (s p : string) : string :=
  if has_prefix s p then str_drop (String.length p) s else s.
Definition trim_suffix (s p : string) : string :=
  if has_suffix s p then str_take (String.length s - String.length p) s else s.

(** The index of the first and of the last byte equal to [c]. *)
Fixpoint index_byte (s : string) (c : ascii) : option nat :=
  match s with
  | EmptyString => None
  | String d s => if (c =? d)%char then Some 0%nat else S <$> index_byte s c
  end.
Fixpoint last_index_byte (s : string) (c : ascii) : option nat :=
  match s with
  | EmptyString => None
  | String d s =>
      match last_index_byte s c with
      | Some i => Some (S i)
      | None => if (c =? d)%char then Some 0%nat else None
      end
  end.

(** [strings.Cut(s, sep)] for a one-byte separator: what precedes the first
    separator, and what follows it; the whole of [s] when there is none. *)
Fixpoint cut (s : string) (c : ascii) : string * string :=
  match s with
  | EmptyString => ("", "")
  | String d s => if (c =? d)%char then ("", s)
                  else let '(a, b) := cut s c in (String d a, b)
  end.

(** [strings.Split(s, sep)] for a one-byte separator *)
Fixpoint split_on (s : string) (c : ascii) : list string :=
  match s with
  | EmptyString => [""]
  | String d s =>
      if (c =? d)%char then "" :: split_on s c
      else match split_on s c with
           | [] => [String d ""]
           | a :: l => String d a :: l
           end
  end.

(** [strings.ReplaceAll(s, old, new)] for a non-empty [old]; each round removes
    at least one byte, so [length s] rounds are enough. *)
Fixpoint replace_all_fuel (n : nat) (s old new : string) : string :=
  match n, s with
  | S n, String c s' =>
      if has_prefix s old
      then new +:+ replace_all_fuel n (str_drop (String.length old) s) old new
      else String c (replace_all_fuel n s' old new)
  | _, _ => s
  end.
Definition replace_all (s old new : string) : string :=
  replace_all_fuel (String.length s) s old new.

Fixpoint join (l : list string) (sep : string) : string :=
  match l with [] => "" | [a] => a | a :: l => a +:+ sep +:+ join l sep end.

(** The last [n] bytes, [s[len(s)-n:]], of a string longer than [n]. *)
Definition tail_str (s : string) (n : nat) : string := str_drop (String.length s - n) s.
(** The first [n] bytes of a string. *)
Definition head_str (s : string) (n : nat) : string := str_take n s.

(** ** Lemmas on searching *)

Lemma has_prefix_spec s p : has_prefix s p = true ↔ ∃ t, s = p +:+ t.
Proof.
  revert s. induction p as [|a p IH]; intros s; simpl.
  { split; [by exists s|done]. }
  destruct s as [|b s]; [split; [done|by intros [t ?]]|].
  rewrite andb_true_iff, Ascii.eqb_eq, IH. split.
  - intros [-> [t ->]]. by exists t.
  - intros [t [= -> ->]]. eauto.
Qed.

Lemma has_prefix_app p t : has_prefix (p +:+ t) p = true.
Proof. apply has_prefix_spec. eauto. Qed.

(** Reversing, and what a suffix is. *)
Lemma str_rev_app_acc s acc : str_rev_app s acc = str_rev s +:+ acc.
Proof.
  unfold str_rev. revert acc. induction s as [|x s IH]; intros acc; cbn; [done|].
  rewrite (IH (String x acc)), (IH (String x "")). by rewrite string_app_assoc.
Qed.
Lemma str_rev_snoc s x : str_rev (String x s) = str_rev s +:+ String x "".
Proof. unfold str_rev at 1. cbn [str_rev_app]. apply str_rev_app_acc. Qed.
Lemma str_rev_concat s t : str_rev (s +:+ t) = str_rev t +:+ str_rev s.
Proof.
  induction s as [|x s IH]; cbn [String.append]; [by rewrite string_app_empty_r|].
  by rewrite !str_rev_snoc, IH, string_app_assoc.
Qed.
Lemma str_rev_involutive s : str_rev (str_rev s) = s.
Proof. induction s as [|x s IH]; [done|]. by rewrite str_rev_snoc, str_rev_concat, IH. Qed.

Lemma has_suffix_spec s p : has_suffix s p = true ↔ ∃ t, s = t +:+ p.
Proof.
  unfold has_suffix. rewrite has_prefix_spec. split.
  - intros (t & Ht). exists (str_rev t).
    by rewrite <- (str_rev_involutive s), Ht, str_rev_concat, str_rev_involutive.
  - intros (t & ->). exists (str_rev t). apply str_rev_concat.
Qed.

Lemma str_drop_app p t : str_drop (String.length p) (p +:+ t) = t.
Proof. induction p as [|c p IH]; simpl; [by destruct t|done]. Qed.

Lemma str_drop_length n s : String.length (str_drop n s) = (String.length s - n)%nat.
Proof. revert s. induction n; destruct s; simpl; auto. Qed.

Lemma str_take_length n s : String.length (str_take n s) = Nat.min n (String.length s).
Proof. revert s. induction n; destruct s; simpl; auto. Qed.

Lemma tail_str_length s n : (String.length (tail_str s n) <= n)%nat.
Proof. unfold tail_str. rewrite str_drop_length. lia. Qed.

Lemma contains_app a b sub : contains b sub = true → contains (a +:+ b) sub = true.
Proof.
  induction a as [|c a IH]; simpl; [done|]. intros H. rewrite IH by done. apply orb_true_r.
Qed.

(** [sub] occurs in [s] *)
Lemma contains_spec s sub : contains s sub = true ↔ ∃ a b, s = a +:+ sub +:+ b.
Proof.
  split.
  - induction s as [|c s IH]; simpl.
    + rewrite orb_false_r, has_prefix_spec. intros [t Ht]. by exists "", t.
    + rewrite orb_true_iff, has_prefix_spec. intros [[t Ht]|H].
      * by exists "", t.
      * destruct (IH H) as (a & b & ->). by exists (String c a), b.
  - intros (a & b & ->). apply contains_app.
    destruct (sub +:+ b) as [|c t] eqn:Ht; simpl; rewrite <- Ht, has_prefix_app; done.
Qed.

Definition no_byte (c : ascii) (s : string) : Prop := index_byte s c = None.

Lemma no_byte_cons c d s : no_byte c (String d s) ↔ c ≠ d ∧ no_byte c s.
Proof.
  unfold no_byte. simpl. destruct (Ascii.eqb_spec c d) as [->|Hne].
  - split; [done|tauto].
  - destruct (index_byte s c); simpl;
      (split; [intros ?; split; done|intros [? ?]; done]).
Qed.

Lemma no_byte_app c s t : no_byte c (s +:+ t) ↔ no_byte c s ∧ no_byte c t.
Proof.
  induction s as [|d s IH]; simpl; [unfold no_byte at 2; simpl; tauto|].
  rewrite !no_byte_cons, IH. tauto.
Qed.

Lemma cut_spec s c a b : cut s c = (a, b) →
  (s = a +:+ String c b ∨ (s = a ∧ b = "")) ∧ no_byte c a.
Proof.
  revert a b. induction s as [|d s IH]; intros a b; simpl.
  { intros [= <- <-]. split; [by right|done]. }
  destruct (Ascii.eqb_spec c d) as [->|Hne].
  { intros [= <- <-]. split; [by left|done]. }
  destruct (cut s c) as [a' b'] eqn:Hc. intros [= <- <-].
  destruct (IH _ _ eq_refl) as [Hs Hn]. split.
  - destruct Hs as [->|[-> ->]]; [by left|by right].
  - by rewrite no_byte_cons.
Qed.

Lemma cut_app a c b : no_byte c a → cut (a +:+ String c b) c = (a, b).
Proof.
  induction a as [|d a IH]; simpl; intros Hn.
  { by rewrite Ascii.eqb_refl. }
  apply no_byte_cons in Hn as [Hne Hn].
  destruct (Ascii.eqb_spec c d); [done|]. by rewrite IH.
Qed.

Lemma cut_none a c : no_byte c a → cut a c = (a, "").
Proof.
  induction a as [|d a IH]; simpl; intros Hn; [done|].
  apply no_byte_cons in Hn as [Hne Hn].
  destruct (Ascii.eqb_spec c d); [done|]. by rewrite IH.
Qed.

(** Two decompositions at the first separator agree. *)
Lemma sep_unique c a b a' b' :
  no_byte c a → no_byte c a' → a +:+ String c b = a' +:+ String c b' → a = a' ∧ b = b'.
Proof.
  intros Ha Ha' H. apply (cut_app a c b) in Ha. apply (cut_app a' c b') in Ha'.
  rewrite H, Ha' in Ha. by simplify_eq.
Qed.

(** ... and at the last one. *)
Lemma last_sep_unique c a b x y :
  no_byte c x → no_byte c y → a +:+ String c x = b +:+ String c y → a = b ∧ x = y.
Proof.
  intros Hx Hy. revert b. induction a as [|d a IH]; intros [|e b] He; cbn in He; injection He; intros; subst.
  - done.
  - exfalso. apply no_byte_app in Hx as [_ [? _]%no_byte_cons]. done.
  - exfalso. apply no_byte_app in Hy as [_ [? _]%no_byte_cons]. done.
  - match goal with H : _ +:+ _ = _ +:+ _ |- _ => destruct (IH _ H) as [-> ->] end. done.
Qed.

(** ** UTF-8

    [decode_rune] is [utf8.DecodeRune] on a non-empty byte list: the rune and
    its width, or [(RuneError, 1)] for a malformed sequence. *)

Definition rune_error : Z := 65533.

Definition in_range (lo b hi : Z) : bool := (lo <=? b) && (b <=? hi).
Definition cont (b : Z) : bool := in_range 128 b 191.

Definition decode_rune (l : list Z) : Z * nat :=
  match l with
  | [] => (rune_error, 0%nat)
  | b0 :: l1 =>
    if b0 <? 128 then (b0, 1%nat) else
    if in_range 194 b0 223 then
      match l1 with
      | b1 :: _ => if cont b1 then ((b0 - 192) * 64 + (b1 - 128), 2%nat) else (rune_error, 1%nat)
      | _ => (rune_error, 1%nat)
      end
    else if in_range 224 b0 239 then
      let lo := if b0 =? 224 then 160 else 128 in
      let hi := if b0 =? 237 then 159 else 191 in
      match l1 with
      | b1 :: b2 :: _ =>
          if in_range lo b1 hi && cont b2
          then ((b0 - 224) * 4096 + (b1 - 128) * 64 + (b2 - 128), 3%nat)
          else (rune_error, 1%nat)
      | _ => (rune_error, 1%nat)
      end
    else if in_range 240 b0 244 then
      let lo := if b0 =? 240 then 144 else 128 in
      let hi := if b0 =? 244 then 143 else 191 in
      match l1 with
      | b1 :: b2 :: b3 :: _ =>
          if in_range lo b1 hi && cont b2 && cont b3
          then ((b0 - 240) * 262144 + (b1 - 128) * 4096 + (b2 - 128) * 64 + (b3 - 128), 4%nat)
          else (rune_error, 1%nat)
      | _ => (rune_error, 1%nat)
      end
    else (rune_error, 1%nat)
  end.

(** [utf8.AppendRune]: surrogates and values above U+10FFFF become U+FFFD. *)
Definition encode_rune (r : Z) : list Z :=
  if in_range 0 r 127 then [r] else
  if in_range 128 r 2047 then [192 + r / 64; 128 + r mod 64] else
  if in_range 0 r 1114111 && negb (in_range 55296 r 57343) then
    if r <=? 65535 then [224 + r / 4096; 128 + r / 64 mod 64; 128 + r mod 64]
    else [240 + r / 262144; 128 + r / 4096 mod 64; 128 + r / 64 mod 64; 128 + r mod 64]
  else [239; 191; 189].

(** The runes of a byte string, in order ([for _, r := range s]). *)
Fixpoint runes_fuel (n : nat) (l : list Z) : list Z :=
  match n, l with
  | S n, _ :: _ => let '(r, w) := decode_rune l in r :: runes_fuel n (drop w l)
  | _, _ => []
  end.
Definition runes (l : list Z) : list Z := runes_fuel (length l) l.

Class UnicodeTables := { unicode_to_lower : Z → Z }.

Definition ascii_lower (b : Z) : Z := if in_range 65 b 90 then b + 32 else b.

(** [unicode.ToLower] *)
Definition rune_lower `{UnicodeTables} (r : Z) : Z :=
  if r <? 128 then ascii_lower r else unicode_to_lower r.

(** [strings.ToLower] and [bytes.ToLower]: [strings.Map(unicode.ToLower, s)]. *)
Definition bytes_to_lower `{UnicodeTables} (l : list Z) : list Z :=
  mjoin ((λ r, encode_rune (rune_lower r)) <$> runes l).
Definition to_lower `{UnicodeTables} (s : string) : string := of_bytes (bytes_to_lower (bytes s)).

(** [unicode.IsSpace] *)
Definition is_space (r : Z) : bool :=
  in_range 9 r 13 || (r =? 32) || (r =? 133) || (r =? 160) || (r =? 5760) ||
  in_range 8192 r 8202 || (r =? 8232) || (r =? 8233) || (r =? 8239) || (r =? 8287) || (r =? 12288).

(** [strings.TrimLeftFunc(s, unicode.IsSpace)] *)
Fixpoint trim_left_fuel (n : nat) (l : list Z) : list Z :=
  match n, l with
  | S n, _ :: _ => let '(r, w) := decode_rune l in
                   if is_space r then trim_left_fuel n (drop w l) else l
  | _, _ => l
  end.
Definition trim_left (l : list Z) : list Z := trim_left_fuel (length l) l.

(** [utf8.DecodeLastRune]: look back at most four bytes for a byte that can
    start a rune, and accept it if the rune ends where the string ends. *)
Definition rune_start (b : Z) : bool := negb (in_range 128 b 191).
Fixpoint last_start (l : list Z) (k : nat) : nat :=
  match l with
  | [] => k
  | b :: l => if rune_start b then S k else
              if decide (4 <= S k)%nat then S k else last_start l (S k)
  end.
Definition decode_last_rune (l : list Z) : Z * nat :=
  match rev l with
  | [] => (rune_error, 0%nat)
  | b :: _ as rl =>
      if b <? 128 then (b, 1%nat) else
      let k := last_start rl 0 in
      let '(r, w) := decode_rune (drop (length l - k) l) in
      if decide (w = k) then (r, k) else (rune_error, 1%nat)
  end.
Fixpoint trim_right_fuel (n : nat) (l : list Z) : list Z :=
  match n, l with
  | S n, _ :: _ => let '(r, w) := decode_last_rune l in
                   if is_space r then trim_right_fuel n (take (length l - w) l) else l
  | _, _ => l
  end.
Definition trim_right (l : list Z) : list Z := trim_right_fuel (length l) l.

(** [strings.TrimSpace] *)
Definition trim_space (s : string) : string := of_bytes (trim_right (trim_left (bytes s))).

(** A byte string of ASCII characters only. *)
Definition all_ascii (s : string) : bool := forallb (λ b, b <? 128) (bytes s).

(** On ASCII strings [ToLower] lowers byte by byte. *)
Lemma decode_ascii b l : b < 128 → decode_rune (b :: l) = (b, 1%nat).
Proof. intros. simpl. by destruct (Z.ltb_spec b 128); [|lia]. Qed.

Lemma runes_ascii n l :
  (length l <= n)%nat → forallb (λ b, b <? 128) l = true → runes_fuel n l = l.
Proof.
  revert n. induction l as [|b l IH]; intros n Hn Ha; [by destruct n|].
  destruct n as [|n]; simpl in Hn; [lia|].
  apply andb_true_iff in Ha as [Hb Ha]. apply Z.ltb_lt in Hb.
  cbn [runes_fuel]. rewrite decode_ascii by done. f_equal. apply IH; [simpl; lia|done].
Qed.

Lemma bytes_range s : Forall (λ b, 0 <= b < 256) (bytes s).
Proof. induction s; simpl; constructor; auto using byte_of_range. Qed.

Lemma encode_rune_ascii r : 0 <= r < 128 → encode_rune r = [r].
Proof.
  intros Hr. unfold encode_rune, in_range.
  destruct (Z.leb_spec 0 r), (Z.leb_spec r 127); simpl; lia || done.
Qed.

Lemma bytes_of_bytes l : Forall (λ b, 0 <= b < 256) l → bytes (of_bytes l) = l.
Proof.
  induction 1 as [|b l Hb _ IH]; simpl; [done|]. rewrite IH. f_equal.
  unfold byte_of, of_byte. rewrite N_ascii_embedding; [lia|].
  change 256%N with (Z.to_N 256). lia.
Qed.

Lemma bytes_to_lower_ascii `{UnicodeTables} s :
  all_ascii s = true → bytes_to_lower (bytes s) = ascii_lower <$> bytes s.
Proof.
  unfold all_ascii, bytes_to_lower, runes. intros Ha. rewrite runes_ascii by done.
  pose proof (bytes_range s) as Hr. induction (bytes s) as [|b l IH]; simpl; [done|].
  apply andb_true_iff in Ha as [Hb Ha]. apply Z.ltb_lt in Hb. inversion_clear Hr.
  unfold rune_lower at 1. destruct (Z.ltb_spec b 128); [|lia].
  rewrite encode_rune_ascii.
  - cbn. f_equal. by apply IH.
  - unfold ascii_lower, in_range. destruct (Z.leb_spec 65 b), (Z.leb_spec b 90); simpl; lia.
Qed.

(** ** Decimal integers: [strconv.Itoa] / [%d] and [strconv.ParseInt(s, 10, 64)] *)

(** The decimal digits of [n >= 0], most significant first, in front of [acc];
    one digit per unit of fuel. *)
Fixpoint dec_digits (fuel : nat) (n : Z) (acc : list Z) : list Z :=
  match fuel with
  | O => acc
  | S fuel =>
      let acc := (48 + n mod 10) :: acc in
      if n <? 10 then acc else dec_digits fuel (n / 10) acc
  end.
Definition nat_digits (n : Z) : list Z := dec_digits (S (Z.to_nat (Z.log2 n))) n [].

Definition itoa (z : Z) : string :=
  of_bytes (if z <? 0 then 45 :: nat_digits (- z) else nat_digits z).

Definition is_digit (b : Z) : bool := in_range 48 b 57.

(** Reads a non-empty all-digit list; [None] otherwise. *)
Fixpoint digits_value (acc : Z) (l : list Z) : option Z :=
  match l with
  | [] => Some acc
  | b :: l => if is_digit b then digits_value (10 * acc + (b - 48)) l else None
  end.
Definition parse_digits (l : list Z) : option Z :=
  match l with [] => None | _ => digits_value 0 l end.

(** [None] stands for a syntax or range error. *)
Definition parse_int (s : string) : option Z :=
  v ← match bytes s with
      | 45 :: l => Z.opp <$> parse_digits l
      | 43 :: l => parse_digits l
      | l => parse_digits l
      end;
  if (min_i64 <=? v) && (v <=? max_i64) then Some v else None.

Lemma dec_digits_app fuel n acc : dec_digits fuel n acc = dec_digits fuel n [] ++ acc.
Proof.
  revert n acc. induction fuel as [|fuel IH]; intros n acc; [done|]. cbn [dec_digits].
  destruct (n <? 10); [done|].
  rewrite (IH _ (_ :: acc)), (IH _ [_]). by rewrite <- app_assoc.
Qed.

Lemma digits_value_app acc l k :
  digits_value acc (l ++ k) = a ← digits_value acc l; digits_value a k.
Proof.
  revert acc. induction l as [|b l IH]; intros acc; simpl; [done|].
  destruct (is_digit b); [apply IH|done].
Qed.

Lemma dec_digits_spec fuel n :
  0 <= n < 2 ^ Z.of_nat fuel →
  digits_value 0 (dec_digits fuel n []) = Some n ∧
  Forall (λ b, 48 <= b <= 57) (dec_digits fuel n []).
Proof.
  revert n. induction fuel as [|fuel IH]; intros n Hn.
  { cbn in *. replace n with 0 by lia. auto. }
  cbn [dec_digits]. pose proof (Z.mod_pos_bound n 10 ltac:(lia)) as Hmod.
  assert (is_digit (48 + n mod 10) = true) as Hd.
  { unfold is_digit, in_range. rewrite andb_true_iff, !Z.leb_le. lia. }
  destruct (Z.ltb_spec n 10).
  - rewrite Z.mod_small in * by lia. cbn [digits_value]. rewrite Hd. split.
    + cbn [digits_value]. f_equal. lia.
    + repeat constructor; lia.
  - rewrite Nat2Z.inj_succ, Z.pow_succ_r in Hn by lia.
    destruct (IH (n / 10)) as [IHv IHf].
    { split; [apply Z.div_pos; lia|]. apply Z.div_lt_upper_bound; lia. }
    rewrite dec_digits_app. split.
    + rewrite digits_value_app, IHv. cbn [mbind option_bind digits_value]. rewrite Hd.
      f_equal. pose proof (Z.div_mod n 10). lia.
    + apply Forall_app. split; [done|]. repeat constructor; lia.
Qed.

Lemma nat_digits_spec n :
  0 <= n → parse_digits (nat_digits n) = Some n ∧ Forall (λ b, 48 <= b <= 57) (nat_digits n).
Proof.
  intros Hn. unfold nat_digits.
  destruct (dec_digits_spec (S (Z.to_nat (Z.log2 n))) n) as [Hv Hf].
  { split; [done|]. rewrite Nat2Z.inj_succ, Z2Nat.id by apply Z.log2_nonneg.
    destruct (decide (n = 0)) as [->|]; [cbn; lia|]. apply Z.log2_spec. lia. }
  split; [|done]. unfold parse_digits.
  destruct (dec_digits _ _ _) as [|b l] eqn:Hd; [|done].
  exfalso. cbn [dec_digits] in Hd. destruct (n <? 10); [done|].
  rewrite dec_digits_app in Hd. by destruct (dec_digits _ _ _).
Qed.

(** [ParseInt] reads back what [%d] prints. *)
Lemma parse_itoa z : in_i64 z → parse_int (itoa z) = Some z.
Proof.
  intros Hz. unfold parse_int, itoa.
  assert (∀ n, 0 <= n → Forall (λ b, 0 <= b < 256) (nat_digits n)) as Hb.
  { intros n Hn. destruct (nat_digits_spec n Hn) as [_ Hf].
    eapply Forall_impl; [|exact Hf]. simpl. lia. }
  assert ((min_i64 <=? z) && (z <=? max_i64) = true) as Hr.
  { unfold min_i64, max_i64, in_i64 in *. rewrite andb_true_iff, !Z.leb_le. lia. }
  destruct (Z.ltb_spec z 0).
  - rewrite bytes_of_bytes by (constructor; [lia|apply Hb; lia]).
    destruct (nat_digits_spec (- z)) as [-> _]; [lia|]. cbn.
    rewrite Z.opp_involutive. by rewrite Hr.
  - rewrite bytes_of_bytes by (apply Hb; lia).
    destruct (nat_digits_spec z) as [Hv Hf]; [lia|].
    destruct (nat_digits z) as [|b l]; [done|]. inversion_clear Hf as [|? ? Hb0 _].
    assert (match b :: l with 45 :: l => Z.opp <$> parse_digits l | 43 :: l => parse_digits l
            | l => parse_digits l end = Some z) as ->.
    { rewrite <- Hv. destruct b as [|p|p]; try lia.
      do 6 (destruct p as [p|p|]; try lia; try done). }
    cbn. by rewrite Hr.
Qed.

Lemma itoa_inj a b : in_i64 a → in_i64 b → itoa a = itoa b → a = b.
Proof.
  intros Ha%parse_itoa Hb%parse_itoa He. rewrite He, Hb in Ha. by simplify_eq.
Qed.

(** A printed non-negative integer is digits only. *)
Lemma no_byte_of_bytes c l : Forall (λ b, 0 <= b < 256 ∧ b ≠ byte_of c) l → no_byte c (of_bytes l).
Proof.
  induction 1 as [|b l [Hb Hne] _ IH]; simpl; [done|].
  apply no_byte_cons. split; [|done]. intros ->. apply Hne.
  unfold of_byte, byte_of. rewrite N_ascii_embedding; [lia|]. change 256%N with (Z.to_N 256). lia.
Qed.

Lemma itoa_no_byte c z : 0 <= z → ¬ (48 <= byte_of c <= 57) → no_byte c (itoa z).
Proof.
  intros Hz Hc. unfold itoa. destruct (Z.ltb_spec z 0); [lia|].
  apply no_byte_of_bytes. destruct (nat_digits_spec z) as [_ Hf]; [lia|].
  eapply Forall_impl; [|exact Hf]. simpl. lia.
Qed.

Lemma itoa_nonempty z : itoa z ≠ "".
Proof.
  unfold itoa. destruct (Z.ltb_spec z 0); [done|].
  destruct (nat_digits_spec z) as [Hv _]; [lia|]. by destruct (nat_digits z).
Qed.

(** No printed positive integer starts with a zero. *)
Lemma dec_digits_head fuel n :
  0 < n < 2 ^ Z.of_nat fuel → ∃ b l, dec_digits fuel n [] = b :: l ∧ b ≠ 48.
Proof.
  revert n. induction fuel as [|fuel IH]; intros n Hn; [cbn in Hn; lia|]. cbn [dec_digits].
  destruct (Z.ltb_spec n 10).
  - eexists _, _. split; [done|]. rewrite Z.mod_small by lia. lia.
  - rewrite Nat2Z.inj_succ, Z.pow_succ_r in Hn by lia.
    destruct (IH (n / 10)) as (b & l & Hd & Hb).
    { split; [apply Z.div_str_pos; lia|]. apply Z.div_lt_upper_bound; lia. }
    rewrite dec_digits_app, Hd. by eexists _, _.
Qed.

Lemma nat_digits_head n : 0 < n → ∃ b l, nat_digits n = b :: l ∧ b ≠ 48.
Proof.
  intros Hn. apply dec_digits_head. split; [done|].
  rewrite Nat2Z.inj_succ, Z2Nat.id by apply Z.log2_nonneg. by apply Z.log2_spec.
Qed.

Lemma bytes_itoa z :
  bytes (itoa z) = if z <? 0 then 45 :: nat_digits (- z) else nat_digits z.
Proof.
  unfold itoa. destruct (Z.ltb_spec z 0).
  - destruct (nat_digits_spec (- z)) as [_ Hf]; [lia|].
    rewrite bytes_of_bytes; [done|]. constructor; [lia|]. eapply Forall_impl; [|exact Hf]. simpl. lia.
  - destruct (nat_digits_spec z) as [_ Hf]; [lia|].
    rewrite bytes_of_bytes; [done|]. eapply Forall_impl; [|exact Hf]. simpl. lia.
Qed.
