(* ===== verification/GoTime.v ===== *)
(** * Go's [time] package, as far as the orchestrator uses it

    Instants and durations are counted in nanoseconds.  A [time.Time] taken with
    [time.Now] carries a monotonic reading besides the wall clock; [Sub],
    [Before] and [Equal] use it when both operands have one.  Calendar dates are
    proleptic Gregorian, as [time.Date] and [time.Parse] compute them. *)
From stdpp Require Import base tactics list strings.
From Stdlib Require Import ZArith Lia Bool SpecFloat.
From S2P Require Import Prelude GoFloat GoString.
Local Open Scope Z_scope.

(** ** Durations *)

Definition Nanosecond : Z := 1.
Definition Second : Z := 1000000000.
Definition Minute : Z := 60 * Second.
Definition Hour : Z := 60 * Minute.
Definition Day : Z := 24 * Hour.

(** Saturation at the [int64] bounds, as [Time.Sub] does. *)
Definition sat_i64 (z : Z) : Z := Z.max min_i64 (Z.min max_i64 z).

Lemma sat_i64_id z : in_i64 z → sat_i64 z = z.
Proof. unfold in_i64, sat_i64, min_i64, max_i64. lia. Qed.

Lemma sat_i64_range z : in_i64 (sat_i64 z).
Proof. unfold in_i64, sat_i64, min_i64, max_i64. lia. Qed.

Lemma sat_i64_mono a b : a <= b → sat_i64 a <= sat_i64 b.
Proof. unfold sat_i64. lia. Qed.

(** [Duration.Seconds] and [Duration.Hours]. *)
Definition dur_seconds (d : Z) : f64 :=
  fadd (f64_of_Z (Z.quot d Second)) (fdiv (f64_of_Z (Z.rem d Second)) (f64_of_Z Second)).
Definition dur_hours (d : Z) : f64 :=
  fadd (f64_of_Z (Z.quot d Hour)) (fdiv (f64_of_Z (Z.rem d Hour)) (f64_of_Z Hour)).

(** ** Instants *)

Record Time : Type := mkTime { wall : Z; mono : option Z }.

(** The zero [time.Time] is 0001-01-01 00:00:00 UTC. *)
Definition zero_time : Time := mkTime (-62135596800 * Second) None.

Definition time_diff (t u : Time) : Z :=
  match mono t, mono u with
  | Some a, Some b => a - b
  | _, _ => wall t - wall u
  end.

Definition time_sub (t u : Time) : Z := sat_i64 (time_diff t u).
Definition time_before (t u : Time) : bool := time_diff t u <? 0.
Definition time_equal (t u : Time) : bool := time_diff t u =? 0.
Definition time_add (t : Time) (d : Z) : Time := mkTime (wall t + d) ((λ m, m + d) <$> mono t).
Definition unix (t : Time) : Z := wall t / Second.
Definition unix_nano (t : Time) : Z := i64 (wall t).

(** [float64(t.UnixNano()) / 1e9] *)
Definition epoch_seconds (t : Time) : f64 := fdiv (f64_of_Z (unix_nano t)) (f64_of_Z Second).

(** The midnight, in UTC, of the calendar date of [t]: what
    [time.Date(t.Year(), t.Month(), t.Day(), 0, 0, 0, 0, time.UTC)] gives. *)
Definition utc_midnight (t : Time) : Time := mkTime (wall t / Day * Day) None.

(** ** Calendar dates *)

Definition is_leap (y : Z) : bool :=
  (y mod 4 =? 0) && (negb (y mod 100 =? 0) || (y mod 400 =? 0)).

Definition days_in (m y : Z) : Z :=
  if m =? 2 then (if is_leap y then 29 else 28)
  else if (m =? 4) || (m =? 6) || (m =? 9) || (m =? 11) then 30 else 31.

(** Days of the months before [m] in a year that is not a leap year. *)
Definition days_before (m : Z) : Z :=
  nth (Z.to_nat (m - 1)) [0; 31; 59; 90; 120; 151; 181; 212; 243; 273; 304; 334] 0.

(** Days from 0001-01-01 to the first day of year [y]. *)
Definition days_to_year (y : Z) : Z :=
  let n := y - 1 in 365 * n + n / 4 - n / 100 + n / 400.

(** Days since 1970-01-01. *)
Definition days_of_civil (y m d : Z) : Z :=
  days_to_year y + days_before m + (if (2 <? m) && is_leap y then 1 else 0) + (d - 1) - 719162.

Definition date_utc (y m d : Z) : Time := mkTime (days_of_civil y m d * Day) None.

Definition valid_date (y m d : Z) : bool :=
  (1 <=? m) && (m <=? 12) && (1 <=? d) && (d <=? days_in m y).

(** The calendar is contiguous: months and years follow each other. *)
Lemma days_of_civil_next_month y m :
  1 <= m < 12 → days_of_civil y (m + 1) 1 = days_of_civil y m (days_in m y) + 1.
Proof.
  intros Hm. unfold days_of_civil, days_in, days_before. generalize (days_to_year y) as n. intros n.
  assert (m = 1 ∨ m = 2 ∨ m = 3 ∨ m = 4 ∨ m = 5 ∨ m = 6 ∨ m = 7 ∨ m = 8 ∨ m = 9 ∨ m = 10 ∨ m = 11)
    as Hc by lia.
  repeat destruct Hc as [->|Hc]; [..|subst m];
    repeat match goal with
      | |- context [Z.to_nat ?x] => let v := eval vm_compute in (Z.to_nat x) in change (Z.to_nat x) with v
      | |- context [2 <? ?x] => let v := eval vm_compute in (2 <? x) in change (2 <? x) with v
      end; cbn; destruct (is_leap y); lia.
Qed.

Lemma days_to_year_succ y : days_to_year (y + 1) = days_to_year y + (if is_leap y then 366 else 365).
Proof.
  unfold days_to_year, is_leap.
  replace (y + 1 - 1) with y by lia.
  destruct (Z.eqb_spec (y mod 4) 0), (Z.eqb_spec (y mod 100) 0), (Z.eqb_spec (y mod 400) 0); simpl;
    Z.to_euclidean_division_equations; lia.
Qed.

(** ** Dates of days *)

(** Year, month and day of a day since 1970-01-01, counted from March in cycles of
    400 years. *)
Definition civil_of_days (days : Z) : Z * Z * Z :=
  let z := days + 719468 in
  let era := z / 146097 in
  let doe := z mod 146097 in
  let yoe := (doe - doe / 1460 + doe / 36524 - doe / 146096) / 365 in
  let doy := doe - (365 * yoe + yoe / 4 - yoe / 100) in
  let mp := (5 * doy + 2) / 153 in
  let m := if mp <? 10 then mp + 3 else mp - 9 in
  (yoe + era * 400 + (if m <=? 2 then 1 else 0), m, doy - (153 * mp + 2) / 5 + 1).

Definition pad_int (width : nat) (z : Z) : string :=
  let digits := itoa (Z.abs z) in
  (if z <? 0 then "-" else "") +:+ of_bytes (repeat 48 (width - String.length digits)) +:+ digits.

(** [t.Format("2006-01-02")] of an instant in UTC. *)
Definition format_date (t : Time) : string :=
  let '(y, m, d) := civil_of_days (wall t / Day) in
  pad_int 4 y +:+ "-" +:+ pad_int 2 m +:+ "-" +:+ pad_int 2 d.

Example dates : (format_date <$> [mkTime 0 None; mkTime (951782400 * Second) None; mkTime (1767225599 * Second) None; zero_time])
  = ["1970-01-01"; "2000-02-29"; "2025-12-31"; "0001-01-01"].
Proof. vm_compute. reflexivity. Qed.

(** [t.Format(time.RFC3339)] of an instant in UTC. *)
Definition format_rfc3339 (t : Time) : string :=
  let s := (wall t / Second) mod 86400 in
  format_date t +:+ "T" +:+ pad_int 2 (s / 3600) +:+ ":" +:+ pad_int 2 (s / 60 mod 60) +:+ ":" +:+ pad_int 2 (s mod 60) +:+ "Z".

Example instants : format_rfc3339 <$> [mkTime (951782400 * Second) None; mkTime (1767225599 * Second + 5) None]
  = ["2000-02-29T00:00:00Z"; "2025-12-31T23:59:59Z"].
Proof. vm_compute. reflexivity. Qed.
