(* ===== verification/GoFmt.v ===== *)
(** * Formatting: [strconv.FormatFloat(x, 'g', -1, 64)] and [strconv.Quote]

    Shortest float formatting is written out for the numbers the program
    formats, the non-negative multiples of 1/2 below 2^40 (chunk indices): there
    the shortest digits are the exact decimal digits.  For any other float the
    result is an argument ([FloatFormat]).  [unicode.IsPrint] beyond ASCII is
    data of the Go distribution and an argument as well. *)
From stdpp Require Import base tactics list strings numbers.
From Stdlib Require Import ZArith Lia Bool Ascii SpecFloat.
From S2P Require Import Prelude GoFloat GoString.
Local Open Scope Z_scope.

Class FloatFormat := { shortest_g : f64 → string }.

(** Twice the value, for a non-negative multiple of 1/2 below 2^40. *)
Definition half_units (x : f64) : option Z :=
  match x with
  | S754_zero false => Some 0
  | S754_finite false m e =>
      let k := if 0 <=? e + 1 then Z.pos m * 2 ^ (e + 1) else Z.pos m / 2 ^ (- (e + 1)) in
      if (e <=? 40) && (k <? 2 ^ 41) &&
         ((0 <=? e + 1) || (Z.pos m mod 2 ^ (- (e + 1)) =? 0))
      then Some k else None
  | _ => None
  end.

Fixpoint strip_zeros_rev (l : list Z) : list Z :=
  match l with 48 :: l => strip_zeros_rev l | _ => l end.
Definition strip_trailing_zeros (l : list Z) : list Z := rev (strip_zeros_rev (rev l)).

(** [k] halves in the 'g' format: positional below 10^6, scientific above. *)
Definition format_halves (k : Z) : string :=
  let i := k / 2 in
  if i <? 1000000 then itoa i +:+ (if Z.odd k then ".5" else "")
  else
    let ds := nat_digits i ++ (if Z.odd k then [53] else []) in
    let exp := Z.of_nat (length (nat_digits i)) - 1 in
    let e := "e+" +:+ (if exp <? 10 then "0" else "") +:+ itoa exp in
    match strip_trailing_zeros ds with
    | [] => e
    | [d] => of_bytes [d] +:+ e
    | d :: ds => of_bytes (d :: 46 :: ds) +:+ e
    end.

Definition format_g `{FloatFormat} (x : f64) : string :=
  match half_units x with Some k => format_halves k | None => shortest_g x end.

(** ** Quoting *)

Class PrintTable := { is_print_wide : Z → bool }.

Definition is_print `{PrintTable} (r : Z) : bool :=
  if r <? 128 then in_range 32 r 126 else is_print_wide r.

Definition hex_digit (d : Z) : Z := if d <? 10 then 48 + d else 87 + d.
Fixpoint hex_digits (n : nat) (v : Z) (acc : list Z) : list Z :=
  match n with O => acc | S n => hex_digits n (v / 16) (hex_digit (v mod 16) :: acc) end.

(** [appendEscapedRune(r, 34, false, false)]; 34 is the quote, 92 the backslash. *)
Definition escape_rune `{PrintTable} (r : Z) : list Z :=
  if (r =? 34) || (r =? 92) then [92; r]
  else if is_print r then encode_rune r
  else match r with
       | 7 => [92; 97] | 8 => [92; 98] | 12 => [92; 102] | 10 => [92; 110]
       | 13 => [92; 114] | 9 => [92; 116] | 11 => [92; 118]
       | _ => if (r <? 32) || (r =? 127) then 92 :: 120 :: hex_digits 2 r []
              else if r <? 65536 then 92 :: 117 :: hex_digits 4 r []
              else 92 :: 85 :: hex_digits 8 r []
       end.

Fixpoint quote_fuel `{PrintTable} (n : nat) (l : list Z) : list Z :=
  match n, l with
  | S n, b :: _ =>
      let '(r, w) := decode_rune l in
      (if (r =? rune_error) && (Nat.eqb w 1) then 92 :: 120 :: hex_digits 2 b []
       else escape_rune r) ++ quote_fuel n (drop w l)
  | _, _ => []
  end.

(** [strconv.Quote], the [%q] verb *)
Definition quote `{PrintTable} (s : string) : string :=
  of_bytes (34 :: quote_fuel (String.length s) (bytes s) ++ [34]).

(** ** Integer-valued and half-valued indices *)

(** [formatIndex]: the 'g' format, with a trailing [.0] when it shows neither a
    point nor an exponent. *)
Definition has_point_or_exp (s : string) : bool :=
  existsb (λ b, (b =? 46) || (b =? 101) || (b =? 69)) (bytes s).
