(* ===== verification/GoRegexp.v ===== *)
(** * Go regular expressions

    What the sources use of the package [regexp] (RE2): a pattern is parsed into
    a syntax tree ([parse_re]) and [MatchString] asks whether some part of the
    text matches.  The parser knows the syntax of the sources' patterns:
    literals, escaped punctuation, classes, non-capturing groups, alternatives,
    [? * +], counted repetition and the two anchors.  The matcher [ends] computes
    every rest of the text that a match can leave, so greediness, which only
    picks among them, does not matter here.

    [lang] is the set of words a pattern without anchors describes, and
    [ends_lang] says that the matcher consumes exactly these words. *)
From stdpp Require Import base tactics list strings numbers.
From Stdlib Require Import ZArith Lia Bool Ascii.
From S2P Require Import Prelude GoString.
Local Open Scope Z_scope.

(** ** Patterns *)

Inductive re :=
| Eps
| Bol
| Eol
| Cls (neg : bool) (ranges : list (Z * Z))
| Cat (a b : re)
| Alt (a b : re)
| Star (a : re).

Definition Chr (c : Z) : re := Cls false [(c, c)].
Definition Opt (a : re) : re := Alt a Eps.
Definition Plus (a : re) : re := Cat a (Star a).
Fixpoint Rep (n : nat) (a : re) : re :=
  match n with O => Eps | S n => Cat a (Rep n a) end.

Definition in_class (neg : bool) (ranges : list (Z * Z)) (c : Z) : bool :=
  xorb neg (existsb (λ '(lo, hi), in_range lo c hi) ranges).

(** ** The matcher *)

(** Repeat [f] as long as it consumes something; [k] bounds the rounds. *)
Fixpoint star_ends (f : list Z → list (list Z)) (k : nat) (l : list Z) : list (list Z) :=
  l :: match k with
       | O => []
       | S k => filter (λ l', length l' < length l)%nat (f l) ≫= star_ends f k
       end.

(** The rests of the text [l] after a match of [r]; [n] is the length of the
    whole text, so that [^] knows where it is. *)
Fixpoint ends (n : nat) (r : re) (l : list Z) : list (list Z) :=
  match r with
  | Eps => [l]
  | Bol => if decide (length l = n) then [l] else []
  | Eol => match l with [] => [l] | _ => [] end
  | Cls neg rs => match l with
                  | c :: l' => if in_class neg rs c then [l'] else []
                  | [] => []
                  end
  | Cat a b => ends n a l ≫= ends n b
  | Alt a b => ends n a l ++ ends n b l
  | Star a => star_ends (ends n a) (length l) l
  end.

(** [re.MatchString(s)]: a match may start anywhere. *)
Definition MatchString (r : re) (s : string) : bool :=
  let l := runes (bytes s) in
  existsb (λ i, match ends (length l) r (drop i l) with [] => false | _ => true end)
          (seq 0 (S (length l))).

(** ** The parser *)

(** One group being read: the alternatives before, and the pieces of the
    current one in reverse order. *)
Definition frame : Type := option re * list re.

Fixpoint cat_rev (pieces : list re) (acc : re) : re :=
  match pieces with [] => acc | p :: ps => cat_rev ps (Cat p acc) end.
Definition cat_all (pieces : list re) : re :=
  match pieces with [] => Eps | p :: ps => cat_rev ps p end.
Definition close (f : frame) : re :=
  match f.1 with None => cat_all f.2 | Some a => Alt a (cat_all f.2) end.
Definition push (p : re) (f : frame) : frame := (f.1, p :: f.2).
(** Apply a repetition operator to the piece just read. *)
Definition repeat_last (op : re → re) (f : frame) : option frame :=
  match f.2 with [] => None | p :: ps => Some (f.1, op p :: ps) end.

(** [\c] stands for the character [c] when that is ASCII punctuation. *)
Definition is_punct (c : Z) : bool :=
  in_range 33 c 47 || in_range 58 c 64 || in_range 91 c 96 || in_range 123 c 126.

(** The items of a class up to its closing bracket; 93 is [\]], 92 a backslash
    and 45 a hyphen. *)
Fixpoint parse_class (fuel : nat) (l : list Z) (acc : list (Z * Z)) : option (list (Z * Z) * list Z) :=
  match fuel with
  | O => None
  | S fuel =>
      match l with
      | [] => None
      | c :: l =>
          if c =? 93 then Some (rev acc, l) else
          '(lo, l) ← (if c =? 92 then match l with
                                      | d :: l => if is_punct d then Some (d, l) else None
                                      | [] => None
                                      end
                      else Some (c, l));
          match l with
          | h :: hi :: l' =>
              if (h =? 45) && negb (hi =? 93) && negb (hi =? 92)
              then parse_class fuel l' ((lo, hi) :: acc)
              else parse_class fuel l ((lo, lo) :: acc)
          | _ => parse_class fuel l ((lo, lo) :: acc)
          end
      end
  end.

(** 40 41 are the parentheses, 63 58 the question mark and colon of a
    non-capturing group, 124 the bar, 42 and 43 star and plus, 123 and 125 the
    braces, 94 and 36 the anchors. *)
Fixpoint parse_re_fuel (fuel : nat) (l : list Z) (f : frame) (stack : list frame) : option re :=
  match fuel with
  | O => None
  | S fuel =>
      match l with
      | [] => match stack with [] => Some (close f) | _ => None end
      | c :: l =>
          let go l f := parse_re_fuel fuel l f stack in
          if c =? 40 then
            match l with
            | 63 :: 58 :: l => parse_re_fuel fuel l (None, []) (f :: stack)
            | _ => None
            end
          else if c =? 41 then
            match stack with
            | g :: stack => parse_re_fuel fuel l (push (close f) g) stack
            | [] => None
            end
          else if c =? 124 then go l (Some (close f), [])
          else if c =? 63 then repeat_last Opt f ≫= go l
          else if c =? 42 then repeat_last Star f ≫= go l
          else if c =? 43 then repeat_last Plus f ≫= go l
          else if c =? 123 then
            match l with
            | d :: 125 :: l =>
                if is_digit d then repeat_last (Rep (Z.to_nat (d - 48))) f ≫= go l else None
            | _ => None
            end
          else if c =? 94 then go l (push Bol f)
          else if c =? 36 then go l (push Eol f)
          else if c =? 46 then None
          else if c =? 91 then
            let '(neg, l) := match l with 94 :: l => (true, l) | _ => (false, l) end in
            '(rs, l) ← parse_class fuel l []; go l (push (Cls neg rs) f)
          else if c =? 92 then
            match l with
            | d :: l => if is_punct d then go l (push (Chr d) f) else None
            | [] => None
            end
          else go l (push (Chr c) f)
      end
  end.

(** [regexp.MustCompile(s)]; [None] is a pattern outside the syntax above. *)
Definition parse_re (s : string) : option re :=
  let l := bytes s in parse_re_fuel (S (length l)) l (None, []) [].
Definition MustCompile (s : string) : re :=
  match parse_re s with Some r => r | None => Eps end.

(** ** The language of a pattern *)

Fixpoint pure (r : re) : bool :=
  match r with
  | Eps | Cls _ _ => true
  | Bol | Eol => false
  | Cat a b | Alt a b => pure a && pure b
  | Star a => pure a
  end.

Fixpoint lang (r : re) (p : list Z) : Prop :=
  match r with
  | Eps => p = []
  | Bol | Eol => False
  | Cls neg rs => ∃ c, p = [c] ∧ in_class neg rs c = true
  | Cat a b => ∃ p1 p2, p = p1 ++ p2 ∧ lang a p1 ∧ lang b p2
  | Alt a b => lang a p ∨ lang b p
  | Star a => ∃ ps, p = concat ps ∧ Forall (lang a) ps
  end.

Lemma star_ends_lang (P : list Z → Prop) f k l l' :
  (∀ l l', l' ∈ f l ↔ ∃ p, l = p ++ l' ∧ P p) → (length l <= k)%nat →
  l' ∈ star_ends f k l ↔ ∃ ps, l = concat ps ++ l' ∧ Forall P ps.
Proof.
  intros Hf. revert l. induction k as [|k IH]; intros l Hk; cbn [star_ends].
  - assert (l = []) as -> by (destruct l; simpl in *; [done|lia]).
    rewrite list_elem_of_singleton. split.
    + intros ->. by exists [].
    + intros (ps & He & _). by destruct (concat ps), l'.
  - rewrite elem_of_cons, list_elem_of_bind. split.
    + intros [-> | (m & Hm & [Hlt Hfm]%list_elem_of_filter)]; [by exists []|].
      apply Hf in Hfm as (p & -> & Hp). apply IH in Hm as (ps & -> & Hps).
      * exists (p :: ps). cbn. rewrite <- app_assoc. auto.
      * rewrite length_app in *. lia.
    + intros (ps & He & Hps). revert l Hk He.
      induction Hps as [|p ps Hp Hps IHps]; intros l Hk He; [by left|].
      destruct p as [|x p]; [by apply IHps|]. right. cbn in He.
      rewrite <- app_assoc in He.
      assert (length (concat ps ++ l') < length l)%nat as Hlt by (subst l; cbn; rewrite !length_app; lia).
      exists (concat ps ++ l'). split.
      * apply IH; [lia|]. by exists ps.
      * apply list_elem_of_filter. split; [done|]. apply Hf. by exists (x :: p).
Qed.

(** The matcher consumes exactly the words of the pattern. *)
Lemma ends_lang n r l l' :
  pure r = true → l' ∈ ends n r l ↔ ∃ p, l = p ++ l' ∧ lang r p.
Proof.
  revert l l'. induction r as [| | |neg rs|a IHa b IHb|a IHa b IHb|a IHa];
    intros l l' Hp; cbn in Hp |- *; try done.
  - rewrite list_elem_of_singleton. split; [intros ->; by exists []|by intros (? & -> & ->)].
  - destruct l as [|c l].
    + split; [by intros ?%not_elem_of_nil|]. intros (p & He & c & -> & _). done.
    + destruct (in_class neg rs c) eqn:Hc; split.
      * intros ->%list_elem_of_singleton. exists [c]. split; [done|]. by exists c.
      * intros (p & He & d & -> & _). apply list_elem_of_singleton. by simplify_eq/=.
      * by intros ?%not_elem_of_nil.
      * intros (p & He & d & -> & Hd). simplify_eq/=. congruence.
  - apply andb_true_iff in Hp as [Ha Hb]. rewrite list_elem_of_bind. split.
    + intros (m & Hm & Hl). apply IHa in Hl as (p & -> & Hp); [|done].
      apply IHb in Hm as (q & -> & Hq); [|done]. exists (p ++ q). rewrite app_assoc. split; [done|].
      by exists p, q.
    + intros (pq & -> & p & q & -> & Hp & Hq). exists (q ++ l'). split.
      * apply IHb; [done|]. by exists q.
      * apply IHa; [done|]. exists p. by rewrite app_assoc.
  - apply andb_true_iff in Hp as [Ha Hb]. rewrite elem_of_app, IHa, IHb by done. naive_solver.
  - rewrite (star_ends_lang (lang a)) by auto.
    split; [intros (ps & -> & Hps)|intros (p & -> & ps & -> & Hps)]; eauto 6.
Qed.

(** ** Matching a prefix and then a continuation *)

(** [l] starts with a match of [r] whose rest satisfies [Q]. *)
Definition mt (n : nat) (r : re) (l : list Z) (Q : list Z → Prop) : Prop :=
  ∃ l', l' ∈ ends n r l ∧ Q l'.

Lemma mt_cat n a b l Q : mt n (Cat a b) l Q ↔ mt n a l (λ m, mt n b m Q).
Proof.
  unfold mt. cbn [ends]. setoid_rewrite list_elem_of_bind. naive_solver.
Qed.
Lemma mt_alt n a b l Q : mt n (Alt a b) l Q ↔ mt n a l Q ∨ mt n b l Q.
Proof. unfold mt. cbn [ends]. setoid_rewrite elem_of_app. naive_solver. Qed.
Lemma mt_eps n l Q : mt n Eps l Q ↔ Q l.
Proof. unfold mt. cbn [ends]. setoid_rewrite list_elem_of_singleton. naive_solver. Qed.
Lemma mt_eol n l Q : mt n Eol l Q ↔ l = [] ∧ Q [].
Proof.
  unfold mt. cbn [ends]. destruct l; [setoid_rewrite list_elem_of_singleton; naive_solver|].
  setoid_rewrite elem_of_nil. naive_solver.
Qed.
Lemma mt_bol n l Q : mt n Bol l Q ↔ length l = n ∧ Q l.
Proof.
  unfold mt. cbn [ends]. destruct (decide _); [setoid_rewrite list_elem_of_singleton; naive_solver|].
  setoid_rewrite elem_of_nil. naive_solver.
Qed.
Lemma mt_cls n neg rs l Q :
  mt n (Cls neg rs) l Q ↔ ∃ c l', l = c :: l' ∧ in_class neg rs c = true ∧ Q l'.
Proof.
  unfold mt. setoid_rewrite ends_lang; [|done]. cbn. split.
  - intros (l' & (p & -> & c & -> & Hc) & HQ). by exists c, l'.
  - intros (c & l' & -> & Hc & HQ). exists l'. split; [|done]. exists [c]. split; [done|]. by exists c.
Qed.
Lemma mt_pure n r l Q : pure r = true → mt n r l Q ↔ ∃ p l', l = p ++ l' ∧ lang r p ∧ Q l'.
Proof. intros Hr. unfold mt. setoid_rewrite ends_lang; [|done]. naive_solver. Qed.

(** A literal is matched character by character. *)
Lemma mt_chr n c d l Q : mt n (Chr c) (d :: l) Q ↔ d = c ∧ Q l.
Proof.
  unfold Chr. rewrite mt_cls. unfold in_class, in_range. cbn [existsb xorb].
  split.
  - intros (x & l' & He & Hx & HQ). simplify_eq. rewrite orb_false_r, andb_true_iff, !Z.leb_le in Hx.
    split; [lia|done].
  - intros [-> HQ]. exists c, l. rewrite orb_false_r, andb_true_iff, !Z.leb_le. repeat split; done || lia.
Qed.

Lemma mt_iff n r l Q Q' : (∀ m, Q m ↔ Q' m) → mt n r l Q ↔ mt n r l Q'.
Proof. unfold mt. naive_solver. Qed.

(** A pattern that starts with [^] is tried at the start only. *)
Lemma MatchString_anchored r s :
  let l := runes (bytes s) in
  MatchString (Cat Bol r) s = true ↔ mt (length l) r l (λ _, True).
Proof.
  intros l. unfold MatchString. fold l. rewrite existsb_exists. split.
  - intros (i & Hi & He).
    assert (∃ m, m ∈ ends (length l) (Cat Bol r) (drop i l)) as [m Hm].
    { destruct (ends _ _ _) as [|m ms]; [done|]. exists m. by left. }
    assert (mt (length l) (Cat Bol r) (drop i l) (λ _, True)) as Hmt by (by exists m).
    apply mt_cat, mt_bol in Hmt as [Hl Hr]. rewrite length_drop in Hl.
    destruct i as [|i]; [done|]. destruct l; simpl in *; [done|lia].
  - intros (m & Hm & _). exists 0%nat. split; [apply in_seq; lia|]. rewrite drop_0.
    cbn [ends]. rewrite decide_True by done. cbn. rewrite app_nil_r.
    destruct (ends _ _ _); [by apply not_elem_of_nil in Hm|done].
Qed.

(** ** The languages of the common pieces *)

Lemma lang_chr c p : lang (Chr c) p ↔ p = [c].
Proof.
  unfold Chr. cbn. unfold in_class, in_range. cbn. setoid_rewrite orb_false_r.
  setoid_rewrite andb_true_iff. setoid_rewrite Z.leb_le. split.
  - intros (d & -> & Hd). f_equal. lia.
  - intros ->. exists c. split; [done|lia].
Qed.
Lemma lang_cat_chr c r p : lang (Cat (Chr c) r) p ↔ ∃ q, p = c :: q ∧ lang r q.
Proof.
  cbn [lang]. setoid_rewrite lang_chr. split.
  - intros (? & q & -> & -> & Hq). by exists q.
  - intros (q & -> & Hq). by exists [c], q.
Qed.
Lemma lang_star_cls neg rs p : lang (Star (Cls neg rs)) p ↔ Forall (λ c, in_class neg rs c = true) p.
Proof.
  cbn [lang]. split.
  - intros (ps & -> & Hps). induction Hps as [|q ps (c & -> & Hc) _ IH]; cbn; by constructor.
  - induction 1 as [|c p Hc _ (ps & -> & Hps)]; [by exists []|].
    exists ([c] :: ps). split; [done|]. constructor; [by exists c|done].
Qed.
Lemma lang_plus_cls neg rs p :
  lang (Plus (Cls neg rs)) p ↔ p ≠ [] ∧ Forall (λ c, in_class neg rs c = true) p.
Proof.
  unfold Plus. cbn [lang]. setoid_rewrite lang_star_cls. split.
  - intros (? & q & -> & (c & -> & Hc) & Hq). split; [done|]. by constructor.
  - intros [Hne Hp]. destruct Hp as [|c p Hc Hp]; [done|].
    exists [c], p. repeat split; [|done]. by exists c.
Qed.

(** A literal text in front of a pattern. *)
Fixpoint lits (s : list Z) (r : re) : re :=
  match s with [] => r | c :: s => Cat (Chr c) (lits s r) end.

Lemma lang_lits s r p : lang (lits s r) p ↔ ∃ q, p = s ++ q ∧ lang r q.
Proof.
  revert p. induction s as [|c s IH]; intros p; cbn [lits app].
  - split; [eauto|]. by intros (q & -> & Hq).
  - rewrite lang_cat_chr. setoid_rewrite IH. split.
    + intros (? & -> & q & -> & Hq). eauto.
    + intros (q & -> & Hq). eauto.
Qed.
