(* ===== verification/Types.v ===== *)
(** * Shared domain types ([internal/types/types.go])

    [FormatName] and [DispatchFormat] are open string types in the source (the
    probe JSON can carry any format string), so they stay strings; the closed
    enumerations are inductive types with their wire names. *)
From stdpp Require Import base tactics list gmap strings.
From Stdlib Require Import ZArith Lia SpecFloat.
From S2P Require Import Prelude GoFloat GoString.
Local Open Scope Z_scope.

(** ** Dynamic values

    Go's [any] as the program uses it: what [encoding/json] decodes into, plus
    the concrete types the error details hold. *)
Inductive any : Type :=
| ANil
| ABool (b : bool)
| AInt (z : Z)
| AFloat (f : f64)
| AStr (s : string)
| AInts (l : list Z)
| AStrs (l : list string)
| AList (l : list any)
| AObj (l : list (string * any)).

(** ** Formats *)

Definition FormatName := string.
Definition FormatDOCX : FormatName := "docx".
Definition FormatPPTX : FormatName := "pptx".
Definition FormatXLSX : FormatName := "xlsx".
Definition FormatPDF : FormatName := "pdf".

Definition AsposeFormats : list FormatName := [FormatDOCX; FormatPPTX; FormatXLSX; FormatPDF].

Definition DispatchFormat := string.
Definition DispatchDOCX : DispatchFormat := "docx".
Definition DispatchPPTX : DispatchFormat := "pptx".
Definition DispatchXLSX : DispatchFormat := "xlsx".
Definition DispatchPDF : DispatchFormat := "pdf".
Definition DispatchODG : DispatchFormat := "odg".
Definition DispatchPNG : DispatchFormat := "png".
Definition DispatchJPG : DispatchFormat := "jpg".
Definition DispatchTIFF : DispatchFormat := "tiff".
Definition DispatchGIF : DispatchFormat := "gif".
Definition DispatchBMP : DispatchFormat := "bmp".
Definition DispatchWEBP : DispatchFormat := "webp".
Definition DispatchSVG : DispatchFormat := "svg".
Definition DispatchEML : DispatchFormat := "eml".
Definition DispatchHTML : DispatchFormat := "html".

(** ** Failure classes and their wire names *)

Inductive FailureClass : Type :=
| UnsupportedFormat | MissingFile | InputTooLarge | InputUnprocessable
| RenderFailed | SubdivisionFloorExceeded | MergeFailed | LicenseExpired
| Busy | RateLimited
| InputSourceConflict | S3Disabled | S3InvalidURL | S3InputNotFound
| S3InputForbidden | S3OutputForbidden | S3OutputUploadFailed
| EngineUnavailable.

#[export] Instance FailureClass_eq_dec : EqDecision FailureClass.
Proof. solve_decision. Defined.

Definition failure_string (c : FailureClass) : string :=
  match c with
  | UnsupportedFormat => "unsupported_format"
  | MissingFile => "missing_file"
  | InputTooLarge => "input_too_large"
  | InputUnprocessable => "input_unprocessable"
  | RenderFailed => "render_failed"
  | SubdivisionFloorExceeded => "subdivision_floor_exceeded"
  | MergeFailed => "merge_failed"
  | LicenseExpired => "license_expired"
  | Busy => "busy"
  | RateLimited => "rate_limited"
  | InputSourceConflict => "input_source_conflict"
  | S3Disabled => "s3_disabled"
  | S3InvalidURL => "s3_invalid_url"
  | S3InputNotFound => "s3_input_not_found"
  | S3InputForbidden => "s3_input_forbidden"
  | S3OutputForbidden => "s3_output_forbidden"
  | S3OutputUploadFailed => "s3_output_upload_failed"
  | EngineUnavailable => "engine_unavailable"
  end.

Lemma failure_string_inj c d : failure_string c = failure_string d → c = d.
Proof. by destruct c, d. Qed.

(** ** License states *)

Inductive LicenseState : Type :=
| LicenseStatePermanent | LicenseStateHealthy | LicenseStateWarn
| LicenseStateCritical | LicenseStateExpiringToday | LicenseStateExpired.

#[export] Instance LicenseState_eq_dec : EqDecision LicenseState.
Proof. solve_decision. Defined.

(** ** Chunks, plans, probes *)

Record Chunk : Type := mkChunk {
  Index : f64;
  PageStart : Z;
  PageEnd : Z;
  NaturalSeam : bool
}.

(** [Chunk.Pages], with Go's wrapping arithmetic. *)
Definition Pages (c : Chunk) : Z := (PageEnd c -! PageStart c +! 1)%go.

Record ChunkPlan : Type := mkPlan {
  Chunks : list Chunk;
  TotalPages : Z;
  EstimatedMB : f64
}.

Record ProbeResult : Type := mkProbe {
  PageCount : Z;
  Format : FormatName;
  NaturalSeams : list (Z * Z);
  SizeBytes : Z
}.

Record ConversionOptions : Type := mkOptions { Cache : bool; OptLogLevel : string }.

Record ConversionResult : Type := mkResult {
  ChunksRendered : Z;
  SubdivisionRetries : Z;
  CacheHits : Z;
  DurationSeconds : f64
}.

(** *** Page cover: what a plan promises

    [covers lo hi cs]: the chunks, in order, are non-empty page ranges that
    tile [lo..hi] without a gap or an overlap. *)
Inductive covers : Z → Z → list Chunk → Prop :=
| covers_nil lo hi : hi = lo - 1 → covers lo hi []
| covers_cons lo hi c cs :
    PageStart c = lo → lo <= PageEnd c → covers (PageEnd c + 1) hi cs → covers lo hi (c :: cs).

#[export] Hint Constructors covers : gohints.

Lemma covers_app lo mid hi cs ds :
  covers lo mid cs → covers (mid + 1) hi ds → covers lo hi (cs ++ ds).
Proof.
  induction 1 as [lo mid ->|lo mid c cs Hs Hle _ IH]; simpl; intros Hd.
  - by rewrite Z.sub_add in Hd.
  - constructor; auto.
Qed.

Lemma covers_snoc lo hi cs c :
  covers lo (PageStart c - 1) cs → PageStart c <= PageEnd c → hi = PageEnd c →
  covers lo hi (cs ++ [c]).
Proof.
  intros Hcs Hle ->. eapply covers_app; [exact Hcs|]. constructor; [lia|lia|].
  constructor. lia.
Qed.

(** Every page of the range is in exactly one chunk. *)
Lemma covers_page_unique lo hi cs p :
  covers lo hi cs → lo <= p <= hi →
  ∃ i c, cs !! i = Some c ∧ PageStart c <= p <= PageEnd c ∧
    ∀ j d, cs !! j = Some d → PageStart d <= p <= PageEnd d → j = i.
Proof.
  intros Hc. revert p. induction Hc as [lo hi ->|lo hi c cs Hs Hle Hc IH]; intros p Hp; [lia|].
  assert (∀ j d, cs !! j = Some d → PageEnd c < PageStart d) as Hafter.
  { clear IH Hp Hs. assert (PageEnd c < PageEnd c + 1) as Hlt by lia. revert Hlt.
    generalize (PageEnd c) at 1 3. induction Hc as [|lo' hi' c' cs' Hs' Hle' _ IH']; [done|].
    intros q Hq [|j] d; simpl; [intros [= <-]; lia|]. intros Hj. eapply IH'; [lia|done]. }
  destruct (decide (p <= PageEnd c)) as [Hin|Hout].
  - exists O, c. split_and!; [done|lia|lia|]. intros [|j] d; [done|]. simpl.
    intros Hj%Hafter. lia.
  - destruct (IH p ltac:(lia)) as (i & d & Hi & Hd & Hu). exists (S i), d.
    split_and!; [done|lia|lia|]. intros [|j] d' Hj Hd'; simpl in Hj.
    + simplify_eq. lia.
    + f_equal. by eapply Hu.
Qed.

Lemma covers_le lo hi cs : covers lo hi cs → lo - 1 <= hi.
Proof. induction 1; lia. Qed.

Lemma covers_in_range lo hi cs :
  covers lo hi cs → Forall (λ c, lo <= PageStart c ∧ PageStart c <= PageEnd c ∧ PageEnd c <= hi) cs.
Proof.
  induction 1 as [|lo hi c cs Hs Hle Hc IH]; constructor.
  - pose proof (covers_le _ _ _ Hc). lia.
  - eapply Forall_impl; [|exact IH]. simpl. lia.
Qed.

(** The pages of the chunks, concatenated, are [lo, lo+1, ..., hi]. *)
Lemma covers_pages_sum lo hi cs :
  covers lo hi cs → in_i64 (hi + 1) → in_i64 (lo - 1) → lo >= 0 →
  foldr (λ c n, Pages c + n) 0 cs = hi - lo + 1.
Proof.
  induction 1 as [lo hi ->|lo hi c cs Hs Hle Hc IH]; simpl; intros Hhi Hlo H0; [lia|].
  assert (PageEnd c <= hi) as Hend.
  { pose proof (covers_le _ _ _ Hc). lia. }
  unfold in_i64 in *. rewrite IH by lia. unfold Pages. i64_norm. lia.
Qed.
