(* ===== verification/OErrors.v ===== *)
(** * Conversion errors ([internal/oerrors/errors.go])

    One constructor function per failure class, each fixing the class, the HTTP
    status, the message and the detail map of the wire diagnostic. *)
From stdpp Require Import base tactics list gmap strings.
From Stdlib Require Import ZArith Lia SpecFloat.
From S2P Require Import Prelude GoFloat GoString Types GoFmt.
Local Open Scope Z_scope.

Record Error : Type := mkError {
  EFailureClass : FailureClass;
  HTTPStatus : Z;
  Msg : string;
  Detail : option (gmap string any);
  OOM : bool;
  EChunk : option Chunk
}.

(** [Error.DetailDict] *)
Definition DetailDict (e : Error) : gmap string any :=
  match Detail e with
  | Some d => d
  | None =>
      let msg := if String.eqb (Msg e) "" then failure_string (EFailureClass e) else Msg e in
      {[ "message" := AStr msg ]}
  end.

(** [&Error{...}] with the fields the constructors set. *)
Definition plain_error (c : FailureClass) (status : Z) (msg : string)
    (detail : option (gmap string any)) : Error :=
  mkError c status msg detail false None.

Definition NewUnsupportedFormat (detectedMagic : string) (accepted : list string)
    (reason : string) : Error :=
  let msg := "unsupported format (magic=" +:+ detectedMagic +:+ ")" in
  let detail : gmap string any :=
    <["detected_magic" := AStr detectedMagic]> (<["accepted" := AStrs accepted]> ∅) in
  if String.eqb reason ""
  then plain_error UnsupportedFormat 400 msg (Some detail)
  else plain_error UnsupportedFormat 400 (msg +:+ ": " +:+ reason)
         (Some (<["reason" := AStr reason]> detail)).

Definition NewMissingFile (msg : string) : Error :=
  plain_error MissingFile 400 msg None.

Definition NewInputTooLarge (sizeBytes ceilingBytes : Z) : Error :=
  plain_error InputTooLarge 400
    ("input too large: " +:+ itoa sizeBytes +:+ " > " +:+ itoa ceilingBytes)
    (Some (<["size_bytes" := AInt sizeBytes]> {[ "ceiling_bytes" := AInt ceilingBytes ]})).

Definition NewInputUnprocessable (reason : string) : Error :=
  plain_error InputUnprocessable 422 reason (Some {[ "reason" := AStr reason ]}).

Definition renderDetail (chunk : option Chunk) (exitCode : Z) (stderrTail : string) : gmap string any :=
  let tail := if decide (1024 < String.length stderrTail)%nat
              then tail_str stderrTail 1024 else stderrTail in
  let d : gmap string any := <["exit_code" := AInt exitCode]> {[ "stderr_tail" := AStr tail ]} in
  match chunk with
  | Some c => <["page_range" := AInts [PageStart c; PageEnd c]]> (<["chunk_index" := AFloat (Index c)]> d)
  | None => <["page_range" := ANil]> (<["chunk_index" := ANil]> d)
  end.

Definition NewRender (chunk : option Chunk) (exitCode : Z) (stderrTail : string) : Error :=
  let tail := if decide (200 < String.length stderrTail)%nat
              then head_str stderrTail 200 else stderrTail in
  mkError RenderFailed 500
    ("render failed (exit=" +:+ itoa exitCode +:+ "): " +:+ tail)
    (Some (renderDetail chunk exitCode stderrTail)) false chunk.

(** The subdivision trigger: a render error with [OOM] set. *)
Definition NewOOM (chunk : Chunk) : Error :=
  let e := NewRender (Some chunk) 137 "OOM (exit 137)" in
  mkError (EFailureClass e) (HTTPStatus e) (Msg e) (Detail e) true (EChunk e).

Definition NewSubdivisionFloor `{FloatFormat} (chunk : Chunk) (attempts : Z) : Error :=
  mkError SubdivisionFloorExceeded 500
    ("subdivision floor reached on chunk " +:+ format_g (Index chunk))
    (Some (<["failing_page_range" := AInts [PageStart chunk; PageEnd chunk]]>
             {[ "attempts" := AInt attempts ]}))
    false (Some chunk).

Definition NewMerge (exitCode : Z) (stderrTail : string) : Error :=
  let tail := if decide (1024 < String.length stderrTail)%nat
              then tail_str stderrTail 1024 else stderrTail in
  plain_error MergeFailed 500 ("qpdf merge failed (exit=" +:+ itoa exitCode +:+ ")")
    (Some (<["exit_code" := AInt exitCode]> {[ "stderr_tail" := AStr tail ]})).

Definition NewLicenseExpired (expiredOn : string) : Error :=
  if String.eqb expiredOn ""
  then plain_error LicenseExpired 503 "license expired" (Some {[ "expired_on" := ANil ]})
  else plain_error LicenseExpired 503 ("license expired on " +:+ expiredOn)
         (Some {[ "expired_on" := AStr expiredOn ]}).

Definition NewBusy (retryAfterSeconds : Z) : Error :=
  plain_error Busy 503 "server at max_jobs capacity"
    (Some {[ "retry_after_seconds" := AInt retryAfterSeconds ]}).

Definition NewRateLimited (retryAfterSeconds limit : Z) : Error :=
  plain_error RateLimited 429
    ("rate limit exceeded (" +:+ itoa limit +:+ " req/min/IP)")
    (Some (<["retry_after_seconds" := AInt retryAfterSeconds]> {[ "limit" := AInt limit ]})).

Definition NewEngineUnavailable (engine url cause : string) : Error :=
  plain_error EngineUnavailable 503 (engine +:+ " engine unavailable: " +:+ cause)
    (Some (<["engine" := AStr engine]> (<["url" := AStr url]> {[ "cause" := AStr cause ]}))).

Definition NewInputSourceConflict : Error :=
  plain_error InputSourceConflict 400
    "provide exactly one input source: 'file' or 's3_input'" None.

Definition NewS3Disabled : Error :=
  plain_error S3Disabled 400 "S3 integration is disabled (set OFFICE_CONVERT_S3_ENABLED=1)" None.

Definition NewS3InvalidURL `{PrintTable} (url : string) : Error :=
  plain_error S3InvalidURL 400
    ("invalid s3 url " +:+ quote url +:+ " (expected s3://bucket/key)")
    (Some {[ "url" := AStr url ]}).

Definition NewS3InputNotFound (bucket key : string) : Error :=
  plain_error S3InputNotFound 404 ("s3 input not found: s3://" +:+ bucket +:+ "/" +:+ key)
    (Some (<["bucket" := AStr bucket]> {[ "key" := AStr key ]})).

Definition NewS3InputForbidden (bucket : string) : Error :=
  plain_error S3InputForbidden 400 ("s3 input bucket not in allowlist: " +:+ bucket)
    (Some {[ "bucket" := AStr bucket ]}).

Definition NewS3OutputForbidden (bucket : string) : Error :=
  plain_error S3OutputForbidden 400 ("s3 output bucket not in allowlist: " +:+ bucket)
    (Some {[ "bucket" := AStr bucket ]}).

Definition NewS3OutputUploadFailed (bucket key reason : string) : Error :=
  plain_error S3OutputUploadFailed 500
    ("s3 output upload failed for s3://" +:+ bucket +:+ "/" +:+ key +:+ ": " +:+ reason)
    (Some (<["bucket" := AStr bucket]> (<["key" := AStr key]> {[ "reason" := AStr reason ]}))).

(** A Go [error] value: one of the typed errors, or an error of the standard
    library or the operating system with its message. *)
Inductive error : Type :=
| EConv (e : Error)
| EOther (msg : string).
