(* ===== verification/Planner.v ===== *)
(** * The chunk planner ([internal/planner/planner.go])

    Pure functions from a probe result to a chunk plan, the halving used on an
    out-of-memory retry, and the preimage of the per-chunk cache key.  Integers
    wrap at 64 bits and megabyte estimates are [float64], as in the source. *)
From stdpp Require Import base tactics list gmap strings.
From Stdlib Require Import ZArith Lia Bool SpecFloat Ascii String.
From S2P Require Import Prelude GoFloat GoString GoFmt Types.
Local Open Scope Z_scope.
Local Open Scope go_scope.

(** ** Tables and constants *)

Definition Amplification : gmap string Z :=
  {[ FormatDOCX := 5; FormatPPTX := 8; FormatXLSX := 4; FormatPDF := 2 ]}.
Definition SubprocessOverheadMB : gmap string Z :=
  {[ FormatDOCX := 200; FormatPPTX := 300; FormatXLSX := 250; FormatPDF := 100 ]}.
Definition MaxPagesCeiling : gmap string Z :=
  {[ FormatDOCX := 5000; FormatPPTX := 5000; FormatPDF := 2000; FormatXLSX := 2000 ]}.

(** Indexing a Go map yields the zero value for a missing key. *)
Definition map_get (m : gmap string Z) (k : string) : Z := default 0 (m !! k).

Definition MinChunks : Z := 2.
Definition balanceFactor : f64 := f64_ratio 3 2.
Definition subdivisionFloorPages : Z := 1.
Definition maxPagesCeilingDefault : Z := 5000.
Definition mib_f : f64 := f64_of_Z (1024 * 1024).

Definition EstimateChunkMB (pagesInChunk totalPages inputSizeBytes : Z) (format : FormatName) : f64 :=
  if (totalPages <=? 0) || (pagesInChunk <=? 0) then f0
  else
    let perPageBytes := (f64_of_Z inputSizeBytes / f64_of_Z totalPages)%f64 in
    (perPageBytes * f64_of_Z pagesInChunk * f64_of_Z (map_get Amplification format) / mib_f)%f64.

(** ** Adaptive chunk size *)

Record AdaptiveMaxPagesOptions : Type := mkAdaptive {
  OptMaxPagesCeiling : Z;
  OptMinPagesFloor : Z
}.

Definition effective_floor (opts : AdaptiveMaxPagesOptions) : Z :=
  if OptMinPagesFloor opts <=? 0 then 10 else OptMinPagesFloor opts.
Definition effective_ceiling (opts : AdaptiveMaxPagesOptions) (format : FormatName) : Z :=
  if OptMaxPagesCeiling opts <=? 0
  then default maxPagesCeilingDefault (MaxPagesCeiling !! format)
  else OptMaxPagesCeiling opts.

(** The last step: clamp into [minPagesFloor, maxPagesCeiling], floor last. *)
Definition clamp_pages (floor ceiling optimal : Z) : Z :=
  let optimal := if ceiling <? optimal then ceiling else optimal in
  if optimal <? floor then floor else optimal.

Definition AdaptiveMaxPages `{GoArch} (probe : ProbeResult) (workerRAMBytes parallel : Z)
    (opts : AdaptiveMaxPagesOptions) : Z :=
  let minPagesFloor := effective_floor opts in
  let maxPagesCeiling := effective_ceiling opts (Format probe) in
  if (PageCount probe <=? 0) || (SizeBytes probe <=? 0) then minPagesFloor
  else
    let amp := map_get Amplification (Format probe) in
    let overheadMB := map_get SubprocessOverheadMB (Format probe) in
    let workerBudgetMB := (f64_of_Z workerRAMBytes / mib_f * f64_ratio 3 4)%f64 in
    let renderBudgetMB := (workerBudgetMB - f64_of_Z overheadMB)%f64 in
    let renderBudgetMB :=
      if flt renderBudgetMB (f64_of_Z 50) then f64_of_Z 50 else renderBudgetMB in
    let perPageBytes := (f64_of_Z (SizeBytes probe) / f64_of_Z (PageCount probe))%f64 in
    let perPageRenderedMB := (perPageBytes * f64_of_Z amp / mib_f)%f64 in
    if fle perPageRenderedMB f0 then maxPagesCeiling
    else
      let pagesByRAM := int_of_f64 (renderBudgetMB / perPageRenderedMB)%f64 in
      let optimal :=
        if minPagesFloor <? PageCount probe then
          let desiredChunks := if MinChunks <? parallel then parallel else MinChunks in
          let pagesByParallelism := Z.quot (PageCount probe) desiredChunks in
          if pagesByParallelism <? pagesByRAM then pagesByParallelism else pagesByRAM
        else pagesByRAM in
      clamp_pages minPagesFloor maxPagesCeiling optimal.

(** ** Natural seams *)

(** The loop state of [groupSeams]: chunks so far and the pending group
    ([pendingStart = -1] is "no group yet"). *)
Record SeamState : Type := mkSeam {
  ss_chunks : list Chunk;
  pendingStart : Z;
  pendingEnd : Z;
  pendingPages : Z
}.

Definition seam_chunk (st : SeamState) : Chunk :=
  mkChunk (f64_of_Z (Z.of_nat (length (ss_chunks st)))) (pendingStart st) (pendingEnd st) true.

Definition group_step (probe : ProbeResult) (maxPages maxMB : Z) (st : SeamState)
    (seam : Z * Z) : SeamState :=
  let '(seamStart, seamEnd) := seam in
  let seamPages := seamEnd -! seamStart +! 1 in
  if pendingStart st =? -1 then mkSeam (ss_chunks st) seamStart seamEnd seamPages
  else
    let combinedPages := pendingPages st +! seamPages in
    let combinedMB :=
      EstimateChunkMB combinedPages (PageCount probe) (SizeBytes probe) (Format probe) in
    if (combinedPages <=? maxPages) && fle combinedMB (f64_of_Z maxMB)
    then mkSeam (ss_chunks st) (pendingStart st) seamEnd combinedPages
    else mkSeam (ss_chunks st ++ [seam_chunk st]) seamStart seamEnd seamPages.

(** The sum over the chunks, left to right. *)
Definition sum_estimates (probe : ProbeResult) (chunks : list Chunk) : f64 :=
  foldl (λ acc c, fadd acc
           (EstimateChunkMB (Pages c) (PageCount probe) (SizeBytes probe) (Format probe)))
    f0 chunks.

Definition groupSeams (probe : ProbeResult) (maxPages maxMB : Z) : ChunkPlan :=
  let st := foldl (group_step probe maxPages maxMB) (mkSeam [] (-1) 0 0) (NaturalSeams probe) in
  let chunks := if pendingStart st =? -1 then ss_chunks st else ss_chunks st ++ [seam_chunk st] in
  mkPlan chunks (PageCount probe) (sum_estimates probe chunks).

Definition chunkMB (chunk : Chunk) (plan : ChunkPlan) : f64 :=
  if TotalPages plan =? 0 then f0
  else (EstimatedMB plan * (f64_of_Z (Pages chunk) / f64_of_Z (TotalPages plan)))%f64.

Definition isBalanced (plan : ChunkPlan) (maxPages maxMB : Z) : bool :=
  match Chunks plan with
  | [] => true
  | _ =>
      let pagesThreshold := (f64_of_Z maxPages * balanceFactor)%f64 in
      let mbThreshold := (f64_of_Z maxMB * balanceFactor)%f64 in
      forallb (λ c, negb (flt pagesThreshold (f64_of_Z (Pages c)))) (Chunks plan) &&
      forallb (λ c, negb (flt mbThreshold (chunkMB c plan))) (Chunks plan)
  end.

(** ** Page-range split *)

(** May the chunk [cursor..end] grow by one page? *)
Definition may_extend (probe : ProbeResult) (maxPages maxMB cursor end_ : Z) : bool :=
  let candidatePages := end_ +! 1 -! cursor +! 1 in
  if maxPages <? candidatePages then false
  else
    let candidateMB :=
      EstimateChunkMB candidatePages (PageCount probe) (SizeBytes probe) (Format probe) in
    negb (flt (f64_of_Z maxMB) candidateMB).

(** The inner loop, [for end+1 <= probe.PageCount { ... }]; it advances [end] by
    one page per unit of fuel. *)
Fixpoint grow (fuel : nat) (probe : ProbeResult) (maxPages maxMB cursor end_ : Z) : Z :=
  match fuel with
  | O => end_
  | S fuel =>
      if end_ +! 1 <=? PageCount probe then
        if may_extend probe maxPages maxMB cursor end_
        then grow fuel probe maxPages maxMB cursor (end_ +! 1)
        else end_
      else end_
  end.

(** The outer loop, [for cursor <= probe.PageCount { ... }]; every round consumes
    at least one page, and [chunks] is what has been appended so far. *)
Fixpoint split_loop (fuel : nat) (probe : ProbeResult) (maxPages maxMB cursor : Z)
    (chunks : list Chunk) : list Chunk :=
  match fuel with
  | O => chunks
  | S fuel' =>
      if cursor <=? PageCount probe then
        let end_ := grow (Z.to_nat (PageCount probe - cursor)) probe maxPages maxMB cursor cursor in
        let chunk := mkChunk (f64_of_Z (Z.of_nat (length chunks))) cursor end_ false in
        split_loop fuel' probe maxPages maxMB (end_ +! 1) (chunks ++ [chunk])
      else chunks
  end.

Definition pageRangeSplit (probe : ProbeResult) (maxPages maxMB : Z) : ChunkPlan :=
  let chunks := split_loop (Z.to_nat (PageCount probe)) probe maxPages maxMB 1 [] in
  mkPlan chunks (PageCount probe) (sum_estimates probe chunks).

(** ** The plan *)

Definition PlanChunks (probe : ProbeResult) (maxPagesPerChunk maxMBPerChunk : Z) : ChunkPlan :=
  if PageCount probe <=? 0 then mkPlan [] 0 f0
  else
    match NaturalSeams probe with
    | [] => pageRangeSplit probe maxPagesPerChunk maxMBPerChunk
    | _ :: _ =>
        let seamPlan := groupSeams probe maxPagesPerChunk maxMBPerChunk in
        if isBalanced seamPlan maxPagesPerChunk maxMBPerChunk then seamPlan
        else pageRangeSplit probe maxPagesPerChunk maxMBPerChunk
    end.

(** ** Subdivision and the cache key *)

Definition half_f : f64 := f64_ratio 1 2.

Definition Subdivide (chunk : Chunk) : list Chunk :=
  let start := PageStart chunk in
  let end_ := PageEnd chunk in
  let span := end_ -! start +! 1 in
  if span <=? subdivisionFloorPages then []
  else
    let half := Z.quot (span +! 1) 2 in
    let mid := start +! half -! 1 in
    [ mkChunk (Index chunk) start mid false;
      mkChunk (fadd (Index chunk) half_f) (mid +! 1) end_ false ].

(** What [ChunkSHA256] writes into the hash. *)
Definition chunk_key_input (chunk : Chunk) (sourceSHA256 : string) (format : FormatName) : string :=
  sourceSHA256 +:+ ":" +:+ (itoa (PageStart chunk) +:+ "-" +:+ itoa (PageEnd chunk)) +:+ ":" +:+ format.

(** [sha256_hex] is [hex.EncodeToString(sha256.Sum256(_))]. *)
Definition ChunkSHA256 (sha256_hex : string → string) (chunk : Chunk) (sourceSHA256 : string)
    (format : FormatName) : string :=
  sha256_hex (chunk_key_input chunk sourceSHA256 format).

(** ** The page-range split *)

Section split.
Context (probe : ProbeResult) (maxPages maxMB : Z).
Context (Hcount : 1 <= PageCount probe < 2 ^ 62).

Local Abbreviation n := (PageCount probe).

Lemma may_extend_spec cursor end_ :
  1 <= cursor <= end_ → end_ <= n →
  may_extend probe maxPages maxMB cursor end_ = true ↔
  end_ - cursor + 2 <= maxPages ∧
  flt (f64_of_Z maxMB)
      (EstimateChunkMB (end_ - cursor + 2) n (SizeBytes probe) (Format probe)) = false.
Proof.
  intros Hc He. unfold may_extend. i64_norm.
  replace (end_ + 1 - cursor + 1) with (end_ - cursor + 2) by lia.
  destruct (Z.ltb_spec maxPages (end_ - cursor + 2)).
  - split; [done|lia].
  - rewrite negb_true_iff. split; [by intros|by intros [_ ?]].
Qed.

(** The inner loop stops exactly where its guard or its test fails. *)
Lemma grow_spec fuel cursor end_ :
  1 <= cursor <= end_ → end_ <= n → n - end_ <= Z.of_nat fuel →
  let e := grow fuel probe maxPages maxMB cursor end_ in
  end_ <= e <= n ∧
  (e = n ∨ may_extend probe maxPages maxMB cursor e = false) ∧
  (∀ k, end_ <= k < e → may_extend probe maxPages maxMB cursor k = true).
Proof.
  revert end_. induction fuel as [|fuel IH]; intros end_ Hc He Hf; cbn [grow].
  { split_and!; try lia. }
  i64_norm. destruct (Z.leb_spec (end_ + 1) n).
  2:{ split_and!; try lia. }
  destruct (may_extend probe maxPages maxMB cursor end_) eqn:Hx.
  2:{ split_and!; try lia. by right. }
  destruct (IH (end_ + 1)) as (Hr & Hstop & Hall); [lia..|].
  split_and!; [lia|lia|done|]. intros k Hk.
  destruct (decide (k = end_)) as [->|]; [done|]. apply Hall. lia.
Qed.

(** What every chunk of the split satisfies: it is one page, or respects both
    bounds; and it could not have been one page longer. *)
Definition split_chunk_ok (c : Chunk) : Prop :=
  NaturalSeam c = false ∧
  (PageStart c = PageEnd c ∨
   (Pages c <= maxPages ∧
    flt (f64_of_Z maxMB) (EstimateChunkMB (Pages c) n (SizeBytes probe) (Format probe)) = false)) ∧
  (PageEnd c = n ∨ may_extend probe maxPages maxMB (PageStart c) (PageEnd c) = false).

Definition indexed (cs : list Chunk) : Prop :=
  ∀ i c, cs !! i = Some c → Index c = f64_of_Z (Z.of_nat i).

Lemma indexed_snoc cs c :
  indexed cs → Index c = f64_of_Z (Z.of_nat (length cs)) → indexed (cs ++ [c]).
Proof.
  intros Hcs Hc i d Hi. apply lookup_app_Some in Hi as [Hi|[Hge Hi]]; [by apply Hcs|].
  apply list_lookup_singleton_Some in Hi as [Hi <-]. rewrite Hc. do 2 f_equal. lia.
Qed.

Lemma grown_chunk_ok idx cursor :
  1 <= cursor <= n →
  let e := grow (Z.to_nat (n - cursor)) probe maxPages maxMB cursor cursor in
  cursor <= e <= n ∧ split_chunk_ok (mkChunk idx cursor e false).
Proof.
  intros Hc. cbn zeta.
  destruct (grow_spec (Z.to_nat (n - cursor)) cursor cursor) as (Hr & Hstop & Hall); [lia..|].
  set (e := grow _ _ _ _ _ _) in *. split; [done|]. unfold split_chunk_ok, Pages; cbn.
  split_and!; [done| |done]. destruct (decide (cursor = e)) as [|Hne]; [by left|right].
  destruct (may_extend_spec cursor (e - 1)) as [Hx _]; [lia..|].
  destruct (Hx (Hall (e - 1) ltac:(lia))) as [Hp Hmb].
  i64_norm. replace (e - cursor + 1) with (e - 1 - cursor + 2) by lia. done.
Qed.

Lemma split_loop_spec fuel cursor cs :
  1 <= cursor <= n + 1 → n - cursor + 1 <= Z.of_nat fuel →
  covers 1 (cursor - 1) cs → Forall split_chunk_ok cs → indexed cs →
  let r := split_loop fuel probe maxPages maxMB cursor cs in
  covers 1 n r ∧ Forall split_chunk_ok r ∧ indexed r.
Proof.
  revert cursor cs. induction fuel as [|fuel IH]; intros cursor cs Hc Hf Hcov Hok Hidx;
    cbn [split_loop]; cbn zeta.
  { replace (cursor - 1) with n in Hcov by lia. auto. }
  destruct (Z.leb_spec cursor n).
  2:{ replace (cursor - 1) with n in Hcov by lia. auto. }
  set (idx := f64_of_Z (Z.of_nat (length cs))).
  destruct (grown_chunk_ok idx cursor ltac:(lia)) as [He Hnew].
  set (e := grow _ _ _ _ _ _) in *. i64_norm. apply IH; [lia|lia| | |].
  - apply covers_snoc; cbn; [done|lia|lia].
  - apply Forall_app. auto.
  - by apply indexed_snoc.
Qed.

Lemma page_range_split_spec :
  let plan := pageRangeSplit probe maxPages maxMB in
  covers 1 n (Chunks plan) ∧ TotalPages plan = n ∧
  Forall split_chunk_ok (Chunks plan) ∧ indexed (Chunks plan).
Proof.
  cbn zeta. unfold pageRangeSplit; cbn [Chunks TotalPages].
  destruct (split_loop_spec (Z.to_nat n) 1 []) as (Hcov & Hok & Hidx); auto; try lia.
  - by constructor.
  - intros i c. by rewrite lookup_nil.
Qed.
End split.

(** ** Natural seams *)

(** A contiguous list of seams [(start, end)] tiling [lo..hi]. *)
Inductive seams_cover : Z → Z → list (Z * Z) → Prop :=
| seams_nil lo hi : hi = lo - 1 → seams_cover lo hi []
| seams_cons lo hi e seams :
    lo <= e → seams_cover (e + 1) hi seams → seams_cover lo hi ((lo, e) :: seams).

Lemma seams_cover_le lo hi seams : seams_cover lo hi seams → lo - 1 <= hi.
Proof. induction 1; lia. Qed.

Section seams.
Context (probe : ProbeResult) (maxPages maxMB : Z).

(** A group of consecutive seams kept in one chunk: a single seam, or bounded. *)
Definition seam_group_ok (start end_ : Z) : Prop :=
  (start, end_) ∈ NaturalSeams probe ∨
  (end_ - start + 1 <= maxPages ∧
   fle (EstimateChunkMB (end_ - start + 1) (PageCount probe) (SizeBytes probe) (Format probe))
       (f64_of_Z maxMB) = true).

Definition seam_chunk_ok (c : Chunk) : Prop :=
  NaturalSeam c = true ∧ seam_group_ok (PageStart c) (PageEnd c) ∧
  (∃ e, (PageStart c, e) ∈ NaturalSeams probe) ∧ (∃ s, (s, PageEnd c) ∈ NaturalSeams probe).

(** The loop invariant of [groupSeams] after consuming the seams up to [pos]. *)
Definition seam_inv (pos : Z) (st : SeamState) : Prop :=
  Forall seam_chunk_ok (ss_chunks st) ∧ indexed (ss_chunks st) ∧
  (if pendingStart st =? -1 then ss_chunks st = [] ∧ pos = 1
   else covers 1 (pendingStart st - 1) (ss_chunks st) ∧ 1 <= pendingStart st <= pendingEnd st ∧
        pos = pendingEnd st + 1 ∧ pendingPages st = pendingEnd st - pendingStart st + 1 ∧
        seam_chunk_ok (seam_chunk st)).

Lemma group_step_inv pos e st :
  (pos, e) ∈ NaturalSeams probe → 1 <= pos <= e → e < 2 ^ 62 →
  seam_inv pos st → seam_inv (e + 1) (group_step probe maxPages maxMB st (pos, e)).
Proof.
  intros Hin Hpos He (Hok & Hidx & Hst). unfold group_step. i64_norm.
  assert (∀ cs, seam_chunk_ok (seam_chunk (mkSeam cs pos e (e - pos + 1)))) as Hfresh.
  { intros cs. split_and!; [done|by left|eauto|eauto]. }
  destruct (Z.eqb_spec (pendingStart st) (-1)) as [Hnone|Hsome].
  - destruct Hst as [Hcs ->]. split_and!; [done|done|]. cbn.
    destruct (Z.eqb_spec 1 (-1)); [lia|]. rewrite Hcs. split_and!; try lia; auto.
    by constructor.
  - destruct Hst as (Hcov & Hp & -> & Hpages & Hch). rewrite Hpages. i64_norm.
    replace (pendingEnd st - pendingStart st + 1 + (e - (pendingEnd st + 1) + 1))
      with (e - pendingStart st + 1) by lia.
    destruct (_ && _) eqn:Hfit.
    + apply andb_true_iff in Hfit as [Hfp%Z.leb_le Hfm]. split_and!; [done|done|]. cbn.
      destruct (Z.eqb_spec (pendingStart st) (-1)); [done|].
      split_and!; try lia; [done|]. destruct Hch as (_ & _ & Hs & _).
      split_and!; [done|by right|done|eauto].
    + split_and!; cbn.
      * apply Forall_app. auto.
      * by apply indexed_snoc.
      * destruct (Z.eqb_spec (pendingEnd st + 1) (-1)); [lia|].
        split_and!; try lia; auto. apply covers_snoc; cbn; [done|lia|lia].
Qed.

Lemma group_fold_inv pos hi seams st :
  seams_cover pos hi seams → 1 <= pos → hi < 2 ^ 62 →
  (∀ s, s ∈ seams → s ∈ NaturalSeams probe) → seam_inv pos st →
  seam_inv (hi + 1) (foldl (group_step probe maxPages maxMB) st seams).
Proof.
  intros Hc. revert st. induction Hc as [lo hi ->|lo hi e seams Hle Hc IH];
    intros st Hpos Hhi Hsub Hst; simpl; [by rewrite Z.sub_add|].
  pose proof (seams_cover_le _ _ _ Hc).
  apply IH; [lia|done|set_solver|]. apply group_step_inv; [set_solver|lia|lia|done].
Qed.

Lemma group_seams_spec :
  1 <= PageCount probe < 2 ^ 62 → seams_cover 1 (PageCount probe) (NaturalSeams probe) →
  let plan := groupSeams probe maxPages maxMB in
  covers 1 (PageCount probe) (Chunks plan) ∧ TotalPages plan = PageCount probe ∧
  Forall seam_chunk_ok (Chunks plan) ∧ indexed (Chunks plan).
Proof.
  intros Hn Hseams. cbn zeta. unfold groupSeams; cbn [Chunks TotalPages].
  assert (seam_inv 1 (mkSeam [] (-1) 0 0)) as Hinit.
  { split_and!; [constructor|intros i c Hi; done|done]. }
  pose proof (group_fold_inv 1 (PageCount probe) _ _ Hseams ltac:(lia) ltac:(lia)
    (λ s H, H) Hinit) as (Hok & Hidx & Hst).
  set (st := foldl _ _ _) in *.
  destruct (Z.eqb_spec (pendingStart st) (-1)).
  - destruct Hst as [_ Hst]. lia.
  - destruct Hst as (Hcov & Hp & Hpos & _ & Hch). split_and!; [|done| |].
    + apply covers_snoc; cbn; [done|lia|lia].
    + apply Forall_app. auto.
    + by apply indexed_snoc.
Qed.
End seams.

(** ** Halving *)

Lemma subdivide_cases c :
  1 <= PageStart c <= PageEnd c → PageEnd c < 2 ^ 62 →
  (PageStart c = PageEnd c ∧ Subdivide c = []) ∨
  (PageStart c < PageEnd c ∧ ∃ mid,
     Subdivide c = [mkChunk (Index c) (PageStart c) mid false;
                    mkChunk (fadd (Index c) half_f) (mid + 1) (PageEnd c) false] ∧
     2 * mid <= PageStart c + PageEnd c <= 2 * mid + 1).
Proof.
  intros Hs He. unfold Subdivide, subdivisionFloorPages. i64_norm.
  destruct (Z.leb_spec (PageEnd c - PageStart c + 1) 1); [left; split; [lia|done]|].
  right. split; [lia|]. rewrite Z.quot_div_nonneg by lia.
  assert (0 <= (PageEnd c - PageStart c + 1 + 1) / 2 <= PageEnd c - PageStart c + 1) as Hd.
  { split; [apply Z.div_pos; lia|apply Z.div_le_upper_bound; lia]. }
  i64_norm. eexists. split; [done|]. Z.to_euclidean_division_equations. lia.
Qed.

(** [subdivided k c d]: [d] is reached from [c] by [k] successive halvings. *)
Inductive subdivided : nat → Chunk → Chunk → Prop :=
| subdivided_0 c : subdivided 0 c c
| subdivided_S k c d e : d ∈ Subdivide c → subdivided k d e → subdivided (S k) c e.

Lemma default_ceiling_range format :
  10 <= default maxPagesCeilingDefault (MaxPagesCeiling !! format) <= 5000.
Proof.
  destruct (MaxPagesCeiling !! format) as [v|] eqn:Hv; simpl.
  2:{ unfold maxPagesCeilingDefault. lia. }
  unfold MaxPagesCeiling in Hv.
  repeat (apply lookup_insert_Some in Hv as [[_ <-]|[_ Hv]]; [lia|]).
  apply lookup_singleton_Some in Hv as [_ <-]. lia.
Qed.

(** The chunks of a plan tile the document and are numbered from zero. *)
Lemma plan_covers_indexed probe maxPages maxMB :
  1 <= PageCount probe < 2 ^ 62 →
  NaturalSeams probe = [] ∨ seams_cover 1 (PageCount probe) (NaturalSeams probe) →
  covers 1 (PageCount probe) (Chunks (PlanChunks probe maxPages maxMB)) ∧
  TotalPages (PlanChunks probe maxPages maxMB) = PageCount probe ∧
  indexed (Chunks (PlanChunks probe maxPages maxMB)).
Proof.
  intros Hn Hseams.
  destruct (page_range_split_spec probe maxPages maxMB Hn) as (Hc & Ht & _ & Hi).
  unfold PlanChunks. destruct (Z.leb_spec (PageCount probe) 0); [lia|].
  destruct (NaturalSeams probe) as [|s ss] eqn:Hs; [done|]. rewrite <- Hs in Hseams.
  destruct (isBalanced _ _ _); [|done]. destruct Hseams as [Hnil|Hseams]; [congruence|].
  by destruct (group_seams_spec probe maxPages maxMB Hn Hseams) as (? & ? & _ & ?).
Qed.

(** ** Theorems: the plan *)

(** C11: for a probe whose seams are absent or tile the document, the plan's
    chunks tile pages [1..PageCount] in order, without a gap or an overlap;
    the [i]-th chunk has index [i] and the plan counts every page. *)
Theorem plan_chunks_cover probe maxPages maxMB :
  1 <= PageCount probe < 2 ^ 62 →
  NaturalSeams probe = [] ∨ seams_cover 1 (PageCount probe) (NaturalSeams probe) →
  let plan := PlanChunks probe maxPages maxMB in
  covers 1 (PageCount probe) (Chunks plan) ∧ TotalPages plan = PageCount probe ∧
  (∀ i c, Chunks plan !! i = Some c → Index c = f64_of_Z (Z.of_nat i)) ∧
  (∀ p, 1 <= p <= PageCount probe → ∃ i c, Chunks plan !! i = Some c ∧
     PageStart c <= p <= PageEnd c ∧
     ∀ j d, Chunks plan !! j = Some d → PageStart d <= p <= PageEnd d → j = i).
Proof.
  intros Hn Hseams. destruct (plan_covers_indexed probe maxPages maxMB Hn Hseams) as (Hc & Ht & Hi).
  split_and!; [exact Hc|exact Ht|exact Hi|]. intros p Hp. by apply covers_page_unique with (1) (PageCount probe).
Qed.

(** Without seams the split is greedy and bounded: a chunk longer than one
    page respects both the page bound and the megabyte bound, and a chunk that
    does not end the document could not have taken one more page. *)
Theorem page_range_split_greedy probe maxPages maxMB :
  1 <= PageCount probe < 2 ^ 62 → NaturalSeams probe = [] →
  Forall (λ c,
    let est := λ k, EstimateChunkMB k (PageCount probe) (SizeBytes probe) (Format probe) in
    NaturalSeam c = false ∧
    (PageStart c = PageEnd c ∨
     Pages c <= maxPages ∧ flt (f64_of_Z maxMB) (est (Pages c)) = false) ∧
    (PageEnd c = PageCount probe ∨ maxPages < Pages c + 1 ∨
     flt (f64_of_Z maxMB) (est (Pages c + 1)) = true))
  (Chunks (PlanChunks probe maxPages maxMB)).
Proof.
  intros Hn Hs. destruct (page_range_split_spec probe maxPages maxMB Hn) as (Hc & _ & Hok & _).
  unfold PlanChunks. rewrite Hs. destruct (Z.leb_spec (PageCount probe) 0); [lia|].
  pose proof (covers_in_range _ _ _ Hc) as Hin.
  apply Forall_forall. intros c Hcin. rewrite Forall_forall in Hok, Hin.
  specialize (Hin c Hcin) as (H1 & H2 & H3). destruct (Hok c Hcin) as (Hns & Hb & Hmax).
  cbn zeta. split_and!; [done|done|]. destruct Hmax as [|Hmax]; [by left|].
  destruct (decide (PageEnd c = PageCount probe)); [by left|right].
  destruct (may_extend_spec probe maxPages maxMB Hn (PageStart c) (PageEnd c)) as [_ Hx]; [lia..|].
  unfold Pages. i64_norm.
  replace (PageEnd c - PageStart c + 1 + 1) with (PageEnd c - PageStart c + 2) by lia.
  destruct (decide (maxPages < PageEnd c - PageStart c + 2)) as [|Hle]; [by left|right].
  apply not_false_is_true. intros Hf. rewrite Hx in Hmax; [done|]. split; [lia|done].
Qed.

(** When the plan follows the natural seams, every chunk starts and ends on
    a seam boundary, is one whole seam or respects both bounds, and no chunk
    exceeds the balance factor times the bounds. *)
Theorem seam_plan_bounds probe maxPages maxMB :
  1 <= PageCount probe < 2 ^ 62 →
  seams_cover 1 (PageCount probe) (NaturalSeams probe) →
  let plan := PlanChunks probe maxPages maxMB in
  Forall (λ c, NaturalSeam c = true) (Chunks plan) →
  Forall (λ c,
    (∃ e, (PageStart c, e) ∈ NaturalSeams probe) ∧ (∃ s, (s, PageEnd c) ∈ NaturalSeams probe) ∧
    ((PageStart c, PageEnd c) ∈ NaturalSeams probe ∨
     (PageEnd c - PageStart c + 1 <= maxPages ∧
      fle (EstimateChunkMB (PageEnd c - PageStart c + 1) (PageCount probe) (SizeBytes probe)
             (Format probe)) (f64_of_Z maxMB) = true)) ∧
    flt (f64_of_Z maxPages * balanceFactor)%f64 (f64_of_Z (Pages c)) = false ∧
    flt (f64_of_Z maxMB * balanceFactor)%f64 (chunkMB c plan) = false) (Chunks plan).
Proof.
  intros Hn Hseams. destruct (page_range_split_spec probe maxPages maxMB Hn) as (Hc & _ & Hok & _).
  destruct (group_seams_spec probe maxPages maxMB Hn Hseams) as (_ & _ & Hseam & _).
  unfold PlanChunks. destruct (Z.leb_spec (PageCount probe) 0); [lia|].
  assert (∀ plan, covers 1 (PageCount probe) (Chunks plan) →
    Forall (split_chunk_ok probe maxPages maxMB) (Chunks plan) →
    ¬ Forall (λ c, NaturalSeam c = true) (Chunks plan)) as Hnot.
  { intros plan Hp Hsp Hnat. destruct Hp as [|lo hi c cs]; [lia|].
    inversion Hsp as [|? ? [Hf _] _]; inversion Hnat; congruence. }
  destruct (NaturalSeams probe) as [|s ss] eqn:Hs; [inversion Hseams; lia|].
  destruct (isBalanced _ _ _) eqn:Hbal; [|intros Hnat; exfalso; by eapply Hnot].
  set (plan := groupSeams _ _ _) in *. intros _. unfold isBalanced in Hbal.
  destruct (Chunks plan) as [|c0 cs0] eqn:Hcs; [constructor|]. rewrite <- Hcs in *.
  apply andb_true_iff in Hbal as [Hbp Hbm]. rewrite forallb_forall in Hbp, Hbm.
  apply Forall_forall. intros c Hcin. rewrite Forall_forall in Hseam.
  destruct (Hseam c Hcin) as (_ & Hg & Hs1 & Hs2). unfold seam_group_ok in Hg. rewrite Hs in *.
  split_and!; auto; apply negb_true_iff; [by apply Hbp|by apply Hbm].
Qed.

(** The adaptive page count stays between the floor and the ceiling (the
    defaults give at least 10 pages and at most the format's ceiling), and when
    it is strictly between them a document longer than the floor is split into
    at least [max(2, parallel)] chunks of that size. *)
Theorem adaptive_max_pages_bounds `{GoArch} probe workerRAMBytes parallel opts :
  let r := AdaptiveMaxPages probe workerRAMBytes parallel opts in
  let lo := effective_floor opts in
  let hi := effective_ceiling opts (Format probe) in
  Z.min lo hi <= r <= Z.max lo hi ∧
  (lo < r → r ≠ hi → lo < PageCount probe → r * Z.max 2 parallel <= PageCount probe) ∧
  (OptMinPagesFloor opts <= 0 → OptMaxPagesCeiling opts <= 0 → 10 <= r <= 5000).
Proof.
  cbn zeta.
  assert (OptMinPagesFloor opts <= 0 → effective_floor opts = 10) as Hlo.
  { intros Hf. unfold effective_floor. destruct (Z.leb_spec (OptMinPagesFloor opts) 0); lia. }
  assert (OptMaxPagesCeiling opts <= 0 → 10 <= effective_ceiling opts (Format probe) <= 5000) as Hhi.
  { intros Hc. unfold effective_ceiling. destruct (Z.leb_spec (OptMaxPagesCeiling opts) 0); [|lia].
    apply default_ceiling_range. }
  unfold AdaptiveMaxPages.
  generalize dependent (effective_ceiling opts (Format probe)).
  generalize dependent (effective_floor opts). intros lo Hlo hi Hhi.
  destruct (_ || _) eqn:Hpos; [lia|]. apply orb_false_iff in Hpos as [Hpos%Z.leb_gt _].
  destruct (fle _ f0); [lia|].
  set (byram := int_of_f64 _). clearbody byram. unfold clamp_pages.
  set (chunks := if MinChunks <? parallel then parallel else MinChunks).
  assert (chunks = Z.max 2 parallel) as Hch.
  { unfold chunks, MinChunks. destruct (Z.ltb_spec 2 parallel); lia. }
  clearbody chunks. rewrite <- Hch.
  pose proof (Z.mul_quot_le (PageCount probe) chunks ltac:(lia) ltac:(lia)) as Hq.
  repeat guard_cases; split_and!; try lia; intros; nia.
Qed.

(** ** Theorems: subdivision *)

(** Halving a chunk of in-range pages gives nothing exactly at the
    one-page floor; otherwise two non-empty ranges that tile the chunk, the left
    one at most one page longer, keeping the parent's index and the next half. *)
Theorem subdivide_halves c :
  1 <= PageStart c <= PageEnd c → PageEnd c < 2 ^ 62 →
  (Subdivide c = [] ↔ PageStart c = PageEnd c) ∧
  (PageStart c < PageEnd c → ∃ l r,
     Subdivide c = [l; r] ∧ covers (PageStart c) (PageEnd c) [l; r] ∧
     Pages r <= Pages l <= Pages r + 1 ∧ Pages l + Pages r = Pages c ∧
     Index l = Index c ∧ Index r = fadd (Index c) half_f ∧
     NaturalSeam l = false ∧ NaturalSeam r = false).
Proof.
  intros Hs He. pose proof (subdivide_cases c Hs He) as [[Heq ->]|(Hlt & mid & -> & Hmid)].
  { split; [done|lia]. }
  split; [by split; [|lia]|]. intros _. eexists _, _. split; [done|].
  unfold Pages; cbn. i64_norm. split_and!; try done; try lia.
  repeat (constructor; cbn; try lia).
Qed.

(** Halving ends: after [k] halvings every piece of a chunk of at most
    [2^k] pages is a single page, and is not divided further. *)
Theorem subdivision_depth c k d :
  1 <= PageStart c <= PageEnd c → PageEnd c < 2 ^ 62 →
  PageEnd c - PageStart c + 1 <= 2 ^ Z.of_nat k →
  subdivided k c d → PageStart d = PageEnd d ∧ Subdivide d = [].
Proof.
  intros Hs He Hk Hd. revert Hs He Hk.
  induction Hd as [c|k c d e Hin Hd IH]; intros Hs He Hk.
  - assert (PageStart c = PageEnd c) as Heq by (change (2 ^ Z.of_nat 0) with 1 in Hk; lia).
    split; [done|]. destruct (subdivide_cases c Hs He) as [[_ ->]|[? _]]; [done|lia].
  - destruct (subdivide_cases c Hs He) as [[_ Hn]|(Hlt & mid & Hsub & Hmid)].
    { rewrite Hn in Hin. by apply elem_of_nil in Hin. }
    rewrite Hsub in Hin. rewrite Nat2Z.inj_succ, Z.pow_succ_r in Hk by lia.
    apply list_elem_of_In in Hin as [<-|[<-|[]]]; cbn in IH; apply IH; cbn; lia.
Qed.

(** Equal cache-key preimages come from equal sources, page ranges and
    formats: the separators cannot be confused. *)
Theorem chunk_key_input_injective c d src src' fmt fmt' :
  no_byte ":"%char src → no_byte ":"%char src' →
  0 <= PageStart c <= PageEnd c → PageEnd c < 2 ^ 63 →
  0 <= PageStart d <= PageEnd d → PageEnd d < 2 ^ 63 →
  chunk_key_input c src fmt = chunk_key_input d src' fmt' →
  src = src' ∧ PageStart c = PageStart d ∧ PageEnd c = PageEnd d ∧ fmt = fmt'.
Proof.
  unfold chunk_key_input. intros Hs Hs' Hc Hc' Hd Hd' Heq.
  apply sep_unique in Heq as [-> Heq]; [|done..]. rewrite !string_app_assoc in Heq.
  assert (∀ z, 0 <= z → no_byte ":"%char (itoa z) ∧ no_byte "-"%char (itoa z)) as Hno.
  { intros z Hz. split; (apply itoa_no_byte; [done|]).
    - change (byte_of ":"%char) with 58. lia.
    - change (byte_of "-"%char) with 45. lia. }
  apply sep_unique in Heq as [Hst Heq]; [|apply Hno; lia..].
  apply sep_unique in Heq as [Hen ->]; [|apply Hno; lia..].
  apply itoa_inj in Hst, Hen; unfold in_i64; auto; lia.
Qed.

(** ** Witnesses *)

Definition sample_probe : ProbeResult := mkProbe 25 FormatDOCX [] 4000000.
Definition sample_seams : ProbeResult :=
  mkProbe 12 FormatXLSX [(1, 4); (5, 8); (9, 12)] 4000000.

Lemma plan_chunks_cover_witness :
  length (Chunks (PlanChunks sample_probe 10 50)) = 3%nat ∧
  covers 1 25 (Chunks (PlanChunks sample_probe 10 50)).
Proof.
  split; [reflexivity|]. apply (plan_chunks_cover sample_probe 10 50); [cbn; lia|by left].
Defined.

Lemma page_range_split_greedy_witness :
  Forall (λ c, NaturalSeam c = false) (Chunks (PlanChunks sample_probe 10 50)).
Proof.
  eapply Forall_impl; [|apply (page_range_split_greedy sample_probe 10 50); [cbn; lia|done]].
  by intros c [H _].
Defined.

Lemma seam_plan_bounds_witness :
  length (Chunks (PlanChunks sample_seams 10 50)) = 2%nat ∧
  Forall (λ c, (∃ e, (PageStart c, e) ∈ NaturalSeams sample_seams))
    (Chunks (PlanChunks sample_seams 10 50)).
Proof.
  split; [reflexivity|]. eapply Forall_impl; [|apply (seam_plan_bounds sample_seams 10 50)].
  - by intros c [H _].
  - cbn; lia.
  - repeat (constructor; cbn; try lia).
  - vm_compute. repeat constructor.
Defined.

Lemma subdivide_halves_witness :
  Subdivide (mkChunk (f64_of_Z 2) 21 25 false) ≠ [].
Proof.
  intros H. apply (subdivide_halves (mkChunk (f64_of_Z 2) 21 25 false)) in H; cbn; try lia.
  discriminate H.
Defined.

Lemma subdivision_depth_witness :
  Subdivide (mkChunk half_f 3 3 false) = [].
Proof.
  apply (subdivision_depth (mkChunk (f64_of_Z 0) 1 4 false) 2); cbn; try lia.
  eapply subdivided_S; [vm_compute; right; left|].
  eapply subdivided_S; [vm_compute; left|]. constructor.
Defined.

Lemma chunk_key_input_injective_witness :
  chunk_key_input (mkChunk f0 1 10 false) "ab12" FormatDOCX ≠
  chunk_key_input (mkChunk f0 11 20 false) "ab12" FormatDOCX.
Proof.
  intros H. apply chunk_key_input_injective in H as (_ & H & _); cbn; try lia; try done.
Defined.

(** ** Seams that do not tile the document

    Nothing checks the seams a probe reports: with one seam for the first pages
    of a longer document the plan silently stops where the seam does, although
    a [ChunkPlan] is meant to be a complete cover. *)
Lemma seam_gap_not_covered :
  let probe := mkProbe 10 FormatXLSX [(1, 3)] 1000 in
  (PageStart <$> Chunks (PlanChunks probe 10 50)) = [1] ∧
  (PageEnd <$> Chunks (PlanChunks probe 10 50)) = [3] ∧
  TotalPages (PlanChunks probe 10 50) = 10.
Proof. done. Qed.
