(* ===== verification/RateLimit.v ===== *)
(** * The per-client token-bucket limiter ([internal/ratelimit/ratelimit.go])

    The limiter's map holds pointers to the elements of the LRU list, so the
    model has a heap of elements besides the map and the order of the list.
    The two readings of the clock that [Check] takes are its arguments. *)
From Stdlib Require Import ZArith Lia Bool SpecFloat Ascii String.
From stdpp Require Import base tactics list gmap strings.
From S2P Require Import Prelude GoFloat GoString GoTime.
From stdpp Require Import list.
Local Open Scope Z_scope.

(** ** Data *)

Record Decision : Type := mkDecision {
  Allowed : bool;
  Limit : Z;
  Remaining : Z;
  ResetEpochSeconds : Z;
  RetryAfterSeconds : Z
}.

Record bucket : Type := mkBucket { tokens : f64; last : Time }.
Record lruEntry : Type := mkEntry { key : string; b : bucket }.

(** [elements] is the heap of list elements, [lru] the list, oldest first. *)
Record Limiter : Type := mkLimiter {
  perMinute : Z;
  burst : Z;
  maxKeys : Z;
  refillPerSec : f64;
  buckets : gmap string nat;
  elements : gmap nat lruEntry;
  lru : list nat
}.

(** [None] is the panic on invalid parameters. *)
Definition New (perMinute burst maxKeys : Z) : option Limiter :=
  if (perMinute <? 1) || (burst <? 1) || (maxKeys <? 1) then None
  else Some (mkLimiter perMinute burst maxKeys
               (fdiv (f64_of_Z perMinute) (f64_of_Z 60)) ∅ ∅ []).

(** ** The list operations *)

Definition MoveToBack (el : nat) (l : list nat) : list nat :=
  if decide (el ∈ l) then filter (.≠ el) l ++ [el] else l.
Definition Remove (el : nat) (l : list nat) : list nat := filter (.≠ el) l.

Definition minF (x y : f64) : f64 := if flt x y then x else y.

(** ** Check *)

Definition set_lru (l : Limiter) (bs : gmap string nat) (order : list nat) : Limiter :=
  mkLimiter (perMinute l) (burst l) (maxKeys l) (refillPerSec l) bs (elements l) order.

(** The refill of a known client: [min(burst, tokens + elapsed * rate)]. *)
Definition refill (l : Limiter) (now : Time) (bk : bucket) : bucket :=
  let t := fadd (tokens bk) (fmul (dur_seconds (time_sub now (last bk))) (refillPerSec l)) in
  mkBucket (minF (f64_of_Z (burst l)) t) (last bk).

(** The first half of [Check]: the client's refilled bucket, and the limiter with the client
    moved to the back, or with room made for it.  [None] is a nil dereference. *)
Definition fetch (now : Time) (clientID : string) (l : Limiter) : option (bucket * Limiter) :=
  match buckets l !! clientID with
  | Some el =>
      ent ← elements l !! el;
      Some (refill l now (b ent), set_lru l (buckets l) (MoveToBack el (lru l)))
  | None =>
      let fresh := mkBucket (f64_of_Z (burst l)) zero_time in
      if maxKeys l <=? Z.of_nat (size (buckets l)) then
        match lru l with
        | oldest :: _ =>
            old ← elements l !! oldest;
            Some (fresh, set_lru l (delete (key old) (buckets l)) (Remove oldest (lru l)))
        | [] => Some (fresh, l)
        end
      else Some (fresh, l)
  end.

(** The second half: write the bucket back, or push a new element. *)
Definition store (clientID : string) (bk : bucket) (l : Limiter) : option Limiter :=
  match buckets l !! clientID with
  | Some el =>
      ent ← elements l !! el;
      Some (mkLimiter (perMinute l) (burst l) (maxKeys l) (refillPerSec l) (buckets l)
              (<[el := mkEntry (key ent) bk]> (elements l)) (lru l))
  | None =>
      let el := fresh (dom (elements l)) in
      Some (mkLimiter (perMinute l) (burst l) (maxKeys l) (refillPerSec l)
              (<[clientID := el]> (buckets l))
              (<[el := mkEntry clientID bk]> (elements l)) (lru l ++ [el]))
  end.

Definition retry_after `{GoArch} (l : Limiter) (toks : f64) : Z :=
  let secondsToOne := fdiv (fsub f1 toks) (refillPerSec l) in
  let r := (int_of_f64 secondsToOne +! 1)%go in
  if r <? 1 then 1 else r.

Definition decide_request `{GoArch} (now2 : Time) (l : Limiter) (allowed : bool) (bk : bucket) : Decision :=
  let secondsToFull := fdiv (fsub (f64_of_Z (burst l)) (tokens bk)) (refillPerSec l) in
  let resetEpoch := unix (time_add now2 (int_of_f64 (fmul secondsToFull (f64_of_Z Second)))) in
  mkDecision allowed (perMinute l) (int_of_f64 (tokens bk)) resetEpoch
    (if allowed then 0 else retry_after l (tokens bk)).

(** One token is taken when there is one. *)
Definition take (now : Time) (bk : bucket) : bool * bucket :=
  let allowed := fle f1 (tokens bk) in
  (allowed, mkBucket (if allowed then fsub (tokens bk) f1 else tokens bk) now).

Definition Check `{GoArch} (now now2 : Time) (clientID : string) (l : Limiter)
    : option (Decision * Limiter) :=
  '(bk, l) ← fetch now clientID l;
  let '(allowed, bk) := take now bk in
  l ← store clientID bk l;
  Some (decide_request now2 l allowed bk, l).

(** ** Client identification *)

(** The parts of the request the limiter reads. *)
Record Request : Type := mkRequest { XForwardedFor : string; RemoteAddr : string }.

Definition host_of (addr : string) : string :=
  match last_index_byte addr ":"%char with
  | Some i => str_take i addr
  | None => addr
  end.

Definition ClientIDFor (r : Request) (trustXFF : bool) : string :=
  let first := trim_space (fst (cut (XForwardedFor r) ","%char)) in
  if trustXFF && negb (String.eqb (XForwardedFor r) "") && negb (String.eqb first "") then first
  else
    let host := host_of (RemoteAddr r) in
    if String.eqb host "" then "unknown" else host.

(** ** The specification: one list of clients, least recently used first *)

Definition holds (c : string) (e : lruEntry) : bool := String.eqb (key e) c.

Definition spec_fetch (l : Limiter) (now : Time) (c : string) (a : list lruEntry)
    : bucket * list lruEntry :=
  match List.find (holds c) a with
  | Some e => (refill l now (b e), List.filter (λ e, negb (holds c e)) a)
  | None => (mkBucket (f64_of_Z (burst l)) zero_time,
             if maxKeys l <=? Z.of_nat (length a) then tail a else a)
  end.

Definition spec_check (l : Limiter) (now : Time) (c : string) (a : list lruEntry)
    : bool * bucket * list lruEntry :=
  let '(bk, rest) := spec_fetch l now c a in
  let '(allowed, bk) := take now bk in
  (allowed, bk, rest ++ [mkEntry c bk]).

(** [represents l a]: the map, the heap and the list of [l] describe [a]. *)
Definition represents (l : Limiter) (a : list lruEntry) : Prop :=
  ∃ items : list (nat * lruEntry),
    a = items.*2 ∧ lru l = items.*1 ∧ NoDup items.*1 ∧ NoDup (key <$> a) ∧
    buckets l = list_to_map ((λ i, (key i.2, i.1)) <$> items) ∧
    (∀ i, i ∈ items → elements l !! i.1 = Some i.2).

Definition same_params (l l' : Limiter) : Prop :=
  perMinute l = perMinute l' ∧ burst l = burst l' ∧ maxKeys l = maxKeys l' ∧
  refillPerSec l = refillPerSec l'.

Lemma find_holds_None c a : List.find (holds c) a = None ↔ c ∉ key <$> a.
Proof.
  induction a as [|e a IH]; simpl; [set_solver|].
  unfold holds at 1. destruct (String.eqb_spec (key e) c); set_solver.
Qed.

Lemma filter_holds_absent c a : c ∉ key <$> a → List.filter (λ e, negb (holds c e)) a = a.
Proof.
  induction a as [|e a IH]; simpl; [done|]. unfold holds at 1.
  destruct (String.eqb_spec (key e) c); [set_solver|]. intros. simpl. f_equal. set_solver.
Qed.

Lemma find_filter_split c a1 e a2 :
  NoDup (key <$> a1 ++ e :: a2) → key e = c →
  List.find (holds c) (a1 ++ e :: a2) = Some e ∧
  List.filter (λ e, negb (holds c e)) (a1 ++ e :: a2) = a1 ++ a2.
Proof.
  intros Hn <-. induction a1 as [|x a1 IH]; simpl in *.
  - apply NoDup_cons in Hn as [Hn _]. unfold holds at 1 3. rewrite String.eqb_refl. simpl.
    split; [done|]. by apply filter_holds_absent.
  - apply NoDup_cons in Hn as [Hx Hn]. destruct (IH Hn) as [-> ->].
    unfold holds. destruct (String.eqb_spec (key x) (key e)) as [He|]; [|done].
    destruct Hx. rewrite He, fmap_app, fmap_cons. set_solver.
Qed.

Lemma filter_neq_absent (el : nat) (l : list nat) : el ∉ l → filter (.≠ el) l = l.
Proof.
  induction l as [|x l IH]; [done|]. intros [Hne Hn]%not_elem_of_cons.
  rewrite filter_cons_True by done. f_equal. auto.
Qed.

Lemma remove_fst_split (i1 i2 : list (nat * lruEntry)) el ent :
  NoDup (i1 ++ (el, ent) :: i2).*1 →
  filter (.≠ el) (i1 ++ (el, ent) :: i2).*1 = (i1 ++ i2).*1.
Proof.
  rewrite !fmap_app, fmap_cons, filter_app, filter_cons_False by naive_solver.
  intros (_ & Hd & [Hn _]%NoDup_cons)%NoDup_app.
  f_equal; apply filter_neq_absent; [intros Hin; apply (Hd _ Hin); by left|done].
Qed.

Definition kmap (items : list (nat * lruEntry)) : list (string * nat) :=
  (λ i, (key i.2, i.1)) <$> items.

Lemma kmap_fst items : (kmap items).*1 = key <$> items.*2.
Proof. unfold kmap. rewrite <- !list_fmap_compose. by apply list_fmap_ext. Qed.

(** What a lookup in the limiter's map finds. *)
Lemma represents_lookup l a c :
  represents l a →
  match buckets l !! c with
  | Some el => ∃ i1 ent i2 , key ent = c ∧ elements l !! el = Some ent ∧
      a = i1.*2 ++ ent :: i2.*2 ∧ represents l a ∧ lru l = i1.*1 ++ el :: i2.*1 ∧
      NoDup (i1 ++ (el, ent) :: i2).*1 ∧
      buckets l = list_to_map (kmap (i1 ++ (el, ent) :: i2)) ∧
      (∀ i, i ∈ i1 ++ (el, ent) :: i2 → elements l !! i.1 = Some i.2)
  | None => c ∉ key <$> a
  end.
Proof.
  intros Hr. pose proof Hr as (items & -> & Hl & Hn1 & Hn2 & Hb & He).
  change (buckets l = list_to_map (kmap items)) in Hb.
  rewrite Hb. destruct (list_to_map (kmap items) !! c) as [el|] eqn:Hc.
  - apply elem_of_list_to_map_2, list_elem_of_fmap in Hc as ([el' ent] & [= -> ->] & Hin).
    apply list_elem_of_split in Hin as (i1 & i2 & ->).
    exists i1, ent, i2. rewrite !fmap_app, !fmap_cons in *. split_and!; try done. apply (He (el', ent)). set_solver.
  - by rewrite <- not_elem_of_list_to_map, kmap_fst in Hc.
Qed.

Lemma represents_size l a : represents l a → size (buckets l) = length a.
Proof.
  intros (items & -> & _ & _ & Hn & -> & _). rewrite map_size_list_to_map.
  - by rewrite !length_fmap.
  - change (NoDup (kmap items).*1). by rewrite kmap_fst.
Qed.

Lemma fetch_represents now c l a :
  represents l a → 1 <= maxKeys l →
  let '(bk, rest) := spec_fetch l now c a in
  ∃ l', fetch now c l = Some (bk, l') ∧ same_params l l' ∧ elements l' = elements l ∧
    (match buckets l !! c with
     | Some el => ∃ items ent, key ent = c ∧ buckets l' !! c = Some el ∧
         rest = items.*2 ∧ c ∉ key <$> rest ∧ NoDup (key <$> rest) ∧
         lru l' = items.*1 ++ [el] ∧ NoDup (items.*1 ++ [el]) ∧ elements l !! el = Some ent ∧
         buckets l' = list_to_map (kmap (items ++ [(el, ent)])) ∧
         (∀ i, i ∈ items → elements l !! i.1 = Some i.2)
     | None => c ∉ key <$> rest ∧ buckets l' !! c = None ∧ represents l' rest
     end).
Proof.
  intros Hr Hmax. pose proof (represents_size l a Hr) as Hsz.
  pose proof (represents_lookup l a c Hr) as Hlk. unfold spec_fetch, fetch.
  destruct (buckets l !! c) as [el|] eqn:Hc.
  - destruct Hlk as (i1 & ent & i2 & Hk & -> & -> & _ & Hl & Hn & Hb & He). simpl.
    pose proof Hr as (items0 & Ha & _ & _ & Hnk & _).
    destruct (find_filter_split c i1.*2 ent i2.*2 Hnk Hk) as [-> ->].
    eexists. split; [done|]. split; [by split_and!|]. split; [done|].
    exists (i1 ++ i2), ent. cbn.
    assert (lru l = (i1 ++ (el, ent) :: i2).*1) as Hl' by by rewrite fmap_app, fmap_cons.
    assert ((i1 ++ i2) ++ [(el, ent)] ≡ₚ i1 ++ (el, ent) :: i2) as Hperm by solve_Permutation.
    assert (NoDup (key <$> (i1 ++ (el, ent) :: i2).*2)) as Hnk2 by by rewrite fmap_app, fmap_cons.
    rewrite fmap_app, fmap_cons in Hnk. apply NoDup_app in Hnk as (Hk1 & Hd & [Hk2 Hk3]%NoDup_cons).
    split_and!; try done.
    + by rewrite fmap_app.
    + rewrite fmap_app, Hk in *. set_solver.
    + rewrite fmap_app. apply NoDup_app. split_and!; [done|set_solver|done].
    + unfold MoveToBack. rewrite decide_True by (rewrite Hl'; set_solver).
      by rewrite Hl', remove_fst_split.
    + change [el] with ([(el, ent)] : list (nat * lruEntry)).*1. by rewrite <- fmap_app, Hperm.
    + rewrite Hb. apply list_to_map_proper; [by rewrite kmap_fst|]. unfold kmap. by rewrite Hperm.
    + intros i Hi. apply He. set_solver.
  - rewrite (proj2 (find_holds_None c a) Hlk), Hsz.
    destruct (Z.leb_spec (maxKeys l) (Z.of_nat (length a))) as [Hfull|].
    + destruct Hr as (items & -> & Hl & Hn1 & Hn2 & Hb & He).
      destruct items as [|[el ent] items]; [simpl in Hfull; lia|].
      pose proof (He (el, ent) ltac:(set_solver)) as Hel. simpl in Hel, Hlk, Hn1, Hn2, Hl |- *.
      rewrite Hl, Hel. simpl.
      apply NoDup_cons in Hn1 as [Hn1 Hn1'], Hn2 as [Hn2 Hn2'].
      eexists. split; [done|]. split; [by split_and!|]. split; [done|].
      apply not_elem_of_cons in Hlk as [Hne Hlk]. split_and!; [done| |].
      * cbn. rewrite lookup_delete_ne by congruence. done.
      * exists items. cbn. split_and!; try done.
        -- rewrite decide_False by naive_solver. by apply filter_neq_absent.
        -- rewrite Hb. cbn. apply delete_insert_id, not_elem_of_list_to_map.
           change ((λ i, (key i.2, i.1)) <$> items) with (kmap items). by rewrite kmap_fst.
        -- intros i Hi. apply He. set_solver.
    + eexists. split; [done|]. split; [by split_and!|]. done.
Qed.

Lemma store_known l c bk el items ent :
  key ent = c → buckets l !! c = Some el → lru l = items.*1 ++ [el] →
  NoDup (items.*1 ++ [el]) → c ∉ key <$> items.*2 → NoDup (key <$> items.*2) →
  elements l !! el = Some ent → buckets l = list_to_map (kmap (items ++ [(el, ent)])) →
  (∀ i, i ∈ items → elements l !! i.1 = Some i.2) →
  ∃ l', store c bk l = Some l' ∧ same_params l l' ∧ represents l' (items.*2 ++ [mkEntry c bk]).
Proof.
  intros Hk Hc Hl Hn Hnc Hnk Hel Hb He. unfold store. rewrite Hc, Hel. simpl.
  eexists. split; [done|]. split; [by split_and!|].
  exists (items ++ [(el, mkEntry c bk)]). cbn. rewrite !fmap_app; cbn. split_and!; try done.
  - apply NoDup_app. split_and!; [done| |apply NoDup_singleton]. cbn.
    intros x Hx ->%list_elem_of_singleton. done.
  - rewrite Hb. unfold kmap. rewrite !fmap_app; cbn. by rewrite Hk.
  - intros i [Hi| ->%list_elem_of_singleton]%elem_of_app; cbn.
    + rewrite lookup_insert_ne; [by apply He|]. intros ->.
      apply NoDup_app in Hn as (_ & Hd & _). apply (Hd i.1); [|by left].
      by apply list_elem_of_fmap_2.
    + by rewrite Hk, lookup_insert_eq.
Qed.

Lemma store_new l c bk a :
  represents l a → buckets l !! c = None → c ∉ key <$> a →
  ∃ l', store c bk l = Some l' ∧ same_params l l' ∧ represents l' (a ++ [mkEntry c bk]).
Proof.
  intros (items & -> & Hl & Hn1 & Hn2 & Hb & He) Hc Hnc. unfold store. rewrite Hc.
  set (el := fresh (dom (elements l))). eexists. split; [done|]. split; [by split_and!|].
  assert (elements l !! el = None) as Hel by (apply not_elem_of_dom, is_fresh).
  assert (el ∉ items.*1) as Hnel.
  { intros (i & -> & Hi)%list_elem_of_fmap. rewrite (He i Hi) in Hel. done. }
  exists (items ++ [(el, mkEntry c bk)]). cbn. rewrite !fmap_app; cbn. split_and!; try done.
  - by rewrite Hl.
  - apply NoDup_app. split_and!; [done|set_solver|apply NoDup_singleton].
  - apply NoDup_app. split_and!; [done|set_solver|apply NoDup_singleton].
  - rewrite Hb, list_to_map_snoc; [done|]. change (c ∉ (kmap items).*1). by rewrite kmap_fst.
  - intros i [Hi| ->%list_elem_of_singleton]%elem_of_app; cbn.
    + rewrite lookup_insert_ne; [by apply He|]. intros ->. rewrite (He i Hi) in Hel. done.
    + by rewrite lookup_insert_eq.
Qed.

Lemma same_params_trans l1 l2 l3 : same_params l1 l2 → same_params l2 l3 → same_params l1 l3.
Proof. unfold same_params. intuition congruence. Qed.

Lemma decide_request_params `{GoArch} now2 l l' allowed bk :
  same_params l l' → decide_request now2 l' allowed bk = decide_request now2 l allowed bk.
Proof.
  intros (Hp & Hb & _ & Hr). unfold decide_request, retry_after. by rewrite Hp, Hb, Hr.
Qed.

(** [Check] is the specification's step. *)
Lemma check_spec `{GoArch} now now2 c l a :
  represents l a → 1 <= maxKeys l →
  let '(allowed, bk, a') := spec_check l now c a in
  ∃ l', Check now now2 c l = Some (decide_request now2 l allowed bk, l') ∧
    same_params l l' ∧ represents l' a'.
Proof.
  intros Hr Hmax. unfold spec_check, Check.
  pose proof (fetch_represents now c l a Hr Hmax) as Hf.
  destruct (spec_fetch l now c a) as [bk rest].
  destruct Hf as (l1 & -> & Hp1 & Hel1 & Hcase). cbn [mbind option_bind].
  destruct (take now bk) as [allowed bk'] eqn:Ht.
  enough (∃ l2, store c bk' l1 = Some l2 ∧ same_params l1 l2 ∧
            represents l2 (rest ++ [mkEntry c bk'])) as (l2 & -> & Hp2 & Hr2).
  { pose proof (same_params_trans _ _ _ Hp1 Hp2) as Hp. exists l2. cbn [mbind option_bind].
    by rewrite (decide_request_params now2 l l2). }
  destruct (buckets l !! c) as [el|].
  - destruct Hcase as (items & ent & Hk & Hc & -> & Hnc & Hnk & Hl & Hn & Hel & Hb & He).
    apply (store_known l1 c bk' el items ent); try done; by rewrite ?Hel1.
  - destruct Hcase as (Hnc & Hc & Hrep). by apply store_new.
Qed.

(** ** Token arithmetic *)

#[export] Instance spec_float_eq_dec : EqDecision spec_float.
Proof. solve_decision. Defined.

(** A bucket's level: a finite number between zero and the capacity. *)
Definition tok_ok (cap : Z) (t : f64) : Prop :=
  fvalid t ∧ ffinite t = true ∧ 0 <= fscaled t <= cap * 2 ^ 1074.

Lemma tok_ok_full cap : 0 <= cap < 2 ^ 53 → tok_ok cap (f64_of_Z cap).
Proof.
  intros Hc. destruct (f64_of_Z_exact cap ltac:(lia)) as [Hf Hs].
  split_and!; [apply f64_of_Z_valid|done|rewrite Hs; lia|lia].
Qed.

Lemma take_ok cap now bk : tok_ok cap (tokens bk) → tok_ok cap (tokens (take now bk).2).
Proof.
  intros (Hv & Hf & Hs). unfold take. simpl. destruct (fle f1 (tokens bk)) eqn:Hle; [|done].
  destruct (f64_of_Z_exact 1 ltac:(lia)) as [Hf1 Hs1]. fold f1 in Hf1, Hs1.
  assert (fvalid f1) by apply f64_of_Z_valid.
  apply fle_scaled in Hle; [|done..].
  destruct (fsub_bounds (tokens bk) f1) as [Hff Hsf]; [done..|lia|].
  split_and!; [by apply fsub_valid|done|lia|lia].
Qed.

Lemma dur_seconds_ok d :
  0 <= d → in_i64 d → fvalid (dur_seconds d) ∧ ffinite (dur_seconds d) = true ∧
  fnonneg (dur_seconds d) = true.
Proof.
  intros Hd [_ Hi]. unfold dur_seconds, Second.
  assert (0 <= Z.quot d 1000000000 < 2 ^ 53) as Hq.
  { rewrite Z.quot_div_nonneg by lia. split; [apply Z.div_pos; lia|].
    apply Z.div_lt_upper_bound; lia. }
  assert (0 <= Z.rem d 1000000000 < 1000000000) as Hr by (apply Z.rem_bound_pos; lia).
  destruct (f64_of_Z_exact (Z.quot d 1000000000) ltac:(lia)) as [Hf1 Hs1].
  destruct (f64_of_Z_exact (Z.rem d 1000000000) ltac:(lia)) as [Hf2 Hs2].
  destruct (f64_of_Z_exact 1000000000 ltac:(lia)) as [Hf3 Hs3].
  set (x := f64_of_Z (Z.quot _ _)) in *. set (y := f64_of_Z (Z.rem _ _)) in *.
  set (z := f64_of_Z 1000000000) in *.
  assert (fvalid x ∧ fvalid y ∧ fvalid z) as (Hvx & Hvy & Hvz) by (split_and!; apply f64_of_Z_valid).
  assert (fnonneg x = true ∧ fnonneg y = true) as [Hnx Hny] by (split; apply f64_of_Z_nonneg; lia).
  assert (2 ^ 2073 = 2 ^ 999 * 2 ^ 1074) as H2073 by by rewrite <- Z.pow_add_r.
  assert (0 < 2 ^ 1074) by lia. assert (2 ^ 53 < 2 ^ 999) by (apply Z.pow_lt_mono_r; lia).
  destruct (fdiv_finite y z) as [Hfd Hsd]; [done..|rewrite Hs2, H2073; nia|lia|].
  assert (fnonneg (fdiv y z) = true) as Hnd.
  { apply fdiv_nonneg; [done| |done]. apply f64_of_Z_pos; lia. }
  assert (fvalid (fdiv y z)) as Hvd by by apply fdiv_valid.
  pose proof (fnonneg_scaled _ Hnd). pose proof (fnonneg_scaled _ Hnx).
  destruct fhuge_ok as (Hvh & Hfh & Hsh).
  destruct (fadd_bounds x (fdiv y z) fhuge Hvx Hvd Hvh Hf1 Hfd Hfh) as [Hfa _]; [lia|lia| |].
  { rewrite Hsh.
    assert (fscaled x < 2 ^ 2075).
    { rewrite Hs1. replace 2075 with (1001 + 1074) by lia. rewrite Z.pow_add_r by lia.
      apply Z.mul_lt_mono_pos_r; [lia|]. assert (2 ^ 53 < 2 ^ 1001) by (apply Z.pow_lt_mono_r; lia). lia. }
    assert (2 <= 2 ^ 11) by lia. nia. }
  split_and!; [by apply fadd_valid|done|by apply fadd_nonneg].
Qed.

Lemma minF_ok cap t :
  0 <= cap < 2 ^ 53 → fvalid t → fnonneg t = true → tok_ok cap (minF (f64_of_Z cap) t).
Proof.
  intros Hc Hv Hn. unfold minF. destruct (flt (f64_of_Z cap) t) eqn:Hlt; [by apply tok_ok_full|].
  pose proof (tok_ok_full cap Hc) as (Hvc & Hfc & _).
  destruct (f64_of_Z_exact cap ltac:(lia)) as [_ Hsc].
  assert (ffinite t = true) as Hft.
  { destruct t as [|[]| |]; try done. exfalso. clear -Hlt Hfc. by destruct (f64_of_Z cap) as [|[]| |[]]. }
  assert (fle t (f64_of_Z cap) = true) as Hle.
  { rewrite flt_not_ge in Hlt by (by apply ffinite_fnum). by apply negb_false_iff in Hlt. }
  apply fle_scaled in Hle; [|done..]. pose proof (fnonneg_scaled _ Hn). split_and!; try done; lia.
Qed.

Definition refill_rate (perMinute : Z) : f64 := fdiv (f64_of_Z perMinute) (f64_of_Z 60).

Lemma refill_rate_ok perMinute :
  1 <= perMinute < 2 ^ 53 → fvalid (refill_rate perMinute) ∧ ffinite (refill_rate perMinute) = true ∧
  fnonneg (refill_rate perMinute) = true.
Proof.
  intros Hp. unfold refill_rate.
  destruct (f64_of_Z_exact perMinute ltac:(lia)) as [Hf1 Hs1].
  destruct (f64_of_Z_exact 60 ltac:(lia)) as [Hf2 Hs2].
  assert (2 ^ 2073 = 2 ^ 999 * 2 ^ 1074) as H2073 by by rewrite <- Z.pow_add_r.
  assert (0 < 2 ^ 1074) by lia. assert (2 ^ 53 < 2 ^ 999) by (apply Z.pow_lt_mono_r; lia).
  split_and!; [auto with gohints| |].
  - apply fdiv_finite; [apply f64_of_Z_valid|apply f64_of_Z_valid|done|done|rewrite Hs1, H2073; nia|lia].
  - apply fdiv_nonneg; [done|apply f64_of_Z_pos; lia|apply f64_of_Z_nonneg; lia].
Qed.

Lemma refill_ok l now bk :
  1 <= perMinute l < 2 ^ 53 → 0 <= burst l < 2 ^ 53 → refillPerSec l = refill_rate (perMinute l) →
  tok_ok (burst l) (tokens bk) → 0 <= time_diff now (last bk) →
  tok_ok (burst l) (tokens (refill l now bk)).
Proof.
  intros Hp Hb Hr (Hv & Hf & Hs) Ht. unfold refill. simpl.
  destruct (refill_rate_ok (perMinute l) Hp) as (Hvr & Hfr & Hnr). rewrite <- Hr in *.
  destruct (dur_seconds_ok (time_sub now (last bk))) as (Hvd & Hfd & Hnd).
  { unfold time_sub, sat_i64, min_i64, max_i64. lia. } { apply sat_i64_range. }
  assert (fnonneg (tokens bk) = true) by (apply fscaled_nonneg; auto; lia).
  apply minF_ok; [done|auto with gohints|]. apply fadd_nonneg; [done|]. by apply fmul_nonneg.
Qed.

(** ** The invariant *)

(** Parameters as [New] accepts them, within the exact integers of [float64]. *)
Definition params_ok (l : Limiter) : Prop :=
  1 <= perMinute l < 2 ^ 53 ∧ 1 <= burst l < 2 ^ 53 ∧ 1 <= maxKeys l ∧
  refillPerSec l = refill_rate (perMinute l).

(** A client's entry at the monotonic time [T]. *)
Definition entry_ok (l : Limiter) (T : Z) (e : lruEntry) : Prop :=
  tok_ok (burst l) (tokens (b e)) ∧ ∃ m, mono (last (b e)) = Some m ∧ m <= T.

Definition limiter_inv (T : Z) (l : Limiter) : Prop :=
  params_ok l ∧ ∃ a, represents l a ∧ Z.of_nat (length a) <= maxKeys l ∧ Forall (entry_ok l T) a.

Lemma new_inv pm bst mk l T :
  New pm bst mk = Some l → pm < 2 ^ 53 → bst < 2 ^ 53 → limiter_inv T l.
Proof.
  unfold New. intros Hn Hp Hb. destruct (_ || _) eqn:Hg; [done|]. simplify_eq.
  apply orb_false_iff in Hg as [[Hp1%Z.ltb_ge Hb1%Z.ltb_ge]%orb_false_iff Hm%Z.ltb_ge].
  split; [by split_and!|]. exists []. split_and!; [|cbn; lia|constructor].
  exists []. split_and!; try done; try constructor. by intros i Hi%elem_of_nil.
Qed.

Lemma spec_fetch_ok l now c a T t :
  params_ok l → mono now = Some t → T <= t → Forall (entry_ok l T) a →
  Z.of_nat (length a) <= maxKeys l →
  let '(bk, rest) := spec_fetch l now c a in
  tok_ok (burst l) (tokens bk) ∧ Forall (entry_ok l T) rest ∧ rest ⊆ a ∧
  Z.of_nat (length rest) < maxKeys l.
Proof.
  intros (Hp & Hb & Hm & Hr) Hnow HT Hall Hlen. unfold spec_fetch.
  destruct (List.find (holds c) a) as [e|] eqn:Hf.
  - apply List.find_some in Hf as [Hin Hh]. apply list_elem_of_In in Hin.
    rewrite Forall_forall in Hall. destruct (Hall e Hin) as (Ht & m & Hm' & Hle).
    split_and!.
    + apply refill_ok; try done; [lia|]. unfold time_diff. rewrite Hnow, Hm'. lia.
    + apply Forall_forall. intros x [Hx _]%list_elem_of_In%List.filter_In. by apply Hall, list_elem_of_In.
    + intros x. rewrite !list_elem_of_In, List.filter_In. tauto.
    + apply list_elem_of_split in Hin as (a1 & a2 & ->).
      rewrite List.filter_app. cbn [List.filter]. rewrite Hh. cbn [negb].
      pose proof (List.filter_length_le (λ e, negb (holds c e)) a1).
      pose proof (List.filter_length_le (λ e, negb (holds c e)) a2).
      rewrite !length_app in *. cbn [length] in Hlen. lia.
  - split_and!; [apply tok_ok_full; lia|..].
    + destruct (_ <=? _); [|done]. destruct a; [done|]. by inversion Hall.
    + destruct (_ <=? _); [|done]. destruct a; [done|]. simpl. set_solver.
    + destruct (Z.leb_spec (maxKeys l) (Z.of_nat (length a))); [|lia]. destruct a; cbn in *; lia.
Qed.

Lemma retry_after_pos `{GoArch} l toks : 1 <= retry_after l toks.
Proof. unfold retry_after. destruct (Z.ltb_spec (int_of_f64 (fdiv (fsub f1 toks) (refillPerSec l)) +! 1)%go 1); lia. Qed.

Lemma check_inv `{GoArch} T t now now2 c l :
  limiter_inv T l → mono now = Some t → T <= t →
  ∃ d l', Check now now2 c l = Some (d, l') ∧ limiter_inv t l' ∧ same_params l l' ∧
    Limit d = perMinute l ∧ 0 <= Remaining d <= burst l ∧
    (Allowed d = true → RetryAfterSeconds d = 0) ∧
    (Allowed d = false → Remaining d = 0 ∧ 1 <= RetryAfterSeconds d).
Proof.
  intros (Hpar & a & Hrep & Hlen & Hall) Hnow HT. pose proof Hpar as (Hp & Hb & Hm & Hr).
  pose proof (spec_fetch_ok l now c a T t Hpar Hnow HT Hall Hlen) as Hf.
  pose proof (check_spec now now2 c l a Hrep Hm) as Hc. unfold spec_check in Hc.
  destruct (spec_fetch l now c a) as [bk rest]. destruct Hf as (Htok & Hrest & _ & Hlen').
  pose proof (take_ok (burst l) now bk Htok) as Htok'.
  destruct (take now bk) as [allowed bk'] eqn:Ht. simpl in Htok'.
  destruct Hc as (l' & -> & Hsame & Hrep'). eexists _, l'. split; [done|].
  pose proof Hsame as (Hsp & Hsb & Hsm & Hsr).
  assert (limiter_inv t l') as Hinv.
  { split; [unfold params_ok in *; by rewrite <- Hsp, <- Hsb, <- Hsm, <- Hsr|].
    exists (rest ++ [mkEntry c bk']). split_and!; [done|rewrite length_app; cbn; lia|].
    apply Forall_app. split; [|constructor; [|constructor]].
    - eapply Forall_impl; [exact Hrest|]. intros e (He & m & Hem & Hle). unfold entry_ok.
      rewrite <- Hsb. split; [done|]. exists m. split; [done|lia].
    - unfold entry_ok. rewrite <- Hsb. split; [done|]. exists t. split; [|lia].
      injection Ht as _ <-. done. }
  destruct Htok' as (Hv' & Hf' & Hs').
  destruct (ftrunc_bounds (tokens bk') (burst l) Hv' Hf' Hs') as (n & Hn & Hnb).
  assert (int_of_f64 (tokens bk') = n) as Hint.
  { apply int_of_f64_fits; [done|]. unfold in_i64. lia. }
  split_and!; try done; cbn; rewrite ?Hint; try lia; intros ->; [done|].
  split; [|apply retry_after_pos].
  assert (fle f1 (tokens bk') = false) as Hlow.
  { unfold take in Ht. destruct (fle f1 (tokens bk)) eqn:Hle; [discriminate|]. by injection Ht as <-. }
  destruct (f64_of_Z_exact 1 ltac:(lia)) as [Hf1 Hs1]. fold f1 in Hf1, Hs1.
  rewrite ftrunc_floor in Hn by (done || lia). injection Hn as <-.
  apply Z.div_small. split; [lia|]. destruct (decide (fscaled (tokens bk') < 2 ^ 1074)); [done|].
  rewrite (proj2 (fle_scaled f1 (tokens bk') (f64_of_Z_valid 1) Hv' Hf1 Hf')) in Hlow; [done|lia].
Qed.

(** ** Runs *)

(** The limiter under a sequence of requests: the two clock readings of each
    [Check] and its client. *)
Fixpoint run `{GoArch} (reqs : list (Time * Time * string)) (l : Limiter)
    : option (list Decision * Limiter) :=
  match reqs with
  | [] => Some ([], l)
  | (now, now2, c) :: reqs =>
      '(d, l) ← Check now now2 c l;
      '(ds, l) ← run reqs l;
      Some (d :: ds, l)
  end.

(** The monotonic clock never goes back along the sequence. *)
Inductive ticking : Z → list (Time * Time * string) → Prop :=
| ticking_nil T : ticking T []
| ticking_cons T t now now2 c reqs :
    mono now = Some t → T <= t → ticking t reqs → ticking T ((now, now2, c) :: reqs).

(** Whatever the sequence of requests, a limiter with valid parameters
    never dereferences a missing element, keeps at most [maxKeys] clients, and
    answers with a remaining count between 0 and the burst, a retry delay of at
    least one second exactly when it denies, and nothing remaining then. *)
Theorem limiter_run_ok `{GoArch} pm bst mk l T reqs :
  New pm bst mk = Some l → pm < 2 ^ 53 → bst < 2 ^ 53 → ticking T reqs →
  ∃ ds l', run reqs l = Some (ds, l') ∧ length ds = length reqs ∧
    Z.of_nat (size (buckets l')) <= mk ∧ size (buckets l') = length (lru l') ∧
    Forall (λ d, Limit d = pm ∧ 0 <= Remaining d <= bst ∧
      (Allowed d = true → RetryAfterSeconds d = 0) ∧
      (Allowed d = false → Remaining d = 0 ∧ 1 <= RetryAfterSeconds d)) ds.
Proof.
  intros Hnew Hp Hb Ht. pose proof (new_inv pm bst mk l T Hnew Hp Hb) as Hinv.
  assert (perMinute l = pm ∧ burst l = bst ∧ maxKeys l = mk) as (<- & <- & <-).
  { unfold New in Hnew. destruct (_ || _); [done|]. by simplify_eq. }
  clear Hnew Hp Hb. revert l Hinv. induction Ht as [T|T t now now2 c reqs Hnow HT _ IH]; intros l Hinv.
  - exists [], l. destruct Hinv as (_ & a & Hr & Hlen & _). rewrite (represents_size l a Hr).
    split_and!; try done. destruct Hr as (items & -> & -> & _). by rewrite !length_fmap.
  - destruct (check_inv T t now now2 c l Hinv Hnow HT)
      as (d & l1 & Hc & Hinv1 & (Hsp & Hsb & Hsm & _) & Hd).
    destruct (IH l1 Hinv1) as (ds & l2 & Hrun & Hl & Hsz & Hord & Hds).
    rewrite <- Hsp, <- Hsb, <- Hsm in *.
    exists (d :: ds), l2. simpl. rewrite Hc. cbn [mbind option_bind]. rewrite Hrun. cbn [mbind option_bind].
    split_and!; [done|by rewrite Hl|done|done|]. by constructor.
Qed.

(** The specification under the same sequence. *)
Fixpoint spec_run `{GoArch} (l : Limiter) (reqs : list (Time * Time * string)) (a : list lruEntry)
    : list Decision * list lruEntry :=
  match reqs with
  | [] => ([], a)
  | (now, now2, c) :: reqs =>
      let '(allowed, bk, a) := spec_check l now c a in
      let '(ds, a) := spec_run l reqs a in
      (decide_request now2 l allowed bk :: ds, a)
  end.

Lemma spec_check_params l l' now c a :
  same_params l l' → spec_check l' now c a = spec_check l now c a.
Proof.
  intros (_ & Hb & Hm & Hr). unfold spec_check, spec_fetch, refill. by rewrite Hb, Hm, Hr.
Qed.

Lemma spec_run_params `{GoArch} l l' reqs a :
  same_params l l' → spec_run l' reqs a = spec_run l reqs a.
Proof.
  intros Hs. revert a. induction reqs as [|[[now now2] c] reqs IH]; intros a; [done|]. simpl.
  rewrite (spec_check_params l l') by done. destruct (spec_check l now c a) as [[allowed bk] a'].
  by rewrite IH, (decide_request_params now2 l l').
Qed.

Lemma limiter_simulates `{GoArch} reqs l a :
  represents l a → 1 <= maxKeys l →
  ∃ l', run reqs l = Some ((spec_run l reqs a).1, l') ∧ represents l' (spec_run l reqs a).2.
Proof.
  revert l a. induction reqs as [|[[now now2] c] reqs IH]; intros l a Hr Hm; [by exists l|].
  pose proof (check_spec now now2 c l a Hr Hm) as Hc. simpl.
  destruct (spec_check l now c a) as [[allowed bk] a'].
  destruct Hc as (l1 & -> & Hs & Hr1). cbn [mbind option_bind].
  destruct (IH l1 a' Hr1) as (l2 & Hrun & Hr2); [destruct Hs as (_ & _ & <- & _); done|].
  rewrite (spec_run_params l l1) in Hrun, Hr2 by done. rewrite Hrun. cbn [mbind option_bind].
  exists l2. by destruct (spec_run l reqs a') as [ds a2].
Qed.

(** The bucket of a client, if the limiter knows it. *)
Definition client_bucket (l : Limiter) (c : string) : option bucket :=
  el ← buckets l !! c; b <$> elements l !! el.

Lemma client_bucket_spec l a c :
  represents l a → client_bucket l c = b <$> List.find (holds c) a.
Proof.
  intros Hrep. pose proof (represents_lookup l a c Hrep) as Hlk. unfold client_bucket.
  destruct (buckets l !! c) as [el|]; simpl.
  - destruct Hlk as (i1 & ent & i2 & Hk & -> & -> & (items & Ha & _ & _ & Hn & _) & _).
    by rewrite (proj1 (find_filter_split c _ ent _ Hn Hk)).
  - by rewrite (proj2 (find_holds_None c a) Hlk).
Qed.

Lemma new_represents pm bst mk l : New pm bst mk = Some l → represents l [] ∧ 1 <= maxKeys l.
Proof.
  unfold New. intros Hn. destruct (_ || _) eqn:Hg; [done|]. simplify_eq.
  apply orb_false_iff in Hg as [_ Hm%Z.ltb_ge]. split; [|done].
  exists []. split_and!; try done; try constructor. by intros i Hi%elem_of_nil.
Qed.

(** C17: the map of list elements and the intrusive list implement one list of
    clients ordered by last use: a check reads and refills the client's bucket,
    takes the least recently used client out when a new one finds the table
    full, and moves or appends the client at the back, for any request
    sequence and with the same decisions. *)
Theorem limiter_refines_lru `{GoArch} pm bst mk l reqs :
  New pm bst mk = Some l →
  ∃ l', run reqs l = Some ((spec_run l reqs []).1, l') ∧
    key <$> (spec_run l reqs []).2 = omap (λ el, key <$> elements l' !! el) (lru l') ∧
    ∀ c, client_bucket l' c = b <$> List.find (holds c) (spec_run l reqs []).2.
Proof.
  intros Hnew. destruct (new_represents pm bst mk l Hnew) as [Hr Hm].
  destruct (limiter_simulates reqs l [] Hr Hm) as (l' & Hrun & Hr'). exists l'.
  split_and!; [done| |intros c; by apply client_bucket_spec].
  destruct Hr' as (items & -> & -> & _ & _ & _ & He).
  induction items as [|[el e] items IH]; [done|]. pose proof (He (el, e) ltac:(set_solver)) as Hel.
  cbn in Hel |- *. rewrite Hel. cbn.
  f_equal. apply IH. intros i Hi. apply He. set_solver.
Qed.

(** ** One client at one instant *)

(** Whole tokens are spent exactly; 1000 is the largest configurable burst. *)
Lemma whole_tokens n :
  1 <= n <= 1000 → fle f1 (f64_of_Z n) = true ∧ fsub (f64_of_Z n) f1 = f64_of_Z (n - 1) ∧
  fadd (f64_of_Z n) f0 = f64_of_Z n.
Proof.
  intros Hn.
  assert (Forall (λ n, fle f1 (f64_of_Z n) = true ∧ fsub (f64_of_Z n) f1 = f64_of_Z (n - 1) ∧
    fadd (f64_of_Z n) f0 = f64_of_Z n) (seqZ 1 1000)) as Hall.
  { apply (bool_decide_unpack _). vm_compute. exact I. }
  rewrite Forall_forall in Hall. apply Hall, elem_of_seqZ. lia.
Qed.

Lemma refill_still l t now bk n :
  refillPerSec l = refill_rate (perMinute l) → 1 <= perMinute l < 2 ^ 53 → burst l <= 1000 →
  mono now = Some t → mono (last bk) = Some t → tokens bk = f64_of_Z n → 0 <= n <= burst l →
  tokens (refill l now bk) = f64_of_Z n.
Proof.
  intros Hr Hp Hb Hnow Hlast Htok Hn. unfold refill, time_sub, time_diff. simpl.
  rewrite Hnow, Hlast, Htok, Z.sub_diag, Hr.
  change (dur_seconds (sat_i64 0)) with f0.
  destruct (refill_rate_ok (perMinute l) Hp) as (_ & Hfr & Hnr).
  assert (fmul f0 (refill_rate (perMinute l)) = f0) as ->.
  { unfold refill_rate in *. destruct (f64_of_Z_pos (perMinute l) ltac:(lia)) as (m & e & Hm).
    destruct (f64_of_Z_pos 60 ltac:(lia)) as (m' & e' & Hm'). rewrite Hm, Hm' in *.
    pose proof (fdiv_not_negzero m e m' e') as Hnz.
    by destruct (fdiv _ _) as [[]|[]| |[]]. }
  assert (fadd (f64_of_Z n) f0 = f64_of_Z n) as ->.
  { destruct (decide (n = 0)) as [->|]; [done|]. apply whole_tokens. lia. }
  unfold minF. destruct (flt (f64_of_Z (burst l)) (f64_of_Z n)) eqn:Hlt; [exfalso|done].
  apply flt_scaled_mono in Hlt; [|apply f64_of_Z_valid|apply f64_of_Z_valid|apply f64_of_Z_exact; lia..].
  destruct (f64_of_Z_exact n ltac:(lia)) as [_ Hs1].
  destruct (f64_of_Z_exact (burst l) ltac:(lia)) as [_ Hs2]. rewrite Hs1, Hs2 in Hlt. nia.
Qed.

Definition requests_at (c : string) (clock : list (Time * Time)) : list (Time * Time * string) :=
  (λ t, (t.1, t.2, c)) <$> clock.

(** Spending whole tokens at one instant, as long as they last. *)
Lemma spec_run_spending `{GoArch} l c t clock rest n bk :
  params_ok l → burst l <= 1000 → Forall (λ p, mono p.1 = Some t) clock →
  c ∉ key <$> rest → 0 <= n <= burst l → tokens bk = f64_of_Z n → mono (last bk) = Some t →
  ∀ i d, (spec_run l (requests_at c clock) (rest ++ [mkEntry c bk])).1 !! i = Some d →
    Allowed d = bool_decide (Z.of_nat i < n).
Proof.
  intros (Hp & Hb & _ & Hr) Hmax Hclock Hc. revert n bk.
  induction Hclock as [|[now now2] clock Hnow Hclock IH]; intros n bk Hn Htok Hlast i d; [done|].
  simpl in Hnow |- *. unfold spec_check, spec_fetch.
  assert (NoDup (key <$> [mkEntry c bk])) as Hnd by apply NoDup_singleton.
  rewrite List.filter_app, filter_holds_absent by done.
  replace (List.find (holds c) (rest ++ [mkEntry c bk])) with (Some (mkEntry c bk)).
  2:{ clear -Hc. induction rest as [|x rest IH]; simpl; unfold holds at 1.
      - by rewrite String.eqb_refl.
      - destruct (String.eqb_spec (key x) c); [set_solver|]. apply IH. set_solver. }
  cbn [List.filter]. unfold holds. cbn [key]. rewrite String.eqb_refl. cbn [negb].
  rewrite app_nil_r. cbn [b].
  pose proof (refill_still l t now bk n Hr Hp Hmax Hnow Hlast Htok Hn) as Href.
  unfold take. rewrite Href. cbn [fst snd].
  destruct (decide (n = 0)) as [->|Hne].
  - change (fle f1 (f64_of_Z 0)) with false. cbv iota.
    pose proof (IH 0 (mkBucket (f64_of_Z 0) now) ltac:(lia) eq_refl Hnow) as Hrest.
    destruct (spec_run l _ _) as [ds a2]. cbn [fst] in *.
    destruct i as [|i]; simpl; [intros [= <-]; done|]. intros Hi. rewrite (Hrest i d Hi).
    apply bool_decide_eq_false. lia.
  - destruct (whole_tokens n ltac:(lia)) as (Hle & Hsub & _). rewrite Hle, Hsub.
    pose proof (IH (n - 1) (mkBucket (f64_of_Z (n - 1)) now) ltac:(lia) eq_refl Hnow) as Hrest.
    destruct (spec_run l _ _) as [ds a2]. cbn [fst] in *.
    destruct i as [|i]; simpl.
    + intros [= <-]. simpl. symmetry. apply bool_decide_eq_true. lia.
    + intros Hi. rewrite (Hrest i d Hi). apply bool_decide_ext. lia.
Qed.

(** At one instant a client the limiter does not know gets exactly [burst]
    requests through, then only denials, however many it sends (bursts up to
    the configurable maximum of 1000). *)
Theorem burst_at_one_instant `{GoArch} T t l c clock ds l' :
  limiter_inv T l → T <= t → burst l <= 1000 → buckets l !! c = None →
  Forall (λ p, mono p.1 = Some t) clock →
  run (requests_at c clock) l = Some (ds, l') →
  ∀ i d, ds !! i = Some d → Allowed d = bool_decide (Z.of_nat i < burst l).
Proof.
  intros (Hpar & a & Hrep & Hlen & Hall) HT Hmax Hc Hclock Hrun.
  pose proof Hpar as (Hp & Hb & Hm & Hr).
  destruct (limiter_simulates (requests_at c clock) l a Hrep Hm) as (l2 & Hrun2 & _).
  rewrite Hrun in Hrun2. injection Hrun2 as -> _. clear Hrun.
  pose proof (represents_lookup l a c Hrep) as Hlk. rewrite Hc in Hlk.
  destruct Hclock as [|[now now2] clock Hnow Hclock]; [done|].
  simpl in Hnow |- *. unfold spec_check, spec_fetch.
  rewrite (proj2 (find_holds_None c a) Hlk). unfold take. cbn [tokens].
  destruct (whole_tokens (burst l) ltac:(lia)) as (Hle & Hsub & _). rewrite Hle, Hsub.
  set (rest := if _ <=? _ then _ else _).
  assert (c ∉ key <$> rest) as Hrest.
  { unfold rest. destruct (_ <=? _); [|done]. destruct a; [done|]. set_solver. }
  pose proof (spec_run_spending l c t clock rest (burst l - 1)
    (mkBucket (f64_of_Z (burst l - 1)) now) Hpar Hmax Hclock Hrest ltac:(lia) eq_refl Hnow) as Hsp.
  destruct (spec_run l _ _) as [ds a2]. cbn [fst] in *. intros [|i] d; simpl.
  - intros [= <-]. simpl. symmetry. apply bool_decide_eq_true. lia.
  - intros Hi. rewrite (Hsp i d Hi). apply bool_decide_ext. lia.
Qed.

Lemma find_holds_filter c c' a :
  c ≠ c' → List.find (holds c') (List.filter (λ e, negb (holds c e)) a) = List.find (holds c') a.
Proof.
  intros Hne. induction a as [|e a IH]; [done|]. simpl.
  destruct (holds c e) eqn:Hh; simpl; rewrite IH; [|done].
  unfold holds in *. apply String.eqb_eq in Hh. by rewrite (proj2 (String.eqb_neq (key e) c')) by congruence.
Qed.

Lemma find_holds_snoc c c' a bk :
  c ≠ c' → List.find (holds c') (a ++ [mkEntry c bk]) = List.find (holds c') a.
Proof.
  intros Hne. induction a as [|e a IH]; simpl; [|by rewrite IH].
  unfold holds. cbn [key]. by rewrite (proj2 (String.eqb_neq c c') Hne).
Qed.

(** A check for one client leaves every other client's bucket as it was,
    except that a new client in a full table evicts the least recently used
    one. *)
Theorem check_isolates_clients `{GoArch} now now2 c c' l a d l' :
  represents l a → 1 <= maxKeys l → Check now now2 c l = Some (d, l') → c ≠ c' →
  client_bucket l' c' = client_bucket l c' ∨
  (client_bucket l' c' = None ∧ client_bucket l c = None ∧
   maxKeys l <= Z.of_nat (size (buckets l)) ∧ key <$> head a = Some c').
Proof.
  intros Hrep Hm Hcheck Hne. pose proof (check_spec now now2 c l a Hrep Hm) as Hc.
  unfold spec_check in Hc. destruct (spec_fetch l now c a) as [bk rest] eqn:Hf.
  destruct (take now bk) as [allowed bk'] eqn:Ht.
  destruct Hc as (l1 & Hc & _ & Hrep1). rewrite Hcheck in Hc. injection Hc as _ <-.
  rewrite (client_bucket_spec l' _ c' Hrep1), !(client_bucket_spec l a _ Hrep).
  rewrite find_holds_snoc by done. rewrite (represents_size l a Hrep).
  unfold spec_fetch in Hf. destruct (List.find (holds c) a) as [e|] eqn:Hfc.
  - injection Hf as _ <-. left. by rewrite find_holds_filter.
  - injection Hf as _ <-. destruct (Z.leb_spec (maxKeys l) (Z.of_nat (length a))); [|by left].
    destruct a as [|e a]; [by left|]. simpl. unfold holds at 2.
    destruct (String.eqb_spec (key e) c') as [<-|]; [right|by left].
    destruct Hrep as (items & _ & _ & _ & Hn & _). apply NoDup_cons in Hn as [Hn _].
    split_and!; [|done|done|done]. by rewrite (proj2 (find_holds_None _ _) Hn).
Qed.

(** ** Client identification *)

Lemma last_index_byte_none s c : no_byte c s → last_index_byte s c = None.
Proof.
  induction s as [|d s IH]; [done|]. intros [Hne Hn]%no_byte_cons. simpl. rewrite (IH Hn).
  by destruct (Ascii.eqb_spec c d).
Qed.

Lemma last_index_byte_app t c u :
  no_byte c u → last_index_byte (t +:+ String c u) c = Some (String.length t).
Proof.
  intros Hu. induction t as [|d t IH]; simpl.
  - rewrite (last_index_byte_none u c Hu). by rewrite Ascii.eqb_refl.
  - by rewrite IH.
Qed.

Lemma str_take_app t u : str_take (String.length t) (t +:+ u) = t.
Proof. induction t as [|d t IH]; simpl; [by destruct u|by rewrite IH]. Qed.

(** The client is the first address of a trusted [X-Forwarded-For] header
    when that address is not blank, and the remote address without its port
    otherwise; the identifier is never empty. *)
Theorem client_id_resolution r trustXFF :
  let first := trim_space (fst (cut (XForwardedFor r) ","%char)) in
  ClientIDFor r trustXFF ≠ "" ∧
  (trustXFF = true → first ≠ "" → ClientIDFor r trustXFF = first) ∧
  (trustXFF = false ∨ first = "" →
   ∀ host port, RemoteAddr r = host +:+ ":" +:+ port → no_byte ":"%char port → host ≠ "" →
   ClientIDFor r trustXFF = host).
Proof.
  cbn zeta. unfold ClientIDFor. set (first := trim_space _).
  assert (XForwardedFor r = "" → first = "") as Hblank.
  { unfold first. by intros ->. }
  split_and!.
  - destruct trustXFF, (String.eqb_spec (XForwardedFor r) ""), (String.eqb_spec first "");
      simpl; try done; by destruct (String.eqb_spec (host_of (RemoteAddr r)) "").
  - intros -> Hf. destruct (String.eqb_spec (XForwardedFor r) "") as [Hx|]; [by destruct Hf; apply Hblank|].
    by destruct (String.eqb_spec first "").
  - intros Hno host port Hr Hport Hhost.
    assert (trustXFF && negb (String.eqb (XForwardedFor r) "") && negb (String.eqb first "") = false) as ->.
    { destruct Hno as [->| ->]; [done|]. by rewrite String.eqb_refl, andb_false_r. }
    assert (host_of (RemoteAddr r) = host) as ->.
    { unfold host_of. rewrite Hr. change (":" +:+ port) with (String ":"%char port).
      rewrite last_index_byte_app by done. apply str_take_app. }
    by destruct (String.eqb_spec host "").
Qed.

(** ** Witnesses *)

Definition at_second (s : Z) : Time := mkTime (s * Second) (Some (s * Second)).
Definition sample : Limiter :=
  mkLimiter 30 2 2 (fdiv (f64_of_Z 30) (f64_of_Z 60)) ∅ ∅ [].
Definition sample_requests : list (Time * Time * string) :=
  (λ p, (at_second p.1, at_second p.1, p.2)) <$>
    [(1, "a"); (1, "a"); (1, "a"); (2, "b"); (4, "c"); (9, "a")].

Lemma sample_ticking : ticking 0 sample_requests.
Proof. repeat (econstructor; [reflexivity|vm_compute; discriminate|]). constructor. Qed.

Lemma limiter_run_ok_witness :
  (∃ ds l', run sample_requests sample = Some (ds, l') ∧ length ds = 6%nat) ∧
  Allowed <$> default [] (fst <$> run sample_requests sample) = [true; true; false; true; true; true].
Proof.
  split; [|vm_compute; reflexivity].
  destruct (limiter_run_ok 30 2 2 sample 0 sample_requests) as (ds & l' & Hr & Hl & _);
    [reflexivity|lia|lia|apply sample_ticking|]. exists ds, l'. split; [exact Hr|exact Hl].
Defined.

Lemma limiter_refines_lru_witness :
  key <$> (spec_run sample sample_requests []).2 = ["c"; "a"] ∧
  ∃ l', run sample_requests sample = Some ((spec_run sample sample_requests []).1, l').
Proof.
  split; [vm_compute; reflexivity|].
  destruct (limiter_refines_lru 30 2 2 sample sample_requests) as (l' & Hr & _); [reflexivity|].
  exists l'. exact Hr.
Defined.

Lemma burst_at_one_instant_witness :
  ∃ ds l', run (requests_at "a" (repeat (at_second 5, at_second 5) 4)) sample = Some (ds, l') ∧
    ∀ i d, ds !! i = Some d → Allowed d = bool_decide (Z.of_nat i < 2).
Proof.
  destruct (run (requests_at "a" (repeat (at_second 5, at_second 5) 4)) sample) as [[ds l']|] eqn:Hr.
  2:{ vm_compute in Hr. discriminate Hr. }
  exists ds, l'. split; [reflexivity|].
  apply (burst_at_one_instant 0 (5 * Second) sample "a" (repeat (at_second 5, at_second 5) 4) ds l');
    [apply (new_inv 30 2 2); [reflexivity|lia|lia]|vm_compute; discriminate|vm_compute; discriminate
    |reflexivity|repeat constructor|exact Hr].
Defined.

Lemma check_isolates_clients_witness :
  ∃ d l', Check (at_second 1) (at_second 1) "a" sample = Some (d, l') ∧
    client_bucket l' "b" = client_bucket sample "b".
Proof.
  destruct (Check (at_second 1) (at_second 1) "a" sample) as [[d l']|] eqn:Hc.
  2:{ vm_compute in Hc. discriminate Hc. }
  exists d, l'. split; [reflexivity|].
  destruct (check_isolates_clients (at_second 1) (at_second 1) "a" "b" sample [] d l')
    as [Hb|(_ & _ & _ & Hh)];
    [apply (new_represents 30 2 2); reflexivity|cbn; lia|exact Hc|discriminate|exact Hb|discriminate Hh].
Defined.

Lemma client_id_resolution_witness :
  ClientIDFor (mkRequest " 10.0.0.7 , 10.1.1.1" "192.168.0.1:5050") true = "10.0.0.7" ∧
  ClientIDFor (mkRequest "" "192.168.0.1:5050") true = "192.168.0.1".
Proof.
  split.
  - by apply (client_id_resolution (mkRequest " 10.0.0.7 , 10.1.1.1" "192.168.0.1:5050") true).
  - by apply (client_id_resolution (mkRequest "" "192.168.0.1:5050") true) with "5050"; [right|..].
Defined.
