(* ===== verification/Ring.v ===== *)
(** * The per-request ring store ([internal/obs/ring.go])

    Heartbeats and timings, keyed by request id: the newest [max] events of each
    request, dropped once a request has not been touched for the time to live.
    The clock reading of each operation is its argument. *)
From Stdlib Require Import ZArith Lia Bool SpecFloat String.
From stdpp Require Import base tactics list gmap strings.
From S2P Require Import Prelude GoFloat GoString GoTime Types.
From stdpp Require Import list.
Local Open Scope Z_scope.

Definition Event : Type := gmap string any.

Record RingStore : Type := mkRing {
  max : Z;
  ttl : Z;
  store : gmap string (list Event);
  lastTouched : gmap string Time
}.

Definition NewRingStore (maxPerRequest ttl : Z) : RingStore := mkRing maxPerRequest ttl ∅ ∅.
Definition HeartbeatStore : RingStore := NewRingStore 5000 (30 * Minute).
Definition TimingStore : RingStore := NewRingStore 1000 (30 * Minute).

(** [expired s now rid]: the request was last touched longer than [ttl] ago. *)
Definition expired (s : RingStore) (now : Time) (rid : string) : bool :=
  match lastTouched s !! rid with
  | Some touched => ttl s <? time_sub now touched
  | None => false
  end.

Definition evictLocked (now : Time) (s : RingStore) : RingStore :=
  mkRing (max s) (ttl s)
    (filter (λ p, expired s now p.1 = false) (store s))
    (filter (λ p, expired s now p.1 = false) (lastTouched s)).

(** [buf[len(buf)-max:]]; the outer [None] is the out-of-range panic of a
    negative [max]. *)
Definition trim (max : Z) (buf : list Event) : option (list Event) :=
  if max <? Z.of_nat (length buf) then
    if max <? 0 then None else Some (last_n (Z.to_nat max) buf)
  else Some buf.

Definition ignored (requestID : string) : bool :=
  String.eqb requestID "" || String.eqb requestID "-".

Definition stamp (now : Time) (ev : Event) : Event :=
  <["received_at" := AInt (unix_nano now)]> ev.

(** [RingStore.Record] *)
Definition Record_ (now : Time) (requestID : string) (ev : Event) (s : RingStore)
    : option RingStore :=
  if ignored requestID then Some s
  else
    buf ← trim (max s) (default [] (store s !! requestID) ++ [stamp now ev]);
    Some (evictLocked now
      (mkRing (max s) (ttl s) (<[requestID := buf]> (store s))
         (<[requestID := now]> (lastTouched s)))).

(** [RingStore.Get] *)
Definition Get (now : Time) (requestID : string) (s : RingStore) : list Event * RingStore :=
  if String.eqb requestID "" then ([], s)
  else
    let s := evictLocked now s in
    (default [] (store s !! requestID), s).

(** [RingStore.Forget] *)
Definition Forget (requestID : string) (s : RingStore) : RingStore :=
  mkRing (max s) (ttl s) (delete requestID (store s)) (delete requestID (lastTouched s)).

(** ** The invariant *)

Definition ring_inv (s : RingStore) : Prop :=
  0 <= max s ∧ dom (store s) = dom (lastTouched s) ∧
  map_Forall (λ _ buf, Z.of_nat (length buf) <= max s) (store s).

Lemma trim_spec max buf : 0 <= max → trim max buf = Some (last_n (Z.to_nat max) buf).
Proof.
  intros Hm. unfold trim. destruct (Z.ltb_spec max (Z.of_nat (length buf))).
  - by destruct (Z.ltb_spec max 0); [lia|].
  - rewrite last_n_all; [done|lia].
Qed.

Lemma evict_lookup now s rid :
  store (evictLocked now s) !! rid = if expired s now rid then None else store s !! rid.
Proof.
  unfold evictLocked. cbn. rewrite map_lookup_filter. destruct (store s !! rid); cbn.
  - destruct (expired s now rid); [by rewrite option_guard_False|by rewrite option_guard_True].
  - by destruct (expired _ _ _).
Qed.

Lemma evict_touched now s rid :
  lastTouched (evictLocked now s) !! rid = if expired s now rid then None else lastTouched s !! rid.
Proof.
  unfold evictLocked. cbn. rewrite map_lookup_filter. destruct (lastTouched s !! rid); cbn.
  - destruct (expired s now rid); [by rewrite option_guard_False|by rewrite option_guard_True].
  - by destruct (expired _ _ _).
Qed.

Lemma evict_inv now s : ring_inv s → ring_inv (evictLocked now s).
Proof.
  intros (Hm & Hd & Hb). split_and!; [done| |].
  - apply set_eq. intros rid. rewrite !elem_of_dom, evict_lookup, evict_touched.
    destruct (expired s now rid); [done|]. by rewrite <- !elem_of_dom, Hd.
  - intros rid buf. rewrite evict_lookup. destruct (expired s now rid); [done|]. apply Hb.
Qed.

Lemma record_inv now rid ev s : ring_inv s → ∃ s', Record_ now rid ev s = Some s' ∧ ring_inv s'.
Proof.
  intros (Hm & Hd & Hb). unfold Record_. destruct (ignored rid); [by exists s|].
  rewrite trim_spec by done. simpl. eexists. split; [done|]. apply evict_inv. split_and!; [done| |].
  - cbn. by rewrite !dom_insert_L, Hd.
  - cbn. apply map_Forall_insert_2; [|done]. rewrite last_n_length. lia.
Qed.

(** ** Runs of the store *)

Inductive op : Type :=
| ORecord (now : Time) (rid : string) (ev : Event)
| OGet (now : Time) (rid : string)
| OForget (rid : string).

Definition step (s : RingStore) (o : op) : option RingStore :=
  match o with
  | ORecord now rid ev => Record_ now rid ev s
  | OGet now rid => Some (Get now rid s).2
  | OForget rid => Some (Forget rid s)
  end.

Definition steps (ops : list op) (s : RingStore) : option RingStore :=
  foldl (λ acc o, acc ≫= λ s, step s o) (Some s) ops.

Lemma step_inv s o : ring_inv s → ∃ s', step s o = Some s' ∧ ring_inv s' ∧ max s' = max s ∧ ttl s' = ttl s.
Proof.
  intros Hi. destruct o as [now rid ev|now rid|rid]; simpl.
  - destruct (record_inv now rid ev s Hi) as (s' & Hr & Hi'). exists s'. split_and!; [done|done|..];
      unfold Record_ in Hr; destruct (ignored rid); simplify_eq; try done;
      by apply bind_Some in Hr as (buf & _ & [= <-]).
  - eexists. split; [done|]. unfold Get. destruct (String.eqb rid ""); [done|].
    split_and!; [by apply evict_inv|done|done].
  - eexists. split; [done|]. destruct Hi as (Hm & Hd & Hb).
    split_and!; [split_and!; [done| |]|done|done].
    + change (dom (delete rid (store s)) = dom (delete rid (lastTouched s))). by rewrite !dom_delete_L, Hd.
    + by apply (map_Forall_delete _ (store s)).
Qed.

Lemma steps_cons o ops s : steps (o :: ops) s = step s o ≫= steps ops.
Proof.
  unfold steps. simpl. destruct (step s o); [done|]. simpl. by induction ops.
Qed.

Lemma steps_inv ops s : ring_inv s → ∃ s', steps ops s = Some s' ∧ ring_inv s' ∧ max s' = max s ∧ ttl s' = ttl s.
Proof.
  revert s. induction ops as [|o ops IH]; intros s Hi; [by exists s|].
  rewrite steps_cons. destruct (step_inv s o Hi) as (s1 & -> & Hi1 & Hm1 & Ht1). simpl.
  destruct (IH s1 Hi1) as (s2 & -> & Hi2 & Hm2 & Ht2). exists s2. by rewrite Hm2, Ht2.
Qed.

(** ** Theorems *)

(** The events a run stores for a request: those recorded after the last
    [Forget] of it, stamped with their arrival time. *)
Fixpoint history (rid : string) (acc : list Event) (ops : list op) : list Event :=
  match ops with
  | [] => acc
  | ORecord now rid' ev :: ops =>
      history rid (if String.eqb rid' rid then acc ++ [stamp now ev] else acc) ops
  | OForget rid' :: ops => history rid (if String.eqb rid' rid then [] else acc) ops
  | OGet _ _ :: ops => history rid acc ops
  end.

(** All clock readings of a run fall in a window shorter than the time to live. *)
Definition op_within (t0 w : Z) (o : op) : Prop :=
  match o with
  | ORecord now _ _ | OGet now _ => ∃ m, mono now = Some m ∧ t0 <= m <= t0 + w
  | OForget _ => True
  end.

(** Every touch recorded so far is in the window. *)
Definition touched_within (t0 w : Z) (s : RingStore) : Prop :=
  map_Forall (λ _ t, ∃ m, mono t = Some m ∧ t0 <= m <= t0 + w) (lastTouched s).

Lemma not_expired_within t0 w s now rid m :
  touched_within t0 w s → 0 <= w <= ttl s → w < 2 ^ 63 → mono now = Some m → t0 <= m <= t0 + w →
  expired s now rid = false.
Proof.
  intros Ht Hw Hw' Hnow Hm. unfold expired. destruct (lastTouched s !! rid) as [u|] eqn:Hu; [|done].
  destruct (Ht rid u Hu) as (k & Hk & Hb). unfold time_sub, time_diff. rewrite Hnow, Hk.
  rewrite sat_i64_id by (unfold in_i64; lia). apply Z.ltb_ge. lia.
Qed.

Lemma evict_nothing s now : (∀ rid, expired s now rid = false) → evictLocked now s = s.
Proof.
  intros He. destruct s as [mx tl st lt]. unfold evictLocked. cbn. f_equal; apply map_filter_id; intros; apply He.
Qed.

Lemma steps_history t0 w rid acc ops s s' :
  ring_inv s → 0 <= w <= ttl s → w < 2 ^ 63 → touched_within t0 w s → Forall (op_within t0 w) ops →
  rid ≠ "" → rid ≠ "-" →
  default [] (store s !! rid) = last_n (Z.to_nat (max s)) acc →
  steps ops s = Some s' →
  default [] (store s' !! rid) = last_n (Z.to_nat (max s)) (history rid acc ops) ∧
  touched_within t0 w s'.
Proof.
  intros Hi Hw Hw' Ht Hops Hr1 Hr2. revert s acc Hi Hw Ht.
  induction Hops as [|o ops Ho Hops IH]; intros s acc Hi Hw Ht Hst Hsteps.
  { injection Hsteps as <-. done. }
  rewrite steps_cons in Hsteps. pose proof (step_inv s o Hi) as (s1 & Hs1 & Hi1 & Hm1 & Htl1).
  rewrite Hs1 in Hsteps. simpl in Hsteps. rewrite <- Hm1.
  assert (touched_within t0 w s1 ∧ default [] (store s1 !! rid) =
    last_n (Z.to_nat (max s1)) (history rid acc [o])) as [Ht1 Hst1].
  { clear IH Hsteps. rewrite Hm1. destruct o as [now rid' ev|now rid'|rid']; simpl in Hs1, Ho |- *.
    - destruct Ho as (m & Hm & Hb). unfold Record_ in Hs1.
      destruct (ignored rid') eqn:Hig.
      { injection Hs1 as <-. split; [done|]. destruct (String.eqb_spec rid' rid) as [->|]; [|done].
        unfold ignored in Hig. apply orb_true_iff in Hig as [?%String.eqb_eq|?%String.eqb_eq]; done. }
      rewrite trim_spec in Hs1 by apply Hi. simpl in Hs1. injection Hs1 as <-.
      match goal with |- touched_within _ _ (evictLocked _ ?x) ∧ _ => set (s2 := x) end.
      assert (touched_within t0 w s2) as Ht2.
      { unfold touched_within; cbn. apply map_Forall_insert_2; [by exists m|done]. }
      rewrite evict_nothing by (intros; by eapply (not_expired_within t0 w s2)).
      split; [done|]. cbn. destruct (String.eqb_spec rid' rid) as [->|Hne].
      + rewrite lookup_insert_eq. simpl. by rewrite Hst, last_n_app.
      + by rewrite lookup_insert_ne.
    - destruct Ho as (m & Hm & Hb). injection Hs1 as <-. unfold Get.
      destruct (String.eqb rid' ""); [done|]. cbn [snd].
      by rewrite evict_nothing by (intros; by eapply not_expired_within).
    - injection Hs1 as <-. split; [by apply (map_Forall_delete _ (lastTouched s))|]. cbn.
      destruct (String.eqb_spec rid' rid) as [->|Hne].
      + by rewrite lookup_delete_eq.
      + by rewrite lookup_delete_ne. }
  replace (history rid acc (o :: ops)) with (history rid (history rid acc [o]) ops) by by destruct o.
  apply (IH s1); [done|by rewrite Htl1|done|done|done].
Qed.

(** However recording, reading and forgetting interleave, as long as the
    operations stay within the time to live, the store holds for each request
    the newest [max] of its events since it was last forgotten, in order and
    stamped with their arrival time, and reading returns them. *)
Theorem ring_keeps_newest mx tl t0 w ops now rid :
  0 <= mx → 0 <= w <= tl → w < 2 ^ 63 → rid ≠ "" → rid ≠ "-" →
  Forall (op_within t0 w) ops → op_within t0 w (OGet now rid) →
  ∃ s, steps ops (NewRingStore mx tl) = Some s ∧
    (Get now rid s).1 = last_n (Z.to_nat mx) (history rid [] ops).
Proof.
  intros Hmx Hw Hw' Hr1 Hr2 Hops (m & Hm & Hb).
  assert (ring_inv (NewRingStore mx tl)) as Hi.
  { split_and!; [done|set_solver|apply map_Forall_empty]. }
  destruct (steps_inv ops _ Hi) as (s & Hs & Hi' & Hmax & Httl). exists s. split; [done|].
  destruct (steps_history t0 w rid [] ops _ s Hi Hw Hw') as [Hst Ht]; try done.
  unfold Get. destruct (String.eqb_spec rid ""); [done|]. cbn [fst].
  rewrite evict_nothing; [done|]. intros rid'. eapply (not_expired_within t0 w); eauto.
  by rewrite Httl.
Qed.

(** A request not touched for longer than the time to live is gone at the
    next read: none of its events are returned and none are kept; the two maps
    of the store always agree on the live requests and no request ever holds
    more than [max] events. *)
Theorem ring_bounded_and_expiring mx tl ops now rid :
  0 <= mx →
  ∃ s, steps ops (NewRingStore mx tl) = Some s ∧
    dom (store s) = dom (lastTouched s) ∧
    map_Forall (λ _ buf, Z.of_nat (length buf) <= mx) (store s) ∧
    (∀ touched, rid ≠ "" → lastTouched s !! rid = Some touched → tl < time_sub now touched →
       (Get now rid s).1 = [] ∧ store (Get now rid s).2 !! rid = None).
Proof.
  intros Hmx.
  assert (ring_inv (NewRingStore mx tl)) as Hi.
  { split_and!; [done|set_solver|apply map_Forall_empty]. }
  destruct (steps_inv ops _ Hi) as (s & Hs & (_ & Hd & Hb) & Hmax & Httl). exists s.
  rewrite Hmax in Hb. split_and!; [done|done|done|]. intros touched Hne Ht Hexp.
  unfold Get. destruct (String.eqb_spec rid ""); [done|]. cbn [fst snd].
  rewrite evict_lookup. unfold expired. rewrite Ht, Httl. cbn.
  by rewrite (proj2 (Z.ltb_lt _ _) Hexp).
Qed.

(** ** Witnesses *)

Definition tick (s : Z) : Time := mkTime (s * Second) (Some (s * Second)).
Definition sample_ops : list op :=
  [ORecord (tick 1) "r1" ∅; ORecord (tick 2) "r2" ∅; ORecord (tick 3) "r1" ∅; ORecord (tick 4) "r1" ∅].

Lemma ring_keeps_newest_witness :
  ∃ s, steps sample_ops (NewRingStore 2 (30 * Minute)) = Some s ∧
    (Get (tick 5) "r1" s).1 = [stamp (tick 3) ∅; stamp (tick 4) ∅].
Proof.
  destruct (ring_keeps_newest 2 (30 * Minute) 0 (10 * Second) sample_ops (tick 5) "r1")
    as (s & Hs & Hg); [lia|vm_compute; split; discriminate|vm_compute; reflexivity|done|done| | |].
  - repeat constructor; eexists; (split; [reflexivity|vm_compute; split; discriminate]).
  - eexists; split; [reflexivity|vm_compute; split; discriminate].
  - exists s. split; [exact Hs|]. rewrite Hg. reflexivity.
Defined.

Lemma ring_bounded_and_expiring_witness :
  ∃ s, steps sample_ops (NewRingStore 2 (30 * Minute)) = Some s ∧ (Get (tick 1805) "r1" s).1 = [].
Proof.
  destruct (ring_bounded_and_expiring 2 (30 * Minute) sample_ops (tick 1805) "r1")
    as (s & Hs & _ & _ & Hexp); [lia|].
  exists s. split; [exact Hs|]. apply (Hexp (tick 4)); [done| |vm_compute; reflexivity].
  vm_compute in Hs. injection Hs as <-. reflexivity.
Defined.
