(* ===== verification/Progress.v ===== *)
(** * Job progress ([internal/obs/progress.go])

    One record per running request, from which the user interface computes a
    weighted percentage over the load (30%), render (65%) and merge (5%)
    phases. *)
From Stdlib Require Import ZArith Lia Bool SpecFloat String.
From stdpp Require Import base tactics list gmap strings.
From S2P Require Import Prelude GoFloat GoString GoTime Types.
From stdpp Require Import list.
Local Open Scope Z_scope.

Definition progressTTL : Z := 30 * Minute.

Record JobProgress : Type := mkProgress {
  TotalChunks : Z;
  ChunksRendered : Z;
  Phase : string;
  LoadProgress : f64;
  MergeDone : f64;
  StartedAt : f64;
  lastTouched : Time
}.

Definition clamp01 (v : f64) : f64 :=
  if flt v f0 then f0 else if flt f1 v then f1 else v.

Definition max64 (a b : f64) : f64 := if flt b a then a else b.

Definition nowEpoch (now : Time) : f64 := epoch_seconds now.

(** [JobProgress.WeightedPercent] *)
Definition chunk_pct (j : JobProgress) : f64 :=
  if 0 <? TotalChunks j then
    let p := fdiv (f64_of_Z (ChunksRendered j)) (f64_of_Z (TotalChunks j)) in
    if flt f1 p then f1 else p
  else f0.

Definition WeightedPercent (j : JobProgress) : f64 :=
  let pct := (f64_ratio 30 100 * LoadProgress j + f64_ratio 65 100 * chunk_pct j
              + f64_ratio 5 100 * MergeDone j)%f64 in
  if String.eqb (Phase j) "complete" then f1
  else
    let pct := if flt pct f0 then f0 else pct in
    if flt (f64_ratio 999 1000) pct then f64_ratio 999 1000 else pct.

(** [JobProgress.ToDict] *)
Definition ToDict (now : Time) (j : JobProgress) : gmap string any :=
  list_to_map [
    ("total_chunks", AInt (TotalChunks j));
    ("chunks_rendered", AInt (ChunksRendered j));
    ("phase", AStr (Phase j));
    ("load_progress", AFloat (LoadProgress j));
    ("merge_done", AFloat (MergeDone j));
    ("started_at", AFloat (StartedAt j));
    ("weighted_percent", AFloat (WeightedPercent j));
    ("elapsed_s", AFloat (max64 f0 (fsub (nowEpoch now) (StartedAt j))))].

(** [None] is a nil pointer: leave the field unchanged. *)
Record ProgressUpdate : Type := mkUpdate {
  UTotalChunks : option Z;
  UPhase : option string;
  ULoadProgress : option f64;
  UMergeDone : option f64;
  UIncrementChunks : Z
}.

Record JobProgressStore : Type := mkStore { ttl : Z; store : gmap string JobProgress }.
Definition NewJobProgressStore : JobProgressStore := mkStore progressTTL ∅.

Definition evictLocked (now : Time) (s : JobProgressStore) : JobProgressStore :=
  mkStore (ttl s) (filter (λ p, (ttl s <? time_sub now (lastTouched p.2)) = false) (store s)).

(** What [Update] does to the record it found or made, field by field. *)
Definition apply_update (now : Time) (u : ProgressUpdate) (j : JobProgress) : JobProgress :=
  mkProgress
    (default (TotalChunks j) (UTotalChunks u))
    (if UIncrementChunks u =? 0 then ChunksRendered j else (ChunksRendered j +! UIncrementChunks u)%go)
    (default (Phase j) (UPhase u))
    (match ULoadProgress u with
     | Some v => if flt (LoadProgress j) v then clamp01 v else LoadProgress j
     | None => LoadProgress j
     end)
    (match UMergeDone u with Some v => clamp01 v | None => MergeDone j end)
    (StartedAt j)
    now.

Definition fresh_progress (now now2 : Time) : JobProgress :=
  mkProgress 0 0 "init" f0 f0 (nowEpoch now2) now.

(** [JobProgressStore.Update]; [now2] is the clock reading of [nowEpoch]. *)
Definition Update (now now2 : Time) (rid : string) (u : ProgressUpdate) (s : JobProgressStore)
    : JobProgressStore :=
  if String.eqb rid "" || String.eqb rid "-" then s
  else
    let s := evictLocked now s in
    let jp := default (fresh_progress now now2) (store s !! rid) in
    mkStore (ttl s) (<[rid := apply_update now u jp]> (store s)).

(** [JobProgressStore.Get] *)
Definition Get (now : Time) (rid : string) (s : JobProgressStore)
    : option JobProgress * JobProgressStore :=
  if String.eqb rid "" then (None, s)
  else let s := evictLocked now s in (store s !! rid, s).

(** [JobProgressStore.Forget] *)
Definition Forget (rid : string) (s : JobProgressStore) : JobProgressStore :=
  mkStore (ttl s) (delete rid (store s)).

(** [JobProgressStore.Active]; Go's map order is unspecified, so only the
    elements of the list are meaningful. *)
Definition Active (now : Time) (s : JobProgressStore)
    : list (string * JobProgress) * JobProgressStore :=
  let s := evictLocked now s in
  (filter (λ p, Phase p.2 ≠ "complete") (map_to_list (store s)), s).

(** ** The percentage *)

(** A fraction: a number between 0 and 1. *)
Definition fraction (x : f64) : Prop := fvalid x ∧ fle f0 x = true ∧ fle x f1 = true.

Lemma fraction_finite x : fraction x → ffinite x = true ∧ fnonneg x = true.
Proof.
  intros (_ & H0 & H1). rewrite <- fnonneg_fle in H0. split; [|done].
  destruct x as [|[]| |]; done.
Qed.

Lemma fraction_0 : fraction f0.
Proof. by repeat split. Qed.
Lemma fraction_1 : fraction f1.
Proof. by repeat split. Qed.

Lemma clamp01_fraction v : fvalid v → fnum v = true → fraction (clamp01 v).
Proof.
  intros Hv Hn. unfold clamp01.
  destruct (flt v f0) eqn:H0; [by apply fraction_0|].
  destruct (flt f1 v) eqn:H1; [by apply fraction_1|].
  rewrite flt_not_ge in H0, H1 by done. apply negb_false_iff in H0, H1. by split_and!.
Qed.

Lemma chunk_pct_fraction j :
  0 <= ChunksRendered j < 2 ^ 53 → TotalChunks j < 2 ^ 53 → fraction (chunk_pct j).
Proof.
  intros Hr Ht. unfold chunk_pct. destruct (Z.ltb_spec 0 (TotalChunks j)); [|by apply fraction_0].
  destruct (f64_of_Z_exact (ChunksRendered j) ltac:(lia)) as [Hf1 Hs1].
  assert (fnonneg (fdiv (f64_of_Z (ChunksRendered j)) (f64_of_Z (TotalChunks j))) = true) as Hn.
  { apply fdiv_nonneg; [done|apply f64_of_Z_pos; lia|apply f64_of_Z_nonneg; lia]. }
  set (p := fdiv _ _) in *.
  assert (fnum p = true) by by destruct p.
  destruct (flt f1 p) eqn:H1; [by apply fraction_1|].
  rewrite flt_not_ge in H1 by done. apply negb_false_iff in H1.
  split_and!; [unfold p; auto with gohints|by apply fnonneg_fle|done].
Qed.

Definition progress_ok (j : JobProgress) : Prop :=
  fraction (LoadProgress j) ∧ fraction (MergeDone j).

(** The last step: clamping a non-negative number at [k]. *)
Lemma cap_pct pct k :
  fnonneg pct = true → fle f0 k = true ∧ fnum k = true →
  let pct := if flt pct f0 then f0 else pct in
  let r := if flt k pct then k else pct in
  fle f0 r = true ∧ fle r k = true.
Proof.
  intros Hn [Hk Hnk]. cbn zeta. assert (fnum pct = true) as Hnum by by destruct pct.
  rewrite (flt_not_ge pct f0), (proj1 (fnonneg_fle pct) Hn) by done. cbn [negb].
  destruct (flt k pct) eqn:H9; [split; [done|by apply fle_refl]|].
  rewrite flt_not_ge in H9 by done. apply negb_false_iff in H9. by rewrite <- fnonneg_fle.
Qed.

(** The weighted percentage is a number between 0 and 1, and stays at most
    0.999 until the job is complete, when it is exactly 1. *)
Theorem weighted_percent_bounds j :
  progress_ok j → 0 <= ChunksRendered j < 2 ^ 53 → TotalChunks j < 2 ^ 53 →
  fle f0 (WeightedPercent j) = true ∧ fle (WeightedPercent j) f1 = true ∧
  (Phase j = "complete" → WeightedPercent j = f1) ∧
  (Phase j ≠ "complete" → fle (WeightedPercent j) (f64_ratio 999 1000) = true).
Proof.
  intros [Hl Hm] Hr Ht. pose proof (chunk_pct_fraction j Hr Ht) as Hc. unfold WeightedPercent.
  destruct (String.eqb_spec (Phase j) "complete") as [Hp|Hp]; [by split_and!|].
  destruct (fraction_finite _ Hl) as [Hfl Hnl], (fraction_finite _ Hm) as [Hfm Hnm],
    (fraction_finite _ Hc) as [Hfc Hnc]. destruct Hl as [Hvl _], Hm as [Hvm _], Hc as [Hvc _].
  destruct (cap_pct (f64_ratio 30 100 * LoadProgress j + f64_ratio 65 100 * chunk_pct j
    + f64_ratio 5 100 * MergeDone j)%f64 (f64_ratio 999 1000)) as (H0 & H9); [|split; reflexivity|].
  { apply fadd_nonneg; [apply fadd_nonneg|]; (apply fmul_nonneg;
      [apply fdiv_valid; apply f64_of_Z_valid|assumption|reflexivity|assumption|reflexivity|assumption]). }
  split; [exact H0|]. split; [by apply (fle_trans _ _ f1 H9)|]. split; [intros Hx; contradiction|intros _; exact H9].
Qed.

(** ** Updates *)

Definition expired (s : JobProgressStore) (now : Time) (j : JobProgress) : bool :=
  ttl s <? time_sub now (lastTouched j).

Definition store_ok (s : JobProgressStore) : Prop := map_Forall (λ _ j, progress_ok j) (store s).

(** An update whose numbers are numbers. *)
Definition update_ok (u : ProgressUpdate) : Prop :=
  (∀ v, ULoadProgress u = Some v → fvalid v) ∧
  (∀ v, UMergeDone u = Some v → fvalid v ∧ fnum v = true).

Lemma progress_evict_lookup now s rid :
  store (evictLocked now s) !! rid =
  match store s !! rid with
  | Some j => if expired s now j then None else Some j
  | None => None
  end.
Proof.
  unfold evictLocked, expired. cbn. rewrite map_lookup_filter. destruct (store s !! rid) as [j|]; [|done].
  cbn. destruct (ttl s <? time_sub now (lastTouched j));
    [by rewrite option_guard_False|by rewrite option_guard_True].
Qed.

Lemma apply_update_ok now u j : progress_ok j → update_ok u → progress_ok (apply_update now u j).
Proof.
  intros [Hl Hm] [Hul Hum]. split; cbn.
  - destruct (ULoadProgress u) as [v|] eqn:Hv; [|done]. destruct (flt (LoadProgress j) v) eqn:Hlt; [|done].
    apply clamp01_fraction; [by apply Hul|]. apply flt_key in Hlt. tauto.
  - destruct (UMergeDone u) as [v|] eqn:Hv; [|done]. by apply clamp01_fraction; apply Hum.
Qed.

(** A newly reported load progress never lowers the stored one. *)
Lemma apply_update_load_mono now u j :
  progress_ok j → fle (LoadProgress j) (LoadProgress (apply_update now u j)) = true.
Proof.
  intros [(Hv & H0 & H1) _]. cbn.
  assert (fnum (LoadProgress j) = true) as Hn by (apply fle_key in H0; tauto).
  destruct (ULoadProgress u) as [v|]; [|by apply fle_refl].
  destruct (flt (LoadProgress j) v) eqn:Hlt; [|by apply fle_refl].
  unfold clamp01. destruct (flt v f0) eqn:Hv0.
  - exfalso. pose proof (flt_trans _ _ _ Hlt Hv0) as Hlt0.
    by rewrite flt_not_ge, H0 in Hlt0.
  - destruct (flt f1 v); [done|by apply flt_le].
Qed.

Lemma update_lookup now now2 rid rid' u s :
  rid ≠ "" → rid ≠ "-" →
  store (Update now now2 rid u s) !! rid' =
  if String.eqb rid rid'
  then Some (apply_update now u
    (default (fresh_progress now now2) (store (evictLocked now s) !! rid)))
  else store (evictLocked now s) !! rid'.
Proof.
  intros H1 H2. unfold Update. rewrite !(proj2 (String.eqb_neq _ _)) by done. cbn [orb store].
  destruct (String.eqb_spec rid rid') as [<-|Hne]; [by rewrite lookup_insert_eq|by rewrite lookup_insert_ne].
Qed.

(** An update creates the job's record when it is new or has expired and
    otherwise keeps its start time, adds the rendered chunks, replaces what the
    update names and never lowers the load progress; all fractions stay between
    0 and 1 and the other live jobs are untouched. *)
Theorem progress_update_effect now now2 rid u s :
  store_ok s → update_ok u → rid ≠ "" → rid ≠ "-" →
  store_ok (Update now now2 rid u s) ∧
  (∀ rid', rid' ≠ rid →
     store (Update now now2 rid u s) !! rid' = store (evictLocked now s) !! rid') ∧
  (∀ j, store s !! rid = Some j → expired s now j = false → in_i64 (ChunksRendered j) →
     ∃ j', store (Update now now2 rid u s) !! rid = Some j' ∧
       fle (LoadProgress j) (LoadProgress j') = true ∧ StartedAt j' = StartedAt j ∧
       ChunksRendered j' = i64 (ChunksRendered j + UIncrementChunks u) ∧
       Phase j' = default (Phase j) (UPhase u) ∧
       TotalChunks j' = default (TotalChunks j) (UTotalChunks u)) ∧
  (store (evictLocked now s) !! rid = None →
     ∃ j', store (Update now now2 rid u s) !! rid = Some j' ∧
       StartedAt j' = nowEpoch now2 ∧ ChunksRendered j' = i64 (UIncrementChunks u) ∧
       Phase j' = default "init" (UPhase u)).
Proof.
  intros Hok Hu H1 H2.
  assert (store_ok (evictLocked now s)) as Hok'.
  { intros rid' j. rewrite progress_evict_lookup. destruct (store s !! rid') as [j'|] eqn:Hj; [|done].
    destruct (expired s now j'); [done|]. intros [= <-]. by apply (Hok rid'). }
  assert (∀ n z, in_i64 n → (if z =? 0 then n else (n +! z)%go) = i64 (n + z)) as Hinc.
  { intros n z Hn. destruct (Z.eqb_spec z 0) as [->|]; [|done]. by rewrite Z.add_0_r, i64_id. }
  split_and!.
  - intros rid' j. rewrite update_lookup by done. destruct (String.eqb rid rid'); [|apply Hok'].
    intros <-%(inj Some). apply apply_update_ok; [|done].
    destruct (store (evictLocked now s) !! rid) as [j'|] eqn:Hj; [exact (Hok' rid j' Hj)|].
    split; apply fraction_0.
  - intros rid' Hne. rewrite update_lookup by done. by rewrite (proj2 (String.eqb_neq rid rid')).
  - intros j Hj Hexp Hr. rewrite update_lookup, String.eqb_refl, progress_evict_lookup, Hj, Hexp by done. cbn [default].
    eexists. split; [done|]. split; [apply apply_update_load_mono; by apply (Hok rid)|].
    cbn. by rewrite Hinc.
  - intros Hnone. rewrite update_lookup, String.eqb_refl, Hnone by done.
    eexists. split; [done|]. cbn. by rewrite (Hinc 0).
Qed.

(** The active jobs are exactly the live ones whose phase is not
    [complete], each listed once with its current record. *)
Theorem active_lists_running now s rid j :
  (rid, j) ∈ (Active now s).1 ↔
  store s !! rid = Some j ∧ Phase j ≠ "complete" ∧ expired s now j = false.
Proof.
  unfold Active. cbn [fst]. rewrite list_elem_of_filter, elem_of_map_to_list, progress_evict_lookup. cbn.
  destruct (store s !! rid) as [j'|]; [|naive_solver].
  destruct (expired s now j') eqn:He; naive_solver congruence.
Qed.

(** ** Witnesses *)

Definition sample_time : Time := mkTime (1700000000 * Second) (Some Second).
Definition sample_job : JobProgress :=
  mkProgress 4 1 "rendering" f1 f0 (nowEpoch sample_time) sample_time.

Lemma sample_job_ok : progress_ok sample_job.
Proof. split; [apply fraction_1|apply fraction_0]. Qed.

Lemma weighted_percent_bounds_witness :
  fle (WeightedPercent sample_job) (f64_ratio 999 1000) = true.
Proof.
  apply (weighted_percent_bounds sample_job sample_job_ok); [cbn; lia|cbn; lia|discriminate].
Defined.

Definition sample_update : ProgressUpdate := mkUpdate None (Some "merging") (Some (f64_ratio 1 2)) None 1.

Lemma progress_update_effect_witness :
  ∃ j', store (Update sample_time sample_time "r1" sample_update
                (mkStore progressTTL {[ "r1" := sample_job ]})) !! "r1" = Some j' ∧
    fle f1 (LoadProgress j') = true ∧ ChunksRendered j' = 2 ∧ Phase j' = "merging".
Proof.
  destruct (progress_update_effect sample_time sample_time "r1" sample_update
    (mkStore progressTTL {[ "r1" := sample_job ]})) as (_ & _ & Hj & _).
  - intros k j Hj. cbn in Hj. apply lookup_singleton_Some in Hj as [_ <-]. apply sample_job_ok.
  - split; [|done]. intros v [= <-]. reflexivity.
  - discriminate.
  - discriminate.
  - destruct (Hj sample_job) as (j' & H1 & H2 & _ & H3 & H4 & _);
      [reflexivity|reflexivity|split; vm_compute; [discriminate|reflexivity]|].
    exists j'. split; [exact H1|]. split; [exact H2|]. split; [exact H3|exact H4].
Defined.
