(* ===== verification/Recent.v ===== *)
(** * Recent conversions and their pagination ([internal/obs/recent.go])

    A bounded newest-first list and the cursor walk of [/v1/conversions].  The
    cursor token is base64 over JSON; its encoder and decoder are the operations
    of an interface whose law is their round trip, which [Cursor.v] discharges. *)
From Stdlib Require Import ZArith Lia Bool SpecFloat Ascii String.
From stdpp Require Import base tactics list gmap strings.
From S2P Require Import Prelude GoFloat GoString Types.
From stdpp Require Import list sorting.
Local Open Scope Z_scope.

Definition DefaultMaxRecent : Z := 200.

Record ConversionRecord : Type := mkConversion {
  RequestID : string;
  CompletionTS : f64;
  Source : string;
  InputFilename : option string;
  RFormat : string;
  RPageCount : option Z;
  DurationMS : Z;
  Status : string;
  ErrorCode : option string;
  OutputS3URI : option string;
  OutputSizeBytes : option Z;
  Engine : string
}.

Record RecentStore : Type := mkRecent { buf : list ConversionRecord; maxlen : Z }.
Definition NewRecentStore (maxlen : Z) : RecentStore := mkRecent [] maxlen.

(** [l[:n]]; [None] is the out-of-range panic. *)
Definition slice_to {A} (n : Z) (l : list A) : option (list A) :=
  if (0 <=? n) && (n <=? Z.of_nat (length l)) then Some (take (Z.to_nat n) l) else None.

(** [RecentStore.Record] *)
Definition Record_ (rec : ConversionRecord) (s : RecentStore) : option RecentStore :=
  let b := rec :: buf s in
  if maxlen s <? Z.of_nat (length b)
  then b ← slice_to (maxlen s) b; Some (mkRecent b (maxlen s))
  else Some (mkRecent b (maxlen s)).

Definition Snapshot (s : RecentStore) : list ConversionRecord := buf s.
Definition Size (s : RecentStore) : Z := Z.of_nat (length (buf s)).
Definition Clear (s : RecentStore) : RecentStore := mkRecent [] (maxlen s).

(** [Matches]: the filters [all | ui | cross | failed]. *)
Definition Matches (rec : ConversionRecord) (flt : string) : bool :=
  if String.eqb flt "all" then true
  else if String.eqb flt "ui" then String.eqb (Source rec) "ui"
  else if String.eqb flt "cross" then String.eqb (Source rec) "cross"
  else if String.eqb flt "failed" then String.eqb (Status rec) "failed"
  else false.

(** ** Cursors *)

Record Cursor : Type := mkCursor { TS : f64; ID : string }.

(** The text that survives JSON encoding unchanged: valid UTF-8. *)
Definition valid_utf8 (s : string) : Prop :=
  of_bytes (flat_map encode_rune (runes (bytes s))) = s.

(** [Cursor.Encode] and [DecodeCursor]: JSON and base64, which give a cursor
    with a finite timestamp and a UTF-8 identifier back. *)
Class CursorCodec := {
  Encode : Cursor → string;
  DecodeCursor : string → option Cursor;
  decode_encode : ∀ c, fvalid (TS c) → ffinite (TS c) = true → valid_utf8 (ID c) →
    DecodeCursor (Encode c) = Some c
}.

Record Page : Type := mkPage {
  Entries : list ConversionRecord;
  NextCursor : option string;
  HasMore : bool;
  StaleCursor : bool;
  BufferSize : Z
}.

(** [lessTuple]: Python's order on [(ts, id)]; strings compare by bytes. *)
Definition lessTuple (aTS : f64) (aID : string) (bTS : f64) (bID : string) : bool :=
  if negb (feq aTS bTS) then flt aTS bTS else String.ltb aID bID.

Definition cursor_of (r : ConversionRecord) : Cursor := mkCursor (CompletionTS r) (RequestID r).

Section paginate.
Context `{CursorCodec}.

Definition makePage (items : list ConversionRecord) (limit bufferSize : Z) (stale : bool)
    : option Page :=
  entries ← (if limit <? Z.of_nat (length items) then slice_to limit items else Some items);
  let hasMore := limit <? Z.of_nat (length items) in
  let next := if hasMore then Encode ∘ cursor_of <$> last entries else None in
  Some (mkPage entries next hasMore stale bufferSize).

Definition is_anchor (cursor : Cursor) (r : ConversionRecord) : bool :=
  feq (CompletionTS r) (TS cursor) && String.eqb (RequestID r) (ID cursor).

Definition before_cursor (cursor : Cursor) (r : ConversionRecord) : bool :=
  lessTuple (CompletionTS r) (RequestID r) (TS cursor) (ID cursor).

Definition Paginate (items : list ConversionRecord) (cursor : option Cursor)
    (limit bufferSize : Z) : option Page :=
  match cursor with
  | None => makePage items limit bufferSize false
  | Some cursor =>
      if existsb (is_anchor cursor) items
      then makePage (List.filter (before_cursor cursor) items) limit bufferSize false
      else makePage items limit bufferSize true
  end.

(** A client following [next_cursor]: the pages it sees, as long as it has
    requests left. *)
Fixpoint walk (fuel : nat) (items : list ConversionRecord) (cursor : option Cursor)
    (limit : Z) : option (list Page) :=
  match fuel with
  | O => Some []
  | S fuel =>
      p ← Paginate items cursor limit (Z.of_nat (length items));
      match NextCursor p with
      | None => Some [p]
      | Some tok => ps ← walk fuel items (DecodeCursor tok) limit; Some (p :: ps)
      end
  end.
End paginate.

(** ** The buffer *)

Lemma slice_to_ok {A} n (l : list A) :
  0 <= n <= Z.of_nat (length l) → slice_to n l = Some (take (Z.to_nat n) l).
Proof.
  intros Hn. unfold slice_to. destruct (Z.leb_spec 0 n), (Z.leb_spec n (Z.of_nat (length l))); try lia. done.
Qed.

Lemma record_spec rec s :
  0 <= maxlen s → Record_ rec s = Some (mkRecent (take (Z.to_nat (maxlen s)) (rec :: buf s)) (maxlen s)).
Proof.
  intros Hm. unfold Record_. destruct (Z.ltb_spec (maxlen s) (Z.of_nat (length (rec :: buf s)))) as [Hl|Hl].
  - by rewrite slice_to_ok by lia.
  - rewrite take_ge by lia. done.
Qed.

Definition record_all (recs : list ConversionRecord) (s : RecentStore) : option RecentStore :=
  foldl (λ acc r, acc ≫= Record_ r) (Some s) recs.

(** The buffer holds the newest [maxlen] conversions, newest first. *)
Theorem recent_keeps_newest recs mx :
  0 <= mx →
  record_all recs (NewRecentStore mx) = Some (mkRecent (take (Z.to_nat mx) (rev recs)) mx).
Proof.
  intros Hm. induction recs as [|r recs IH] using rev_ind; [cbn; by rewrite take_nil|].
  unfold record_all in *. rewrite foldl_snoc, IH. cbn [mbind option_bind].
  rewrite record_spec by done. cbn [buf maxlen]. rewrite rev_app_distr. cbn [rev app].
  do 2 f_equal. destruct (Z.to_nat mx) as [|n] eqn:Hn; [done|]. cbn. f_equal.
  rewrite take_take. f_equal. lia.
Qed.

(** ** The order of the walk *)

Definition newer (a b : ConversionRecord) : Prop := before_cursor (cursor_of a) b = true.

Lemma ltb_asym a b : String.ltb a b = true → String.ltb b a = false.
Proof.
  unfold String.ltb. rewrite (String.compare_antisym a b).
  by destruct (String.compare b a).
Qed.

Lemma lessTuple_asym a x b y : lessTuple a x b y = true → lessTuple b y a x = false.
Proof.
  unfold lessTuple. destruct (feq a b) eqn:Hab; simpl.
  - apply feq_key in Hab as (Ha & Hb & Hk).
    rewrite (proj2 (feq_key b a)) by done. simpl. apply ltb_asym.
  - intros Hlt. assert (feq b a = false) as ->.
    { apply not_true_is_false. intros (Ha & Hb & Hk)%feq_key.
      rewrite (proj2 (feq_key a b)) in Hab; done. }
    simpl. apply flt_key in Hlt as (Ha & Hb & Hlt). apply not_true_is_false.
    intros (_ & _ & Hlt')%flt_key. apply (key_lt_asym _ _ Hlt). by left.
Qed.

Lemma lessTuple_irrefl a x : lessTuple a x a x = false.
Proof.
  destruct (lessTuple a x a x) eqn:Hl; [|done]. by rewrite (lessTuple_asym _ _ _ _ Hl) in Hl.
Qed.

(** In a list from newest to oldest, filtering by the cursor of an entry leaves
    what follows that entry. *)
Lemma filter_after l1 r l2 :
  StronglySorted newer (l1 ++ r :: l2) →
  List.filter (before_cursor (cursor_of r)) (l1 ++ r :: l2) = l2.
Proof.
  induction l1 as [|x l1 IH]; simpl.
  - intros [Hl Hall]%StronglySorted_inv. unfold before_cursor at 1. simpl. rewrite lessTuple_irrefl.
    clear Hl. induction Hall as [|y l2 Hy _ IH]; [done|]. simpl. rewrite Hy. by f_equal.
  - intros [Hl Hall]%StronglySorted_inv. unfold before_cursor at 1. simpl.
    rewrite lessTuple_asym; [by apply IH|]. rewrite Forall_forall in Hall. apply (Hall r). set_solver.
Qed.

Lemma existsb_anchor l1 r l2 :
  fnum (CompletionTS r) = true → existsb (is_anchor (cursor_of r)) (l1 ++ r :: l2) = true.
Proof.
  intros Hn. rewrite existsb_app. apply orb_true_iff. right. simpl. unfold is_anchor at 1. simpl.
  rewrite (proj2 (feq_key _ _)) by done. by rewrite String.eqb_refl.
Qed.

(** The records a cursor can point at: finite timestamps, UTF-8 identifiers. *)
Definition record_ok (r : ConversionRecord) : Prop :=
  fvalid (CompletionTS r) ∧ ffinite (CompletionTS r) = true ∧ valid_utf8 (RequestID r).

Section walk.
Context `{CursorCodec}.
Context (items : list ConversionRecord) (limit : Z).
Context (Hsorted : StronglySorted newer items) (Hok : Forall record_ok items) (Hlim : 1 <= limit).

(** One page of what is left of the list. *)
Lemma make_page_spec l bs stale :
  ∃ p, makePage l limit bs stale = Some p ∧ Entries p = take (Z.to_nat limit) l ∧
    StaleCursor p = stale ∧ HasMore p = (limit <? Z.of_nat (length l)) ∧
    NextCursor p = (if limit <? Z.of_nat (length l)
                    then Encode ∘ cursor_of <$> last (take (Z.to_nat limit) l) else None).
Proof.
  unfold makePage. destruct (Z.ltb_spec limit (Z.of_nat (length l))) as [Hl|Hl].
  - rewrite slice_to_ok by lia. eexists. by split_and!.
  - eexists. split; [done|]. cbn. by rewrite take_ge by lia.
Qed.

Lemma walk_from fuel done_ rest cursor :
  items = done_ ++ rest →
  match cursor with None => done_ = [] | Some c => ∃ d r, done_ = d ++ [r] ∧ c = cursor_of r end →
  (length rest < fuel)%nat →
  ∃ ps, walk fuel items cursor limit = Some ps ∧ concat (Entries <$> ps) = rest ∧
    Forall (λ p, StaleCursor p = false ∧ Z.of_nat (length (Entries p)) <= limit) ps.
Proof.
  revert done_ rest cursor. induction fuel as [|fuel IH]; intros done_ rest cursor Hi Hc Hf; [lia|].
  assert (Paginate items cursor limit (Z.of_nat (length items)) =
          makePage rest limit (Z.of_nat (length items)) false) as Hp.
  { unfold Paginate. destruct cursor as [c|]; [|by rewrite Hi, Hc].
    destruct Hc as (d & r & -> & ->). rewrite <- app_assoc in Hi. simpl in Hi.
    assert (record_ok r) as (_ & Hfin & _).
    { rewrite Forall_forall in Hok. apply Hok. rewrite Hi. set_solver. }
    pose proof Hsorted as Hs. rewrite Hi in Hs |- *.
    rewrite existsb_anchor by by apply ffinite_fnum. by rewrite filter_after. }
  simpl. rewrite Hp.
  destruct (make_page_spec rest (Z.of_nat (length items)) false) as (p & -> & He & Hst & _ & Hn).
  cbn [mbind option_bind]. rewrite Hn.
  assert (Z.of_nat (length (Entries p)) <= limit) as Hlen by (rewrite He, length_take; lia).
  destruct (Z.ltb_spec limit (Z.of_nat (length rest))) as [Hl|Hl].
  - destruct (last (take (Z.to_nat limit) rest)) as [r|] eqn:Hlast.
    2:{ apply last_None in Hlast. apply (f_equal length) in Hlast. rewrite length_take in Hlast.
        simpl in Hlast. lia. }
    simpl. apply last_Some in Hlast as (d & Hd).
    assert (record_ok r) as (Hv & Hfin & Hu).
    { rewrite Forall_forall in Hok. apply Hok. rewrite Hi, <- (take_drop (Z.to_nat limit) rest), Hd.
      set_solver. }
    rewrite decode_encode by done.
    destruct (IH (done_ ++ take (Z.to_nat limit) rest) (drop (Z.to_nat limit) rest)
      (Some (cursor_of r))) as (ps & -> & Hcat & Hall).
    + by rewrite <- app_assoc, take_drop.
    + exists (done_ ++ d), r. split; [|done]. by rewrite Hd, app_assoc.
    + rewrite length_drop. lia.
    + cbn [mbind option_bind]. exists (p :: ps). split; [done|]. split; [|by constructor].
      rewrite fmap_cons. cbn [concat]. by rewrite Hcat, He, take_drop.
  - exists [p]. split; [done|]. split; [|by constructor]. simpl.
    by rewrite app_nil_r, He, take_ge by lia.
Qed.
End walk.

(** C27: following the cursors over an unchanged list, newest first, ends and
    shows every conversion exactly once and in order, in pages no longer than
    the limit, none of them flagged stale. *)
Theorem pagination_walk_complete `{CursorCodec} items limit :
  StronglySorted newer items → Forall record_ok items → 1 <= limit →
  ∃ ps, walk (S (length items)) items None limit = Some ps ∧
    concat (Entries <$> ps) = items ∧
    Forall (λ p, StaleCursor p = false ∧ Z.of_nat (length (Entries p)) <= limit) ps.
Proof.
  intros Hs Hok Hl. apply (walk_from items limit Hs Hok Hl _ [] items None); [done|done|lia].
Qed.

(** A cursor whose entry has left the list restarts at the first page and
    says so. *)
Theorem stale_cursor_restarts `{CursorCodec} items c limit bs :
  Forall (λ r, ¬ (feq (CompletionTS r) (TS c) = true ∧ RequestID r = ID c)) items → 0 <= limit →
  ∃ p, Paginate items (Some c) limit bs = Some p ∧ StaleCursor p = true ∧
    Entries p = take (Z.to_nat limit) items.
Proof.
  intros Hno Hl. unfold Paginate.
  assert (existsb (is_anchor c) items = false) as ->.
  { apply not_true_is_false. intros (r & Hin & Ha)%existsb_exists.
    rewrite Forall_forall in Hno. apply list_elem_of_In in Hin. apply (Hno r Hin).
    apply andb_true_iff in Ha as [Ha Hid]. by apply String.eqb_eq in Hid. }
  unfold makePage. destruct (Z.ltb_spec limit (Z.of_nat (length items))) as [Hlt|Hlt].
  - rewrite slice_to_ok by lia. eexists. by split_and!.
  - eexists. split; [done|]. cbn. by rewrite take_ge by lia.
Qed.

(** ** Witnesses *)

(** A codec for the witnesses: mantissa and exponent in decimal, then the
    identifier. *)
Definition plain_encode (c : Cursor) : string :=
  let '(m, e) := match TS c with
                 | S754_finite s m e => (cond_Zopp s (Z.pos m), e)
                 | S754_zero s => (0, if s then 1 else 0)
                 | _ => (0, 2)
                 end in
  itoa m +:+ ":" +:+ (itoa e +:+ ":" +:+ ID c).
Definition plain_decode (tok : string) : option Cursor :=
  let '(ms, rest) := cut tok ":"%char in
  let '(es, id) := cut rest ":"%char in
  m ← parse_int ms;
  e ← parse_int es;
  Some (mkCursor (match m with
                  | Z0 => S754_zero (e =? 1)
                  | Zpos p => S754_finite false p e
                  | Zneg p => S754_finite true p e
                  end) id).

Lemma itoa_no_colon z : no_byte ":"%char (itoa z).
Proof.
  destruct (decide (0 <= z)) as [Hz|Hz].
  - apply itoa_no_byte; [done|]. change (byte_of ":"%char) with 58. lia.
  - unfold itoa. destruct (Z.ltb_spec z 0); [|lia]. apply no_byte_of_bytes. constructor; [done|].
    destruct (nat_digits_spec (- z)) as [_ Hf]; [lia|].
    eapply Forall_impl; [exact Hf|]. simpl. change (byte_of ":"%char) with 58. lia.
Qed.

Lemma plain_round_trip c : fvalid (TS c) → ffinite (TS c) = true → plain_decode (plain_encode c) = Some c.
Proof.
  intros Hv Hf. unfold plain_encode, plain_decode. destruct c as [ts id]. cbn [TS ID] in *.
  destruct (match ts with S754_finite s m e => _ | S754_zero s => _ | _ => _ end) as [m e] eqn:Hme.
  change (":" +:+ ?x) with (String ":"%char x).
  rewrite cut_app by apply itoa_no_colon. change (":" +:+ id) with (String ":"%char id).
  rewrite cut_app by apply itoa_no_colon.
  assert (in_i64 m ∧ in_i64 e) as [Hm He].
  { destruct ts as [[]| | |s p q]; try done; injection Hme as <- <-; [by split|by split|].
    destruct (valid_mantissa _ _ _ Hv) as (He & Hp & _). unfold in_i64.
    destruct s; cbn [cond_Zopp]; lia. }
  rewrite !parse_itoa by done. simpl. f_equal. f_equal.
  destruct ts as [[]| | |[] p q]; try done; by injection Hme as <- <-.
Qed.

Definition plain_codec : CursorCodec :=
  {| Encode := plain_encode; DecodeCursor := plain_decode;
     decode_encode := λ c Hv Hf _, plain_round_trip c Hv Hf |}.

Definition conversion (id : string) (ts : Z) : ConversionRecord :=
  mkConversion id (f64_of_Z ts) "ui" None "docx" None 0 "success" None None None "".
Definition sample_items : list ConversionRecord :=
  [conversion "c" 30; conversion "b" 20; conversion "a" 20].

Lemma pagination_walk_complete_witness :
  ∃ ps, @walk plain_codec 4 sample_items None 2 = Some ps ∧ concat (Entries <$> ps) = sample_items ∧
    length ps = 2%nat.
Proof.
  destruct (@pagination_walk_complete plain_codec sample_items 2) as (ps & Hw & Hc & _).
  - repeat (constructor; [|repeat constructor]). constructor.
  - repeat (constructor; [repeat split|]). constructor.
  - lia.
  - exists ps. split; [exact Hw|]. split; [exact Hc|]. vm_compute in Hw. by injection Hw as <-.
Defined.

Lemma stale_cursor_restarts_witness :
  ∃ p, @Paginate plain_codec sample_items (Some (mkCursor (f64_of_Z 25) "x")) 2 3 = Some p ∧
    StaleCursor p = true.
Proof.
  destruct (@stale_cursor_restarts plain_codec sample_items (mkCursor (f64_of_Z 25) "x") 2 3)
    as (p & Hp & Hs & _).
  - repeat (constructor; [intros [_ [=]]|]). constructor.
  - lia.
  - exists p. split; [exact Hp|exact Hs].
Defined.

Lemma recent_keeps_newest_witness :
  record_all sample_items (NewRecentStore 2) =
    Some (mkRecent [conversion "a" 20; conversion "b" 20] 2).
Proof. apply (recent_keeps_newest sample_items 2). lia. Defined.

(** ** A list out of order

    Timestamps are taken before the record enters the buffer, so two requests
    ending together can be stored the other way round; a conversion behind an
    older one is then never shown by the cursor walk. *)
Lemma unsorted_walk_skips :
  let items := [conversion "b" 20; conversion "c" 30; conversion "a" 10] in
  ∃ ps, @walk plain_codec 4 items None 1 = Some ps ∧
    RequestID <$> concat (Entries <$> ps) = ["b"; "a"].
Proof. eexists. split; vm_compute; reflexivity. Qed.
