(* ===== verification/Config.v ===== *)
(** * Configuration ([internal/config/config.go])

    [Load] over the process environment, a map from variable names to values:
    every variable has a default, integer variables have bounds, and loading
    fails, listing every offending variable, unless all are acceptable. *)
From Stdlib Require Import ZArith Lia Bool SpecFloat Ascii String.
From stdpp Require Import base tactics list gmap strings.
From S2P Require Import Prelude GoFloat GoString GoFmt.
From stdpp Require Import list.
Local Open Scope Z_scope.

Record Settings : Type := mkSettings {
  MaxJobs : Z;
  Parallel : Z;
  CacheDir : string;
  LicensePath : string;
  ScratchDir : string;
  AsposeLibDir : string;
  WorkerBinaryPrefix : string;
  LogFormat : string;
  LogLevel : string;
  ChunkTimeoutSeconds : Z;
  MaxInputBytes : Z;
  WorkerRAMBytes : Z;
  AsposeVersion : string;
  MaxPagesPerChunk : Z;
  MaxMBPerChunk : Z;
  XLSXMinPagesPerChunk : Z;
  PPTXMinPagesPerChunk : Z;
  PoolMinChunks : Z;
  XLSXMaxPoolSize : Z;
  ForkAfterLoad : bool;
  RateLimitEnabled : bool;
  RateLimitPerIPRPM : Z;
  RateLimitBurst : Z;
  RateLimitMaxKeys : Z;
  RateLimitTrustXFF : bool;
  GotenbergURL : string;
  GotenbergTimeoutSeconds : Z;
  HTMLMaxBytes : Z;
  S3Enabled : bool;
  S3Region : string;
  S3InputBucketsAllowlist : string;
  S3OutputBucketsAllowlist : string;
  S3DefaultOutputBucket : string;
  S3OutputKeyTemplate : string;
  S3PresignTTLSeconds : Z;
  S3PublicEndpoint : string
}.

Definition envPrefix : string := "OFFICE_CONVERT_".
Definition environment := gmap string string.
Definition LookupEnv (env : environment) (name : string) : option string := env !! (envPrefix +:+ name).

Section load.
Context `{PrintTable} `{UnicodeTables}.

Definition envStr (env : environment) (name def : string) : string :=
  default def (LookupEnv env name).

(** The value and the error, [None] for [nil]. *)
Definition envInt64 (env : environment) (name : string) (def min max : Z) : Z * option string :=
  match LookupEnv env name with
  | None => (def, None)
  | Some raw =>
      match parse_int (trim_space raw) with
      | None => (def, Some ("not an integer: " +:+ quote raw))
      | Some v =>
          if (v <? min) || (max <? v)
          then (v, Some ("value " +:+ itoa v +:+ " out of range [" +:+ itoa min +:+ ", " +:+ itoa max +:+ "]"))
          else (v, None)
      end
  end.

(** [int] has 64 bits, so the conversions of [envInt] change nothing. *)
Definition envInt := envInt64.

Definition envBool (env : environment) (name : string) (def : bool) : bool :=
  match LookupEnv env name with
  | None => def
  | Some raw =>
      let v := to_lower (trim_space raw) in
      if existsb (String.eqb v) ["1"; "true"; "yes"; "on"] then true
      else if existsb (String.eqb v) ["0"; "false"; "no"; "off"] then false
      else def
  end.

Definition oneOf (v : string) (allowed : list string) : option string :=
  if existsb (String.eqb v) allowed then None
  else Some (quote v +:+ " not in [" +:+ GoString.join allowed " " +:+ "]").

(** What [fail] appends for a field. *)
Definition fail (field : string) (err : option string) : option string :=
  (λ e, field +:+ ": " +:+ e) <$> err.

Definition mib : Z := 1024 * 1024.
Definition gib : Z := 1024 * mib.
Definition tenMiB : Z := 10 * mib.

Definition invalid_configuration (errs : list string) : string :=
  let nl := of_bytes [10] in
  "invalid configuration:" +:+ nl +:+ "  " +:+ GoString.join errs (nl +:+ "  ").

Definition Load (env : environment) : result string Settings :=
  let '(maxJobs, e1) := envInt env "MAX_JOBS" 1 1 10 in
  let '(parallel, e2) := envInt env "PARALLEL" 4 1 16 in
  let logFormat := envStr env "LOG_FORMAT" "json" in
  let e3 := oneOf logFormat ["json"; "human"] in
  let logLevel := envStr env "LOG_LEVEL" "info" in
  let e4 := oneOf logLevel ["debug"; "info"; "warn"; "error"] in
  let '(chunkTimeout, e5) := envInt env "CHUNK_TIMEOUT_SECONDS" 300 30 3600 in
  let '(maxInput, e6) := envInt64 env "MAX_INPUT_BYTES" gib mib gib in
  let '(workerRAM, e7) := envInt64 env "WORKER_RAM_BYTES" (6 * gib) (2 * gib) (64 * gib) in
  let '(maxPages, e8) := envInt env "MAX_PAGES_PER_CHUNK" 10000 1 50000 in
  let '(maxMB, e9) := envInt env "MAX_MB_PER_CHUNK" 50 1 1000 in
  let '(xlsxMin, e10) := envInt env "XLSX_MIN_PAGES_PER_CHUNK" 200 1 20000 in
  let '(pptxMin, e11) := envInt env "PPTX_MIN_PAGES_PER_CHUNK" 25 1 500 in
  let '(poolMin, e12) := envInt env "POOL_MIN_CHUNKS" 2 1 64 in
  let '(xlsxPool, e13) := envInt env "XLSX_MAX_POOL_SIZE" 4 1 16 in
  let '(rpm, e14) := envInt env "RATE_LIMIT_PER_IP_RPM" 30 1 10000 in
  let '(burst, e15) := envInt env "RATE_LIMIT_BURST" 5 1 1000 in
  let '(maxKeys, e16) := envInt env "RATE_LIMIT_MAX_KEYS" 10000 10 1000000 in
  let '(gotTimeout, e17) := envInt env "GOTENBERG_TIMEOUT_SECONDS" 120 31 600 in
  let '(htmlMax, e18) := envInt64 env "HTML_MAX_BYTES" tenMiB 1024 (100 * mib) in
  let '(presignTTL, e19) := envInt env "S3_PRESIGN_TTL_SECONDS" 900 1 (7 * 24 * 3600) in
  let s :=
    mkSettings maxJobs parallel
      (envStr env "CACHE_DIR" "")
      (envStr env "LICENSE_PATH" "/aspose/license.lic")
      (envStr env "SCRATCH_DIR" "/tmp/office-convert")
      (envStr env "ASPOSE_LIB_DIR" "/usr/local/lib/aspose")
      (envStr env "WORKER_BINARY_PREFIX" "/usr/local/bin/office-convert-worker")
      logFormat logLevel chunkTimeout maxInput workerRAM
      (envStr env "ASPOSE_VERSION" "unknown")
      maxPages maxMB xlsxMin pptxMin poolMin xlsxPool
      (envBool env "FORK_AFTER_LOAD" true)
      (envBool env "RATE_LIMIT_ENABLED" true)
      rpm burst maxKeys
      (envBool env "RATE_LIMIT_TRUST_XFF" true)
      (envStr env "GOTENBERG_URL" "http://gotenberg:3000")
      gotTimeout htmlMax
      (envBool env "S3_ENABLED" false)
      (envStr env "S3_REGION" "")
      (envStr env "S3_INPUT_BUCKETS_ALLOWLIST" "")
      (envStr env "S3_OUTPUT_BUCKETS_ALLOWLIST" "")
      (envStr env "S3_DEFAULT_OUTPUT_BUCKET" "")
      (envStr env "S3_OUTPUT_KEY_TEMPLATE" "pdf/{request_id}.pdf")
      presignTTL
      (envStr env "S3_PUBLIC_ENDPOINT" "") in
  let errs := omap id [
    fail "MAX_JOBS" e1; fail "PARALLEL" e2; fail "LOG_FORMAT" e3; fail "LOG_LEVEL" e4;
    fail "CHUNK_TIMEOUT_SECONDS" e5; fail "MAX_INPUT_BYTES" e6; fail "WORKER_RAM_BYTES" e7;
    fail "MAX_PAGES_PER_CHUNK" e8; fail "MAX_MB_PER_CHUNK" e9; fail "XLSX_MIN_PAGES_PER_CHUNK" e10;
    fail "PPTX_MIN_PAGES_PER_CHUNK" e11; fail "POOL_MIN_CHUNKS" e12; fail "XLSX_MAX_POOL_SIZE" e13;
    fail "RATE_LIMIT_PER_IP_RPM" e14; fail "RATE_LIMIT_BURST" e15; fail "RATE_LIMIT_MAX_KEYS" e16;
    fail "GOTENBERG_TIMEOUT_SECONDS" e17; fail "HTML_MAX_BYTES" e18;
    fail "S3_PRESIGN_TTL_SECONDS" e19] in
  match errs with
  | [] => Ok s
  | _ :: _ => Err (invalid_configuration errs)
  end.
End load.

Definition CacheEnabled (s : Settings) : bool := negb (String.eqb (CacheDir s) "").

(** ** The integer variables *)

Record int_var : Type := mkVar { var_name : string; var_min : Z; var_max : Z; var_field : Settings → Z;
                                 var_default : Z }.

(** Every integer variable, its bounds, its field and its default. *)
Definition int_vars : list int_var := [
  mkVar "MAX_JOBS" 1 10 MaxJobs 1;
  mkVar "PARALLEL" 1 16 Parallel 4;
  mkVar "CHUNK_TIMEOUT_SECONDS" 30 3600 ChunkTimeoutSeconds 300;
  mkVar "MAX_INPUT_BYTES" mib gib MaxInputBytes gib;
  mkVar "WORKER_RAM_BYTES" (2 * gib) (64 * gib) WorkerRAMBytes (6 * gib);
  mkVar "MAX_PAGES_PER_CHUNK" 1 50000 MaxPagesPerChunk 10000;
  mkVar "MAX_MB_PER_CHUNK" 1 1000 MaxMBPerChunk 50;
  mkVar "XLSX_MIN_PAGES_PER_CHUNK" 1 20000 XLSXMinPagesPerChunk 200;
  mkVar "PPTX_MIN_PAGES_PER_CHUNK" 1 500 PPTXMinPagesPerChunk 25;
  mkVar "POOL_MIN_CHUNKS" 1 64 PoolMinChunks 2;
  mkVar "XLSX_MAX_POOL_SIZE" 1 16 XLSXMaxPoolSize 4;
  mkVar "RATE_LIMIT_PER_IP_RPM" 1 10000 RateLimitPerIPRPM 30;
  mkVar "RATE_LIMIT_BURST" 1 1000 RateLimitBurst 5;
  mkVar "RATE_LIMIT_MAX_KEYS" 10 1000000 RateLimitMaxKeys 10000;
  mkVar "GOTENBERG_TIMEOUT_SECONDS" 31 600 GotenbergTimeoutSeconds 120;
  mkVar "HTML_MAX_BYTES" 1024 (100 * mib) HTMLMaxBytes tenMiB;
  mkVar "S3_PRESIGN_TTL_SECONDS" 1 (7 * 24 * 3600) S3PresignTTLSeconds 900].

(** The value a variable's text denotes, [None] when it is not acceptable. *)
Definition var_value (env : environment) (v : int_var) : option Z :=
  match LookupEnv env (var_name v) with
  | None => Some (var_default v)
  | Some raw =>
      z ← parse_int (trim_space raw);
      if (z <? var_min v) || (var_max v <? z) then None else Some z
  end.

Definition choice_ok (env : environment) (name def : string) (allowed : list string) : bool :=
  existsb (String.eqb (default def (LookupEnv env name))) allowed.

Section theory.
Context `{PrintTable} `{UnicodeTables}.

Lemma envInt_value env name def mn mx field :
  let v := mkVar name mn mx field def in
  (envInt env name def mn mx).2 = None ↔ var_value env v = Some (envInt env name def mn mx).1.
Proof.
  cbn zeta. unfold envInt, envInt64, var_value. cbn [var_name var_min var_max var_default].
  destruct (LookupEnv env name) as [raw|]; [|by split].
  destruct (parse_int (trim_space raw)) as [z|]; [|by split]. cbn [mbind option_bind].
  destruct (_ || _); by split.
Qed.

Lemma envInt_none env name def mn mx field :
  (envInt env name def mn mx).2 ≠ None ↔ var_value env (mkVar name mn mx field def) = None.
Proof.
  unfold envInt, envInt64, var_value. cbn [var_name var_min var_max var_default].
  destruct (LookupEnv env name) as [raw|]; [|by split].
  destruct (parse_int (trim_space raw)) as [z|]; [|by split]. cbn [mbind option_bind].
  destruct (_ || _); by split.
Qed.

Lemma var_value_range env v z : var_value env v = Some z → var_min v <= var_default v <= var_max v →
  var_min v <= z <= var_max v.
Proof.
  unfold var_value. destruct (LookupEnv env (var_name v)) as [raw|]; [|by intros [= <-]].
  destruct (parse_int (trim_space raw)) as [z'|]; [|done]. cbn.
  destruct (Z.ltb_spec z' (var_min v)), (Z.ltb_spec (var_max v) z'); cbn; try done.
  intros [= <-]. lia.
Qed.

Lemma int_vars_defaults : Forall (λ v, var_min v <= var_default v <= var_max v) int_vars.
Proof. repeat (constructor; [vm_compute; split; discriminate|]). constructor. Qed.

Lemma oneOf_none v allowed : oneOf v allowed = None ↔ existsb (String.eqb v) allowed = true.
Proof. unfold oneOf. destruct (existsb _ _); by split. Qed.

Lemma omap_id_nil {A} (l : list (option A)) : omap id l = [] ↔ Forall (λ o, o = None) l.
Proof.
  induction l as [|[a|] l IH]; cbn; rewrite ?Forall_cons.
  - by split; [constructor|].
  - split; [done|by intros [? _]].
  - rewrite IH. tauto.
Qed.

Lemma fail_none field e : fail field e = None ↔ e = None.
Proof. destruct e; by split. Qed.

(** Case analysis of [Forall] over the literal lists of checks: each element's
    fact as a hypothesis of its own, or as a goal of its own. *)
Ltac use_reads :=
  cbn [var_name var_default var_min var_max var_field fst snd] in *;
  repeat match goal with
  | Hx : envInt _ _ _ _ _ = (_, _) |- _ => rewrite Hx in *; clear Hx
  end; cbn [fst snd] in *.
Ltac forall_inv Hall :=
  repeat (apply Forall_cons in Hall as [?%fail_none Hall] || apply Forall_cons in Hall as [? Hall]);
  use_reads.
Ltac forall_split :=
  repeat (apply Forall_cons; split); try apply Forall_nil; use_reads;
  try first [assumption | reflexivity | by apply fail_none].

(** [Load] without its bindings: the record of the values read, when every
    check passed. *)
Definition checks (env : environment) : Prop :=
  Forall (λ v, (envInt env (var_name v) (var_default v) (var_min v) (var_max v)).2 = None) int_vars ∧
  choice_ok env "LOG_FORMAT" "json" ["json"; "human"] = true ∧
  choice_ok env "LOG_LEVEL" "info" ["debug"; "info"; "warn"; "error"] = true.

Lemma load_cases env :
  match Load env with
  | Ok s => checks env ∧
      Forall (λ v, var_field v s =
        (envInt env (var_name v) (var_default v) (var_min v) (var_max v)).1) int_vars ∧
      LogFormat s = envStr env "LOG_FORMAT" "json" ∧ LogLevel s = envStr env "LOG_LEVEL" "info"
  | Err _ => ¬ checks env
  end.
Proof.
  unfold checks, int_vars, Load.
  repeat (change envInt64 with envInt).
  repeat match goal with
  | |- context [envInt ?e ?n ?d ?a ?b] => destruct (envInt e n d a b) as [? ?] eqn:?
  end.
  match goal with |- context [omap id ?l] => pose proof (omap_id_nil l) as Herrs end.
  destruct (omap id _) as [|err errs].
  - apply proj1 in Herrs. specialize (Herrs eq_refl). forall_inv Herrs.
    split_and!; try (by apply oneOf_none); try done; forall_split.
  - intros (Hv & H1 & H2). enough (err :: errs = []) by done. apply Herrs. clear Herrs.
    forall_inv Hv. forall_split; apply fail_none, oneOf_none; assumption.
Qed.

Lemma checks_values env :
  checks env ↔ Forall (λ v, is_Some (var_value env v)) int_vars ∧
    choice_ok env "LOG_FORMAT" "json" ["json"; "human"] = true ∧
    choice_ok env "LOG_LEVEL" "info" ["debug"; "info"; "warn"; "error"] = true.
Proof.
  unfold checks. apply and_iff_compat_r. rewrite Forall_forall, Forall_forall.
  split; intros Hv v Hin; specialize (Hv v Hin); destruct v as [name mn mx field def]; cbn in *.
  - apply (envInt_value env name def mn mx field) in Hv. by eexists.
  - destruct Hv as [z Hz]. destruct (envInt env name def mn mx).2 eqn:He; [|done].
    assert ((envInt env name def mn mx).2 ≠ None) as Hn by by rewrite He.
    apply (envInt_none env name def mn mx field) in Hn. congruence.
Qed.
End theory.

Lemma loaded_bounds `{PrintTable} `{UnicodeTables} env s :
  Load env = Ok s →
  Forall (λ v, var_value env v = Some (var_field v s) ∧ var_min v <= var_field v s <= var_max v) int_vars ∧
  LogFormat s ∈ ["json"; "human"] ∧ LogLevel s ∈ ["debug"; "info"; "warn"; "error"].
Proof.
  intros Hl. pose proof (load_cases env) as Hc. rewrite Hl in Hc.
  destruct Hc as ((Hnone & H1 & H2) & Hval & Hf & Hlv). pose proof int_vars_defaults as Hdef.
  rewrite !Forall_forall in *. split.
  - intros v Hin. specialize (Hnone v Hin). specialize (Hval v Hin). specialize (Hdef v Hin).
    destruct v as [name mn mx field def]; cbn in *. rewrite Hval.
    apply (envInt_value env name def mn mx field) in Hnone. split; [done|].
    by apply (var_value_range env _ _ Hnone).
  - rewrite Hf, Hlv. unfold choice_ok, envStr in *.
    apply existsb_exists in H1 as (a & Ha & ->%String.eqb_eq), H2 as (b & Hb & ->%String.eqb_eq).
    by rewrite !list_elem_of_In.
Qed.

(** C31: when loading succeeds every integer setting is the value its variable
    denotes, or its default, and lies within its bounds; the log format and
    level are among the allowed ones. *)
Theorem load_in_bounds `{PrintTable} `{UnicodeTables} env s :
  Load env = Ok s →
  Forall (λ v, var_value env v = Some (var_field v s) ∧ var_min v <= var_field v s <= var_max v) int_vars ∧
  LogFormat s ∈ ["json"; "human"] ∧ LogLevel s ∈ ["debug"; "info"; "warn"; "error"].
Proof. apply loaded_bounds. Qed.

(** Loading succeeds exactly when every integer variable is unset or holds
    an integer within its bounds and the two choices are allowed ones; nothing
    else can make the server refuse to start. *)
Theorem load_succeeds_iff `{PrintTable} `{UnicodeTables} env :
  is_ok (Load env) = true ↔
  Forall (λ v, is_Some (var_value env v)) int_vars ∧
  choice_ok env "LOG_FORMAT" "json" ["json"; "human"] = true ∧
  choice_ok env "LOG_LEVEL" "info" ["debug"; "info"; "warn"; "error"] = true.
Proof.
  rewrite <- checks_values. pose proof (load_cases env) as Hc.
  destruct (Load env) as [s|e]; cbn; [tauto|]. split; [done|tauto].
Qed.

(** ** Witness *)

#[local] Instance sample_print : PrintTable := {| is_print_wide := λ _, true |}.
#[local] Instance sample_tables : UnicodeTables := {| unicode_to_lower := id |}.
Definition sample_env : environment :=
  {[ "OFFICE_CONVERT_PARALLEL" := " 8 "; "OFFICE_CONVERT_LOG_LEVEL" := "debug" ]}.

Lemma load_in_bounds_witness :
  ∃ s, Load sample_env = Ok s ∧ Parallel s = 8 ∧
    Forall (λ v, var_min v <= var_field v s <= var_max v) int_vars.
Proof.
  destruct (Load sample_env) as [s|e] eqn:Hl; [|vm_compute in Hl; discriminate Hl].
  exists s. split; [reflexivity|]. split; [vm_compute in Hl; by injection Hl as <-|].
  destruct (load_in_bounds sample_env s Hl) as [Hall _].
  eapply Forall_impl; [exact Hall|]. by intros v [_ H].
Defined.
