(* ===== verification/S3.v ===== *)
(** * S3 sources and sinks ([internal/s3/s3.go], [internal/s3/aws.go])

    URL parsing, the bucket allowlists and the three network operations.  The
    AWS SDK, the hash and the local file system are arguments of the operations;
    each operation returns, besides its result, the SDK calls it made. *)
From Stdlib Require Import ZArith Lia Bool SpecFloat Ascii String.
From stdpp Require Import base tactics list gmap strings.
From S2P Require Import Prelude GoFloat GoString GoFmt GoTime Types OErrors Config.
From stdpp Require Import list.
Local Open Scope Z_scope.

Definition scheme : string := "s3://".

(** ** Pure helpers *)

Section pure.
Context `{PrintTable}.

Definition ParseURL (url : string) : result Error (string * string) :=
  if String.eqb url "" || negb (has_prefix url scheme) then Err (NewS3InvalidURL url)
  else
    let rest := str_drop (String.length scheme) url in
    let '(bucket, key) := cut rest "/"%char in
    if String.eqb bucket "" then Err (NewS3InvalidURL url) else Ok (bucket, key).

Definition ParseAllowlist (raw : string) : list string :=
  if String.eqb raw "" then []
  else List.filter (λ t, negb (String.eqb t "")) (trim_space <$> split_on raw ","%char).

Definition IsInputBucketAllowed (bucket : string) (s : Settings) : bool :=
  existsb (λ b, String.eqb b bucket) (ParseAllowlist (S3InputBucketsAllowlist s)).

Definition IsOutputBucketAllowed (bucket : string) (s : Settings) : bool :=
  existsb (λ b, String.eqb b bucket) (ParseAllowlist (S3OutputBucketsAllowlist s)) ||
  (negb (String.eqb (S3DefaultOutputBucket s) "") && String.eqb bucket (S3DefaultOutputBucket s)).

Definition ResolveOutputTarget (url requestID : string) (s : Settings)
    : result Error (string * string) :=
  '(bucket, key) ← ParseURL url;
  Ok (bucket, if String.eqb key ""
              then replace_all (S3OutputKeyTemplate s) "{request_id}" requestID else key).
End pure.

(** ** Client construction *)

Definition firstNonEmpty (vals : list string) : string :=
  default "" (List.find (λ v, negb (String.eqb (trim_space v) "")) vals).

Record ClientOptions : Type := mkClient {
  Region : option string;
  BaseEndpoint : option string;
  UsePathStyle : bool
}.

Definition region_opt (s : Settings) : option string :=
  if String.eqb (S3Region s) "" then None else Some (S3Region s).

(** The endpoint of an explicit URL, or the regional one. *)
Definition client_options (endpoint : string) (s : Settings) : ClientOptions :=
  if negb (String.eqb endpoint "") then mkClient (region_opt s) (Some endpoint) true
  else mkClient (region_opt s)
    ((λ r, "https://s3." +:+ r +:+ ".amazonaws.com") <$> region_opt s) false.

Definition loadClientOptions (env : environment) (s : Settings) : ClientOptions :=
  client_options
    (firstNonEmpty [default "" (env !! "AWS_ENDPOINT_URL_S3"); default "" (env !! "AWS_ENDPOINT_URL")]) s.

(** ** The network operations *)

Inductive call : Type :=
| CGetObject (o : ClientOptions) (bucket key : string)
| CUpload (o : ClientOptions) (bucket key body : string)
| CPresign (o : ClientOptions) (bucket key : string) (ttl : Z).

Definition call_bucket (c : call) : string :=
  match c with CGetObject _ b _ | CUpload _ b _ _ | CPresign _ b _ _ => b end.

Definition notFoundCodes : list string := ["NoSuchKey"; "NoSuchBucket"; "404"; "NotFound"].
Definition forbiddenCodes : list string := ["AccessDenied"; "403"; "AllAccessDisabled"].

(** The SDK, the local files and the hash.  An SDK error has the code
    [apiErrorCode] extracts and a message. *)
Record World : Type := mkWorld {
  load_config : option string;
  get_object : ClientOptions → string → string → result (string * string) string;
  upload : ClientOptions → string → string → string → option string;
  presign : ClientOptions → string → string → Z → result string string;
  create_dest : string → option string;
  copy_body : string → option string;
  open_local : string → result string string;
  sha256_hex : string → string
}.

Section ops.
Context `{PrintTable} (env : environment) (w : World).

(** Result, the SDK calls made, and the file written. *)
Definition DownloadToPath (url dest : string) (s : Settings)
    : result error string * list call * option (string * string) :=
  match ParseURL url with
  | Err e => (Err (EConv e), [], None)
  | Ok (bucket, key) =>
      if String.eqb key "" then (Err (EConv (NewS3InvalidURL url)), [], None)
      else if negb (IsInputBucketAllowed bucket s)
      then (Err (EConv (NewS3InputForbidden bucket)), [], None)
      else
        match load_config w with
        | Some e => (Err (EConv (NewRender None (-1) ("s3 config: " +:+ e))), [], None)
        | None =>
            let o := loadClientOptions env s in
            let calls := [CGetObject o bucket key] in
            match get_object w o bucket key with
            | Err (code, e) =>
                if existsb (String.eqb code) notFoundCodes
                then (Err (EConv (NewS3InputNotFound bucket key)), calls, None)
                else if existsb (String.eqb code) forbiddenCodes
                then (Err (EConv (NewS3InputForbidden bucket)), calls, None)
                else (Err (EConv (NewRender None (-1) ("s3 get: " +:+ e))), calls, None)
            | Ok body =>
                match create_dest w dest with
                | Some e => (Err (EOther e), calls, None)
                | None =>
                    match copy_body w body with
                    | Some e => (Err (EOther e), calls, Some (dest, body))
                    | None => (Ok (sha256_hex w body), calls, Some (dest, body))
                    end
                end
            end
        end
  end.

Definition UploadFile (localPath bucket key : string) (s : Settings)
    : option error * list call :=
  if negb (IsOutputBucketAllowed bucket s) then (Some (EConv (NewS3OutputForbidden bucket)), [])
  else
    match load_config w with
    | Some e => (Some (EConv (NewS3OutputUploadFailed bucket key e)), [])
    | None =>
        match open_local w localPath with
        | Err e => (Some (EConv (NewS3OutputUploadFailed bucket key e)), [])
        | Ok body =>
            let o := loadClientOptions env s in
            let calls := [CUpload o bucket key body] in
            match upload w o bucket key body with
            | Some e => (Some (EConv (NewS3OutputUploadFailed bucket key e)), calls)
            | None => (None, calls)
            end
        end
    end.

Definition PresignGetURL (bucket key : string) (s : Settings)
    : result error string * list call :=
  if negb (IsOutputBucketAllowed bucket s) then (Err (EConv (NewS3OutputForbidden bucket)), [])
  else
    match load_config w with
    | Some e => (Err (EConv (NewRender None (-1) ("s3 config: " +:+ e))), [])
    | None =>
        let o := client_options (S3PublicEndpoint s) s in
        let ttl := (S3PresignTTLSeconds s *! Second)%go in
        let calls := [CPresign o bucket key ttl] in
        match presign w o bucket key ttl with
        | Err e => (Err (EConv (NewRender None (-1) ("s3 presign: " +:+ e))), calls)
        | Ok url => (Ok url, calls)
        end
    end.
End ops.

(** ** Theorems *)

(** An [s3://bucket/key] URL is split at the first slash after the scheme,
    whatever the key; anything else but a bucket alone is refused, with an
    error that carries the URL. *)
Theorem parse_url_spec `{PrintTable} :
  (∀ bucket key, bucket ≠ "" → no_byte "/"%char bucket →
     ParseURL (scheme +:+ bucket +:+ "/" +:+ key) = Ok (bucket, key) ∧
     ParseURL (scheme +:+ bucket) = Ok (bucket, "")) ∧
  (∀ url, match ParseURL url with
   | Ok (bucket, key) => bucket ≠ "" ∧ no_byte "/"%char bucket ∧
       (url = scheme +:+ bucket +:+ "/" +:+ key ∨ url = scheme +:+ bucket ∧ key = "")
   | Err e => e = NewS3InvalidURL url ∧
       ∀ bucket key, bucket ≠ "" → url ≠ scheme +:+ bucket +:+ "/" +:+ key ∨ ¬ no_byte "/"%char bucket
   end).
Proof.
  assert (∀ rest, ParseURL (scheme +:+ rest) =
    let '(bucket, key) := cut rest "/"%char in
    if String.eqb bucket "" then Err (NewS3InvalidURL (scheme +:+ rest)) else Ok (bucket, key)) as Hcut.
  { intros rest. unfold ParseURL. by rewrite has_prefix_app, str_drop_app. }
  assert (∀ bucket key, bucket ≠ "" → no_byte "/"%char bucket →
    ParseURL (scheme +:+ bucket +:+ "/" +:+ key) = Ok (bucket, key)) as Hok.
  { intros bucket key Hb Hn. change ("/" +:+ key) with (String "/"%char key).
    rewrite Hcut, cut_app by done. by rewrite (proj2 (String.eqb_neq bucket "")). }
  split.
  - intros bucket key Hb Hn. split; [by apply Hok|].
    rewrite Hcut, cut_none by done. by rewrite (proj2 (String.eqb_neq bucket "")).
  - intros url. destruct (ParseURL url) as [[bucket key]|e] eqn:Hp.
    + unfold ParseURL in Hp. destruct (_ || _) eqn:Hg; [done|].
      apply orb_false_iff in Hg as [_ [rest ->]%negb_false_iff%has_prefix_spec].
      rewrite str_drop_app in Hp. destruct (cut rest "/"%char) as [b k] eqn:Hc.
      destruct (String.eqb_spec b ""); [done|]. injection Hp as <- <-.
      destruct (cut_spec _ _ _ _ Hc) as [[->|[-> ->]] Hn]; auto.
    + split.
      * unfold ParseURL in Hp. destruct (_ || _); [by injection Hp as <-|].
        destruct (cut _ _) as [b k]. destruct (String.eqb b ""); [by injection Hp as <-|done].
      * intros bucket key Hb. destruct (decide (no_byte "/"%char bucket)) as [Hn|]; [left|by right].
        intros ->. by rewrite Hok in Hp.
Qed.

(** C32: no SDK call is ever made for a bucket outside the allowlists, and a
    refused bucket is reported as forbidden. *)
Theorem s3_allowlist_before_network `{PrintTable} env w s :
  (∀ url dest, let '(r, calls, _) := DownloadToPath env w url dest s in
     Forall (λ c, IsInputBucketAllowed (call_bucket c) s = true) calls ∧
     (calls = [] → is_ok r = false)) ∧
  (∀ path bucket key, let '(r, calls) := UploadFile env w path bucket key s in
     Forall (λ c, IsOutputBucketAllowed (call_bucket c) s = true) calls ∧
     (IsOutputBucketAllowed bucket s = false → r = Some (EConv (NewS3OutputForbidden bucket)))) ∧
  (∀ bucket key, let '(r, calls) := PresignGetURL w bucket key s in
     Forall (λ c, IsOutputBucketAllowed (call_bucket c) s = true) calls ∧
     (IsOutputBucketAllowed bucket s = false → r = Err (EConv (NewS3OutputForbidden bucket)))).
Proof.
  split_and!.
  - intros url dest. unfold DownloadToPath. destruct (ParseURL url) as [[bucket key]|e]; [|done].
    destruct (String.eqb key ""); [done|].
    destruct (IsInputBucketAllowed bucket s) eqn:Ha; [|done]. cbn [negb].
    destruct (load_config w); [done|].
    assert (∀ o, Forall (λ c, IsInputBucketAllowed (call_bucket c) s = true) [CGetObject o bucket key]) as Hf.
    { intros o. by repeat constructor. }
    destruct (get_object w _ bucket key) as [body|[code e]].
    + destruct (create_dest w dest); [done|]. by destruct (copy_body w body).
    + destruct (existsb _ notFoundCodes); [done|]. by destruct (existsb _ forbiddenCodes).
  - intros path bucket key. unfold UploadFile.
    destruct (IsOutputBucketAllowed bucket s) eqn:Ha; [|done]. cbn [negb].
    destruct (load_config w); [done|]. destruct (open_local w path); [|done].
    by destruct (upload w _ bucket key a); (split; [repeat constructor|]).
  - intros bucket key. unfold PresignGetURL.
    destruct (IsOutputBucketAllowed bucket s) eqn:Ha; [|done]. cbn [negb].
    destruct (load_config w); [done|].
    by destruct (presign w _ bucket key _); (split; [repeat constructor|]).
Qed.

(** The allowlists fail closed: an unset input list allows no bucket, an
    unset output list at most the default output bucket, and the empty bucket
    name is never allowed; an output URL without a key gets the key template
    with the request id in place, in the same bucket. *)
Theorem allowlists_fail_closed `{PrintTable} s :
  (S3InputBucketsAllowlist s = "" → ∀ b, IsInputBucketAllowed b s = false) ∧
  (S3OutputBucketsAllowlist s = "" → ∀ b, IsOutputBucketAllowed b s = true →
     b = S3DefaultOutputBucket s ∧ b ≠ "") ∧
  IsInputBucketAllowed "" s = false ∧ IsOutputBucketAllowed "" s = false ∧
  (∀ bucket key rid, bucket ≠ "" → no_byte "/"%char bucket →
     ResolveOutputTarget (scheme +:+ bucket +:+ "/" +:+ key) rid s =
     Ok (bucket, if String.eqb key ""
                 then replace_all (S3OutputKeyTemplate s) "{request_id}" rid else key)).
Proof.
  assert (∀ raw, existsb (λ b, String.eqb b "") (ParseAllowlist raw) = false) as Hblank.
  { intros raw. apply not_true_is_false. intros (b & Hin & ->%String.eqb_eq)%existsb_exists.
    unfold ParseAllowlist in Hin. destruct (String.eqb raw ""); [done|].
    by apply List.filter_In in Hin as [_ Hne]. }
  split_and!.
  - intros Hr b. unfold IsInputBucketAllowed. by rewrite Hr.
  - intros Hr b. unfold IsOutputBucketAllowed. rewrite Hr. cbn [ParseAllowlist existsb orb].
    destruct (String.eqb_spec (S3DefaultOutputBucket s) "") as [|Hd]; [done|]. simpl.
    intros ->%String.eqb_eq. done.
  - apply Hblank.
  - unfold IsOutputBucketAllowed. rewrite Hblank.
    destruct (String.eqb_spec (S3DefaultOutputBucket s) ""); [done|]. cbn [negb orb andb].
    by apply String.eqb_neq.
  - intros bucket key rid Hb Hn. unfold ResolveOutputTarget, ParseURL.
    rewrite has_prefix_app, str_drop_app. change ("/" +:+ key) with (String "/"%char key).
    rewrite cut_app by done. by rewrite (proj2 (String.eqb_neq bucket "")).
Qed.
