(* ===== verification/License.v ===== *)
(** * License expiry ([internal/license/license.go])

    The license file is read through [encoding/xml]: the model starts from the
    decoder's token stream (which ends in [io.EOF] or in a syntax error) and
    translates the scan for the two expiry elements, the date formats, the
    mtime-driven cache of the manager and the classification by days left. *)
From Stdlib Require Import ZArith Lia Bool SpecFloat Ascii String.
From stdpp Require Import base tactics list gmap strings.
From S2P Require Import Prelude GoFloat GoString GoTime Types.
From stdpp Require Import list.
Local Open Scope Z_scope.

Definition healthyMinDays : Z := 7.
Definition warnMinDays : Z := 4.
Definition asposeNumericDateLen : Z := 8.

(** ** Classification *)

Definition Classify (daysRemaining : Z) (hasExpiry : bool) : LicenseState :=
  if negb hasExpiry then LicenseStatePermanent
  else if healthyMinDays <? daysRemaining then LicenseStateHealthy
  else if warnMinDays <=? daysRemaining then LicenseStateWarn
  else if 1 <=? daysRemaining then LicenseStateCritical
  else if daysRemaining =? 0 then LicenseStateExpiringToday
  else LicenseStateExpired.

(** ** Dates *)

Inductive license_error : Type :=
| EOpen (msg : string)
| EMalformed
| EDate (raw : string).

(** A fixed-width decimal field. *)
Definition fixed_digits (l : list Z) : option Z :=
  if forallb is_digit l && negb (bool_decide (l = [])) then parse_digits l else None.

Definition checked_date (y m d : Z) : option Time :=
  if valid_date y m d then Some (date_utc y m d) else None.

(** [time.Parse("20060102", raw)] and [time.Parse("2006-01-02", raw)]: four-digit
    year, two-digit month and day, nothing before, between or after. *)
Definition parse_compact (raw : string) : option Time :=
  match bytes raw with
  | [y1; y2; y3; y4; m1; m2; d1; d2] =>
      y ← fixed_digits [y1; y2; y3; y4];
      m ← fixed_digits [m1; m2];
      d ← fixed_digits [d1; d2];
      checked_date y m d
  | _ => None
  end.
Definition parse_iso (raw : string) : option Time :=
  match bytes raw with
  | [y1; y2; y3; y4; 45; m1; m2; 45; d1; d2] =>
      y ← fixed_digits [y1; y2; y3; y4];
      m ← fixed_digits [m1; m2];
      d ← fixed_digits [d1; d2];
      checked_date y m d
  | _ => None
  end.

Definition isAllDigits (s : string) : bool :=
  forallb (λ r, in_range 48 r 57) (runes (bytes s)) && (0 <? str_len s).

Definition parseAsposeDate (raw : string) : result license_error Time :=
  let raw := trim_space raw in
  match (if (str_len raw =? asposeNumericDateLen) && isAllDigits raw
         then parse_compact raw else parse_iso raw) with
  | Some t => Ok t
  | None => Err (EDate raw)
  end.

(** ** The scan of the XML tokens *)

Inductive token : Type :=
| StartElement (local : string)
| EndElement (local : string)
| CharData (text : string)
| OtherToken.

(** What [os.Open] and the decoder make of the file: an error, or the tokens
    followed by [io.EOF] ([true]) or a syntax error ([false]). *)
Definition document := result string (list token * bool).

(** [DecodeElement] into a string, after the start tag: the text directly
    inside the element, [None] when the tokens end before the element does. *)
Fixpoint decode_text (depth : nat) (acc : string) (toks : list token) : option (string * list token) :=
  match toks with
  | [] => None
  | CharData t :: toks => decode_text depth (match depth with O => acc +:+ t | _ => acc end) toks
  | StartElement _ :: toks => decode_text (S depth) acc toks
  | EndElement _ :: toks =>
      match depth with O => Some (acc, toks) | S depth => decode_text depth acc toks end
  | OtherToken :: toks => decode_text depth acc toks
  end.

Definition is_expiry (local : string) : bool :=
  String.eqb local "SubscriptionExpiry" || String.eqb local "LicenseExpiry".

(** The token loop; every round consumes at least one token. *)
Fixpoint scan_expiry (fuel : nat) (eof : bool) (toks : list token) (earliest : option Time)
    : result license_error (option Time) :=
  match fuel with
  | O => Ok earliest
  | S fuel =>
      match toks with
      | [] => if eof then Ok earliest else Err EMalformed
      | StartElement local :: toks =>
          if negb (is_expiry local) then scan_expiry fuel eof toks earliest
          else
            match decode_text 0 "" toks with
            | None => Err EMalformed
            | Some (text, toks) =>
                let text := trim_space text in
                if String.eqb text "" then scan_expiry fuel eof toks earliest
                else
                  match parseAsposeDate text with
                  | Err e => Err e
                  | Ok d =>
                      scan_expiry fuel eof toks
                        (match earliest with
                         | Some e => if time_before d e then Some d else Some e
                         | None => Some d
                         end)
                  end
            end
      | _ :: toks => scan_expiry fuel eof toks earliest
      end
  end.

(** [parseExpiry]; [found] is [Some]. *)
Definition parseExpiry (doc : document) : result license_error (option Time) :=
  match doc with
  | Err e => Err (EOpen e)
  | Ok (toks, eof) => scan_expiry (S (length toks)) eof toks None
  end.

(** ** The manager *)

Record Manager : Type := mkManager {
  read : bool;
  modTime : Time;
  expiry : Time;
  hasExp : bool
}.
Definition NewManager : Manager := mkManager false zero_time zero_time false.

(** The file at the moment of a query: its mtime ([None]: [os.Stat] fails) and
    what parsing it would see. *)
Record File : Type := mkFile { mtime : option Time; content : document }.

Definition Refresh (m : Manager) : Manager := mkManager false (modTime m) (expiry m) (hasExp m).

Definition stale (f : File) (m : Manager) : bool :=
  negb (read m) || match mtime f with Some t => negb (time_equal t (modTime m)) | None => false end.

Definition ExpiryDate (f : File) (m : Manager) : result license_error (option Time) * Manager :=
  if stale f m then
    match parseExpiry (content f) with
    | Err e => (Err e, m)
    | Ok exp =>
        let m := mkManager true (default (modTime m) (mtime f)) (default zero_time exp)
                   (match exp with Some _ => true | None => false end) in
        (Ok exp, m)
    end
  else (Ok (if hasExp m then Some (expiry m) else None), m).

(** The whole days between two calendar dates. *)
Definition days_between `{GoArch} (exp today : Time) : Z :=
  int_of_f64 (fdiv (dur_hours (time_sub (utc_midnight exp) (utc_midnight today))) (f64_of_Z 24)).

Definition DaysRemaining `{GoArch} (today : Time) (f : File) (m : Manager)
    : result license_error (option Z) * Manager :=
  let '(r, m) := ExpiryDate f m in
  (match r with
   | Err e => Err e
   | Ok None => Ok None
   | Ok (Some exp) => Ok (Some (days_between exp today))
   end, m).

Definition IsExpired `{GoArch} (today : Time) (f : File) (m : Manager)
    : result license_error bool * Manager :=
  let '(r, m) := DaysRemaining today f m in
  (match r with
   | Err e => Err e
   | Ok None => Ok false
   | Ok (Some days) => Ok (days <? 0)
   end, m).

(** [State]; on an error the state is [Expired] besides the error. *)
Definition State `{GoArch} (today : Time) (f : File) (m : Manager)
    : LicenseState * option license_error * Manager :=
  let '(r, m) := DaysRemaining today f m in
  match r with
  | Err e => (LicenseStateExpired, Some e, m)
  | Ok None => (LicenseStatePermanent, None, m)
  | Ok (Some days) => (Classify days true, None, m)
  end.

(** ** Theorems: days left *)

Lemma quot_mul_day D : Z.quot (D * Day) Hour = 24 * D ∧ Z.rem (D * Day) Hour = 0.
Proof.
  replace (D * Day) with (24 * D * Hour) by (unfold Day; lia).
  split; [apply Z.quot_mul; vm_compute; discriminate|apply Z.rem_mul; vm_compute; discriminate].
Qed.

Lemma days_between_clamp `{GoArch} exp today :
  let D := wall exp / Day - wall today / Day in
  days_between exp today = Z.max (-106751) (Z.min 106751 D).
Proof.
  cbn zeta. set (D := wall exp / Day - wall today / Day).
  assert (time_diff (utc_midnight exp) (utc_midnight today) = D * Day) as Hdiff.
  { unfold time_diff. cbn. unfold D. lia. }
  unfold days_between, time_sub. rewrite Hdiff.
  destruct (decide (-106751 <= D <= 106751)) as [HD|HD].
  - rewrite sat_i64_id by (unfold in_i64, Day, Hour, Minute, Second; lia).
    destruct (quot_mul_day D) as [Hq Hr]. unfold dur_hours. rewrite Hq, Hr.
    change (fdiv (f64_of_Z 0) (f64_of_Z Hour)) with f0. rewrite fadd_of_Z_0 by lia.
    destruct (decide (D = 0)) as [->|Hne]; [reflexivity|].
    rewrite fdiv_exact_int by lia. rewrite int_of_f64_of_Z by lia. lia.
  - assert (sat_i64 (D * Day) = max_i64 ∧ 106751 < D ∨ sat_i64 (D * Day) = min_i64 ∧ D < -106751)
      as [[-> Hb]|[-> Hb]].
    { unfold sat_i64, min_i64, max_i64, Day, Hour, Minute, Second. lia. }
    + replace (Z.max (-106751) (Z.min 106751 D)) with 106751 by lia. vm_compute. reflexivity.
    + replace (Z.max (-106751) (Z.min 106751 D)) with (-106751) by lia. vm_compute. reflexivity.
Qed.

(** The days left are the exact difference between the two calendar dates
    as long as it is at most 106751 days (292 years) either way, whatever the
    times of day, and beyond that keep their sign. *)
Theorem days_between_exact `{GoArch} exp today :
  let D := wall exp / Day - wall today / Day in
  (Z.abs D <= 106751 → days_between exp today = D) ∧
  (days_between exp today < 0 ↔ D < 0) ∧ (days_between exp today = 0 ↔ D = 0).
Proof. cbn zeta. rewrite (days_between_clamp exp today). lia. Qed.

(** The license is reported expired exactly from the day after its expiry
    date, expiring today on that date, critical for 1 to 3 days, warn for 4 to
    7 and healthy above; [IsExpired] and [State] never disagree. *)
Theorem state_bands `{GoArch} today f m exp m' :
  ExpiryDate f m = (Ok (Some exp), m') →
  let D := wall exp / Day - wall today / Day in
  ∃ st, State today f m = (st, None, m') ∧
    (st = LicenseStateExpired ↔ D < 0) ∧ (st = LicenseStateExpiringToday ↔ D = 0) ∧
    (st = LicenseStateCritical ↔ 1 <= D <= 3) ∧ (st = LicenseStateWarn ↔ 4 <= D <= 7) ∧
    (st = LicenseStateHealthy ↔ 7 < D) ∧
    IsExpired today f m = (Ok (bool_decide (st = LicenseStateExpired)), m').
Proof.
  intros He. cbn zeta. unfold State, IsExpired, DaysRemaining. rewrite He.
  eexists. split; [done|]. rewrite (days_between_clamp exp today).
  set (D := wall exp / Day - wall today / Day). unfold Classify, healthyMinDays, warnMinDays. cbn [negb].
  repeat guard_cases; split_and!; try (split; [discriminate|lia]); try (split; [lia|done]); try done; try lia.
Qed.

(** ** Theorems: the binding date *)

(** The texts of the expiry elements of a token stream, in order. *)
Inductive expiry_texts : list token → list string → Prop :=
| texts_nil : expiry_texts [] []
| texts_skip t toks l :
    (∀ n, t = StartElement n → is_expiry n = false) → expiry_texts toks l → expiry_texts (t :: toks) l
| texts_elem n toks text rest l :
    is_expiry n = true → decode_text 0 "" toks = Some (text, rest) → expiry_texts rest l →
    expiry_texts (StartElement n :: toks) (text :: l).

(** The dates the texts denote, blank ones left out; the first bad one fails. *)
Fixpoint parse_dates (texts : list string) : result license_error (list Time) :=
  match texts with
  | [] => Ok []
  | text :: texts =>
      if String.eqb (trim_space text) "" then parse_dates texts
      else d ← parseAsposeDate (trim_space text); ds ← parse_dates texts; Ok (d :: ds)
  end.

Definition earlier (e : option Time) (d : Time) : option Time :=
  match e with Some e => if time_before d e then Some d else Some e | None => Some d end.

Lemma decode_text_length depth acc toks text rest :
  decode_text depth acc toks = Some (text, rest) → (length rest < length toks)%nat.
Proof.
  revert depth acc. induction toks as [|t toks IH]; intros depth acc; [done|]. simpl.
  destruct t; try (intros Hd%IH; lia). destruct depth; [intros [= _ <-]; lia|intros Hd%IH; lia].
Qed.

Lemma scan_is_fold fuel toks texts earliest :
  expiry_texts toks texts → (length toks < fuel)%nat →
  scan_expiry fuel true toks earliest =
  match parse_dates texts with
  | Ok ds => Ok (foldl earlier earliest ds)
  | Err e => Err e
  end.
Proof.
  intros Ht. revert fuel earliest. induction Ht as [|t toks l Hno Ht IH|n toks text rest l Hn Hd Ht IH];
    intros [|fuel] earliest Hf; simpl in Hf |- *; try lia; [done| |].
  - assert (scan_expiry (S fuel) true (t :: toks) earliest = scan_expiry fuel true toks earliest) as Heq.
    { destruct t as [n| | |]; try done. simpl. by rewrite (Hno n eq_refl). }
    simpl in Heq. rewrite Heq. apply IH. lia.
  - rewrite Hn, Hd. cbn [negb]. apply decode_text_length in Hd.
    destruct (String.eqb (trim_space text) ""); [apply IH; lia|].
    destruct (parseAsposeDate (trim_space text)) as [d|e]; [|done]. rewrite IH by lia. cbn [mbind result_bind].
    by destruct (parse_dates l).
Qed.

Lemma parse_date_no_mono raw t : parseAsposeDate raw = Ok t → mono t = None.
Proof.
  unfold parseAsposeDate. intros Hp.
  assert (∀ y m d t, checked_date y m d = Some t → mono t = None) as Hc.
  { intros y m d t'. unfold checked_date. destruct (valid_date y m d); [|done]. by intros [= <-]. }
  assert (∀ ys ms ds t, (y ← fixed_digits ys; m ← fixed_digits ms; d ← fixed_digits ds; checked_date y m d)
    = Some t → mono t = None) as Hf.
  { intros ys ms ds t'. destruct (fixed_digits ys), (fixed_digits ms), (fixed_digits ds); cbn; try done.
    apply Hc. }
  match type of Hp with match ?x with _ => _ end = _ => destruct x as [t'|] eqn:He end; [|done].
  injection Hp as <-. destruct (_ && _); unfold parse_compact, parse_iso in He;
    repeat case_match; try done; by eapply Hf.
Qed.

Definition olist (e : option Time) : list Time := match e with Some e => [e] | None => [] end.

Lemma fold_earlier_min (ds : list Time) (e : option Time) :
  Forall (λ d, mono d = None) (olist e ++ ds) →
  (foldl earlier e ds = None ↔ e = None ∧ ds = []) ∧
  ∀ r, foldl earlier e ds = Some r →
    r ∈ olist e ++ ds ∧ Forall (λ d, wall r <= wall d) (olist e ++ ds).
Proof.
  revert e. induction ds as [|d ds IH]; intros e Hm; simpl in *.
  - split; [naive_solver|]. intros r ->. simpl. split; [by left|by repeat constructor].
  - apply Forall_app in Hm as [Hme Hmd]. inversion Hmd as [|? ? Hd Hmd']; subst.
    destruct (IH (earlier e d)) as [Hnone Hmin].
    { unfold earlier. destruct e as [e|]; [destruct (time_before d e)|]; simpl;
        [by constructor| |by constructor]. inversion Hme; subst. by constructor. }
    split.
    { rewrite Hnone. unfold earlier. destruct e as [e|]; [destruct (time_before d e)|]; naive_solver. }
    intros r Hr. destruct (Hmin r Hr) as [Hin Hall]. unfold earlier in Hin, Hall.
    destruct e as [e|]; simpl in *; [|done]. inversion Hme as [|? ? Hem _]; subst.
    unfold time_before, time_diff in Hin, Hall. rewrite Hem, Hd in Hin, Hall.
    destruct (Z.ltb_spec (wall d - wall e) 0); simpl in *; inversion Hall as [|? ? Hrd Hall']; subst.
    + split; [set_solver|]. constructor; [lia|by constructor].
    + split; [set_solver|]. constructor; [lia|constructor; [lia|done]].
Qed.

(** C30: a well-formed license binds at the earliest of the dates its expiry
    elements hold, blank ones ignored; it is permanent exactly when there is
    none, and a malformed date makes the whole file an error. *)
Theorem binding_date_is_earliest toks texts :
  expiry_texts toks texts →
  match parse_dates texts with
  | Err e => parseExpiry (Ok (toks, true)) = Err e
  | Ok ds => ∃ r, parseExpiry (Ok (toks, true)) = Ok r ∧ (r = None ↔ ds = []) ∧
      ∀ d, r = Some d → d ∈ ds ∧ Forall (λ d', wall d <= wall d') ds
  end.
Proof.
  intros Ht. unfold parseExpiry. rewrite (scan_is_fold _ toks texts) by (done || lia).
  destruct (parse_dates texts) as [ds|e] eqn:Hds; [|done]. eexists. split; [done|].
  assert (Forall (λ d, mono d = None) ds) as Hm.
  { clear Ht. revert ds Hds. induction texts as [|text texts IH]; simpl; [by intros ds [= <-]|].
    destruct (String.eqb (trim_space text) ""); [done|]. intros ds Hp.
    apply bind_ok_inv in Hp as (d & Hd & Hp). apply bind_ok_inv in Hp as (ds' & Hds' & [= <-]).
    constructor; [by eapply parse_date_no_mono|by apply IH]. }
  destruct (fold_earlier_min ds None Hm) as [Hnone Hmin]. split; [by rewrite Hnone; naive_solver|].
  intros d Hd. by apply Hmin.
Qed.

(** ** Theorems: the cache *)

(** Queries on successive states of the file. *)
Definition queries (files : list File) (m : Manager) : Manager :=
  foldl (λ m f, (ExpiryDate f m).2) m files.

(** Over these states of the file, equal modification times mean equal content. *)
Definition mtime_faithful (files : list File) : Prop :=
  ∀ f g t u, f ∈ files → g ∈ files → mtime f = Some t → mtime g = Some u →
    time_equal t u = true → content f = content g.

Definition cache_inv (files : list File) (m : Manager) : Prop :=
  read m = true → ∃ f, f ∈ files ∧ mtime f = Some (modTime m) ∧
    parseExpiry (content f) = Ok (if hasExp m then Some (expiry m) else None).

Lemma expiry_date_inv files f m :
  cache_inv files m → mtime f ≠ None → cache_inv (f :: files) (ExpiryDate f m).2.
Proof.
  intros Hinv Hf. unfold ExpiryDate. destruct (stale f m) eqn:Hs.
  - destruct (parseExpiry (content f)) as [exp|e] eqn:Hp; cbn [snd].
    + intros _. exists f. destruct (mtime f) as [t|] eqn:Ht; [|done]. cbn.
      split_and!; [by left|done|]. by destruct exp.
    + intros Hr. destruct (Hinv Hr) as (g & Hg & Hrest). exists g. split; [by right|done].
  - intros Hr. destruct (Hinv Hr) as (g & Hg & Hrest). exists g. split; [by right|done].
Qed.

(** As long as the file can be examined and a change of content shows in
    its modification time, every query answers with what parsing the current
    file gives, errors included, although an unchanged file is parsed once. *)
Theorem expiry_is_fresh files f :
  mtime_faithful (f :: files) → Forall (λ g, mtime g ≠ None) (f :: files) →
  (ExpiryDate f (queries files NewManager)).1 = parseExpiry (content f).
Proof.
  intros Hfaith Hm. inversion Hm as [|? ? Hf Hfs]; subst.
  assert (∀ hist m, cache_inv hist m → cache_inv (rev files ++ hist) (queries files m)) as Hq.
  { clear Hfaith Hm. induction Hfs as [|g files Hg _ IH]; intros hist m Hi; [done|].
    simpl. rewrite <- app_assoc. apply IH. by apply expiry_date_inv. }
  specialize (Hq [] NewManager ltac:(done)). rewrite app_nil_r in Hq.
  set (m := queries files NewManager) in *. unfold ExpiryDate.
  destruct (stale f m) eqn:Hs; [by destruct (parseExpiry (content f))|].
  apply orb_false_iff in Hs as [Hr%negb_false_iff Ht].
  destruct (Hq Hr) as (g & Hg & Hgt & Hp). destruct (mtime f) as [t|] eqn:Hft; [|done].
  apply negb_false_iff in Ht. cbn [fst]. rewrite <- Hp. f_equal. symmetry.
  apply (Hfaith f g t (modTime m)); [by left|right|done|done|done].
  apply list_elem_of_In, List.in_rev. by apply list_elem_of_In.
Qed.

(** ** Witnesses *)

Definition sample_tokens : list token :=
  [OtherToken; StartElement "License"; StartElement "SubscriptionExpiry"; CharData " 20250301 ";
   EndElement "SubscriptionExpiry"; StartElement "LicenseExpiry"; CharData "2024-12-31";
   EndElement "LicenseExpiry"; EndElement "License"].
Definition sample_file (t : Z) : File :=
  mkFile (Some (mkTime (t * Second) None)) (Ok (sample_tokens, true)).

Lemma state_bands_witness :
  ∃ st m', State (date_utc 2024 12 24) (sample_file 7) NewManager = (st, None, m') ∧
    st = LicenseStateWarn.
Proof.
  destruct (ExpiryDate (sample_file 7) NewManager) as [[[exp|]|e] m'] eqn:He;
    [|vm_compute in He; discriminate He..].
  destruct (state_bands (date_utc 2024 12 24) (sample_file 7) NewManager exp m' He)
    as (st & Hs & _ & _ & _ & Hw & _).
  exists st, m'. split; [exact Hs|]. apply Hw. vm_compute in He. injection He as <- _.
  vm_compute. split; discriminate.
Defined.

Lemma binding_date_is_earliest_witness :
  ∃ d, parseExpiry (Ok (sample_tokens, true)) = Ok (Some d) ∧ wall d = wall (date_utc 2024 12 31).
Proof.
  assert (expiry_texts sample_tokens [" 20250301 "; "2024-12-31"]) as Ht.
  { apply texts_skip; [done|]. apply texts_skip; [by intros n [= <-]|].
    eapply texts_elem; [done|reflexivity|]. eapply texts_elem; [done|reflexivity|].
    apply texts_skip; [done|]. constructor. }
  pose proof (binding_date_is_earliest sample_tokens _ Ht) as Hb.
  vm_compute in Hb. destruct Hb as (r & Hr & _ & _). eexists. split; [reflexivity|reflexivity].
Defined.

Lemma expiry_is_fresh_witness :
  (ExpiryDate (sample_file 9) (queries [sample_file 7; sample_file 7] NewManager)).1 =
  Ok (Some (date_utc 2024 12 31)).
Proof.
  rewrite (expiry_is_fresh [sample_file 7; sample_file 7] (sample_file 9)).
  - vm_compute. reflexivity.
  - intros f g t u Hf Hg _ _ _. assert (∀ h, h ∈ [sample_file 9; sample_file 7; sample_file 7] →
      content h = Ok (sample_tokens, true)) as Hc by set_solver. by rewrite !Hc.
  - by repeat constructor.
Defined.
