(* ===== verification/FS.v ===== *)
(** * The file system the orchestrator sees

    Files and directories by path, operations that may fail at any system call,
    and [path/filepath].  A schedule of faults says which calls fail; the trace
    keeps every state the file system goes through, so that what a concurrent
    reader can observe can be stated; [answered] is the status and the headers of
    the HTTP response once they are sent, [sent] what has been written after them. *)
From Stdlib Require Import ZArith Lia Bool Ascii String.
From stdpp Require Import base tactics list gmap strings.
From S2P Require Import Prelude GoString.
From stdpp Require Import list.

(** ** Paths *)

(** [filepath.Clean], one component at a time; [acc] is the cleaned path so far,
    last component first. *)
Fixpoint clean_components (rooted : bool) (acc comps : list string) : list string :=
  match comps with
  | [] => rev acc
  | c :: comps =>
      if String.eqb c "" || String.eqb c "." then clean_components rooted acc comps
      else if String.eqb c ".." then
        match acc with
        | [] => clean_components rooted (if rooted then [] else [".."]) comps
        | top :: acc' =>
            if String.eqb top ".." then clean_components rooted (".." :: acc) comps
            else clean_components rooted acc' comps
        end
      else clean_components rooted (c :: acc) comps
  end.

Definition components (p : string) : list string := split_on p "/"%char.
Definition is_rooted (p : string) : bool := has_prefix p "/".

Definition render_path (rooted : bool) (comps : list string) : string :=
  match comps with
  | [] => if rooted then "/" else "."
  | _ => (if rooted then "/" else "") +:+ GoString.join comps "/"
  end.

Definition Clean (p : string) : string :=
  if String.eqb p "" then "."
  else render_path (is_rooted p) (clean_components (is_rooted p) [] (components p)).

(** [filepath.Join]: the non-empty elements, separated and cleaned. *)
Definition FilepathJoin (elems : list string) : string :=
  match List.filter (λ e, negb (String.eqb e "")) elems with
  | [] => ""
  | es => Clean (GoString.join es "/")
  end.

(** [filepath.Base]: what follows the last slash, trailing slashes apart. *)
Fixpoint strip_slashes (rev : string) : string :=
  match rev with String "/" r => strip_slashes r | _ => rev end.
Definition after_last (s : string) (c : ascii) : string :=
  match last_index_byte s c with Some i => str_drop (S i) s | None => s end.
Definition Base (path : string) : string :=
  if String.eqb path "" then "."
  else
    let last := after_last (str_rev (strip_slashes (str_rev path))) "/"%char in
    if String.eqb last "" then "/" else last.

(** [filepath.Ext]: the last component from its last dot on. *)
Definition Ext (path : string) : string :=
  let last := after_last path "/"%char in
  match last_index_byte last "."%char with Some i => str_drop i last | None => "" end.

(** The text of the error of a failed system call, by operation and path. *)
Class OSErrors := { os_error : string → string → string }.

(** ** The world *)

Record World : Type := mkWorld {
  files : gmap string string;
  dirs : gset string;
  faults : list bool;
  trace : list (gmap string string);
  answered : option (Z * gmap string string);
  sent : string
}.

(** A computation with file system effects. *)
Definition IO (A : Type) : Type := World → A * World.
#[export] Instance io_ret : MRet IO := λ A a w, (a, w).
#[export] Instance io_bind : MBind IO := λ A B f m w, let '(a, w) := m w in f a w.

(** Does the next system call fail? *)
Definition faulty : IO bool := λ w,
  match faults w with
  | [] => (false, w)
  | b :: rest => (b, mkWorld (files w) (dirs w) rest (trace w) (answered w) (sent w))
  end.

(** Every change of the files is recorded. *)
Definition set_files (fs : gmap string string) : IO unit := λ w,
  ((), mkWorld fs (dirs w) (faults w) (trace w ++ [fs]) (answered w) (sent w)).

Definition get_files : IO (gmap string string) := λ w, (files w, w).

(** The system calls; [false] and [None] are errors. *)
Definition os_open (p : string) : IO (option string) :=
  bad ← faulty; fs ← get_files; mret (if bad : bool then None else fs !! p).

Definition os_create (p : string) : IO bool :=
  bad ← faulty; fs ← get_files;
  if bad : bool then mret false else set_files (<[p := ""]> fs);; mret true.

Definition os_append (p block : string) : IO bool :=
  bad ← faulty; fs ← get_files;
  if bad : bool then mret false
  else set_files (<[p := default "" (fs !! p) +:+ block]> fs);; mret true.

Definition os_rename (old new : string) : IO bool :=
  bad ← faulty; fs ← get_files;
  match fs !! old with
  | Some c => if bad : bool then mret false else set_files (<[new := c]> (delete old fs));; mret true
  | None => mret false
  end.

Definition os_remove (p : string) : IO bool :=
  bad ← faulty; fs ← get_files;
  match fs !! p with
  | Some _ => if bad : bool then mret false else set_files (delete p fs);; mret true
  | None => mret false
  end.

(** [os.MkdirAll]; directories do not affect the files. *)
Definition os_mkdir_all (p : string) : IO bool := λ w,
  let '(bad, w) := faulty w in
  if bad : bool then (false, w)
  else (true, mkWorld (files w) ({[ p ]} ∪ dirs w) (faults w) (trace w) (answered w) (sent w)).

(** A write on the response that is being sent to the client. *)
Definition send (block : string) : IO bool := λ w,
  let '(bad, w) := faulty w in
  if bad : bool then (false, w)
  else (true, mkWorld (files w) (dirs w) (faults w) (trace w) (answered w) (sent w +:+ block)).

(** [os.Stat]: does a file exist there? *)
Definition os_exists (p : string) : IO bool :=
  fs ← get_files; mret (bool_decide (is_Some (fs !! p))).

(** [filepath.Glob(dir/*suffix)], sorted: the files directly in [dir], a path
    without pattern characters, whose name ends in [suffix]. *)
Fixpoint insert_string (x : string) (l : list string) : list string :=
  match l with [] => [x] | y :: l' => if String.leb x y then x :: l else y :: insert_string x l' end.
Definition sort_strings (l : list string) : list string := foldr insert_string [] l.
Definition glob_match (dir suffix path : string) : bool :=
  has_prefix path (dir +:+ "/") &&
  let name := str_drop (S (String.length dir)) path in
  has_suffix name suffix && bool_decide (index_byte name "/"%char = None).
Definition os_glob (dir suffix : string) : IO (list string) :=
  fs ← get_files; mret (sort_strings (List.filter (glob_match dir suffix) (map_to_list fs).*1)).

(** [os.RemoveAll]: the path and everything below it; a failing call removes nothing. *)
Definition under (dir path : string) : bool :=
  String.eqb path dir || has_prefix path (if String.eqb dir "/" then "/" else dir +:+ "/").
Definition os_remove_all (dir : string) : IO unit :=
  bad ← faulty; fs ← get_files;
  if bad : bool then mret () else set_files (filter (λ kv, under dir kv.1 = false) fs).

(** [os.WriteFile]: the file is emptied first; [false] is an error on the way. *)
Definition os_write_file (p c : string) : IO bool :=
  ok ← os_create p; if ok : bool then os_append p c else mret false.

(** ** Reasoning about file system programs

    [triple P m Q I]: from files satisfying [P], [m] ends with a result and
    files related by [Q], and every state in between satisfies [I]. *)
Definition triple {A} (P : gmap string string → Prop) (m : IO A)
    (Q : A → gmap string string → Prop) (I : gmap string string → Prop) : Prop :=
  ∀ w, P (files w) → let '(a, w') := m w in
    Q a (files w') ∧ ∃ new, trace w' = trace w ++ new ∧ Forall I new.

Section triples.
Context (I : gmap string string → Prop).
Implicit Types P : gmap string string → Prop.

Lemma triple_ret {A} P (a : A) Q : (∀ s, P s → Q a s) → triple P (mret a) Q I.
Proof. intros HQ w Hw. split; [by apply HQ|]. exists []. by rewrite app_nil_r. Qed.

Lemma triple_bind {A B} P (m : IO A) (f : A → IO B) R Q :
  triple P m R I → (∀ a, triple (R a) (f a) Q I) → triple P (m ≫= f) Q I.
Proof.
  intros Hm Hf w Hw. specialize (Hm w Hw). unfold mbind, io_bind.
  destruct (m w) as [a w1]. destruct Hm as (HR & n1 & Ht1 & Hn1).
  specialize (Hf a w1 HR). destruct (f a w1) as [b w2]. destruct Hf as (HQ & n2 & Ht2 & Hn2).
  split; [done|]. exists (n1 ++ n2). split; [by rewrite Ht2, Ht1, app_assoc|]. by apply Forall_app.
Qed.

Lemma triple_conseq {A} P P' (m : IO A) Q Q' :
  triple P' m Q' I → (∀ s, P s → P' s) → (∀ a s, Q' a s → Q a s) → triple P m Q I.
Proof.
  intros Hm HP HQ w Hw. specialize (Hm w (HP _ Hw)). destruct (m w) as [a w'].
  destruct Hm as [HQ' Ht]. split; [by apply HQ|done].
Qed.

(** A precondition that fixes the files. *)
Lemma triple_case {A} P (m : IO A) Q :
  (∀ s0, P s0 → triple (λ s, s = s0) m Q I) → triple P m Q I.
Proof. intros Hm w Hw. by apply (Hm (files w) Hw w). Qed.

Lemma triple_faulty P : triple P faulty (λ _ s, P s) I.
Proof.
  intros w Hw. unfold faulty. destruct (faults w); simpl; (split; [done|]; exists []; by rewrite app_nil_r).
Qed.

Lemma triple_set_files P fs : I fs → triple P (set_files fs) (λ _ s, s = fs) I.
Proof. intros Hi w Hw. split; [done|]. exists [fs]. split; [done|]. by constructor. Qed.

(** The rules of the system calls, from a known state [s0]. *)
Lemma triple_open s0 p :
  triple (λ s, s = s0) (os_open p) (λ c s, s = s0 ∧ (c = None ∨ c = s0 !! p)) I.
Proof.
  eapply triple_bind; [apply triple_faulty|]. intros bad w Hw; subst s0; simpl.
  split; [destruct bad; auto|]. exists []. by rewrite app_nil_r.
Qed.

Lemma triple_create s0 p :
  I (<[p := ""]> s0) →
  triple (λ s, s = s0) (os_create p)
    (λ ok s, s = (if ok : bool then <[p := ""]> s0 else s0)) I.
Proof.
  intros Hi. eapply triple_bind; [apply triple_faulty|]. intros bad w Hw; subst s0; simpl.
  destruct bad; simpl; (split; [done|]); [exists []; by rewrite app_nil_r|].
  exists [<[p := ""]> (files w)]. split; [done|]. by constructor.
Qed.

Lemma triple_append s0 p block :
  I (<[p := default "" (s0 !! p) +:+ block]> s0) →
  triple (λ s, s = s0) (os_append p block)
    (λ ok s, s = (if ok : bool then <[p := default "" (s0 !! p) +:+ block]> s0 else s0)) I.
Proof.
  intros Hi. eapply triple_bind; [apply triple_faulty|]. intros bad w Hw; subst s0; simpl.
  destruct bad; simpl; (split; [done|]); [exists []; by rewrite app_nil_r|].
  eexists [_]. split; [done|]. by constructor.
Qed.

Lemma triple_rename s0 old new :
  (∀ c, s0 !! old = Some c → I (<[new := c]> (delete old s0))) →
  triple (λ s, s = s0) (os_rename old new)
    (λ ok s, if ok : bool then ∃ c, s0 !! old = Some c ∧ s = <[new := c]> (delete old s0)
             else s = s0) I.
Proof.
  intros Hi. eapply triple_bind; [apply triple_faulty|]. intros bad w Hw; subst s0.
  unfold mbind, io_bind, mret, io_ret, get_files, set_files.
  destruct (files w !! old) as [c|] eqn:Hc; simpl.
  - destruct bad; simpl; [split; [done|]; exists []; by rewrite app_nil_r|].
    split; [by exists c|]. eexists [_]. split; [done|]. constructor; [by apply Hi|done].
  - split; [done|]. exists []. by rewrite app_nil_r.
Qed.

Lemma triple_remove s0 p :
  I (delete p s0) →
  triple (λ s, s = s0) (os_remove p) (λ _ s, s = s0 ∨ s = delete p s0) I.
Proof.
  intros Hi. eapply triple_bind; [apply triple_faulty|]. intros bad w Hw; subst s0.
  unfold mbind, io_bind, mret, io_ret, get_files, set_files.
  destruct (files w !! p) as [c|] eqn:Hc; simpl.
  - destruct bad; simpl; [split; [by left|]; exists []; by rewrite app_nil_r|].
    split; [by right|]. eexists [_]. split; [done|]. by constructor.
  - split; [by left|]. exists []. by rewrite app_nil_r.
Qed.

Lemma triple_mkdir P p : triple P (os_mkdir_all p) (λ _ s, P s) I.
Proof.
  intros w Hw. unfold os_mkdir_all, faulty.
  destruct (faults w) as [|[] f]; simpl; (split; [done|]; exists []; by rewrite app_nil_r).
Qed.
End triples.

(** ** Programs that leave the response alone *)

Definition quiet {A} (m : IO A) : Prop := ∀ w, sent (m w).2 = sent w ∧ answered (m w).2 = answered w.

Create HintDb quiet.

Lemma quiet_ret {A} (a : A) : quiet (mret a).
Proof. done. Qed.

Lemma quiet_bind {A B} (m : IO A) (f : A → IO B) : quiet m → (∀ a, quiet (f a)) → quiet (m ≫= f).
Proof.
  intros Hm Hf w. unfold mbind, io_bind. specialize (Hm w). destruct (m w) as [a w1]. destruct Hm as [Hs Ha].
  destruct (Hf a w1) as [Hs' Ha']. by rewrite Hs', Ha'.
Qed.

Lemma quiet_faulty : quiet faulty.
Proof. intros w. unfold faulty. by destruct (faults w). Qed.
Lemma quiet_get_files : quiet get_files.
Proof. done. Qed.
Lemma quiet_set_files fs : quiet (set_files fs).
Proof. done. Qed.

#[export] Hint Resolve quiet_ret quiet_faulty quiet_get_files quiet_set_files : quiet.

(** Follows the program, one bind and one case at a time. *)
Ltac quiet :=
  repeat match goal with
  | |- quiet (_ ≫= _) => apply quiet_bind; [|intros ?]
  | |- quiet (match ?x with _ => _ end) => destruct x
  end; eauto with quiet.

Lemma quiet_os_open p : quiet (os_open p).
Proof. unfold os_open. quiet. Qed.
Lemma quiet_os_create p : quiet (os_create p).
Proof. unfold os_create. quiet. Qed.
Lemma quiet_os_append p b : quiet (os_append p b).
Proof. unfold os_append. quiet. Qed.
Lemma quiet_os_rename p q : quiet (os_rename p q).
Proof. unfold os_rename. quiet. Qed.
Lemma quiet_os_remove p : quiet (os_remove p).
Proof. unfold os_remove. quiet. Qed.
Lemma quiet_os_exists p : quiet (os_exists p).
Proof. unfold os_exists. quiet. Qed.
Lemma quiet_os_mkdir_all p : quiet (os_mkdir_all p).
Proof. intros w. unfold os_mkdir_all, faulty. by destruct (faults w) as [|[] f]. Qed.
Lemma quiet_os_glob d p : quiet (os_glob d p).
Proof. done. Qed.
Lemma quiet_os_remove_all p : quiet (os_remove_all p).
Proof. unfold os_remove_all. quiet. Qed.
Lemma quiet_os_write_file p c : quiet (os_write_file p c).
Proof.
  unfold os_write_file. apply quiet_bind; [apply quiet_os_create|]. intros []; [apply quiet_os_append|apply quiet_ret].
Qed.

#[export] Hint Resolve quiet_os_open quiet_os_create quiet_os_append quiet_os_rename quiet_os_remove
  quiet_os_exists quiet_os_mkdir_all quiet_os_glob quiet_os_remove_all quiet_os_write_file : quiet.

(** A property of the response that every step of a program keeps. *)
Definition response_only (P : World → Prop) : Prop :=
  ∀ w w', sent w' = sent w → answered w' = answered w → P w → P w'.
Definition keeps (P : World → Prop) {A} (m : IO A) : Prop := ∀ w, P w → P (m w).2.

Lemma keeps_bind P {A B} (m : IO A) (f : A → IO B) : keeps P m → (∀ a, keeps P (f a)) → keeps P (m ≫= f).
Proof.
  intros Hm Hf w Hw. unfold mbind, io_bind. specialize (Hm w Hw). destruct (m w) as [a w1]. by apply Hf.
Qed.
Lemma keeps_quiet P {A} (m : IO A) : response_only P → quiet m → keeps P m.
Proof. intros HP Hm w Hw. destruct (Hm w) as [Hs Ha]. by eapply HP. Qed.

(** ** Programs that use up no fault when there is none *)

Definition steady {A} (m : IO A) : Prop := ∀ w, faults w = [] → faults (m w).2 = [].

Create HintDb steady.

Lemma steady_ret {A} (a : A) : steady (mret a).
Proof. by intros w Hw. Qed.

Lemma steady_bind {A B} (m : IO A) (f : A → IO B) : steady m → (∀ a, steady (f a)) → steady (m ≫= f).
Proof.
  intros Hm Hf w Hw. unfold mbind, io_bind. specialize (Hm w Hw). destruct (m w) as [a w1]. by apply Hf.
Qed.

Lemma steady_faulty : steady faulty.
Proof. intros w Hw. unfold faulty. by rewrite Hw. Qed.
Lemma steady_get_files : steady get_files.
Proof. by intros w Hw. Qed.
Lemma steady_set_files fs : steady (set_files fs).
Proof. by intros w Hw. Qed.

#[export] Hint Resolve steady_ret steady_faulty steady_get_files steady_set_files : steady.

Ltac steady :=
  repeat match goal with
  | |- steady (_ ≫= _) => apply steady_bind; [|intros ?]
  | |- steady (match ?x with _ => _ end) => destruct x
  end; eauto with steady.

Lemma steady_os_create p : steady (os_create p).
Proof. unfold os_create. steady. Qed.
Lemma steady_os_append p b : steady (os_append p b).
Proof. unfold os_append. steady. Qed.
Lemma steady_os_remove p : steady (os_remove p).
Proof. unfold os_remove. steady. Qed.

Lemma steady_os_open p : steady (os_open p).
Proof. unfold os_open. steady. Qed.
Lemma steady_os_rename p q : steady (os_rename p q).
Proof. unfold os_rename. steady. Qed.
Lemma steady_os_exists p : steady (os_exists p).
Proof. unfold os_exists. steady. Qed.
Lemma steady_os_mkdir_all p : steady (os_mkdir_all p).
Proof. intros w Hw. unfold os_mkdir_all, faulty. by rewrite Hw. Qed.

#[export] Hint Resolve steady_os_create steady_os_append steady_os_remove steady_os_open steady_os_rename
  steady_os_exists steady_os_mkdir_all : steady.

(** ** Paths below a directory *)

(** A path component that [Clean] keeps. *)
Definition normal (c : string) : Prop := c ≠ "" ∧ c ≠ "." ∧ c ≠ ".." ∧ no_byte "/"%char c.

Lemma clean_components_snoc rooted acc comps c :
  normal c → clean_components rooted acc (comps ++ [c]) = clean_components rooted acc comps ++ [c].
Proof.
  intros (H1 & H2 & H3 & _). revert acc. induction comps as [|d comps IH]; intros acc; simpl.
  - by rewrite !(proj2 (String.eqb_neq _ _)) by done.
  - destruct (_ || _); [apply IH|]. destruct (String.eqb d ".."); [|apply IH].
    destruct acc as [|top acc]; [apply IH|]. by destruct (String.eqb top ".."); apply IH.
Qed.

Lemma split_on_none s c : no_byte c s → split_on s c = [s].
Proof.
  induction s as [|d s IH]; [done|]. intros [Hne Hn]%no_byte_cons. simpl.
  rewrite (IH Hn). by destruct (Ascii.eqb_spec c d).
Qed.

Lemma split_on_nonempty s c : split_on s c ≠ [].
Proof. destruct s as [|d s]; simpl; [done|]. destruct (_ =? _)%char; [done|]. by destruct (split_on s c). Qed.

Lemma split_on_app p c s : split_on (p +:+ String c s) c = split_on p c ++ split_on s c.
Proof.
  induction p as [|d p IH]; simpl.
  - by rewrite Ascii.eqb_refl.
  - rewrite IH. destruct (c =? d)%char; [done|].
    pose proof (split_on_nonempty p c). by destruct (split_on p c).
Qed.

Lemma join_snoc l a sep : l ≠ [] → GoString.join (l ++ [a]) sep = GoString.join l sep +:+ sep +:+ a.
Proof.
  induction l as [|x l IH]; [done|]. intros _. destruct l as [|y l]; [done|].
  change ((x :: y :: l) ++ [a]) with (x :: (y :: l) ++ [a]).
  assert (GoString.join (x :: (y :: l) ++ [a]) sep = x +:+ sep +:+ GoString.join ((y :: l) ++ [a]) sep) as ->.
  { done. }
  rewrite IH by done. simpl. by rewrite !string_app_assoc.
Qed.

(** The prefix that a directory contributes to the paths below it. *)
Definition below (p : string) : string :=
  let r := is_rooted p in
  match clean_components r [] (components p) with
  | [] => if r then "/" else ""
  | comps => render_path r comps +:+ "/"
  end.

Lemma rooted_app p s : p ≠ "" → is_rooted (p +:+ s) = is_rooted p.
Proof. destruct p as [|d p]; [done|]. intros _. unfold is_rooted. simpl. by destruct p. Qed.

Lemma below_snoc p c : p ≠ "" → normal c → below (p +:+ "/" +:+ c) = below p +:+ c +:+ "/".
Proof.
  intros Hp Hc. unfold below. rewrite rooted_app by done.
  change ("/" +:+ c) with (String "/"%char c).
  unfold components. rewrite split_on_app, (split_on_none c) by apply Hc.
  rewrite clean_components_snoc by done.
  destruct (clean_components (is_rooted p) [] (split_on p "/"%char)) as [|x l] eqn:Hl.
  - by destruct (is_rooted p).
  - unfold render_path. destruct ((x :: l) ++ [c]) as [|y l'] eqn:Hyl; [done|]. rewrite <- Hyl.
    rewrite join_snoc by done. by rewrite !string_app_assoc.
Qed.

Lemma clean_below p c :
  p ≠ "" → normal c → Clean (p +:+ "/" +:+ c) = below p +:+ c.
Proof.
  intros Hp Hc. unfold Clean, below.
  rewrite rooted_app by done.
  rewrite (proj2 (String.eqb_neq (p +:+ "/" +:+ c) "")).
  2:{ destruct p; [done|]. simpl. discriminate. }
  change ("/" +:+ c) with (String "/"%char c).
  unfold components. rewrite split_on_app, (split_on_none c) by apply Hc.
  rewrite clean_components_snoc by done.
  destruct (clean_components (is_rooted p) [] (split_on p "/"%char)) as [|x l] eqn:Hl.
  - by destruct (is_rooted p).
  - unfold render_path. destruct ((x :: l) ++ [c]) as [|y l'] eqn:Hyl; [done|]. rewrite <- Hyl.
    rewrite join_snoc by done. by rewrite !string_app_assoc.
Qed.
