(* ===== verification/Cache.v ===== *)
(** * The PDF cache ([internal/cache/cache.go])

    Final and per-chunk PDFs by content hash, written through a temporary file
    and a rename.  The temporary name's random part and the process id are
    arguments; the blocks in which [io.Copy] moves a file are arbitrary. *)
From Stdlib Require Import ZArith Lia Bool Ascii String.
From stdpp Require Import base tactics list gmap strings.
From S2P Require Import Prelude GoString FS.
From stdpp Require Import list.
Local Open Scope Z_scope.

(** ** Copying and the atomic write *)

(** What a run of the process supplies: the next temporary suffix and how
    [io.Copy] cuts a content into blocks. *)
Record Env : Type := mkEnv {
  pid : Z;
  random_hex : string;
  blocks : string → list string
}.

(** The blocks of a content concatenate to it. *)
Definition env_ok (env : Env) : Prop := ∀ s, foldr String.append "" (blocks env s) = s.

Definition tempName (env : Env) (target : string) : string :=
  target +:+ ".tmp." +:+ itoa (pid env) +:+ "." +:+ random_hex env.

(** The copy loop: one write per block, stopping at the first failure. *)
Fixpoint copy_blocks (dst : string) (bs : list string) : IO bool :=
  match bs with
  | [] => mret true
  | b :: bs => ok ← os_append dst b; if ok : bool then copy_blocks dst bs else mret false
  end.

(** [copyFile]: [false] is an error of opening, creating, copying or closing. *)
Definition copyFile (env : Env) (src dst : string) : IO bool :=
  c ← os_open src;
  match c with
  | None => mret false
  | Some c =>
      ok ← os_create dst;
      if ok : bool then
        ok ← copy_blocks dst (blocks env c);
        bad ← faulty;
        mret (ok && negb bad)
      else mret false
  end.

(** [filepath.Dir] *)
Definition dirname (p : string) : string :=
  Clean (match last_index_byte p "/"%char with Some i => str_take (S i) p | None => "" end).

(** [AtomicWrite]: make the directory, copy to a temporary file, sync (no
    effect on the contents), rename; on an error remove the temporary file. *)
Definition AtomicWrite (env : Env) (target source : string) : IO bool :=
  ok ← os_mkdir_all (dirname target);
  if ok : bool then
    let tmp := tempName env target in
    ok ← copyFile env source tmp;
    ok ← (if ok : bool then os_open tmp;; os_rename tmp target else mret false);
    if ok : bool then mret true else (os_remove tmp;; mret false)
  else mret false.

(** ** The manager *)

Record Manager : Type := mkManager { dir : string; asposeVersion : string }.

Definition Enabled (m : Manager) : bool := negb (String.eqb (dir m) "").

Definition NewManager (dir asposeVersion : string) : IO (option Manager) :=
  let m := mkManager dir asposeVersion in
  if String.eqb dir "" then mret (Some m)
  else
    ok1 ← os_mkdir_all (FilepathJoin [dir; asposeVersion; "final"]);
    if ok1 : bool then
      ok2 ← os_mkdir_all (FilepathJoin [dir; asposeVersion; "chunks"]);
      mret (if ok2 : bool then Some m else None)
    else mret None.

Definition finalPath (m : Manager) (sourceSHA256 : string) : string :=
  FilepathJoin [dir m; asposeVersion m; "final"; sourceSHA256 +:+ ".pdf"].
Definition chunkPath (m : Manager) (chunkSHA256 : string) : string :=
  FilepathJoin [dir m; asposeVersion m; "chunks"; chunkSHA256 +:+ ".pdf"].

Definition get (m : Manager) (p : string) : IO string :=
  if Enabled m then ok ← os_exists p; mret (if ok : bool then p else "") else mret "".

Definition GetFinal (m : Manager) (sha : string) : IO string := get m (finalPath m sha).
Definition GetChunk (m : Manager) (sha : string) : IO string := get m (chunkPath m sha).

(** [true] is a nil error. *)
Definition PutFinal (env : Env) (m : Manager) (sha pdfPath : string) : IO bool :=
  if Enabled m then AtomicWrite env (finalPath m sha) pdfPath else mret true.
Definition PutChunk (env : Env) (m : Manager) (sha pdfPath : string) : IO bool :=
  if Enabled m then AtomicWrite env (chunkPath m sha) pdfPath else mret true.

(** [FinalTempPath]: [None] is an error, [Some ""] a disabled cache. *)
Definition FinalTempPath (env : Env) (m : Manager) (sha : string) : IO (option string) :=
  if Enabled m then
    let target := finalPath m sha in
    ok ← os_mkdir_all (dirname target);
    mret (if ok : bool then Some (tempName env target) else None)
  else mret (Some "").

Definition FinalizeFinal (m : Manager) (sha tempPath : string) : IO bool :=
  if Enabled m then os_open tempPath;; os_rename tempPath (finalPath m sha) else (os_remove tempPath;; mret true).

(** ** The atomic write *)

Definition concat_blocks (bs : list string) : string := foldr String.append "" bs.

(** What is seen on the way from [s0]: the old files, with some content in the
    temporary file, with the temporary file removed, or renamed over. *)
Definition on_the_way (s0 : gmap string string) (target source tmp : string)
    (s : gmap string string) : Prop :=
  s = s0 ∨ (∃ x, s = <[tmp := x]> s0) ∨ (∃ x, s = delete tmp (<[tmp := x]> s0)) ∨ s = delete tmp s0 ∨
  (∃ c, s0 !! source = Some c ∧ s = <[target := c]> (delete tmp s0)).

Lemma copy_blocks_triple s0 target source tmp bs pre :
  triple (λ s, s = <[tmp := pre]> s0) (copy_blocks tmp bs)
    (λ ok s, if ok : bool then s = <[tmp := pre +:+ concat_blocks bs]> s0
             else ∃ x, s = <[tmp := x]> s0)
    (on_the_way s0 target source tmp).
Proof.
  revert pre. induction bs as [|b bs IH]; intros pre; simpl.
  { apply triple_ret. intros s ->. by rewrite string_app_empty_r. }
  assert (default "" (<[tmp:=pre]> s0 !! tmp) = pre) as Hpre by by rewrite lookup_insert_eq.
  eapply triple_bind.
  { apply triple_append. right; left. rewrite Hpre, insert_insert_eq. by eexists. }
  intros [|]; simpl.
  - rewrite Hpre, insert_insert_eq, <- string_app_assoc. apply IH.
  - apply triple_ret. intros s ->. by exists pre.
Qed.

Lemma copy_file_triple env s0 target source :
  env_ok env → source ≠ tempName env target →
  let tmp := tempName env target in
  triple (λ s, s = s0) (copyFile env source tmp)
    (λ ok s, if ok : bool then ∃ c, s0 !! source = Some c ∧ s = <[tmp := c]> s0
             else s = s0 ∨ ∃ x, s = <[tmp := x]> s0)
    (on_the_way s0 target source tmp).
Proof.
  intros Henv Hne tmp. unfold copyFile. eapply triple_bind; [apply triple_open|].
  intros [c|]; [|apply triple_ret; intros s [-> _]; by left].
  apply triple_case. intros s1 [-> Hc].
  assert (s0 !! source = Some c) as Hsrc by by destruct Hc.
  eapply triple_bind; [apply triple_create; right; left; by eexists|]. intros [|]; simpl.
  2:{ apply triple_ret. intros s ->. by left. }
  eapply triple_bind; [apply copy_blocks_triple|]. intros ok.
  eapply triple_bind; [apply triple_faulty|]. intros bad. apply triple_ret. intros s.
  simpl. unfold concat_blocks. rewrite Henv.
  destruct ok, bad; simpl; intros Hs; eauto.
Qed.

(** The temporary name is not the target. *)
Lemma temp_name_ne env target : tempName env target ≠ target.
Proof.
  unfold tempName. intros He. apply (f_equal String.length) in He.
  rewrite <- !bytes_length, bytes_app, length_app in He. simpl in He. lia.
Qed.

Lemma atomic_write_triple env s0 target source :
  env_ok env → source ≠ tempName env target →
  let tmp := tempName env target in
  triple (λ s, s = s0) (AtomicWrite env target source)
    (λ ok s, if ok : bool then ∃ c, s0 !! source = Some c ∧ s = <[target := c]> (delete tmp s0)
             else s = s0 ∨ s = delete tmp s0 ∨ ∃ x, s = <[tmp := x]> s0 ∨ s = delete tmp (<[tmp := x]> s0))
    (on_the_way s0 target source tmp).
Proof.
  intros Henv Hne tmp. unfold AtomicWrite. eapply triple_bind; [apply triple_mkdir|].
  intros [|]; [|apply triple_ret; intros s ->; by left].
  eapply triple_bind; [by apply copy_file_triple|]. fold tmp. intros ok.
  eapply triple_bind with (R := λ ok s,
    if ok : bool then ∃ c, s0 !! source = Some c ∧ s = <[target := c]> (delete tmp s0)
    else s = s0 ∨ ∃ x, s = <[tmp := x]> s0).
  - destruct ok.
    + apply triple_case. intros s1 (c & Hc & ->).
      assert (delete tmp (<[tmp:=c]> s0) = delete tmp s0) as Hdel by by rewrite delete_insert_eq.
      assert (<[tmp:=c]> s0 !! tmp = Some c) as Hlk by by rewrite lookup_insert_eq.
      eapply triple_bind; [apply triple_open|]. intros opened. apply triple_case. intros s2 [-> _].
      eapply triple_conseq; [apply triple_rename|by intros s ->|].
      * intros c' Hc'. rewrite Hlk in Hc'. simplify_eq. rewrite Hdel. unfold on_the_way. eauto 10.
      * intros [|] s; [|intros ->; eauto]. intros (c' & Hc' & ->). rewrite Hlk in Hc'. simplify_eq.
        rewrite Hdel. eauto.
    + apply triple_ret. done.
  - intros [|]; [apply triple_ret; done|].
    apply triple_case. intros s1 Hs1. eapply triple_bind.
    { apply triple_remove. unfold on_the_way. destruct Hs1 as [->|[x ->]]; eauto 10. }
    intros removed. apply triple_ret. intros s. destruct Hs1 as [->|[x ->]]; intros [->| ->]; eauto 10.
Qed.

(** C18: whichever system calls fail and however the copy is cut into blocks,
    every state of the file system during an atomic write has the target
    either as it was or with the whole content of the source, and every other
    file but the temporary one as it was; on success the target holds the
    source and the temporary file is gone, on an error the target is as
    before. *)
Theorem atomic_write_all_or_nothing env target source w :
  env_ok env → source ≠ tempName env target →
  let '(ok, w') := AtomicWrite env target source w in
  (∃ new, trace w' = trace w ++ new ∧ Forall (λ s,
     (s !! target = files w !! target ∨ ∃ c, files w !! source = Some c ∧ s !! target = Some c) ∧
     ∀ p, p ≠ target → p ≠ tempName env target → s !! p = files w !! p) new) ∧
  (if ok : bool
   then is_Some (files w !! source) ∧ files w' !! target = files w !! source ∧
        files w' !! tempName env target = None
   else files w' !! target = files w !! target) ∧
  ∀ p, p ≠ target → p ≠ tempName env target → files w' !! p = files w !! p.
Proof.
  intros Henv Hne. set (s0 := files w). set (tmp := tempName env target).
  assert (tmp ≠ target) as Htt by apply temp_name_ne.
  pose proof (atomic_write_triple env s0 target source Henv Hne w eq_refl) as Hw. fold tmp in Hw.
  destruct (AtomicWrite env target source w) as [ok w']. destruct Hw as (Hpost & new & Ht & Hnew).
  split_and!.
  - exists new. split; [done|]. eapply Forall_impl; [exact Hnew|].
    intros s Hs. split.
    + destruct Hs as [->|[[x ->]|[[x ->]|[->|(c & Hc & ->)]]]]; [by left|left..|right].
      * by rewrite lookup_insert_ne.
      * by rewrite lookup_delete_ne, lookup_insert_ne.
      * by rewrite lookup_delete_ne.
      * exists c. by rewrite lookup_insert_eq.
    + intros p Hp Hpt. destruct Hs as [->|[[x ->]|[[x ->]|[->|(c & Hc & ->)]]]]; [done|..];
        by rewrite ?lookup_insert_ne, ?lookup_delete_ne, ?lookup_insert_ne by done.
  - destruct ok.
    + destruct Hpost as (c & Hc & ->). rewrite lookup_insert_eq, lookup_insert_ne, lookup_delete_eq by done.
      split_and!; [by eexists|done|done].
    + destruct Hpost as [->|[->|(x & [->| ->])]]; [done|..];
        by rewrite ?lookup_delete_ne, ?lookup_insert_ne by done.
  - intros p Hp Hpt. destruct ok; [destruct Hpost as (c & Hc & ->)|destruct Hpost as [->|[->|(x & [->| ->])]]];
      by rewrite ?lookup_insert_ne, ?lookup_delete_ne, ?lookup_insert_ne by done.
Qed.

(** ** Keys and paths *)

(** A key as the program makes them, a hexadecimal digest, has no slash. *)
Definition key_ok (sha : string) : Prop := no_byte "/"%char sha.

Lemma pdf_name_normal sha : key_ok sha → normal (sha +:+ ".pdf").
Proof.
  intros Hk. split_and!; [by destruct sha|destruct sha as [|a [|]]; done| |].
  - destruct sha as [|a [|b [|]]]; done.
  - unfold key_ok in Hk. by apply no_byte_app.
Qed.

(** The directory of the version, before [Join] cleans it. *)
Definition version_root (m : Manager) : string :=
  if String.eqb (asposeVersion m) "" then dir m else dir m +:+ "/" +:+ asposeVersion m.

Lemma join_four m sub name :
  Enabled m = true → sub ≠ "" → name ≠ "" →
  FilepathJoin [dir m; asposeVersion m; sub; name] = Clean (version_root m +:+ "/" +:+ sub +:+ "/" +:+ name).
Proof.
  unfold Enabled, version_root, FilepathJoin. intros Hd Hs Hn. simpl. rewrite Hd.
  rewrite (proj2 (String.eqb_neq sub "")), (proj2 (String.eqb_neq name "")) by done.
  destruct (String.eqb (asposeVersion m) ""); simpl; by rewrite ?string_app_assoc.
Qed.

Lemma version_root_ne m : Enabled m = true → version_root m ≠ "".
Proof.
  unfold Enabled, version_root. intros Hd%negb_true_iff%String.eqb_neq.
  destruct (String.eqb (asposeVersion m) ""); [done|]. by destruct (dir m).
Qed.

Lemma cache_paths m sha :
  Enabled m = true → key_ok sha →
  finalPath m sha = below (version_root m) +:+ "final/" +:+ sha +:+ ".pdf" ∧
  chunkPath m sha = below (version_root m) +:+ "chunks/" +:+ sha +:+ ".pdf".
Proof.
  intros He Hk. pose proof (version_root_ne m He) as Hne. unfold finalPath, chunkPath.
  assert (∀ sub, normal sub → FilepathJoin [dir m; asposeVersion m; sub; sha +:+ ".pdf"] =
    below (version_root m) +:+ sub +:+ "/" +:+ sha +:+ ".pdf") as Hj.
  { intros sub Hsub. assert (sha +:+ ".pdf" ≠ "") as Hpdf by by destruct sha.
    rewrite (join_four m sub (sha +:+ ".pdf") He (proj1 Hsub) Hpdf).
    rewrite <- (string_app_assoc "/" sub), <- (string_app_assoc (version_root m)).
    rewrite clean_below, below_snoc; [by rewrite !string_app_assoc|done|done| |by apply pdf_name_normal].
    by destruct (version_root m). }
  split; (rewrite Hj; [done|by split_and!]).
Qed.

(** In an enabled cache the entries of different keys, and a final and a
    chunk entry, never share a path; and after a successful store the entry is
    found and holds the stored file, whatever was there before. *)
Theorem cache_keys_and_lookup env m :
  Enabled m = true →
  (∀ a b, key_ok a → key_ok b →
     (finalPath m a = finalPath m b → a = b) ∧ (chunkPath m a = chunkPath m b → a = b) ∧
     finalPath m a ≠ chunkPath m b) ∧
  (env_ok env → ∀ sha pdf w w', key_ok sha → pdf ≠ tempName env (finalPath m sha) →
     PutFinal env m sha pdf w = (true, w') →
     (GetFinal m sha w').1 = finalPath m sha ∧ files w' !! finalPath m sha = files w !! pdf) ∧
  (env_ok env → ∀ sha pdf w w', key_ok sha → pdf ≠ tempName env (chunkPath m sha) →
     PutChunk env m sha pdf w = (true, w') →
     (GetChunk m sha w').1 = chunkPath m sha ∧ files w' !! chunkPath m sha = files w !! pdf).
Proof.
  intros He. set (P := below (version_root m)).
  assert (∀ a b : string, a +:+ ".pdf" = b +:+ ".pdf" → a = b) as Hext.
  { intros a b Hab%(f_equal bytes). rewrite !bytes_app in Hab. by apply app_inj_2 in Hab as [?%bytes_inj _]. }
  assert (∀ a b c : string, a +:+ b = a +:+ c → b = c) as Hpre.
  { intros a b c Hab%(f_equal bytes). rewrite !bytes_app in Hab. by apply app_inj_1 in Hab as [_ ?%bytes_inj]. }
  assert (∀ p pdf w w', env_ok env → pdf ≠ tempName env p → AtomicWrite env p pdf w = (true, w') →
    (get m p w').1 = p ∧ files w' !! p = files w !! pdf) as Hput.
  { intros p pdf w w' Henv Hne Hw.
    pose proof (atomic_write_triple env (files w) p pdf Henv Hne w eq_refl) as Hp. rewrite Hw in Hp.
    destruct Hp as [(c & Hc & Hf) _]. unfold get. rewrite He. simpl.
    rewrite Hf, lookup_insert_eq, Hc. done. }
  split_and!.
  - intros a b Ha Hb. destruct (cache_paths m a He Ha) as [Ef1 Ec1], (cache_paths m b He Hb) as [Ef2 Ec2]. fold P in Ef1, Ec1, Ef2, Ec2.
    rewrite Ef1, Ef2, Ec1, Ec2. split_and!.
    + intros Heq%Hpre%Hpre. by apply Hext.
    + intros Heq%Hpre%Hpre. by apply Hext.
    + intros Heq%Hpre. simpl in Heq. discriminate Heq.
  - intros Henv sha pdf w w' Hk Hne Hw. unfold PutFinal in Hw. rewrite He in Hw. by apply Hput.
  - intros Henv sha pdf w w' Hk Hne Hw. unfold PutChunk in Hw. rewrite He in Hw. by apply Hput.
Qed.

(** ** Clearing *)

Record ClearResult : Type := mkClear {
  REnabled : bool;
  FilesDeleted : Z;
  BytesFreed : Z;
  Errors : Z
}.

(** One visited entry of the walk: a path and, for a file, its size; [WError]
    is an entry that could not be examined. *)
Inductive entry : Type :=
| WFile (p : string) (size : Z)
| WDir (p : string)
| WError.

(** The walk's callback on one entry; [dirs] collects the directories below
    the root. *)
Definition visit (root : string) (st : ClearResult * list string) (e : entry)
    : IO (ClearResult * list string) :=
  let '(res, dirs) := st in
  match e with
  | WError => mret (mkClear (REnabled res) (FilesDeleted res) (BytesFreed res) (Errors res +! 1)%go, dirs)
  | WDir p => mret (res, if String.eqb p root then dirs else dirs ++ [p])
  | WFile p size =>
      ok ← os_remove p;
      mret (if ok : bool
            then (mkClear (REnabled res) (FilesDeleted res +! 1)%go (BytesFreed res +! size)%go (Errors res), dirs)
            else (mkClear (REnabled res) (FilesDeleted res) (BytesFreed res +! size -! size)%go
                    (Errors res +! 1)%go, dirs))
  end.

Fixpoint visit_all (root : string) (st : ClearResult * list string) (es : list entry)
    : IO (ClearResult * list string) :=
  match es with
  | [] => mret st
  | e :: es => st ← visit root st e; visit_all root st es
  end.

(** The best-effort removal of the directories, deepest first: a directory goes
    when nothing is left in it. *)
Definition os_rmdir (p : string) : IO unit := λ w,
  let '(bad, w) := faulty w in
  let busy := existsb (λ f, has_prefix f (p +:+ "/")) (elements (dom (files w)) ++ elements (dirs w)) in
  if (bad : bool) || busy then ((), w)
  else ((), mkWorld (files w) (dirs w ∖ {[ p ]}) (faults w) (trace w) (answered w) (sent w)).

Fixpoint rmdir_all (ps : list string) : IO unit :=
  match ps with [] => mret () | p :: ps => os_rmdir p;; rmdir_all ps end.

(** [Clear]; [walk] is what [filepath.Walk] visits under the directory, in its
    order. *)
Definition Clear (m : Manager) (walk : list entry) : IO ClearResult :=
  if Enabled m then
    '(res, dirs) ← visit_all (dir m) (mkClear true 0 0 0, []) walk;
    rmdir_all (rev dirs);;
    mret res
  else mret (mkClear false 0 0 0).

(** The files of a walk, with their sizes. *)
Definition walk_files (walk : list entry) : list (string * Z) :=
  omap (λ e, match e with WFile p n => Some (p, n) | _ => None end) walk.

(** A walk of the files under [root]: each exactly once, with its size. *)
Definition walks (fs : gmap string string) (root : string) (walk : list entry) : Prop :=
  NoDup (walk_files walk).*1 ∧
  (∀ p n, (p, n) ∈ walk_files walk ↔
     has_prefix p (root +:+ "/") = true ∧ ∃ c, fs !! p = Some c ∧ n = str_len c).

Definition total_size (l : list (string * Z)) : Z := foldr (λ f n, f.2 + n)%Z 0%Z l.
Definition walk_errors (walk : list entry) : nat :=
  length (List.filter (λ e, match e with WError => true | _ => false end) walk).
Definition remove_all (fs : gmap string string) (ps : list string) : gmap string string :=
  foldl (λ fs p, delete p fs) fs ps.

Lemma remove_all_lookup fs ps p :
  remove_all fs ps !! p = if decide (p ∈ ps) then None else fs !! p.
Proof.
  revert fs. induction ps as [|q ps IH]; intros fs; simpl; [done|]. rewrite IH.
  destruct (decide (p ∈ ps)) as [Hin|Hin], (decide (p ∈ q :: ps)) as [Hin'|Hin']; [done|set_solver| |].
  - assert (p = q) as -> by set_solver. by rewrite lookup_delete_eq.
  - by rewrite lookup_delete_ne by set_solver.
Qed.

Lemma os_remove_cases p w :
  is_Some (files w !! p) →
  ∃ ok w', os_remove p w = (ok, w') ∧ (faults w = [] → ok = true ∧ faults w' = []) ∧
    files w' = if ok : bool then delete p (files w) else files w.
Proof.
  intros [c Hc]. unfold os_remove, mbind, io_bind, mret, io_ret, get_files, set_files, faulty.
  destruct (faults w) as [|[] f] eqn:Hf; simpl; rewrite Hc; simpl; eexists _, _; by split_and!.
Qed.

(** What is known about a walk that is under way: the entries still to come are
    present and the counts stay far from the integer bounds. *)
Record walk_ok (fs : gmap string string) (res : ClearResult) (es : list entry) : Prop := {
  wo_nodup : NoDup (walk_files es).*1;
  wo_present : Forall (λ f, is_Some (fs !! f.1) ∧ 0 <= f.2)%Z (walk_files es);
  wo_files : (0 <= FilesDeleted res ∧ FilesDeleted res + Z.of_nat (length es) < 2 ^ 62)%Z;
  wo_errors : (0 <= Errors res ∧ Errors res + Z.of_nat (length es) < 2 ^ 62)%Z;
  wo_bytes : (0 <= BytesFreed res ∧ BytesFreed res + total_size (walk_files es) < 2 ^ 62)%Z
}.

Lemma total_size_nonneg (l : list (string * Z)) : Forall (λ f, 0 <= f.2)%Z l → (0 <= total_size l)%Z.
Proof. induction 1; simpl; lia. Qed.

Lemma walk_ok_rest fs res es : walk_ok fs res es → (0 <= total_size (walk_files es))%Z.
Proof. intros [_ Hp _ _ _]. apply total_size_nonneg. eapply Forall_impl; [exact Hp|]. by intros ? [_ ?]. Qed.

(** What the counts tell of a walk over [es] from [w] to [w']: which files went. *)
Definition counts_tell (es : list entry) (res res' : ClearResult) (w w' : World) : Prop :=
  REnabled res' = REnabled res ∧ ∃ removed,
    removed `sublist_of` walk_files es ∧
    (faults w = [] → removed = walk_files es ∧ faults w' = []) ∧
    files w' = remove_all (files w) removed.*1 ∧
    FilesDeleted res' = (FilesDeleted res + Z.of_nat (length removed))%Z ∧
    BytesFreed res' = (BytesFreed res + total_size removed)%Z ∧
    (Errors res' + Z.of_nat (length removed) =
      Errors res + Z.of_nat (length (walk_files es)) + Z.of_nat (walk_errors es))%Z.

Lemma counts_removed p n es res res' w w1 w' :
  (faults w = [] → faults w1 = []) → files w1 = delete p (files w) →
  counts_tell es (mkClear (REnabled res) (FilesDeleted res + 1) (BytesFreed res + n) (Errors res)) res' w1 w' →
  counts_tell (WFile p n :: es) res res' w w'.
Proof.
  intros Hnf Hfs (He & rem & Hsub & Hall & Hf & H1 & H2 & H3). cbn [REnabled FilesDeleted BytesFreed Errors] in *.
  split; [done|]. exists ((p, n) :: rem). change (walk_files (WFile p n :: es)) with ((p, n) :: walk_files es).
  change (walk_errors (WFile p n :: es)) with (walk_errors es). split_and!; simpl; try lia.
  - by constructor.
  - intros Hnil. by destruct (Hall (Hnf Hnil)) as [-> ?].
  - by rewrite Hf, Hfs.
Qed.

Lemma counts_kept p n es res res' w w1 w' :
  faults w ≠ [] → files w1 = files w →
  counts_tell es (mkClear (REnabled res) (FilesDeleted res) (BytesFreed res) (Errors res + 1)) res' w1 w' →
  counts_tell (WFile p n :: es) res res' w w'.
Proof.
  intros Hnf Hfs (He & rem & Hsub & Hall & Hf & H1 & H2 & H3). cbn [REnabled FilesDeleted BytesFreed Errors] in *.
  split; [done|]. exists rem. change (walk_files (WFile p n :: es)) with ((p, n) :: walk_files es).
  change (walk_errors (WFile p n :: es)) with (walk_errors es). split_and!; simpl; try done; try lia.
  - by constructor.
  - by rewrite Hf, Hfs.
Qed.

Lemma counts_error es res res' w w' :
  counts_tell es (mkClear (REnabled res) (FilesDeleted res) (BytesFreed res) (Errors res + 1)) res' w w' →
  counts_tell (WError :: es) res res' w w'.
Proof.
  intros (He & rem & Hsub & Hall & Hf & H1 & H2 & H3). cbn [REnabled FilesDeleted BytesFreed Errors] in *.
  split; [done|]. exists rem. change (walk_files (WError :: es)) with (walk_files es).
  change (walk_errors (WError :: es)) with (S (walk_errors es)). split_and!; try done. lia.
Qed.

(** Whatever fails, the counts tell exactly which files went. *)
Lemma visit_all_spec root es res ds w :
  walk_ok (files w) res es →
  let '((res', _), w') := visit_all root (res, ds) es w in counts_tell es res res' w w'.
Proof.
  revert res ds w. induction es as [|e es IH]; intros res ds w Hok.
  { split; [done|]. exists []. split_and!; try done; unfold walk_errors, walk_files; simpl; lia. }
  pose proof (walk_ok_rest _ _ _ Hok) as Htot.
  destruct Hok as [Hnd Hpr Hfd Her Hby]. cbn [length] in Hfd, Her.
  change (visit_all root (res, ds) (e :: es) w)
    with (let '(st, w1) := visit root (res, ds) e w in visit_all root st es w1).
  destruct e as [p n|p|]; unfold visit, mbind, io_bind, mret, io_ret.
  - change (walk_files (WFile p n :: es)) with ((p, n) :: walk_files es) in *.
    cbn [fmap list_fmap fst snd total_size foldr length] in *. fold (total_size (walk_files es)) in *.
    apply NoDup_cons in Hnd as [Hp Hnd]. apply Forall_cons in Hpr as [[Hsome Hn] Hpr]. cbn [fst snd] in Hsome, Hn.
    assert (0 <= total_size (walk_files es))%Z as Htot'.
    { apply total_size_nonneg. eapply Forall_impl; [exact Hpr|]. by intros ? [_ ?]. }
    destruct (os_remove_cases p w Hsome) as (ok & w1 & -> & Hnf & Hfs). destruct ok; i64_norm.
    + pose proof (IH (mkClear (REnabled res) (FilesDeleted res + 1) (BytesFreed res + n) (Errors res)) ds w1) as IH1.
      destruct (visit_all root _ es w1) as [[res' ds'] w']. eapply counts_removed; [|exact Hfs|apply IH1].
      { intros Hnil. by destruct (Hnf Hnil). }
      split; cbn [FilesDeleted BytesFreed Errors]; try lia; [done|]. rewrite Hfs.
      apply Forall_forall. intros f Hf. rewrite Forall_forall in Hpr. specialize (Hpr f Hf) as [? ?].
      split; [|done]. rewrite lookup_delete_ne; [done|]. intros ->. apply Hp. by apply list_elem_of_fmap_2.
    + replace (BytesFreed res + n - n)%Z with (BytesFreed res) by lia. i64_norm.
      pose proof (IH (mkClear (REnabled res) (FilesDeleted res) (BytesFreed res) (Errors res + 1)) ds w1) as IH1.
      destruct (visit_all root _ es w1) as [[res' ds'] w']. eapply counts_kept; [|exact Hfs|apply IH1].
      { intros Hnil. by destruct (Hnf Hnil). }
      split; cbn [FilesDeleted BytesFreed Errors]; try lia; [done|]. by rewrite Hfs.
  - change (walk_files (WDir p :: es)) with (walk_files es) in *.
    pose proof (IH res (if String.eqb p root then ds else ds ++ [p]) w) as IH1.
    destruct (visit_all root _ es w) as [[res' ds'] w']. apply IH1. split; try done; lia.
  - change (walk_files (WError :: es)) with (walk_files es) in *. i64_norm.
    pose proof (IH (mkClear (REnabled res) (FilesDeleted res) (BytesFreed res) (Errors res + 1)) ds w) as IH1.
    destruct (visit_all root _ es w) as [[res' ds'] w']. apply counts_error, IH1.
    split; cbn [FilesDeleted BytesFreed Errors]; try done; lia.
Qed.

Lemma rmdir_all_files ps w : files (rmdir_all ps w).2 = files w.
Proof.
  revert w. induction ps as [|p ps IH]; intros w; [done|].
  change (rmdir_all (p :: ps) w) with (let '(_, w1) := os_rmdir p w in rmdir_all ps w1).
  assert (files (os_rmdir p w).2 = files w) as Hp.
  { unfold os_rmdir, faulty. destruct (faults w) as [|b f]; simpl; by case_match. }
  destruct (os_rmdir p w) as [u w1]. simpl in Hp. by rewrite IH.
Qed.

(** Clearing a cache whose files the walk shows, in any order and with
    unreadable entries among them, removes some of them and leaves every other
    file of the system alone; the counts are exact, whatever fails (files and
    bytes that went, plus errors, make up all entries); and when no call fails
    nothing is left below the directory. *)
Theorem clear_removes_and_counts m walk w :
  Enabled m = true → walks (files w) (dir m) walk →
  Z.of_nat (length walk) < 2 ^ 62 → total_size (walk_files walk) < 2 ^ 62 →
  let '(res, w') := Clear m walk w in
  (∃ removed, removed `sublist_of` walk_files walk ∧
     FilesDeleted res = Z.of_nat (length removed) ∧ BytesFreed res = total_size removed ∧
     FilesDeleted res + Errors res = Z.of_nat (length (walk_files walk) + walk_errors walk) ∧
     (∀ p, files w' !! p = if decide (p ∈ removed.*1) then None else files w !! p)) ∧
  (faults w = [] →
     Errors res = Z.of_nat (walk_errors walk) ∧ BytesFreed res = total_size (walk_files walk) ∧
     ∀ p, files w' !! p = if has_prefix p (dir m +:+ "/") then None else files w !! p).
Proof.
  intros He [Hnd Hw] Hlen Htot. unfold Clear. rewrite He.
  pose proof (visit_all_spec (dir m) walk (mkClear true 0 0 0) [] w) as Hv.
  unfold mbind, io_bind, mret, io_ret.
  destruct (visit_all (dir m) (mkClear true 0 0 0, []) walk w) as [[res ds] w1].
  pose proof (rmdir_all_files (rev ds) w1) as Hrm. destruct (rmdir_all (rev ds) w1) as [u w'].
  cbn [snd] in Hrm. destruct Hv as (_ & rem & Hsub & Hall & Hf & H1 & H2 & H3).
  { split; cbn [FilesDeleted BytesFreed Errors]; try lia; [done|].
    apply Forall_forall. intros [p n] Hp. apply Hw in Hp as (_ & c & Hc & ->). split; [by exists c|].
    cbn [snd]. unfold str_len. lia. }
  cbn [FilesDeleted BytesFreed Errors] in *.
  assert (∀ p, files w' !! p = if decide (p ∈ rem.*1) then None else files w !! p) as Hlk.
  { intros p. by rewrite Hrm, Hf, remove_all_lookup. }
  split.
  - exists rem. split_and!; try done; lia.
  - intros Hnil. destruct (Hall Hnil) as [-> _]. split_and!; [lia|lia|].
    intros p. rewrite Hlk. destruct (decide (p ∈ (walk_files walk).*1)) as [Hin|Hin].
    + apply list_elem_of_fmap in Hin as ([q n] & -> & Hin). apply Hw in Hin as [Hq _]. cbn [fst]. by rewrite Hq.
    + destruct (has_prefix p (dir m +:+ "/")) eqn:Hpre; [|done].
      destruct (files w !! p) as [c|] eqn:Hc; [|done]. exfalso. apply Hin.
      apply list_elem_of_fmap. exists (p, str_len c). split; [done|]. apply Hw. split; [done|]. by exists c.
Qed.

(** ** A concrete cache *)

Definition ex_env : Env := mkEnv 7 "00ff" (λ s, [str_take 2 s; str_drop 2 s]).
Definition ex_manager : Manager := mkManager "/c" "25.1".
Definition ex_world : World := mkWorld {[ "/s/a.pdf" := "%PDF" ]} ∅ [] [] None "".

Lemma ex_env_ok : env_ok ex_env.
Proof.
  intros s. simpl. rewrite string_app_empty_r. destruct s as [|a [|b s]]; done.
Qed.

Example atomic_write_all_or_nothing_witness :
  env_ok ex_env ∧
  let '(ok, w') := AtomicWrite ex_env "/c/x.pdf" "/s/a.pdf" ex_world in
  files w' !! "/c/x.pdf" = (if ok : bool then Some "%PDF" else None).
Proof.
  split; [exact ex_env_ok|].
  pose proof (atomic_write_all_or_nothing ex_env "/c/x.pdf" "/s/a.pdf" ex_world ex_env_ok
    ltac:(vm_compute; discriminate)) as H.
  destruct (AtomicWrite ex_env "/c/x.pdf" "/s/a.pdf" ex_world) as [[|] w']; destruct H as (_ & H & _).
  - by destruct H as (_ & -> & _).
  - by rewrite H.
Defined.

Example cache_keys_and_lookup_witness :
  Enabled ex_manager = true ∧
  let '(ok, w') := PutFinal ex_env ex_manager "ab" "/s/a.pdf" ex_world in
  ok = true ∧ (GetFinal ex_manager "ab" w').1 = finalPath ex_manager "ab".
Proof.
  split; [reflexivity|].
  destruct (cache_keys_and_lookup ex_env ex_manager eq_refl) as (_ & Hput & _).
  destruct (PutFinal ex_env ex_manager "ab" "/s/a.pdf" ex_world) as [ok w'] eqn:Hp.
  assert (ok = true) as -> by (change ok with (fst (ok, w')); rewrite <- Hp; vm_compute; reflexivity).
  split; [reflexivity|].
  refine (proj1 (Hput ex_env_ok "ab" "/s/a.pdf" ex_world w' _ _ Hp)).
  - by vm_compute.
  - vm_compute. discriminate.
Defined.

Example clear_removes_and_counts_witness :
  let w := mkWorld {[ "/c/25.1/final/ab.pdf" := "%PDF" ]} ∅ [] [] None "" in
  Enabled ex_manager = true ∧
  BytesFreed (Clear ex_manager [WDir "/c"; WFile "/c/25.1/final/ab.pdf" 4] w).1 = 4.
Proof.
  intros w. split; [reflexivity|].
  pose proof (clear_removes_and_counts ex_manager [WDir "/c"; WFile "/c/25.1/final/ab.pdf" 4] w eq_refl) as H.
  destruct (Clear ex_manager [WDir "/c"; WFile "/c/25.1/final/ab.pdf" 4] w) as [res w'].
  destruct H as [_ H].
  - split; [simpl; apply NoDup_singleton|]. intros p n. simpl. rewrite list_elem_of_singleton. split.
    + intros [= -> ->]. split; [reflexivity|]. exists "%PDF". by split.
    + intros (_ & c & Hc & ->). unfold w in Hc. cbn [files] in Hc.
      apply lookup_singleton_Some in Hc as [<- <-]. reflexivity.
  - vm_compute. reflexivity.
  - vm_compute. reflexivity.
  - destruct (H eq_refl) as (_ & Hb & _). exact Hb.
Defined.
