(* ===== verification/SharedCache.v ===== *)
(** * The cache under concurrent requests ([internal/cache/cache.go])

    [Cache.v] runs one operation at a time.  Here any number of writers
    ([AtomicWrite], and the copy of a merge that [FinalTempPath] and
    [FinalizeFinal] frame), readers and [Clear] interleave, system call by system
    call, on files as POSIX has them: names that point at inodes, so that a file
    stays readable for who has opened it after its name is replaced or removed.
    [readers_see_whole_entries] is what [AtomicWrite] promises in its comment;
    [lone_writer_is_atomic_write] relates a writer that runs alone to
    [Cache.AtomicWrite]. *)
From Stdlib Require Import ZArith Lia Bool SpecFloat Ascii String.
From stdpp Require Import base tactics list gmap strings relations.
From S2P Require Import Prelude GoString FS.
From S2P Require Cache.
From stdpp Require Import list.

(** ** The processes *)

(** A write: the entry it is for, its temporary name, and what it copies there
    block by block. *)
Record job : Type := mkJob { target : string; temp : string; blocks : list string }.
Definition content (a : job) : string := Cache.concat_blocks (blocks a).

(** Before [os.Create]; copying to an inode; before [os.Rename]; before the
    deferred [os.Remove]; returned. *)
Inductive phase : Type :=
| WStart
| WCopy (ino : nat) (left : list string)
| WRename (ino : nat)
| WClean
| WDone (ok : bool).

(** A reader of an entry: it has opened an inode and read so much of it. *)
Inductive reader : Type :=
| RReading (p : string) (ino : nat) (got : string)
| RDone (p : string) (got : string).

Record state : Type := mkState {
  names : gmap string nat;
  data : gmap nat string;
  next : nat;
  phases : list phase;
  readers : list reader
}.

Definition set_phase (k : nat) (p : phase) (s : state) : state :=
  mkState (names s) (data s) (next s) (<[k := p]> (phases s)) (readers s).
Definition set_names (ns : gmap string nat) (s : state) : state :=
  mkState ns (data s) (next s) (phases s) (readers s).
Definition set_data (i : nat) (d : string) (s : state) : state :=
  mkState (names s) (<[i := d]> (data s)) (next s) (phases s) (readers s).
Definition set_readers (rs : list reader) (s : state) : state :=
  mkState (names s) (data s) (next s) (phases s) rs.

Section cache.
Context (jobs : list job).

Definition is_temp (p : string) : Prop := ∃ a, a ∈ jobs ∧ temp a = p.

(** One system call of one of them.  Every call of a writer may fail; [Clear]
    removes names, temporary ones too. *)
Inductive step : state → state → Prop :=
| S_create k a s :
    jobs !! k = Some a → phases s !! k = Some WStart → names s !! temp a = None →
    step s (set_phase k (WCopy (next s) (blocks a))
              (mkState (<[temp a := next s]> (names s)) (<[next s := ""]> (data s)) (S (next s)) (phases s) (readers s)))
| S_truncate k a i s :
    jobs !! k = Some a → phases s !! k = Some WStart → names s !! temp a = Some i →
    step s (set_phase k (WCopy i (blocks a)) (set_data i "" s))
| S_start_fails k s : phases s !! k = Some WStart → step s (set_phase k (WDone false) s)
| S_append k i b bs d s :
    phases s !! k = Some (WCopy i (b :: bs)) → data s !! i = Some d →
    step s (set_phase k (WCopy i bs) (set_data i (d +:+ b) s))
| S_copied k i s : phases s !! k = Some (WCopy i []) → step s (set_phase k (WRename i) s)
| S_copy_fails k i bs s : phases s !! k = Some (WCopy i bs) → step s (set_phase k WClean s)
| S_rename k a i j s :
    jobs !! k = Some a → phases s !! k = Some (WRename i) → names s !! temp a = Some j →
    step s (set_phase k (WDone true) (set_names (<[target a := j]> (delete (temp a) (names s))) s))
| S_rename_fails k i s : phases s !! k = Some (WRename i) → step s (set_phase k WClean s)
| S_clean k a s :
    jobs !! k = Some a → phases s !! k = Some WClean →
    step s (set_phase k (WDone false) (set_names (delete (temp a) (names s)) s))
| S_clean_fails k s : phases s !! k = Some WClean → step s (set_phase k (WDone false) s)
| S_unlink p s : step s (set_names (delete p (names s)) s)
| S_open p i s :
    names s !! p = Some i → ¬ is_temp p → step s (set_readers (readers s ++ [RReading p i ""]) s)
| S_read r p i got b rest s :
    readers s !! r = Some (RReading p i got) → data s !! i = Some (got +:+ b +:+ rest) →
    step s (set_readers (<[r := RReading p i (got +:+ b)]> (readers s)) s)
| S_eof r p i got s :
    readers s !! r = Some (RReading p i got) → data s !! i = Some got →
    step s (set_readers (<[r := RDone p got]> (readers s)) s).

(** A start: nobody has begun, and no temporary name is in use. *)
Definition starts (s : state) : Prop :=
  phases s = replicate (length jobs) WStart ∧ readers s = [] ∧
  (∀ a, a ∈ jobs → names s !! temp a = None) ∧
  ∀ p i, names s !! p = Some i → i < next s ∧ is_Some (data s !! i).

(** The temporary names are random: no two writers share one, and none is the name
    of an entry. *)
Definition temps_fresh : Prop :=
  (∀ j k a b, jobs !! j = Some a → jobs !! k = Some b → temp a = temp b → j = k) ∧
  (∀ a b, a ∈ jobs → b ∈ jobs → temp a ≠ target b).

(** ** The invariant *)

Context (s0 : state) (Hstart : starts s0) (Hfresh : temps_fresh).

(** A whole entry: what was there before, or all that one of its writers copies. *)
Definition whole (p c : string) : Prop :=
  (∃ i, names s0 !! p = Some i ∧ data s0 !! i = Some c) ∨ ∃ a, a ∈ jobs ∧ target a = p ∧ content a = c.

(** Nobody writes to the inode any more. *)
Definition frozen (s : state) (i : nat) : Prop :=
  i < next s ∧ ∀ k bs, phases s !! k ≠ Some (WCopy i bs).

Definition served (s : state) (p : string) (i : nat) : Prop :=
  frozen s i ∧ ∃ c, data s !! i = Some c ∧ whole p c.

Definition reader_ok (s : state) (r : reader) : Prop :=
  match r with
  | RReading p i got => served s p i ∧ ∃ rest, data s !! i = Some (got +:+ rest)
  | RDone p got => whole p got
  end.

(** The inode of a writer hides behind its temporary name until the rename. *)
Definition writer_ok (s : state) (a : job) (p : phase) : Prop :=
  match p with
  | WStart => names s !! temp a = None
  | WCopy i bs =>
      i < next s ∧ (∀ q, names s !! q = Some i → q = temp a) ∧ (∀ j, names s !! temp a = Some j → j = i) ∧
      ∃ d, data s !! i = Some d ∧ d +:+ Cache.concat_blocks bs = content a
  | WRename i => served s (target a) i ∧ ∀ j, names s !! temp a = Some j → j = i
  | _ => True
  end.

Record cinv (s : state) : Prop := {
  ci_length : length (phases s) = length jobs;
  ci_names : ∀ p i, names s !! p = Some i → i < next s;
  ci_writers : ∀ k a p, jobs !! k = Some a → phases s !! k = Some p → writer_ok s a p;
  ci_alone : ∀ j k i bs bs', phases s !! j = Some (WCopy i bs) → phases s !! k = Some (WCopy i bs') → j = k;
  ci_entries : ∀ p i, ¬ is_temp p → names s !! p = Some i → served s p i;
  ci_readers : ∀ r, r ∈ readers s → reader_ok s r
}.

Lemma start_inv : cinv s0.
Proof.
  destruct Hstart as (Hp & Hr & Ht & Hn).
  assert (∀ k p, phases s0 !! k = Some p → p = WStart) as Hall.
  { intros k p Hk. rewrite Hp in Hk. by apply lookup_replicate in Hk as [-> _]. }
  split.
  - by rewrite Hp, length_replicate.
  - intros p i Hi. by apply Hn in Hi as [? _].
  - intros k a p Hk ->%Hall. apply Ht. by apply list_elem_of_lookup_2 in Hk.
  - intros j k i bs bs' Hj. by apply Hall in Hj.
  - intros p i _ Hi. destruct (Hn p i Hi) as [Hlt [c Hc]]. split; [split; [done|]|].
    + intros k bs Hk. by apply Hall in Hk.
    + exists c. split; [done|]. left. by exists i.
  - rewrite Hr. by intros r ?%elem_of_nil.
Qed.

Lemma phase_job s k p : cinv s → phases s !! k = Some p → ∃ a, jobs !! k = Some a.
Proof. intros Hi Hk. apply lookup_lt_is_Some_2. rewrite <- (ci_length s Hi). by eapply lookup_lt_Some. Qed.

(** Frozen inodes keep their contents. *)
Lemma step_frozen s s' i :
  cinv s → step s s' → frozen s i → frozen s' i ∧ data s' !! i = data s !! i.
Proof.
  intros Hinv Hs [Hlt Hno].
  assert (∀ k p, (∀ bs, p ≠ WCopy i bs) → ∀ j bs, <[k := p]> (phases s) !! j ≠ Some (WCopy i bs)) as Hset.
  { intros k p Hp j bs [(-> & [= ->] & _)|[_ Hj]]%list_lookup_insert_Some; [by apply (Hp bs)|by apply (Hno j bs)]. }
  destruct Hs as [k a s Hk Hph Hn|k a j s Hk Hph Hn|k s Hph|k j b bs d s Hph Hd|k j s Hph|k j bs s Hph|k a j j' s Hk Hph Hn
    |k j s Hph|k a s Hk Hph|k s Hph|p s|p j s Hn Ht|r p j got b rest s Hr Hd|r p j got s Hr Hd]; unfold frozen; cbn.
  all: try (split; [split; [done|first [exact Hno|by apply Hset]]|done]).
  - split; [split; [lia|apply Hset; intros bs [= ?]; lia]|]. rewrite lookup_insert_ne; [done|lia].
  - pose proof (ci_writers s Hinv k a WStart Hk Hph) as Hw. cbn in Hw. congruence.
  - assert (j ≠ i) as Hne by (intros ->; by apply (Hno k (b :: bs))).
    split; [split; [done|apply Hset; congruence]|]. by rewrite lookup_insert_ne.
Qed.

Lemma step_served s s' p i : cinv s → step s s' → served s p i → served s' p i.
Proof.
  intros Hinv Hs [Hf (c & Hc & Hw)]. destruct (step_frozen s s' i Hinv Hs Hf) as [Hf' Hd].
  split; [done|]. exists c. by rewrite Hd.
Qed.
(** What a step does to the names, the phases and the readers. *)
Lemma reader_mono s s' r : cinv s → step s s' → reader_ok s r → reader_ok s' r.
Proof.
  intros Hinv Hs. destruct r as [p i got|p got]; cbn; [|done]. intros [Hsv (rest & Hd)].
  split; [by eapply step_served|]. exists rest. destruct Hsv as [Hf _].
  destruct (step_frozen s s' i Hinv Hs Hf) as [_ ->]. done.
Qed.

Lemma not_temp_target a : a ∈ jobs → ¬ is_temp (target a).
Proof. intros Ha (b & Hb & Heq). destruct Hfresh as [_ Hne]. by apply (Hne b a). Qed.

Lemma temp_of k a : jobs !! k = Some a → is_temp (temp a).
Proof. intros Hk. exists a. split; [by eapply list_elem_of_lookup_2|done]. Qed.

(** A writer keeps its own state when [s'] differs from [s] only in what is not
    its own. *)
Lemma writer_frame s s' a p :
  next s <= next s' →
  (∀ j, names s' !! temp a = Some j → names s !! temp a = Some j) →
  (∀ i bs q, p = WCopy i bs → names s' !! q = Some i → names s !! q = Some i) →
  (∀ i bs, p = WCopy i bs → data s' !! i = data s !! i) →
  (∀ i, p = WRename i → served s (target a) i → served s' (target a) i) →
  writer_ok s a p → writer_ok s' a p.
Proof.
  intros Hnext Hn Hq Hd Hr. destruct p as [|i bs|i| |]; cbn; try done.
  - rewrite !eq_None_not_Some. intros Hnone [j Hj]. apply Hnone. exists j. by apply Hn.
  - intros (Hlt & Hpriv & Hown & d & Hdi & Hc). rewrite (Hd i bs eq_refl). split_and!; [lia| |auto|by exists d].
    intros q Hqi. by apply Hpriv, (Hq i bs q eq_refl).
  - intros [Hsv Hown]. split; [by apply Hr|auto].
Qed.

(** The writers that a step is not about. *)
Lemma other_ok s s' k a p :
  cinv s → step s s' → jobs !! k = Some a → phases s !! k = Some p →
  (∀ j, names s' !! temp a = Some j → names s !! temp a = Some j) →
  (∀ i bs q, p = WCopy i bs → names s' !! q = Some i → names s !! q = Some i) →
  (∀ i bs, p = WCopy i bs → data s' !! i = data s !! i) →
  next s <= next s' → writer_ok s' a p.
Proof.
  intros Hinv Hs Hk Hp Hn Hq Hd Hnext. eapply writer_frame; try done; [|by apply (ci_writers s Hinv k)].
  intros i _. by apply step_served.
Qed.

Lemma temps_differ j k a b :
  jobs !! j = Some a → jobs !! k = Some b → j ≠ k → temp a ≠ temp b.
Proof. intros Hj Hk Hne Heq. destruct Hfresh as [Ht _]. by apply Hne, (Ht j k a b). Qed.

Lemma step_writers s s' : cinv s → step s s' →
  ∀ k a p, jobs !! k = Some a → phases s' !! k = Some p → writer_ok s' a p.
Proof.
  intros Hinv Hs k a p Hk. pose proof (other_ok s s' k a p Hinv Hs Hk) as Hother.
  pose proof (λ q, ci_writers s Hinv k a q Hk) as Hown.
  destruct Hs as [k0 a0 s Hk0 Hph Hn|k0 a0 j s Hk0 Hph Hn|k0 s Hph|k0 j b bs d s Hph Hd|k0 j s Hph|k0 j bs s Hph|k0 a0 j j' s Hk0 Hph Hn
    |k0 j s Hph|k0 a0 s Hk0 Hph|k0 s Hph|q s|q j s Hn Ht|r q j got b rest s Hr Hd|r q j got s Hr Hd]; cbn in Hother |- *.
  1-10: intros [(<- & <- & _)|[Hne Hp]]%list_lookup_insert_Some.
  all: try done.
  all: try (intros Hp; apply Hother; done).
  all: try (apply Hother; done).
  - rewrite Hk0 in Hk. injection Hk as ->. cbn. split_and!; [lia| | |].
    + intros q [[-> _]|[_ Hq]]%lookup_insert_Some; [done|]. apply (ci_names s Hinv) in Hq. lia.
    + intros j. rewrite lookup_insert_eq. congruence.
    + exists "". by rewrite lookup_insert_eq.
  - assert (temp a ≠ temp a0) as Ht by (by eapply temps_differ). apply Hother; [done| | | |lia].
    + intros j. by rewrite lookup_insert_ne.
    + intros i bs q ->. destruct (Hown _ Hp) as (Hlt & _). intros [[_ ?]|[_ Hq]]%lookup_insert_Some; [lia|done].
    + intros i bs ->. destruct (Hown _ Hp) as (Hlt & _). rewrite lookup_insert_ne; [done|lia].
  - pose proof (ci_writers s Hinv _ _ _ Hk0 Hph) as Hw. cbn in Hw. congruence.
  - pose proof (ci_writers s Hinv _ _ _ Hk0 Hph) as Hw. cbn in Hw. congruence.
  - destruct (Hown _ Hph) as (Hlt & Hpriv & Hj & d' & Hd' & Hc). cbn. split_and!; [done|done|done|].
    exists (d +:+ b). rewrite lookup_insert_eq. split; [done|]. rewrite Hd in Hd'. injection Hd' as <-.
    by rewrite <- Hc, string_app_assoc.
  - apply Hother; [done|done|done| |lia]. intros i bs' ->. rewrite lookup_insert_ne; [done|]. intros <-.
    by apply Hne, (ci_alone s Hinv k0 k j (b :: bs) bs').
  - destruct (Hown _ Hph) as (Hlt & Hpriv & Hj & d & Hd & Hc). cbn in Hc |- *. rewrite string_app_empty_r in Hc.
    split; [|done]. split; [split; [done|]|].
    + intros k bs [(_ & ? & _)|[Hne Hbs]]%list_lookup_insert_Some; [done|].
      by apply Hne, (ci_alone s Hinv k0 k j [] bs).
    + exists d. split; [done|]. right. exists a. split; [by eapply list_elem_of_lookup_2|done].
  - assert (temp a ≠ temp a0) as Ht by (by eapply temps_differ).
    assert (temp a ≠ target a0) as Ht2 by (destruct Hfresh as [_ Hd]; apply Hd; by eapply list_elem_of_lookup_2).
    destruct (ci_writers s Hinv _ _ _ Hk0 Hph) as [[[_ Hno] _] Hj]. apply Hj in Hn as ->.
    apply Hother; [done| | |done|lia].
    + intros i. by rewrite lookup_insert_ne, lookup_delete_ne.
    + intros i bs q ->. intros [[_ ->]|[_ [_ Hq]%lookup_delete_Some]]%lookup_insert_Some; [|done].
      by apply Hno in Hp.
  - apply Hother; [done| |by intros i bs q -> [_ ?]%lookup_delete_Some|done|lia]. by intros i [_ ?]%lookup_delete_Some.
  - intros Hp. apply Hother; [done| |by intros i bs q' -> [_ ?]%lookup_delete_Some|done|lia]. by intros i [_ ?]%lookup_delete_Some.
Qed.
Ltac step_cases Hs :=
  destruct Hs as [k0 a0 s Hk0 Hph Hn|k0 a0 j s Hk0 Hph Hn|k0 s Hph|k0 j b bs d s Hph Hd|k0 j s Hph|k0 j bs s Hph
    |k0 a0 j j' s Hk0 Hph Hn|k0 j s Hph|k0 a0 s Hk0 Hph|k0 s Hph|q s|q j s Hn Ht|r q j got b rest s Hr Hd|r q j got s Hr Hd];
  cbn.

Lemma step_length s s' : step s s' → length (phases s') = length (phases s).
Proof. intros Hs. step_cases Hs; by rewrite ?length_insert. Qed.

Lemma step_alone s s' : cinv s → step s s' →
  ∀ j k i bs bs', phases s' !! j = Some (WCopy i bs) → phases s' !! k = Some (WCopy i bs') → j = k.
Proof.
  intros Hinv Hs. pose proof (ci_alone s Hinv) as Ha.
  assert (∀ k0 p, (∀ i bs, p ≠ WCopy i bs) → ∀ j k i bs bs', <[k0 := p]> (phases s) !! j = Some (WCopy i bs) →
    <[k0 := p]> (phases s) !! k = Some (WCopy i bs') → j = k) as Hset.
  { intros k0 p Hp j k i bs bs' [(_ & [= ->] & _)|[_ Hj]]%list_lookup_insert_Some; [by destruct (Hp i bs)|].
    intros [(_ & [= ->] & _)|[_ Hk]]%list_lookup_insert_Some; [by destruct (Hp i bs')|]. by eapply Ha. }
  step_cases Hs; try done; try by apply Hset.
  - intros j k i bs bs' [(<- & [= <- <-] & _)|[Hj Hpj]]%list_lookup_insert_Some
      [(<- & Heq & _)|[Hk Hpk]]%list_lookup_insert_Some; [done| | |by eapply Ha].
    + destruct (phase_job s k _ Hinv Hpk) as [a Hka]. destruct (ci_writers s Hinv k a _ Hka Hpk) as (Hlt & _). lia.
    + injection Heq as <- _. destruct (phase_job s j _ Hinv Hpj) as [a Hja].
      destruct (ci_writers s Hinv j a _ Hja Hpj) as (Hlt & _). lia.
  - pose proof (ci_writers s Hinv _ _ _ Hk0 Hph) as Hw. cbn in Hw. congruence.
  - intros j1 k i bs1 bs' [(<- & [= <- <-] & _)|[Hj Hpj]]%list_lookup_insert_Some
      [(<- & Heq & _)|[Hk Hpk]]%list_lookup_insert_Some; [done|by eapply Ha| |by eapply Ha].
    injection Heq as <- _. by eapply Ha.
Qed.

Lemma step_names s s' : cinv s → step s s' → ∀ p i, names s' !! p = Some i → i < next s'.
Proof.
  intros Hinv Hs p i. pose proof (ci_names s Hinv p i) as Hold. pose proof (λ p, ci_names s Hinv p i) as Hall.
  step_cases Hs; try done.
  - intros [[_ <-]|[_ Hp]]%lookup_insert_Some; [lia|]. apply Hold in Hp. lia.
  - intros [[_ <-]|[_ [_ Hp]%lookup_delete_Some]]%lookup_insert_Some; [by eapply (ci_names s Hinv)|by apply Hold].
  - intros [_ Hp]%lookup_delete_Some. by apply Hold.
  - intros [_ Hp]%lookup_delete_Some. by apply Hold.
Qed.

(** The names of entries lead to whole entries. *)
Lemma step_entries s s' : cinv s → step s s' → ∀ p i, ¬ is_temp p → names s' !! p = Some i → served s' p i.
Proof.
  intros Hinv Hs p i Hp Hi.
  assert (names s !! p = Some i ∨ ∃ k a j, jobs !! k = Some a ∧ phases s !! k = Some (WRename j) ∧
    names s !! temp a = Some i ∧ target a = p) as [Hold|(k & a & j & Hk & Hph & Hn & <-)].
  { revert Hi. step_cases Hs; try by left.
    - intros [[<- _]|[_ Hi]]%lookup_insert_Some; [by destruct Hp; eapply temp_of|by left].
    - intros [[<- <-]|[_ [_ Hi]%lookup_delete_Some]]%lookup_insert_Some; [right|by left]. by exists k0, a0, j.
    - intros [_ Hi]%lookup_delete_Some. by left.
    - intros [_ Hi]%lookup_delete_Some. by left. }
  - eapply step_served; [done|done|]. by apply (ci_entries s Hinv).
  - eapply step_served; [done|done|]. destruct (ci_writers s Hinv k a _ Hk Hph) as [Hsv Hj]. by apply Hj in Hn as ->.
Qed.

Lemma step_readers s s' : cinv s → step s s' → ∀ x, x ∈ readers s' → reader_ok s' x.
Proof.
  intros Hinv Hs x Hx.
  assert (x ∈ readers s ∨ reader_ok s x) as [Hold|Hok]; [|by eapply reader_mono, ci_readers|by eapply reader_mono].
  revert Hx. step_cases Hs; try by left.
  - intros [Hx| ->%list_elem_of_singleton]%elem_of_app; [by left|right]. split; [by apply (ci_entries s Hinv)|].
    destruct (ci_entries s Hinv q j Ht Hn) as [_ (c & Hc & _)]. by exists c.
  - pose proof (ci_readers s Hinv _ (list_elem_of_lookup_2 _ _ _ Hr)) as [Hsv _].
    intros [i Hi]%list_elem_of_lookup. apply list_lookup_insert_Some in Hi as [(_ & <- & _)|[_ Hi]].
    + right. split; [done|]. exists rest. by rewrite string_app_assoc.
    + left. by eapply list_elem_of_lookup_2.
  - pose proof (ci_readers s Hinv _ (list_elem_of_lookup_2 _ _ _ Hr)) as [[_ (c & Hc & Hw)] _].
    intros [i Hi]%list_elem_of_lookup. apply list_lookup_insert_Some in Hi as [(_ & <- & _)|[_ Hi]].
    + right. cbn. congruence.
    + left. by eapply list_elem_of_lookup_2.
Qed.

Lemma step_cinv s s' : cinv s → step s s' → cinv s'.
Proof.
  intros Hinv Hs. split.
  - rewrite (step_length s s' Hs). apply Hinv.
  - by eapply step_names.
  - by eapply step_writers.
  - by eapply step_alone.
  - by eapply step_entries.
  - by eapply step_readers.
Qed.

Lemma steps_cinv x y : rtc step x y → cinv x → cinv y.
Proof. induction 1 as [|x y z Hs _ IH]; [done|]. intros Hx. apply IH. by eapply step_cinv. Qed.

Lemma reach_cinv s : rtc step s0 s → cinv s.
Proof. intros Hr. apply (steps_cinv s0); [done|apply start_inv]. Qed.

(** C14: however writers, readers and the clearing of the cache interleave, and
    whichever calls of the writers fail, what stands under the name of an entry is
    at every moment a whole document, the one that was there or one that a writer
    of that entry copied; and a reader that opened it reads exactly such a
    document to its end, even if the entry is replaced or cleared meanwhile. *)
Theorem readers_see_whole_entries s :
  rtc step s0 s →
  (∀ p i, ¬ is_temp p → names s !! p = Some i → ∃ c, data s !! i = Some c ∧ whole p c) ∧
  (∀ p c, RDone p c ∈ readers s → whole p c) ∧
  (∀ p i got, RReading p i got ∈ readers s → ∃ rest, data s !! i = Some (got +:+ rest) ∧ whole p (got +:+ rest)).
Proof.
  intros Hr. pose proof (reach_cinv s Hr) as Hinv. split_and!.
  - intros p i Hp Hi. by destruct (ci_entries s Hinv p i Hp Hi) as [_ ?].
  - intros p c Hin. exact (ci_readers s Hinv _ Hin).
  - intros p i got Hin. destruct (ci_readers s Hinv _ Hin) as [[_ (c & Hc & Hw)] (rest & Hd)].
    exists rest. split; [done|]. by rewrite Hc in Hd; injection Hd as ->.
Qed.
End cache.

(** ** One writer by itself *)

(** The files as [FS.v] has them: contents by name. *)
Definition view (s : state) : gmap string string := omap (λ i, data s !! i) (names s).

Lemma view_lookup s p : view s !! p = (names s !! p) ≫= λ i, data s !! i.
Proof. unfold view. rewrite lookup_omap. by destruct (names s !! p). Qed.

Lemma copies jobs k i bs : ∀ d s,
  phases s !! k = Some (WCopy i bs) → data s !! i = Some d →
  ∃ s', rtc (step jobs) s s' ∧ phases s' !! k = Some (WCopy i []) ∧ names s' = names s ∧
    data s' = <[i := d +:+ Cache.concat_blocks bs]> (data s).
Proof.
  induction bs as [|b bs IH]; intros d s Hp Hd.
  - exists s. split_and!; [apply rtc_refl|done|done|]. cbn. by rewrite string_app_empty_r, insert_id.
  - destruct (IH (d +:+ b) (set_phase k (WCopy i bs) (set_data i (d +:+ b) s))) as (s' & Hr & Hp' & Hn & Hd').
    + cbn. apply list_lookup_insert_eq. by eapply lookup_lt_Some.
    + cbn. by rewrite lookup_insert_eq.
    + exists s'. split_and!; [eapply rtc_l; [by eapply S_append|done]|done|done|].
      rewrite Hd'. cbn. by rewrite insert_insert_eq, string_app_assoc.
Qed.

(** A writer that runs alone does what [Cache.AtomicWrite] does. *)
Theorem lone_writer_is_atomic_write jobs k a s env source c w w' :
  jobs !! k = Some a → phases s !! k = Some WStart → names s !! temp a = None →
  (∀ p i, names s !! p = Some i → i < next s) →
  Cache.env_ok env → temp a = Cache.tempName env (target a) → source ≠ temp a → blocks a = Cache.blocks env c →
  files w = view s → files w !! source = Some c → Cache.AtomicWrite env (target a) source w = (true, w') →
  ∃ s', rtc (step jobs) s s' ∧ phases s' !! k = Some (WDone true) ∧ view s' = files w'.
Proof.
  intros Hk Hp Hn Hlt Henv Htemp Hsrc Hb Hw Hc Hrun.
  rewrite Htemp in Hsrc. pose proof (Cache.atomic_write_triple env (files w) (target a) source Henv Hsrc w eq_refl) as Ht.
  rewrite Hrun in Ht. destruct Ht as [(c' & Hc' & Hf) _]. rewrite Hc in Hc'. injection Hc' as <-. rewrite <- Htemp in Hf.
  set (s1 := set_phase k (WCopy (next s) (blocks a))
    (mkState (<[temp a := next s]> (names s)) (<[next s := ""]> (data s)) (S (next s)) (phases s) (readers s))).
  assert (k < length (phases s)) as Hkl by by eapply lookup_lt_Some.
  destruct (copies jobs k (next s) (blocks a) "" s1) as (s2 & Hr2 & Hp2 & Hn2 & Hd2).
  { cbn. by apply list_lookup_insert_eq. }
  { cbn. by rewrite lookup_insert_eq. }
  assert (k < length (phases s2)) as Hkl2 by by eapply lookup_lt_Some.
  set (s3 := set_phase k (WRename (next s)) s2).
  assert (phases s3 !! k = Some (WRename (next s))) as Hp3 by (by apply list_lookup_insert_eq).
  assert (names s3 !! temp a = Some (next s)) as Hn3 by (cbn; rewrite Hn2; cbn; by rewrite lookup_insert_eq).
  eexists. split; [|split].
  - eapply rtc_l; [by eapply S_create|]. fold s1. etrans; [exact Hr2|].
    eapply rtc_l; [by eapply S_copied|]. eapply rtc_l; [exact (S_rename jobs k a _ _ s3 Hk Hp3 Hn3)|apply rtc_refl].
  - cbn. apply list_lookup_insert_eq. by rewrite length_insert.
  - apply map_eq. intros p. rewrite view_lookup, Hf. cbn. rewrite Hn2, Hd2. cbn. rewrite insert_insert_eq.
    destruct (decide (p = target a)) as [->|Hpt].
    + rewrite !lookup_insert_eq. cbn. rewrite lookup_insert_eq. cbn. by rewrite Hb, Henv.
    + rewrite !(lookup_insert_ne _ (target a)) by done. rewrite Hw.
      destruct (decide (p = temp a)) as [->|Hpm]; [by rewrite !lookup_delete_eq|].
      rewrite !lookup_delete_ne, lookup_insert_ne by done. rewrite view_lookup.
      destruct (names s !! p) as [i|] eqn:Hi; [|done]. cbn. apply Hlt in Hi. by rewrite lookup_insert_ne by lia.
Qed.

(** ** A concrete run *)

(** Two writers of one entry that exists already. *)
Definition sample_jobs : list job :=
  [mkJob "/c/e.pdf" "/c/e.pdf.tmp.7.00" ["%P"; "DF"]; mkJob "/c/e.pdf" "/c/e.pdf.tmp.7.01" ["%PDF"]].
Definition sample_start : state := mkState {["/c/e.pdf" := 0]} {[0 := "old"]} 1 [WStart; WStart] [].

Lemma sample_starts : starts sample_jobs sample_start.
Proof.
  split_and!; [reflexivity|reflexivity| |].
  - intros a Ha. unfold sample_jobs in Ha. rewrite !elem_of_cons in Ha. destruct Ha as [-> | [-> | []%not_elem_of_nil]]; reflexivity.
  - intros p i Hi. cbn in Hi. apply lookup_singleton_Some in Hi as [_ <-]. split; [cbn; lia|by exists "old"].
Qed.

Lemma sample_fresh : temps_fresh sample_jobs.
Proof.
  split.
  - intros [|[|j]] [|[|k]] a b Ha Hb; cbn in *; simplify_eq; try done; by rewrite ?lookup_nil in *.
  - intros a b Ha Hb. unfold sample_jobs in *. rewrite !elem_of_cons in Ha, Hb.
    destruct Ha as [-> | [-> | []%not_elem_of_nil]], Hb as [-> | [-> | []%not_elem_of_nil]]; done.
Qed.

(** A reader opens the old document; the first writer replaces it; the reader
    reads on to the end of what it opened. *)
Lemma readers_see_whole_entries_witness :
  ∃ s, rtc (step sample_jobs) sample_start s ∧ RDone "/c/e.pdf" "old" ∈ readers s ∧
    names s !! "/c/e.pdf" = Some 1 ∧ data s !! 1 = Some "%PDF" ∧ whole sample_jobs sample_start "/c/e.pdf" "old".
Proof.
  assert (¬ is_temp sample_jobs "/c/e.pdf") as Hp.
  { intros (a & Ha & He). unfold sample_jobs in Ha. rewrite !elem_of_cons in Ha. destruct Ha as [-> | [-> | []%not_elem_of_nil]]; discriminate He. }
  assert (∃ s, rtc (step sample_jobs) sample_start s ∧ RDone "/c/e.pdf" "old" ∈ readers s ∧
    names s !! "/c/e.pdf" = Some 1 ∧ data s !! 1 = Some "%PDF") as (s & Hr & Hin & Hn & Hd).
  { eexists. split.
    - eapply rtc_l; [apply (S_open sample_jobs "/c/e.pdf" 0); [reflexivity|exact Hp]|].
      eapply rtc_l; [apply (S_create sample_jobs 0 (mkJob "/c/e.pdf" "/c/e.pdf.tmp.7.00" ["%P"; "DF"])); reflexivity|].
      eapply rtc_l; [apply (S_append sample_jobs 0 1 "%P" ["DF"] ""); reflexivity|].
      eapply rtc_l; [apply (S_append sample_jobs 0 1 "DF" [] "%P"); reflexivity|].
      eapply rtc_l; [apply (S_copied sample_jobs 0 1); reflexivity|].
      eapply rtc_l; [apply (S_rename sample_jobs 0 (mkJob "/c/e.pdf" "/c/e.pdf.tmp.7.00" ["%P"; "DF"]) 1 1); reflexivity|].
      eapply rtc_l; [apply (S_read sample_jobs 0 "/c/e.pdf" 0 "" "old" ""); reflexivity|].
      eapply rtc_l; [apply (S_eof sample_jobs 0 "/c/e.pdf" 0 "old"); reflexivity|]. apply rtc_refl.
    - split_and!; [apply list_elem_of_here|reflexivity|reflexivity]. }
  exists s. split_and!; [exact Hr|exact Hin|exact Hn|exact Hd|].
  destruct (readers_see_whole_entries sample_jobs sample_start sample_starts sample_fresh s Hr) as (_ & Hdone & _).
  exact (Hdone _ _ Hin).
Defined.
