(* ===== verification/Qpdf.v ===== *)
(** * Streaming merge of chunk PDFs ([internal/qpdf/qpdf.go])

    The merge runs the external [qpdf] and copies its standard output to a
    writer, and to a cache file, block by block.  What [qpdf] prints and how it
    ends is an argument; writers are an interface with its laws.  A merge that
    waits for a process that is itself waiting for its output to be read does
    not return: such a run ends in [Stuck]. *)
From Stdlib Require Import ZArith Lia Bool Ascii String.
From stdpp Require Import base tactics list gmap strings.
From S2P Require Import Prelude GoString GoFloat GoFmt Types OErrors FS.
From stdpp Require Import list.
Local Open Scope Z_scope.

(** ** Writers *)

Definition str_prefix (a b : string) : Prop := ∃ c, b = a +:+ c.

(** An [io.Writer]: what has been written so far, and the files it stands on.  A
    write that fails may have written the beginning of the block. *)
Record Sink : Type := mkSink {
  sink_write : string → IO bool;
  sink_content : World → string;
  sink_owns : string → Prop;
  sink_write_spec : ∀ b w, let '(ok, w') := sink_write b w in
    (∃ d, str_prefix d b ∧ sink_content w' = sink_content w +:+ d ∧ (ok = true → d = b)) ∧
    (∀ p, ¬ sink_owns p → files w' !! p = files w !! p) ∧
    (faults w = [] → ok = true ∧ faults w' = []);
  sink_frame : ∀ w w', sent w' = sent w → (∀ p, sink_owns p → files w' !! p = files w !! p) →
    sink_content w' = sink_content w
}.

Lemma all_written (b x y : string) (ok : bool) :
  y = x +:+ b → ∃ d, str_prefix d b ∧ y = x +:+ d ∧ (ok = true → d = b).
Proof. intros ->. exists b. split_and!; [exists ""; by rewrite string_app_empty_r|done|done]. Qed.
Lemma none_written (b x y : string) : y = x → ∃ d, str_prefix d b ∧ y = x +:+ d ∧ (false = true → d = b).
Proof. intros ->. exists "". split_and!; [by exists b|by rewrite string_app_empty_r|done]. Qed.

(** The response being sent. *)
Program Definition response : Sink := mkSink send sent (λ _, False) _ _.
Next Obligation.
  intros b w. unfold send, faulty. destruct (faults w) as [|[] f] eqn:Hf; simpl; (split; [|by split_and!]);
    [by apply all_written|by apply none_written|by apply all_written].
Qed.
Next Obligation. done. Qed.

(** An open file. *)
Program Definition file_sink (path : string) : Sink :=
  mkSink (os_append path) (λ w, default "" (files w !! path)) (λ p, p = path) _ _.
Next Obligation.
  intros path b w. unfold os_append, mbind, io_bind, mret, io_ret, get_files, set_files, faulty.
  destruct (faults w) as [|[] f] eqn:Hf; simpl; rewrite ?lookup_insert_eq; simpl; split_and!; try done;
    try (by apply all_written); try (by apply none_written); intros p Hp; by rewrite lookup_insert_ne by congruence.
Qed.
Next Obligation. intros path w w' _ H. simpl. by rewrite H. Qed.

(** ** The process *)

(** [qpdf_run argv files]: standard output, standard error and exit code of a
    run that finds these files. *)
Record Qpdf : Type := mkQpdf {
  stdout_pipe_error : option string;
  stderr_pipe_error : option string;
  start_error : list string → option string;
  qpdf_run : list string → gmap string string → string * string * Z;
  wait_error : list string → bool;
  create_error : string → string;
  read_blocks : string → list string;
  pipe_capacity : Z
}.

Inductive ended (A : Type) : Type := Returned (a : A) | Stuck.
Arguments Returned {A} a.
Arguments Stuck {A}.

Definition qpdf_ok (q : Qpdf) : Prop :=
  (∀ s, foldr String.append "" (read_blocks q s) = s) ∧ 0 <= pipe_capacity q.

Definition tailStr (b : string) (n : nat) : string :=
  if (n <? String.length b)%nat then tail_str b n else b.

(** [io.MultiWriter(dst, tee)], or [dst] alone. *)
Definition tee_write (dst : Sink) (tee : string) (block : string) : IO bool :=
  ok ← sink_write dst block;
  if negb ok || String.eqb tee "" then mret ok else os_append tee block.

(** [io.CopyBuffer]: [None] when everything was copied, and after a failed write
    what was not read from the pipe any more. *)
Fixpoint copy_out (write : string → IO bool) (bs : list string) : IO (option string) :=
  match bs with
  | [] => mret None
  | b :: bs => ok ← write b; if ok : bool then copy_out write bs else mret (Some (foldr String.append "" bs))
  end.

(** The arguments after the program name. *)
Definition concat_argv (chunkPaths : list string) : list string :=
  ["--empty"; "--pages"] ++ chunkPaths ++ ["--"; "-"].

(** The cache file, when there is one. *)
Definition open_tee (tee : string) : IO bool := if String.eqb tee "" then mret true else os_create tee.
Definition discard_tee (tee : string) : IO bool := if String.eqb tee "" then mret true else os_remove tee.

(** The copy, and the wait for the process: the read end of its standard output
    stays open until [Wait], so after a failed copy it can end only when the
    rest of its output fits into the pipe. *)
Definition finish_concat (q : Qpdf) (argv : list string) (run : string * string * Z) (dst : Sink)
    (cacheTempPath : string) : IO (ended (option Error)) :=
  let '(stdout, stderr, rc) := run in
  unread ← copy_out (tee_write dst cacheTempPath) (read_blocks q stdout);
  match unread with
  | Some rest =>
      if pipe_capacity q <? str_len rest then mret Stuck
      else
        discard_tee cacheTempPath;;
        mret (Returned (Some (NewMerge rc (tailStr stderr 1024))))
  | None =>
      if negb (rc =? 0) || wait_error q argv then
        discard_tee cacheTempPath;;
        mret (Returned (Some (NewMerge rc (tailStr stderr 1024))))
      else mret (Returned None)
  end.

Definition ConcatStreaming (q : Qpdf) (chunkPaths : list string) (dst : Sink) (cacheTempPath : string)
    : IO (ended (option Error)) :=
  match chunkPaths with
  | [] => mret (Returned (Some (NewMerge (-1) "no chunks to concatenate")))
  | _ =>
      let argv := concat_argv chunkPaths in
      match stdout_pipe_error q, stderr_pipe_error q, start_error q argv with
      | Some e, _, _ => mret (Returned (Some (NewMerge (-1) ("stdout pipe: " +:+ e))))
      | None, Some e, _ => mret (Returned (Some (NewMerge (-1) ("stderr pipe: " +:+ e))))
      | None, None, Some e => mret (Returned (Some (NewMerge (-1) ("spawn failed: " +:+ e))))
      | None, None, None =>
          fs ← get_files;
          let run := qpdf_run q argv fs in
          opened ← open_tee cacheTempPath;
          if opened : bool then finish_concat q argv run dst cacheTempPath
          else mret (Returned (Some (NewMerge (-1) ("cache temp open: " +:+ create_error q cacheTempPath))))
      end
  end.

Definition ConcatToFile (q : Qpdf) (chunkPaths : list string) (outPath : string)
    : IO (ended (option Error)) :=
  ok ← os_create outPath;
  if ok : bool then ConcatStreaming q chunkPaths (file_sink outPath) ""
  else mret (Returned (Some (NewMerge (-1) ("open merge target: " +:+ create_error q outPath)))).

(** ** The copy *)

(** What the files and the sink look like between the blocks: [done] has been
    copied from [w]. *)
Definition copied (dst : Sink) (tee : string) (w w' : World) (done : string) : Prop :=
  sink_content dst w' = sink_content dst w +:+ done ∧
  (∀ p, ¬ sink_owns dst p → p ≠ tee ∨ tee = "" → files w' !! p = files w !! p).

Lemma os_append_spec p b w :
  let '(ok, w') := os_append p b w in
  files w' = (if ok : bool then <[p := default "" (files w !! p) +:+ b]> (files w) else files w) ∧
  sent w' = sent w ∧ (faults w = [] → ok = true ∧ faults w' = []).
Proof.
  unfold os_append, mbind, io_bind, mret, io_ret, get_files, set_files, faulty.
  destruct (faults w) as [|[] f] eqn:Hf; simpl; by split_and!.
Qed.

Lemma os_create_spec p w :
  let '(ok, w') := os_create p w in
  files w' = (if ok : bool then <[p := ""]> (files w) else files w) ∧
  sent w' = sent w ∧ (faults w = [] → ok = true ∧ faults w' = []).
Proof.
  unfold os_create, mbind, io_bind, mret, io_ret, get_files, set_files, faulty.
  destruct (faults w) as [|[] f] eqn:Hf; simpl; by split_and!.
Qed.

Lemma os_remove_spec p w :
  let '(ok, w') := os_remove p w in
  files w' = (if ok : bool then delete p (files w) else files w) ∧
  sent w' = sent w ∧ (faults w = [] → faults w' = [] ∧ files w' = delete p (files w)).
Proof.
  unfold os_remove, mbind, io_bind, mret, io_ret, get_files, set_files, faulty.
  destruct (faults w) as [|[] f] eqn:Hf; simpl; destruct (files w !! p) eqn:Hp; simpl; split_and!; try done;
    intros _; split; try done; by rewrite delete_id.
Qed.

Lemma tee_write_spec dst tee b w :
  (tee ≠ "" → ¬ sink_owns dst tee) →
  let '(ok, w') := tee_write dst tee b w in
  (∃ d, str_prefix d b ∧ copied dst tee w w' d ∧ (ok = true → d = b ∧
     (tee ≠ "" → files w' !! tee = Some (default "" (files w !! tee) +:+ b)))) ∧
  (faults w = [] → ok = true ∧ faults w' = []).
Proof.
  intros Hown. unfold tee_write, mbind, io_bind, mret, io_ret.
  pose proof (sink_write_spec dst b w) as Hs. destruct (sink_write dst b w) as [ok w1].
  destruct Hs as ((d & Hd & Hc & Hok) & Hf & Hnf). destruct (String.eqb_spec tee "") as [->|Hne].
  - rewrite orb_true_r. split; [|done]. exists d. split_and!; [done| |].
    + split; [done|]. intros p Hp _. by apply Hf.
    + intros ->. by split; [apply Hok|].
  - rewrite orb_false_r. destruct ok; simpl.
    2:{ split; [|intros Hnil; by destruct (Hnf Hnil)]. exists d. split_and!; [done| |done].
        split; [done|]. intros p Hp _. by apply Hf. }
    rewrite (Hok eq_refl) in Hc. clear d Hd Hok.
    pose proof (os_append_spec tee b w1) as Ha. destruct (os_append tee b w1) as [ok2 w2].
    destruct Ha as (Hf2 & Hs2 & Hnf2). split.
    + exists b. split_and!; [exists ""; by rewrite string_app_empty_r| |].
      * split.
        -- rewrite <- Hc. apply sink_frame; [done|]. intros p Hp. rewrite Hf2.
           destruct ok2; [|done]. rewrite lookup_insert_ne; [done|]. intros ->. by apply Hown.
        -- intros p Hp [Hpt|Ht]; [|done]. rewrite Hf2. destruct ok2; rewrite ?lookup_insert_ne by done; by apply Hf.
      * intros ->. split; [done|]. intros _. rewrite Hf2, lookup_insert_eq. by rewrite Hf by auto.
    + intros Hnil. destruct (Hnf Hnil). auto.
Qed.

Lemma copied_trans dst tee w w1 w2 a b :
  copied dst tee w w1 a → copied dst tee w1 w2 b → copied dst tee w w2 (a +:+ b).
Proof.
  intros [Hc1 Hf1] [Hc2 Hf2]. split.
  - by rewrite Hc2, Hc1, string_app_assoc.
  - intros p Hp Ht. by rewrite Hf2, Hf1.
Qed.

Lemma copy_out_spec dst tee bs w :
  (tee ≠ "" → ¬ sink_owns dst tee) → (tee ≠ "" → is_Some (files w !! tee)) →
  let '(unread, w') := copy_out (tee_write dst tee) bs w in
  (∃ d, str_prefix d (foldr String.append "" bs) ∧ copied dst tee w w' d ∧
     (∀ rest, unread = Some rest → ∃ x, foldr String.append "" bs = d +:+ x +:+ rest) ∧
     (unread = None → d = foldr String.append "" bs ∧
        (tee ≠ "" → files w' !! tee = Some (default "" (files w !! tee) +:+ d)))) ∧
  (faults w = [] → unread = None ∧ faults w' = []).
Proof.
  intros Hown. revert w. induction bs as [|b bs IH]; intros w Htee.
  - split; [|done]. exists "". split_and!; [by exists ""| |done|].
    + split; [by rewrite string_app_empty_r|done].
    + intros _. split; [done|]. intros Hne. destruct (Htee Hne) as [c ->]. simpl. by rewrite string_app_empty_r.
  - change (copy_out (tee_write dst tee) (b :: bs) w) with
      (let '(ok, w1) := tee_write dst tee b w in
       (if ok : bool then copy_out (tee_write dst tee) bs else mret (Some (foldr String.append "" bs))) w1).
    pose proof (tee_write_spec dst tee b w Hown) as Ht. destruct (tee_write dst tee b w) as [ok w1].
    destruct Ht as ((d & [x Hd] & Hcop & Hok) & Hnf). destruct ok.
    + destruct (Hok eq_refl) as [-> Htee1]. clear Hok. specialize (IH w1).
      destruct (copy_out (tee_write dst tee) bs w1) as [unread w'].
      destruct IH as ((d2 & [y Hy] & Hcop2 & Hrest & Hok2) & Hnf2).
      { intros Hne. rewrite (Htee1 Hne). by eexists. }
      split; [|intros Hnil; destruct (Hnf Hnil); auto].
      exists (b +:+ d2). split_and!.
      * exists y. simpl. by rewrite Hy, string_app_assoc.
      * by eapply copied_trans.
      * intros rest Hr. destruct (Hrest rest Hr) as [x' Hx']. exists x'. simpl. by rewrite Hx', string_app_assoc.
      * intros Hl. destruct (Hok2 Hl) as [-> Hl2]. split; [done|]. intros Hne.
        rewrite (Hl2 Hne), (Htee1 Hne). simpl. by rewrite string_app_assoc.
    + split; [|intros Hnil; by destruct (Hnf Hnil)].
      assert (foldr String.append "" (b :: bs) = d +:+ x +:+ foldr String.append "" bs) as Hfold.
      { simpl. by rewrite Hd, string_app_assoc. }
      exists d. split_and!; [by eexists|done| |done]. intros rest [= <-]. by exists x.
Qed.

(** ** The merge *)

(** What holds at the end of a merge that started in [w] and whose process
    printed [out] and exited with [rc]. *)
Definition merge_post (q : Qpdf) (dst : Sink) (tee out : string) (rc : Z) (r : ended (option Error))
    (w w' : World) : Prop :=
  (∀ p, ¬ sink_owns dst p → p ≠ tee ∨ tee = "" → files w' !! p = files w !! p) ∧
  ∃ d, str_prefix d out ∧ sink_content dst w' = sink_content dst w +:+ d ∧
  match r with
  | Returned None => rc = 0 ∧ d = out ∧ (tee ≠ "" → files w' !! tee = Some out)
  | Returned (Some e) => EFailureClass e = MergeFailed ∧ HTTPStatus e = 500
  | Stuck => pipe_capacity q < str_len out - str_len d
  end.

Lemma merge_post_from q dst tee out rc r w w1 w' :
  copied dst tee w w1 "" → merge_post q dst tee out rc r w1 w' → merge_post q dst tee out rc r w w'.
Proof.
  intros [Hc Hf] (Hf2 & d & Hd & Hc2 & Hr). split; [intros p Hp Ht; by rewrite Hf2, Hf|].
  exists d. split_and!; [done| |done]. by rewrite Hc2, Hc, string_app_empty_r.
Qed.

Lemma copied_nil dst tee w w' :
  (tee ≠ "" → ¬ sink_owns dst tee) → sent w' = sent w →
  (∀ p, p ≠ tee ∨ tee = "" → files w' !! p = files w !! p) → copied dst tee w w' "".
Proof.
  intros Hown Hs Hf. split; [|auto]. rewrite string_app_empty_r. apply sink_frame; [done|].
  intros p Hp. apply Hf. destruct (String.eqb_spec tee "") as [->|Hne]; [by right|].
  left. intros ->. by apply Hown.
Qed.

Lemma remove_tee dst tee w :
  (tee ≠ "" → ¬ sink_owns dst tee) →
  let '(_, w') := discard_tee tee w in
  copied dst tee w w' "" ∧ (faults w = [] → faults w' = [] ∧ (tee ≠ "" → files w' !! tee = None)).
Proof.
  intros Hown. unfold discard_tee. destruct (String.eqb_spec tee "") as [->|Hne].
  - split; [by apply copied_nil|done].
  - pose proof (os_remove_spec tee w) as Hr. destruct (os_remove tee w) as [ok w'].
    destruct Hr as (Hf & Hs & Hnf). split.
    + apply copied_nil; [done|done|]. intros p [Hp|?]; [|done]. rewrite Hf.
      by destruct ok; rewrite ?lookup_delete_ne by done.
    + intros Hnil. destruct (Hnf Hnil) as [? Hd]. split; [done|]. intros _. by rewrite Hd, lookup_delete_eq.
Qed.

Lemma create_tee dst tee w :
  (tee ≠ "" → ¬ sink_owns dst tee) →
  let '(ok, w') := open_tee tee w in
  copied dst tee w w' "" ∧ (faults w = [] → ok = true ∧ faults w' = []) ∧
  (ok = true → tee ≠ "" → files w' !! tee = Some "").
Proof.
  intros Hown. unfold open_tee. destruct (String.eqb_spec tee "") as [->|Hne].
  - split_and!; [by apply copied_nil|done|done].
  - pose proof (os_create_spec tee w) as Hr. destruct (os_create tee w) as [ok w'].
    destruct Hr as (Hf & Hs & Hnf). split_and!; [|done|].
    + apply copied_nil; [done|done|]. intros p [Hp|?]; [|done]. rewrite Hf.
      by destruct ok; rewrite ?lookup_insert_ne by done.
    + intros -> _. by rewrite Hf, lookup_insert_eq.
Qed.

Lemma str_len_app a b : str_len (a +:+ b) = str_len a + str_len b.
Proof. unfold str_len. rewrite <- !bytes_length, bytes_app, length_app. lia. Qed.

Lemma finish_concat_spec q argv out err rc dst tee w :
  qpdf_ok q → (tee ≠ "" → ¬ sink_owns dst tee) → (tee ≠ "" → files w !! tee = Some "") →
  let '(r, w') := finish_concat q argv (out, err, rc) dst tee w in
  merge_post q dst tee out rc r w w' ∧
  (faults w = [] →
    if negb (rc =? 0) || wait_error q argv
    then r = Returned (Some (NewMerge rc (tailStr err 1024))) ∧ (tee ≠ "" → files w' !! tee = None)
    else r = Returned None).
Proof.
  intros [Hq Hcap] Hown Htee. unfold finish_concat, mbind, io_bind, mret, io_ret.
  pose proof (copy_out_spec dst tee (read_blocks q out) w Hown) as Hc.
  destruct (copy_out (tee_write dst tee) (read_blocks q out) w) as [unread w1]. rewrite (Hq out) in Hc.
  destruct Hc as ((d & Hd & Hcop & Hrest & Hall) & Hnf); [intros Hne; rewrite Htee by done; by eexists|].
  assert (∀ r w', copied dst tee w1 w' "" →
    (match r with Returned None => rc = 0 ∧ d = out ∧ (tee ≠ "" → files w' !! tee = Some out)
     | Returned (Some e) => EFailureClass e = MergeFailed ∧ HTTPStatus e = 500
     | Stuck => pipe_capacity q < str_len out - str_len d end) →
    merge_post q dst tee out rc r w w') as Hpost.
  { intros r w' Hcop' Hr. pose proof (copied_trans _ _ _ _ _ _ _ Hcop Hcop') as [Hcont Hfs].
    rewrite string_app_empty_r in Hcont. split; [done|]. by exists d. }
  pose proof (remove_tee dst tee w1 Hown) as Hrm. destruct unread as [rest|].
  - destruct (Hrest rest eq_refl) as [x Hx].
    destruct (Z.ltb_spec (pipe_capacity q) (str_len rest)) as [Hlt|Hge].
    + split; [|intros Hnil; by destruct (Hnf Hnil)].
      apply Hpost; [by apply copied_nil|]. rewrite Hx, !str_len_app. unfold str_len in *. lia.
    + destruct (discard_tee tee w1) as [u w2]. destruct Hrm as [Hcop2 _].
      split; [by apply Hpost|intros Hnil; by destruct (Hnf Hnil)].
  - destruct (Hall eq_refl) as [-> Hfin]. destruct (negb (rc =? 0) || wait_error q argv) eqn:Hrc.
    + destruct (discard_tee tee w1) as [u w2]. destruct Hrm as [Hcop2 Hnf2].
      split; [by apply Hpost|]. intros Hnil. destruct (Hnf Hnil) as [_ Hnil1]. by destruct (Hnf2 Hnil1).
    + apply orb_false_iff in Hrc as [Hrc _]. split; [|done]. apply Hpost.
      * by apply copied_nil.
      * split_and!; [lia|done|]. intros Hne. by rewrite Hfin, Htee.
Qed.

Lemma concat_streaming_spec q paths dst tee w :
  qpdf_ok q → (tee ≠ "" → ¬ sink_owns dst tee) →
  let '(out, err, rc) := qpdf_run q (concat_argv paths) (files w) in
  let '(r, w') := ConcatStreaming q paths dst tee w in
  merge_post q dst tee out rc r w w' ∧
  (r = Returned None → paths ≠ []) ∧ (faults w = [] → r ≠ Stuck) ∧
  (faults w = [] → paths ≠ [] →
   stdout_pipe_error q = None → stderr_pipe_error q = None → start_error q (concat_argv paths) = None →
    if negb (rc =? 0) || wait_error q (concat_argv paths)
    then r = Returned (Some (NewMerge rc (tailStr err 1024))) ∧ (tee ≠ "" → files w' !! tee = None)
    else r = Returned None).
Proof.
  intros Hq Hown. destruct (qpdf_run q (concat_argv paths) (files w)) as [[out err] rc] eqn:Hrun.
  assert (∀ msg c, merge_post q dst tee out rc (Returned (Some (NewMerge c msg))) w w) as Hfail.
  { intros msg c. split; [done|]. exists "". split_and!; [by exists out| |done|done]. by rewrite string_app_empty_r. }
  unfold ConcatStreaming. destruct paths as [|p0 ps]; [by split_and!|]. set (paths := p0 :: ps) in *.
  cbv zeta. destruct (stdout_pipe_error q) as [e|]; [by split_and!|].
  destruct (stderr_pipe_error q) as [e|]; [by split_and!|].
  destruct (start_error q (concat_argv paths)) as [e|]; [by split_and!|].
  unfold mbind, io_bind, mret, io_ret, get_files. rewrite Hrun.
  pose proof (create_tee dst tee w Hown) as Hcr.
  destruct (open_tee tee w) as [opened w1]. destruct Hcr as (Hcop & Hnf & Htee).
  destruct opened.
  - pose proof (finish_concat_spec q (concat_argv paths) out err rc dst tee w1 Hq Hown (Htee eq_refl)) as Hf.
    destruct (finish_concat q (concat_argv paths) (out, err, rc) dst tee w1) as [r w'].
    destruct Hf as [Hpost Hnf2]. split_and!; [by eapply merge_post_from|done| |].
    + intros Hnil. specialize (Hnf2 (proj2 (Hnf Hnil))). destruct orb; [by destruct Hnf2 as [-> _]|by subst r].
    + intros Hnil _ _ _ _. apply Hnf2. by apply Hnf.
  - split_and!; [|done|done|intros Hnil; by destruct (Hnf Hnil)]. eapply merge_post_from; [done|].
    split; [done|]. exists "". split_and!; [by exists out| |done|done]. by rewrite string_app_empty_r.
Qed.


Lemma steady_copy_out write bs : (∀ b, steady (write b)) → steady (copy_out write bs).
Proof. intros Hw. induction bs as [|b bs IH]; simpl; steady. Qed.

Lemma steady_tee_write dst tee b : steady (tee_write dst tee b).
Proof.
  intros w Hw. unfold tee_write, mbind, io_bind. pose proof (sink_write_spec dst b w) as Hs.
  destruct (sink_write dst b w) as [ok w1]. destruct Hs as (_ & _ & Hs). destruct (Hs Hw) as [_ Hnil].
  destruct (_ || _); [done|]. by apply steady_os_append.
Qed.

Lemma steady_concat_streaming q paths dst tee : steady (ConcatStreaming q paths dst tee).
Proof.
  unfold ConcatStreaming, finish_concat, open_tee, discard_tee. pose proof steady_copy_out.
  pose proof steady_tee_write. steady.
Qed.

(** When nothing fails a merge into a file succeeds with what the process prints
    for the files it finds, the output already emptied, and changes nothing else. *)
Lemma merge_to_file_ok q paths outPath w out err :
  qpdf_ok q → paths ≠ [] → faults w = [] →
  stdout_pipe_error q = None → stderr_pipe_error q = None →
  start_error q (concat_argv paths) = None → wait_error q (concat_argv paths) = false →
  qpdf_run q (concat_argv paths) (<[outPath := ""]> (files w)) = (out, err, 0) →
  ∃ w', ConcatToFile q paths outPath w = (Returned None, w') ∧ default "" (files w' !! outPath) = out ∧
    (∀ p, p ≠ outPath → files w' !! p = files w !! p) ∧ faults w' = [].
Proof.
  intros Hq Hne Hnil H1 H2 H3 Hwait Hrun. unfold ConcatToFile, mbind, io_bind, mret, io_ret.
  pose proof (os_create_spec outPath w) as Hc. destruct (os_create outPath w) as [ok w1].
  destruct Hc as (Hf1 & _ & Hnf1). destruct (Hnf1 Hnil) as [-> Hnil1].
  pose proof (concat_streaming_spec q paths (file_sink outPath) "" w1 Hq (λ F _, F eq_refl)) as H.
  pose proof (steady_concat_streaming q paths (file_sink outPath) "" w1 Hnil1) as Hst.
  rewrite Hf1, Hrun in H. destruct (ConcatStreaming q paths (file_sink outPath) "" w1) as [r w'].
  destruct H as ((Hf & d & _ & Hs & Hr) & _ & _ & Hok). specialize (Hok Hnil1 Hne H1 H2 H3). rewrite Hwait in Hok.
  simpl in Hok. subst r. destruct Hr as (_ & -> & _). exists w'. split_and!; [done| | |done].
  - simpl in Hs. by rewrite Hs, Hf1, lookup_insert_eq.
  - intros p Hp. rewrite Hf; [|done|by right]. rewrite Hf1. by rewrite lookup_insert_ne.
Qed.

(** A merge into a file that is not itself among the inputs, whose process
    reads its inputs only, leaves in that file exactly what qpdf prints for the
    inputs, and touches no other file. *)
Theorem merge_to_file q paths outPath w :
  qpdf_ok q → outPath ∉ paths →
  (∀ fs fs' : gmap string string, (∀ p, p ∈ paths → fs !! p = fs' !! p) →
     qpdf_run q (concat_argv paths) fs = qpdf_run q (concat_argv paths) fs') →
  let '(r, w') := ConcatToFile q paths outPath w in
  (∀ p, p ≠ outPath → files w' !! p = files w !! p) ∧
  match r with
  | Returned None => paths ≠ [] ∧ ∃ out err,
      qpdf_run q (concat_argv paths) (files w) = (out, err, 0) ∧ default "" (files w' !! outPath) = out
  | Returned (Some e) => EFailureClass e = MergeFailed ∧ HTTPStatus e = 500
  | Stuck => faults w ≠ []
  end.
Proof.
  intros Hq Hin Hread. unfold ConcatToFile, mbind, io_bind, mret, io_ret.
  pose proof (os_create_spec outPath w) as Hc. destruct (os_create outPath w) as [ok w1].
  destruct Hc as (Hf1 & _ & Hnf1). destruct ok; [|split; [by intros p _; rewrite Hf1|done]].
  pose proof (concat_streaming_spec q paths (file_sink outPath) "" w1 Hq (λ F _, F eq_refl)) as H.
  rewrite (Hread (files w1) (files w)) in H.
  2:{ intros p Hp. rewrite Hf1, lookup_insert_ne; [done|]. by intros ->. }
  destruct (qpdf_run q (concat_argv paths) (files w)) as [[out err] rc].
  destruct (ConcatStreaming q paths (file_sink outPath) "" w1) as [r w'].
  destruct H as ((Hf & d & Hd & Hs & Hr) & Hne & Hst & _). split.
  - intros p Hp. by rewrite Hf, Hf1, lookup_insert_ne by (try right; done).
  - destruct r as [[e|]|]; [done| |].
    + destruct Hr as (-> & -> & _). split; [by apply Hne|]. exists out, err. split; [done|].
      simpl in Hs. by rewrite Hs, Hf1, lookup_insert_eq.
    + intros Hnil. by apply Hst; [apply Hnf1|].
Qed.

(** ** A concrete [qpdf] *)

(** Pages are characters: the inputs are concatenated, and an input that is
    missing or empty is refused with exit code 2. *)
Definition sample_inputs (argv : list string) : list string := take (length argv - 4) (drop 2 argv).
Definition sample_run (argv : list string) (fs : gmap string string) : string * string * Z :=
  let contents := (λ p, default "" (fs !! p)) <$> sample_inputs argv in
  if existsb (String.eqb "") contents then ("", "not a PDF file", 2)
  else (foldr String.append "" contents, "", 0).
Definition sample_qpdf : Qpdf :=
  mkQpdf None None (λ _, None) sample_run (λ _, false) (λ _, "permission denied") (λ s, [s]) 65536.

Lemma sample_qpdf_ok : qpdf_ok sample_qpdf.
Proof. split; [|done]. intros s. simpl. apply string_app_empty_r. Qed.

Definition sample_world : World :=
  mkWorld (<["/s/a.pdf" := "12"]> {[ "/s/b.pdf" := "345" ]}) ∅ [] [] None "".


Example merge_to_file_witness :
  let paths := ["/s/a.pdf"; "/s/b.pdf"] in
  qpdf_ok sample_qpdf ∧ "/s/m.pdf" ∉ paths ∧
  ∀ p, p ≠ "/s/m.pdf" → files (ConcatToFile sample_qpdf paths "/s/m.pdf" sample_world).2 !! p = files sample_world !! p.
Proof.
  intros paths. assert ("/s/m.pdf" ∉ paths) as Hin.
  { apply (bool_decide_unpack (_ ∉ _)). by vm_compute. }
  split_and!; [exact sample_qpdf_ok|exact Hin|].
  pose proof (merge_to_file sample_qpdf paths "/s/m.pdf" sample_world sample_qpdf_ok Hin) as H.
  destruct (ConcatToFile sample_qpdf paths "/s/m.pdf" sample_world) as [r w'].
  apply H. intros fs fs' Heq. unfold sample_qpdf, qpdf_run, sample_run.
  change (sample_inputs (concat_argv paths)) with paths. simpl.
  rewrite (Heq "/s/a.pdf"), (Heq "/s/b.pdf"); [reflexivity| |]; apply (bool_decide_unpack (_ ∈ paths)); by vm_compute.
Defined.
