(* ===== verification/Json.v ===== *)
(** * JSON, as the worker protocol uses it

    [json.Unmarshal] into a [map[string]any] and [json.Marshal] of a command
    map, on bytes.  Numbers decode to the nearest float; ill-formed UTF-8
    becomes the replacement character in both directions.  Decoding uses fuel,
    twice the length of the text; [parse_value_fuel] shows that more changes
    nothing. *)
From Stdlib Require Import ZArith Lia Bool SpecFloat Ascii String.
From stdpp Require Import base tactics list gmap strings.
From S2P Require Import Prelude GoFloat GoString GoFmt Types.
From stdpp Require Import list.
Local Open Scope Z_scope.

(** ** Numbers *)

(** The float nearest to [m * 10^e], and whether it is out of range. *)
Definition decimal (neg : bool) (m e : Z) : f64 * bool :=
  if m =? 0 then (S754_zero neg, false)
  else
    let digits := Z.of_nat (length (nat_digits m)) in
    if 310 <? digits + e then (S754_infinity neg, true)
    else if digits + e <? -330 then (S754_zero neg, false)
    else
      let x :=
        if 0 <=? e then binary_normalize 53 1024 (cond_Zopp neg (m * 10 ^ e)) 0 neg
        else let '(q, e', l) := SFdiv_core_binary 53 1024 m 0 (10 ^ (- e)) 0 in
             binary_round_aux 53 1024 neg q e' l in
      (x, match x with S754_infinity _ => true | _ => false end).

Fixpoint span_digits (l : list Z) : list Z * list Z :=
  match l with
  | b :: l' => if is_digit b then let '(ds, r) := span_digits l' in (b :: ds, r) else ([], l)
  | [] => ([], [])
  end.

Definition digits_z (ds : list Z) : Z := foldl (λ acc d, acc * 10 + (d - 48)) 0 ds.

(** The optional fraction and exponent: 46 is the point, 69 and 101 are the
    exponent letters, 43 and 45 the signs.  [None] is a syntax error. *)
Definition parse_fraction (l : list Z) : option (list Z * list Z) :=
  match l with
  | b :: l' =>
      if b =? 46 then let '(ds, r) := span_digits l' in match ds with [] => None | _ => Some (ds, r) end
      else Some ([], l)
  | [] => Some ([], l)
  end.

Definition exponent_sign (l : list Z) : Z * list Z :=
  match l with
  | b :: l' => if b =? 43 then (1, l') else if b =? 45 then (-1, l') else (1, l)
  | [] => (1, l)
  end.
Definition parse_exponent (l : list Z) : option (Z * list Z) :=
  match l with
  | b :: l' =>
      if (b =? 69) || (b =? 101) then
        let '(sign, l) := exponent_sign l' in
        let '(ds, r) := span_digits l in
        match ds with [] => None | _ => Some (sign * digits_z ds, r) end
      else Some (0, l)
  | [] => Some (0, l)
  end.

(** The sign and the integer digits; a leading zero stands alone. *)
Definition parse_minus (l : list Z) : bool * list Z :=
  match l with b :: l' => if b =? 45 then (true, l') else (false, l) | [] => (false, l) end.
Definition parse_integer (l : list Z) : list Z * list Z :=
  match l with b :: l' => if b =? 48 then ([48], l') else span_digits l | [] => ([], l) end.

(** A number literal: its value, whether it is out of range, and the rest. *)
Definition parse_number (l : list Z) : option (f64 * bool * list Z) :=
  let '(neg, l) := parse_minus l in
  let '(ds, l) := parse_integer l in
  match ds with
  | [] => None
  | _ =>
      '(fs, l) ← parse_fraction l;
      '(e, l) ← parse_exponent l;
      Some (decimal neg (digits_z (ds ++ fs)) (e - Z.of_nat (length fs)), l)
  end.

(** ** Strings *)

Definition hex_value (b : Z) : option Z :=
  if is_digit b then Some (b - 48)
  else if in_range 97 b 102 then Some (b - 87)
  else if in_range 65 b 70 then Some (b - 55) else None.

(** The four digits after a backslash and a [u]. *)
Definition hex4 (l : list Z) : option (Z * list Z) :=
  match l with
  | a :: b :: c :: d :: l =>
      a ← hex_value a; b ← hex_value b; c ← hex_value c; d ← hex_value d;
      Some (((a * 16 + b) * 16 + c) * 16 + d, l)
  | _ => None
  end.

(** A code unit that may start a surrogate pair; 92 and 117 are a backslash and
    a [u]. *)
Definition unit_rune (u : Z) (l : list Z) : Z * list Z :=
  if in_range 55296 u 57343 then
    match l with
    | a :: b :: l' =>
        match (if (a =? 92) && (b =? 117) then hex4 l' else None) with
        | Some (v, l'') =>
            if in_range 55296 u 56319 && in_range 56320 v 57343
            then ((u - 55296) * 1024 + (v - 56320) + 65536, l'') else (rune_error, l)
        | None => (rune_error, l)
        end
    | _ => (rune_error, l)
    end
  else (u, l).

Definition escape_byte (c : Z) : option Z :=
  match c with
  | 34 => Some 34 | 92 => Some 92 | 47 => Some 47
  | 98 => Some 8 | 102 => Some 12 | 110 => Some 10 | 114 => Some 13 | 116 => Some 9
  | _ => None
  end.

(** One character of a string: the bytes it decodes to, and the rest. *)
Definition parse_char (l : list Z) : option (list Z * list Z) :=
  match l with
  | [] => None
  | b :: l' =>
      if b =? 92 then
        match l' with
        | [] => None
        | c :: l'' =>
            if c =? 117 then '(u, r) ← hex4 l''; let '(c, r) := unit_rune u r in Some (encode_rune c, r)
            else b ← escape_byte c; Some ([b], l'')
        end
      else if b <? 32 then None
      else let '(c, w) := decode_rune l in Some (encode_rune c, drop w l)
  end.

(** The string after its opening quote. *)
Fixpoint parse_string (fuel : nat) (l : list Z) : option (list Z * list Z) :=
  match fuel with
  | O => None
  | S fuel =>
      if decide (head l = Some 34) then Some ([], tail l)
      else
        '(c, l) ← parse_char l;
        '(s, l) ← parse_string fuel l;
        Some (c ++ s, l)
  end.

(** ** Values *)

Definition max_nesting : Z := 10000.

Fixpoint skip_space (l : list Z) : list Z :=
  match l with
  | b :: l' => if (b =? 32) || (b =? 9) || (b =? 10) || (b =? 13) then skip_space l' else l
  | [] => []
  end.

Definition parse_literal (lit : string) (v : any) (l : list Z) : option (any * bool * list Z) :=
  if decide (take (String.length lit) l = bytes lit) then Some (v, false, drop (String.length lit) l) else None.

(** A member's name and colon. *)
Definition parse_key (l : list Z) : option (string * list Z) :=
  match skip_space l with
  | b :: l =>
      if b =? 34 then
        '(k, l) ← parse_string (S (length l)) l;
        match skip_space l with
        | c :: l => if c =? 58 then Some (of_bytes k, l) else None
        | [] => None
        end
      else None
  | [] => None
  end.

(** A number as [json.Unmarshal] stores it into an [any]. *)
Definition float_number (l : list Z) : option (any * bool * list Z) :=
  '(x, bad, l) ← parse_number l; Some (if bad : bool then ANil else AFloat x, bad, l).

(** A number read for a field of type [int]: an integer literal of 64 bits is
    [AInt], anything else stays a float and so does not fit the field. *)
Definition int_number (l : list Z) : option (any * bool * list Z) :=
  '(x, _, r) ← parse_number l;
  Some (match parse_int (of_bytes (take (length l - length r) l)) with Some z => AInt z | None => AFloat x end, false, r).

Section values.
Context (number : list Z → option (any * bool * list Z)).

(** A scalar that starts with [b]: a string, a literal or a number. *)
Definition parse_scalar (b : Z) (l : list Z) : option (any * bool * list Z) :=
  if b =? 34 then '(s, l) ← parse_string (S (length l)) l; Some (AStr (of_bytes s), false, l)
  else if b =? 116 then parse_literal "rue" (ABool true) l
  else if b =? 102 then parse_literal "alse" (ABool false) l
  else if b =? 110 then parse_literal "ull" ANil l
  else number (b :: l).

(** A value: what it decodes to, whether a number in it was out of range (such a
    number decodes to nil), and the rest.  91, 93 and 44 are brackets and comma,
    123, 125 and 58 braces and colon. *)
Fixpoint parse_value (fuel : nat) (depth : Z) (l : list Z) : option (any * bool * list Z) :=
  match fuel, skip_space l with
  | S fuel, b :: l =>
      if (b =? 123) || (b =? 91) then
        if max_nesting <? depth + 1 then None
        else if b =? 123 then
          if decide (head (skip_space l) = Some 125) then Some (AObj [], false, tail (skip_space l))
          else '(ms, bad, l) ← parse_members fuel (depth + 1) l; Some (AObj ms, bad, l)
        else
          if decide (head (skip_space l) = Some 93) then Some (AList [], false, tail (skip_space l))
          else '(vs, bad, l) ← parse_elements fuel (depth + 1) l; Some (AList vs, bad, l)
      else parse_scalar b l
  | _, _ => None
  end
with parse_elements (fuel : nat) (depth : Z) (l : list Z) : option (list any * bool * list Z) :=
  match fuel with
  | O => None
  | S fuel =>
      '(v, bad, l) ← parse_value fuel depth l;
      match skip_space l with
      | b :: l =>
          if b =? 44 then '(vs, bad', l) ← parse_elements fuel depth l; Some (v :: vs, bad || bad', l)
          else if b =? 93 then Some ([v], bad, l) else None
      | [] => None
      end
  end
with parse_members (fuel : nat) (depth : Z) (l : list Z) : option (list (string * any) * bool * list Z) :=
  match fuel with
  | O => None
  | S fuel =>
      '(k, l) ← parse_key l;
      '(v, bad, l) ← parse_value fuel depth l;
      match skip_space l with
      | b :: l =>
          if b =? 44 then '(ms, bad', l) ← parse_members fuel depth l; Some ((k, v) :: ms, bad || bad', l)
          else if b =? 125 then Some ([(k, v)], bad, l) else None
      | [] => None
      end
  end.

End values.

(** [json.Unmarshal] into a nil map: the map ([None] is nil) and whether an
    error is returned.  The last of several members with one name wins. *)
Definition Unmarshal (text : string) : option (gmap string any) * bool :=
  let l := bytes text in
  match parse_value float_number (2 * length l + 2) 0 l with
  | Some (v, bad, rest) =>
      match skip_space rest, v with
      | [], AObj ms => (Some (foldl (λ m kv, <[kv.1 := kv.2]> m) ∅ ms), bad)
      | [], ANil => (None, bad)
      | _, _ => (None, true)
      end
  | None => (None, true)
  end.

(** ** Encoding *)

Inductive json_field : Type := JInt (z : Z) | JStr (s : string).

Definition hex_escape (r : Z) : list Z := 92 :: 117 :: hex_digits 4 r [].

(** One byte below 128, with the HTML escapes [json.Marshal] uses. *)
Definition json_ascii (b : Z) : list Z :=
  if (b =? 34) || (b =? 92) then [92; b]
  else if b =? 8 then [92; 98] else if b =? 12 then [92; 102] else if b =? 10 then [92; 110]
  else if b =? 13 then [92; 114] else if b =? 9 then [92; 116]
  else if (b <? 32) || (b =? 60) || (b =? 62) || (b =? 38) then hex_escape b
  else [b].

Fixpoint json_string_fuel (n : nat) (l : list Z) : list Z :=
  match n, l with
  | S n, b :: _ =>
      if b <? 128 then json_ascii b ++ json_string_fuel n (drop 1 l)
      else
        let '(r, w) := decode_rune l in
        (if (r =? rune_error) && (Nat.eqb w 1) then hex_escape rune_error
         else if (r =? 8232) || (r =? 8233) then hex_escape r
         else take w l) ++ json_string_fuel n (drop w l)
  | _, _ => []
  end.
Definition json_string (s : string) : list Z :=
  34 :: json_string_fuel (String.length s) (bytes s) ++ [34].

Definition json_field_bytes (f : json_field) : list Z :=
  match f with JInt z => bytes (itoa z) | JStr s => json_string s end.

(** [json.Marshal] of a map whose keys are listed in order. *)
Fixpoint json_members (fs : list (string * json_field)) : list Z :=
  match fs with
  | [] => []
  | [(k, v)] => json_string k ++ 58 :: json_field_bytes v
  | (k, v) :: fs => json_string k ++ 58 :: json_field_bytes v ++ 44 :: json_members fs
  end.
Definition Marshal (fs : list (string * json_field)) : list Z := 123 :: json_members fs ++ [125].

Example unmarshal_response :
  let text := of_bytes (Marshal [("seq", JInt 3); ("status", JStr "ok")]) in
  (Unmarshal text).1 = Some (<["status" := AStr "ok"]> {["seq" := AFloat (f64_of_Z 3)]}) ∧ (Unmarshal text).2 = false.
Proof. split; vm_compute; reflexivity. Qed.

(** ** Enough fuel *)

(** A parser that consumes at least one byte whatever it is given. *)
Lemma skip_space_length l : (length (skip_space l) <= length l)%nat.
Proof. induction l as [|b l IH]; simpl; [done|]. destruct (_ || _); simpl; lia. Qed.

Lemma span_digits_length l ds r : span_digits l = (ds, r) → (length r + length ds = length l)%nat.
Proof.
  revert ds r. induction l as [|b l IH]; intros ds r; simpl; [by intros [= <- <-]|].
  destruct (is_digit b); [|by intros [= <- <-]].
  destruct (span_digits l) as [ds' r']. intros [= <- <-]. simpl. specialize (IH _ _ eq_refl). lia.
Qed.

Lemma hex4_length l u r : hex4 l = Some (u, r) → (length r < length l)%nat.
Proof.
  unfold hex4. destruct l as [|a [|b [|c [|d l]]]]; try done.
  destruct (hex_value a), (hex_value b), (hex_value c), (hex_value d); try done.
  intros [= <- <-]. simpl. lia.
Qed.

Ltac parse_cases := repeat (case_match; simplify_eq/=); try lia.

Ltac use_length H lem := apply lem in H; simpl in *; lia.

Lemma parse_fraction_length l ds r : parse_fraction l = Some (ds, r) → (length r <= length l)%nat.
Proof.
  unfold parse_fraction. intros H. parse_cases.
  match goal with H : span_digits _ = _ |- _ => use_length H span_digits_length end.
Qed.

Lemma parse_exponent_length l e r : parse_exponent l = Some (e, r) → (length r <= length l)%nat.
Proof.
  unfold parse_exponent, exponent_sign. intros H.
  parse_cases; match goal with H : span_digits _ = _ |- _ => use_length H span_digits_length end.
Qed.

Lemma parse_number_length l x bad r : parse_number l = Some (x, bad, r) → (length r < length l)%nat.
Proof.
  unfold parse_number. intros H. destruct (parse_minus l) as [neg l1] eqn:H1.
  assert (length l1 <= length l)%nat by (unfold parse_minus in H1; parse_cases).
  destruct (parse_integer l1) as [ds l2] eqn:H2. destruct ds as [|d ds]; [done|].
  assert (length l2 < length l1)%nat.
  { unfold parse_integer in H2. parse_cases.
    match goal with H : span_digits _ = _ |- _ => use_length H span_digits_length end. }
  destruct (parse_fraction l2) as [[fs l3]|] eqn:Hf; [|done]. apply parse_fraction_length in Hf.
  simpl in H. destruct (parse_exponent l3) as [[e l4]|] eqn:He; [|done]. apply parse_exponent_length in He.
  simpl in H. simplify_eq. lia.
Qed.

Lemma unit_rune_length u l r l' : unit_rune u l = (r, l') → (length l' <= length l)%nat.
Proof.
  unfold unit_rune. intros H. parse_cases.
  match goal with H : hex4 _ = Some _ |- _ => use_length H hex4_length end.
Qed.

Lemma decode_rune_width b l : (1 <= (decode_rune (b :: l)).2)%nat.
Proof. simpl. repeat case_match; simpl; lia. Qed.

Lemma parse_char_length l c r : parse_char l = Some (c, r) → (length r < length l)%nat.
Proof.
  unfold parse_char. destruct l as [|b l]; [done|]. destruct (b =? 92).
  - destruct l as [|c' l]; [done|]. destruct (c' =? 117).
    + destruct (hex4 l) as [[u r1]|] eqn:Hh; [|done]. apply hex4_length in Hh. simpl.
      destruct (unit_rune u r1) as [c1 r2] eqn:Hu. apply unit_rune_length in Hu. intros; simplify_eq. lia.
    + destruct (escape_byte c'); [|done]. simpl. intros; simplify_eq. lia.
  - destruct (b <? 32); [done|]. pose proof (decode_rune_width b l) as Hw.
    destruct (decode_rune (b :: l)) as [r1 w]. intros; simplify_eq. rewrite length_drop. simpl in *. lia.
Qed.

Lemma parse_string_length fuel l s r : parse_string fuel l = Some (s, r) → (length r < length l)%nat.
Proof.
  revert l s r. induction fuel as [|fuel IH]; intros l s r; [done|]. simpl. case_decide.
  - destruct l; intros; simplify_eq/=; lia.
  - destruct (parse_char l) as [[c l1]|] eqn:Hc; [|done]. apply parse_char_length in Hc. simpl.
    destruct (parse_string fuel l1) as [[s1 l2]|] eqn:Hs; [|done]. simpl. apply IH in Hs. intros; simplify_eq. lia.
Qed.

Lemma parse_key_length l k r : parse_key l = Some (k, r) → (length r < length l)%nat.
Proof.
  unfold parse_key. pose proof (skip_space_length l). destruct (skip_space l) as [|b l1]; [done|].
  destruct (b =? 34); [|done]. destruct (parse_string _ l1) as [[k1 l2]|] eqn:Hs; [|done].
  apply parse_string_length in Hs. simpl. pose proof (skip_space_length l2).
  destruct (skip_space l2) as [|c l3]; [done|]. destruct (c =? 58); [|done]. intros; simplify_eq/=. lia.
Qed.

Lemma parse_literal_length lit v l x r : parse_literal lit v l = Some (x, r) → (length r <= length l)%nat.
Proof. unfold parse_literal. case_decide; [|done]. intros; simplify_eq. rewrite length_drop. lia. Qed.

Lemma float_number_length l x r : float_number l = Some (x, r) → (length r < length l)%nat.
Proof.
  unfold float_number. destruct (parse_number l) as [[[y bad] l1]|] eqn:Hn; [|done]. apply parse_number_length in Hn.
  simpl. by intros [= _ <-].
Qed.

Lemma int_number_length l x r : int_number l = Some (x, r) → (length r < length l)%nat.
Proof.
  unfold int_number. destruct (parse_number l) as [[[y bad] l1]|] eqn:Hn; [|done]. apply parse_number_length in Hn.
  simpl. by intros [= _ <-].
Qed.

Section values_length.
Context (number : list Z → option (any * bool * list Z)).
Context (number_length : ∀ l x r, number l = Some (x, r) → (length r < length l)%nat).

Local Abbreviation parse_scalar := (parse_scalar number).
Local Abbreviation parse_value := (parse_value number).
Local Abbreviation parse_elements := (parse_elements number).
Local Abbreviation parse_members := (parse_members number).

Lemma parse_scalar_length b l x r : parse_scalar b l = Some (x, r) → (length r < S (length l))%nat.
Proof.
  unfold parse_scalar. intros H. repeat case_match.
  2-4: use_length H parse_literal_length.
  - destruct (parse_string _ l) as [[s l1]|] eqn:Hs; [|done]. apply parse_string_length in Hs.
    simpl in H. simplify_eq. lia.
  - apply number_length in H. simpl in H. lia.
Qed.

(** On inputs shorter than [n] a parser consumes something, and does the same
    with any fuel from twice the length plus [k]. *)
Definition settled {A} (p : nat → list Z → option (A * bool * list Z)) (k n : nat) : Prop :=
  ∀ l, (length l < n)%nat →
    (∀ f x r, p f l = Some (x, r) → (length r < length l)%nat) ∧
    (∀ f g, (2 * length l + k <= f)%nat → (2 * length l + k <= g)%nat → p f l = p g l).

Definition value_at (depth : Z) := λ f, parse_value f depth.
Definition elements_at (depth : Z) := λ f, parse_elements f depth.
Definition members_at (depth : Z) := λ f, parse_members f depth.

Lemma value_settled n depth :
  settled (elements_at (depth + 1)) 2 n → settled (members_at (depth + 1)) 2 n →
  settled (value_at depth) 1 (S n).
Proof.
  intros He Hm l Hl. unfold value_at, elements_at, members_at in *. pose proof (skip_space_length l) as Hs. split.
  - intros [|f] x r; simpl; [done|]. destruct (skip_space l) as [|b l1]; [done|]. simpl in Hs.
    destruct ((b =? 123) || (b =? 91)).
    2:{ intros H. apply parse_scalar_length in H. lia. }
    case_match; [done|]. destruct (b =? 123); case_decide;
      try (pose proof (skip_space_length l1); destruct (skip_space l1); intros; simplify_eq/=; lia).
    + destruct (parse_members f (depth + 1) l1) as [[[ms bad] r1]|] eqn:Hp; [|done]. simpl.
      apply Hm in Hp; [|lia]. intros; simplify_eq. lia.
    + destruct (parse_elements f (depth + 1) l1) as [[[ms bad] r1]|] eqn:Hp; [|done]. simpl.
      apply He in Hp; [|lia]. intros; simplify_eq. lia.
  - intros [|f] [|g] Hf Hg; try lia. simpl. destruct (skip_space l) as [|b l1]; [done|]. simpl in Hs.
    destruct ((b =? 123) || (b =? 91)); [|done]. case_match; [done|]. destruct (b =? 123); case_decide; try done.
    + by rewrite (proj2 (Hm l1 ltac:(lia)) f g) by lia.
    + by rewrite (proj2 (He l1 ltac:(lia)) f g) by lia.
Qed.

Lemma elements_settled n depth :
  settled (value_at depth) 1 (S n) → settled (elements_at depth) 2 n → settled (elements_at depth) 2 (S n).
Proof.
  intros Hv He l Hl. unfold value_at, elements_at in *. split.
  - intros [|f] x r; simpl; [done|]. destruct (parse_value f depth l) as [[[v bad] r1]|] eqn:Hp; [|done]. simpl.
    apply Hv in Hp; [|lia]. pose proof (skip_space_length r1). destruct (skip_space r1) as [|b r2]; [done|].
    simpl in *. destruct (b =? 44); [|destruct (b =? 93); [|done]; intros; simplify_eq; lia].
    destruct (parse_elements f depth r2) as [[[vs bad'] r3]|] eqn:Hp2; [|done]. simpl.
    apply He in Hp2; [|lia]. intros; simplify_eq. lia.
  - intros [|f] [|g] Hf Hg; try lia. simpl. rewrite (proj2 (Hv l Hl) f g) by lia.
    destruct (parse_value g depth l) as [[[v bad] r1]|] eqn:Hp; [|done]. simpl.
    apply Hv in Hp; [|lia]. pose proof (skip_space_length r1). destruct (skip_space r1) as [|b r2]; [done|].
    simpl in *. destruct (b =? 44); [|done]. by rewrite (proj2 (He r2 ltac:(lia)) f g) by lia.
Qed.

Lemma members_settled n depth :
  settled (value_at depth) 1 (S n) → settled (members_at depth) 2 n → settled (members_at depth) 2 (S n).
Proof.
  intros Hv He l Hl. unfold value_at, members_at in *. split.
  - intros [|f] x r; simpl; [done|]. destruct (parse_key l) as [[k r0]|] eqn:Hk; [|done]. simpl.
    apply parse_key_length in Hk. destruct (parse_value f depth r0) as [[[v bad] r1]|] eqn:Hp; [|done]. simpl.
    apply Hv in Hp; [|lia]. pose proof (skip_space_length r1). destruct (skip_space r1) as [|b r2]; [done|].
    simpl in *. destruct (b =? 44); [|destruct (b =? 125); [|done]; intros; simplify_eq; lia].
    destruct (parse_members f depth r2) as [[[vs bad'] r3]|] eqn:Hp2; [|done]. simpl.
    apply He in Hp2; [|lia]. intros; simplify_eq. lia.
  - intros [|f] [|g] Hf Hg; try lia. simpl. destruct (parse_key l) as [[k r0]|] eqn:Hk; [|done]. simpl.
    apply parse_key_length in Hk. rewrite (proj2 (Hv r0 ltac:(lia)) f g) by lia.
    destruct (parse_value g depth r0) as [[[v bad] r1]|] eqn:Hp; [|done]. simpl.
    apply Hv in Hp; [|lia]. pose proof (skip_space_length r1). destruct (skip_space r1) as [|b r2]; [done|].
    simpl in *. destruct (b =? 44); [|done]. by rewrite (proj2 (He r2 ltac:(lia)) f g) by lia.
Qed.

Lemma parsers_settled n : ∀ depth,
  settled (value_at depth) 1 n ∧ settled (elements_at depth) 2 n ∧ settled (members_at depth) 2 n.
Proof.
  induction n as [|n IH]; intros depth; [split_and!; intros l Hl; lia|].
  assert (settled (value_at depth) 1 (S n)) as Hv by (apply value_settled; apply IH).
  split_and!; [done|apply elements_settled; [done|apply IH]|apply members_settled; [done|apply IH]].
Qed.

(** More fuel than twice the length of the text changes nothing. *)
Lemma parse_value_fuel f depth l :
  (2 * length l + 2 <= f)%nat → parse_value f depth l = parse_value (2 * length l + 2) depth l.
Proof.
  intros Hf. destruct (parsers_settled (S (length l)) depth) as [Hv _].
  apply (Hv l); lia.
Qed.

End values_length.

(** ** One command is one line *)

Lemma decode_rune_high b l : 128 <= b →
  let '(r, w) := decode_rune (b :: l) in (r = rune_error ∧ w = 1%nat) ∨ Forall (λ c, 128 <= c) (take w (b :: l)).
Proof.
  intros Hb. unfold decode_rune. destruct (Z.ltb_spec b 128); [lia|].
  assert (∀ lo c hi, in_range lo c hi = true → lo <= c) as Hin.
  { intros lo c hi. unfold in_range. intros [? _]%andb_true_iff. lia. }
  unfold cont. destruct (in_range 194 b 223).
  { destruct l as [|b1 l]; [by left|]. destruct (in_range 128 b1 191) eqn:H1; [|by left].
    right. apply Hin in H1. simpl. by repeat constructor. }
  destruct (in_range 224 b 239).
  { destruct l as [|b1 [|b2 l]]; [by left..|]. destruct (_ && _) eqn:H1; [|by left].
    right. apply andb_true_iff in H1 as [H1%Hin H2%Hin]. simpl. repeat constructor; try done. case_match; lia. }
  destruct (in_range 240 b 244); [|by left].
  destruct l as [|b1 [|b2 [|b3 l]]]; [by left..|]. destruct (_ && _) eqn:H1; [|by left].
  right. apply andb_true_iff in H1 as [[H1%Hin H2%Hin]%andb_true_iff H3%Hin]. simpl.
  repeat constructor; try done. case_match; lia.
Qed.

(** No control character comes out of the encoder. *)
Definition printable (l : list Z) : Prop := Forall (λ b, 32 <= b) l.

Lemma hex_digits_printable n v acc : printable acc → 0 <= v → printable (hex_digits n v acc).
Proof.
  revert v acc. induction n as [|n IH]; intros v acc Hacc Hv; [done|]. simpl. apply IH; [|by apply Z.div_pos].
  constructor; [|done]. unfold hex_digit. pose proof (Z.mod_pos_bound v 16). case_match; lia.
Qed.

Lemma hex_escape_printable r : 0 <= r → printable (hex_escape r).
Proof. intros Hr. repeat (constructor; [lia|]). by apply hex_digits_printable; [constructor|]. Qed.

Lemma json_ascii_printable b : 0 <= b → printable (json_ascii b).
Proof.
  intros Hb. unfold json_ascii.
  repeat match goal with |- context [if ?c then _ else _] => destruct c eqn:? end;
    try (by apply hex_escape_printable); unfold printable; repeat (apply Forall_cons; split); try apply Forall_nil; try lia.
Qed.

Lemma json_string_fuel_printable n l : Forall (λ b, 0 <= b) l → printable (json_string_fuel n l).
Proof.
  revert l. induction n as [|n IH]; intros [|b l] Hl; try by constructor.
  cbn [json_string_fuel]. inversion Hl as [|? ? Hb Hl']; subst. destruct (Z.ltb_spec b 128).
  - apply Forall_app. split; [by apply json_ascii_printable|by apply IH].
  - pose proof (decode_rune_high b l ltac:(lia)) as Hd. destruct (decode_rune (b :: l)) as [r w].
    apply Forall_app. split; [|apply IH; by apply Forall_drop].
    destruct ((r =? rune_error) && Nat.eqb w 1) eqn:He; [by apply hex_escape_printable|].
    destruct (_ || _) eqn:Hr; [apply hex_escape_printable; lia|].
    destruct Hd as [[-> ->]|Hd]; [done|]. eapply Forall_impl; [exact Hd|]. simpl. lia.
Qed.

Lemma bytes_nonneg s : Forall (λ b, 0 <= b) (bytes s).
Proof. induction s as [|c s IH]; simpl; constructor; [pose proof (byte_of_range c); lia|done]. Qed.

Lemma json_string_printable s : printable (json_string s).
Proof.
  constructor; [lia|]. apply Forall_app. split; [|by repeat constructor].
  apply json_string_fuel_printable, bytes_nonneg.
Qed.

Lemma itoa_printable z : printable (bytes (itoa z)).
Proof.
  unfold itoa. assert (∀ n, 0 <= n → Forall (λ b, 48 <= b <= 57) (nat_digits n)) as Hd by (intros; by apply nat_digits_spec).
  destruct (Z.ltb_spec z 0) as [Hz|Hz].
  - specialize (Hd (- z) ltac:(lia)). rewrite bytes_of_bytes; constructor; try lia;
      (eapply Forall_impl; [exact Hd|]); simpl; lia.
  - specialize (Hd z Hz). rewrite bytes_of_bytes; (eapply Forall_impl; [exact Hd|]); simpl; lia.
Qed.

Lemma json_members_printable fs : printable (json_members fs).
Proof.
  assert (∀ v, printable (json_field_bytes v)) as Hv.
  { intros [z|s]; [apply itoa_printable|apply json_string_printable]. }
  induction fs as [|[k v] fs IH]; [by constructor|]. destruct fs as [|kv fs].
  - apply Forall_app. split; [apply json_string_printable|]. constructor; [lia|apply Hv].
  - apply Forall_app. split; [apply json_string_printable|]. constructor; [lia|].
    apply Forall_app. split; [apply Hv|]. by constructor; [lia|].
Qed.

(** An encoded command has no newline, whatever the strings in it. *)
Lemma marshal_printable fs : printable (Marshal fs).
Proof.
  constructor; [lia|]. apply Forall_app. split; [apply json_members_printable|by repeat constructor].
Qed.

(** ** Reading back what is printed *)

Lemma span_digits_app ds c r :
  Forall (λ b, 48 <= b <= 57) ds → is_digit c = false → span_digits (ds ++ c :: r) = (ds, c :: r).
Proof.
  intros Hds Hc. induction Hds as [|d ds Hd _ IH]; [simpl; by rewrite Hc|].
  rewrite <- app_comm_cons. cbn [span_digits]. rewrite IH.
  assert (is_digit d = true) as ->; [|done]. unfold is_digit, in_range. lia.
Qed.

(** What may follow a number: a comma or a closing bracket or brace. *)
Definition delimiter (c : Z) : Prop := c = 44 ∨ c = 93 ∨ c = 125.

Lemma parse_digits_integer n c r :
  0 <= n → delimiter c → parse_integer (nat_digits n ++ c :: r) = (nat_digits n, c :: r).
Proof.
  intros Hn Hc. destruct (nat_digits_spec n Hn) as [_ Hf]. destruct (decide (n = 0)) as [->|Hne]; [done|].
  assert (is_digit c = false) as Hd by (destruct Hc as [-> | [-> | ->]]; done).
  pose proof (span_digits_app (nat_digits n) c r Hf Hd) as Hs.
  destruct (nat_digits_head n) as (b & l & Hb & Hb48); [lia|]. rewrite Hb in *.
  rewrite <- app_comm_cons in *. cbn [parse_integer]. by rewrite (proj2 (Z.eqb_neq b 48)).
Qed.

Lemma int_number_itoa z c r :
  in_i64 z → delimiter c → int_number (bytes (itoa z) ++ c :: r) = Some (AInt z, false, c :: r).
Proof.
  intros Hz Hc. unfold int_number.
  assert (∃ x bad, parse_number (bytes (itoa z) ++ c :: r) = Some (x, bad, c :: r)) as (x & bad & ->).
  { unfold parse_number. rewrite bytes_itoa.
    assert (parse_minus ((if z <? 0 then 45 :: nat_digits (- z) else nat_digits z) ++ c :: r) =
      (z <? 0, nat_digits (Z.abs z) ++ c :: r)) as ->.
    { destruct (Z.ltb_spec z 0); [by rewrite Z.abs_neq by lia|]. rewrite Z.abs_eq by lia.
      destruct (nat_digits_spec z) as [Hv Hf]; [lia|]. destruct (nat_digits z) as [|b l]; [done|].
      apply Forall_cons in Hf as [Hb _]. cbn [parse_minus app]. by rewrite (proj2 (Z.eqb_neq b 45)) by lia. }
    rewrite parse_digits_integer by (done || lia).
    destruct (nat_digits_spec (Z.abs z)) as [Hv _]; [lia|]. destruct (nat_digits (Z.abs z)) as [|d ds]; [done|].
    assert (parse_fraction (c :: r) = Some ([], c :: r)) as -> by (by destruct Hc as [-> | [-> | ->]]).
    cbn [mbind option_bind].
    assert (parse_exponent (c :: r) = Some (0, c :: r)) as -> by (by destruct Hc as [-> | [-> | ->]]).
    cbn [mbind option_bind]. destruct (decimal _ _ _) as [x bad]. by eexists _, _. }
  cbn [mbind option_bind]. rewrite length_app, Nat.add_sub, take_app_length, of_bytes_bytes. by rewrite parse_itoa.
Qed.

(** A string of printable ASCII without quotes and backslashes. *)
Definition plain_string (s : string) : Prop := Forall (λ b, 32 <= b < 127 ∧ b ≠ 34 ∧ b ≠ 92) (bytes s).

Lemma parse_string_plain s r fuel :
  plain_string s → (String.length s < fuel)%nat → parse_string fuel (bytes s ++ 34 :: r) = Some (bytes s, r).
Proof.
  intros Hs. rewrite <- bytes_length. revert fuel. induction Hs as [|b l (Hb & Hq & Hbs) _ IH]; intros [|fuel] Hf;
    simpl in Hf; try lia; [done|].
  rewrite <- app_comm_cons. cbn [parse_string head]. rewrite decide_False by congruence.
  assert (parse_char (b :: l ++ 34 :: r) = Some ([b], l ++ 34 :: r)) as ->.
  { unfold parse_char. rewrite (proj2 (Z.eqb_neq b 92)), (proj2 (Z.ltb_ge b 32)) by lia.
    rewrite decode_ascii by lia. by rewrite encode_rune_ascii by lia. }
  cbn [mbind option_bind]. by rewrite IH by lia.
Qed.
