(* ===== verification/GoNet.v ===== *)
(** * Go network addresses and URLs

    What the sources use of [net/url] and [net]: [url.Parse] as far as it
    decides the scheme, the host and whether there is an error (user, path, query
    and fragment are only checked), [URL.Hostname], [net.ParseIP] with the
    IPv4 and IPv6 syntaxes of [netip.ParseAddr], and the address classes.  The
    version is the one of go.mod, 1.26: brackets hold an IPv6 literal, and a
    host outside brackets holds at most one colon. *)
From stdpp Require Import base tactics list strings numbers option.
From Stdlib Require Import ZArith Lia Bool Ascii.
From S2P Require Import Prelude GoString Json.
Local Open Scope Z_scope.

(** ** IP addresses: [net.ParseIP] *)

(** The fields of a dotted quad, [parseIPv4Fields]: [val] and [digits] describe
    the octet being read, [acc] the octets before, the last first. *)
Fixpoint parse_v4_fields (l : list Z) (val : Z) (digits : nat) (acc : list Z) : option (list Z) :=
  match l with
  | [] => if (length acc <? 3)%nat then None else Some (rev (val :: acc))
  | c :: l =>
      if is_digit c then
        if (digits =? 1)%nat && (val =? 0) then None else
        let val := val * 10 + (c - 48) in
        if 255 <? val then None else parse_v4_fields l val (S digits) acc
      else if c =? 46 then
        if (digits =? 0)%nat || match l with [] => true | _ => false end then None else
        if (length acc =? 3)%nat then None else parse_v4_fields l 0 0 (val :: acc)
      else None
  end.
Definition parse_v4 (l : list Z) : option (list Z) := parse_v4_fields l 0 0 [].

(** One group of hexadecimal digits: its value and the rest; [off] digits were
    read before. *)
Fixpoint parse_hex_group (off : nat) (acc : Z) (l : list Z) : option (Z * nat * list Z) :=
  match l with
  | c :: l' =>
      match hex_value c with
      | Some d =>
          let acc := acc * 16 + d in
          if (3 <? off)%nat || (65535 <? acc) then None else parse_hex_group (S off) acc l'
      | None => Some (acc, off, l)
      end
  | [] => Some (acc, off, l)
  end.

(** The main loop of [parseIPv6]: [ip] are the bytes read, the last first, and
    [ellipsis] the place of the double colon.  Each round adds two bytes or
    ends, so eight rounds are enough. *)
Fixpoint parse_v6_groups (fuel : nat) (s : list Z) (ip : list Z) (ellipsis : option nat)
  : option (list Z * option nat * list Z) :=
  match fuel with
  | O => Some (ip, ellipsis, s)
  | S fuel =>
      '(acc, off, r) ← parse_hex_group 0 0 s;
      if (off =? 0)%nat then None else
      match r with
      | 46 :: _ =>
          if match ellipsis with None => negb (length ip =? 12)%nat | Some _ => false end then None else
          if (16 <? length ip + 4)%nat then None else
          v4 ← parse_v4 s; Some (rev v4 ++ ip, ellipsis, [])
      | [] => Some (acc mod 256 :: acc / 256 :: ip, ellipsis, [])
      | 58 :: [] => None
      | 58 :: r =>
          let ip := acc mod 256 :: acc / 256 :: ip in
          match r with
          | 58 :: r =>
              match ellipsis with
              | Some _ => None
              | None => match r with
                        | [] => Some (ip, Some (length ip), [])
                        | _ => parse_v6_groups fuel r ip (Some (length ip))
                        end
              end
          | _ => parse_v6_groups fuel r ip ellipsis
          end
      | _ => None
      end
  end.

(** The sixteen bytes of an IPv6 address without its zone. *)
Definition parse_v6 (s : list Z) : option (list Z) :=
  let '(s, ellipsis) := match s with 58 :: 58 :: s => (s, Some 0%nat) | _ => (s, None) end in
  if match ellipsis, s with Some _, [] => true | _, _ => false end then Some (replicate 16 0) else
  '(ip, ellipsis, s) ← parse_v6_groups 8 s [] ellipsis;
  match s with
  | _ :: _ => None
  | [] =>
      let ip := rev ip in
      if (length ip <? 16)%nat then
        match ellipsis with
        | None => None
        | Some e => Some (take e ip ++ replicate (16 - length ip) 0 ++ drop e ip)
        end
      else match ellipsis with Some _ => None | None => Some ip end
  end.

(** An address: [netip.ParseAddr] decides by the first dot, colon or percent
    sign.  The zone is what follows the percent sign of an IPv6 address. *)
Inductive addr := V4 (b : list Z) | V6 (b : list Z) (zone : list Z).

Fixpoint first_of (seps : list Z) (l : list Z) : option Z :=
  match l with
  | [] => None
  | c :: l => if existsb (Z.eqb c) seps then Some c else first_of seps l
  end.
Fixpoint cut_at (c : Z) (l : list Z) : list Z * option (list Z) :=
  match l with
  | [] => ([], None)
  | d :: l => if d =? c then ([], Some l) else let '(a, b) := cut_at c l in (d :: a, b)
  end.

Definition parse_addr (l : list Z) : option addr :=
  match first_of [46; 58; 37] l with
  | Some 46 => V4 <$> parse_v4 l
  | Some 58 =>
      match cut_at 37 l with
      | (s, None) => b ← parse_v6 s; Some (V6 b [])
      | (s, Some []) => None
      | (s, Some zone) => b ← parse_v6 s; Some (V6 b zone)
      end
  | _ => None
  end.

(** [net.ParseIP]: sixteen bytes; an IPv4 address is mapped under [::ffff:0:0]. *)
Definition mapped (v4 : list Z) : list Z := replicate 10 0 ++ [255; 255] ++ v4.
Definition ParseIP (s : string) : option (list Z) :=
  match parse_addr (bytes s) with
  | Some (V4 b) => Some (mapped b)
  | Some (V6 b []) => Some b
  | _ => None
  end.

(** [IP.To4] *)
Definition To4 (ip : list Z) : option (list Z) :=
  if decide (take 12 ip = mapped []) then Some (drop 12 ip) else None.

Definition byte_at (l : list Z) (i : nat) : Z := nth i l 0.
Definition IsLoopback (ip : list Z) : bool :=
  match To4 ip with
  | Some v => byte_at v 0 =? 127
  | None => bool_decide (ip = replicate 15 0 ++ [1])
  end.
Definition IsPrivate (ip : list Z) : bool :=
  match To4 ip with
  | Some v => (byte_at v 0 =? 10) ||
              ((byte_at v 0 =? 172) && (Z.land (byte_at v 1) 240 =? 16)) ||
              ((byte_at v 0 =? 192) && (byte_at v 1 =? 168))
  | None => Z.land (byte_at ip 0) 254 =? 252
  end.
Definition IsLinkLocalUnicast (ip : list Z) : bool :=
  match To4 ip with
  | Some v => (byte_at v 0 =? 169) && (byte_at v 1 =? 254)
  | None => (byte_at ip 0 =? 254) && (Z.land (byte_at ip 1) 192 =? 128)
  end.
Definition IsLinkLocalMulticast (ip : list Z) : bool :=
  match To4 ip with
  | Some v => (byte_at v 0 =? 224) && (byte_at v 1 =? 0) && (byte_at v 2 =? 0)
  | None => (byte_at ip 0 =? 255) && (Z.land (byte_at ip 1) 15 =? 2)
  end.
Definition IsUnspecified (ip : list Z) : bool :=
  bool_decide (ip = mapped [0; 0; 0; 0]) || bool_decide (ip = replicate 16 0).

(** ** URLs: [url.Parse] *)

Definition is_alpha (c : Z) : bool := in_range 97 c 122 || in_range 65 c 90.

(** The length of the scheme, when a colon ends one ([getScheme]). *)
Fixpoint scheme_end (i : nat) (l : list Z) : option nat :=
  match l with
  | [] => None
  | c :: l =>
      if is_alpha c then scheme_end (S i) l
      else if is_digit c || existsb (Z.eqb c) [43; 45; 46] then
        if (i =? 0)%nat then None else scheme_end (S i) l
      else if c =? 58 then Some i
      else None
  end.
(** The outer [None] is the error "missing protocol scheme". *)
Definition get_scheme (l : list Z) : option (list Z * list Z) :=
  match scheme_end 0 l with
  | Some O => None
  | Some i => Some (take i l, drop (S i) l)
  | None => Some ([], l)
  end.

Inductive encoding := encodeHost | encodeZone | encodeUserPassword | encodePath | encodeFragment.
#[global] Instance encoding_eq : EqDecision encoding.
Proof. solve_decision. Defined.

(** The characters a host may hold as they are ([shouldEscape] is false). *)
Definition host_char (c : Z) : bool :=
  is_alpha c || is_digit c ||
  existsb (Z.eqb c) [45; 95; 46; 126; 33; 36; 38; 39; 40; 41; 42; 43; 44; 59; 61; 58; 91; 93; 60; 62; 34].

(** [unescape]; [None] is an error.  In a host only bytes beyond ASCII may be
    escaped, in a zone also what a host could hold; 37 50 53 is ["%25"]. *)
Fixpoint unescape (mode : encoding) (l : list Z) : option (list Z) :=
  match l with
  | [] => Some []
  | c :: l =>
      if c =? 37 then
        match l with
        | a :: b :: l =>
            x ← hex_value a; y ← hex_value b;
            let v := x * 16 + y in
            if bool_decide (mode = encodeHost) && (x <? 8) && negb (v =? 37) then None else
            if bool_decide (mode = encodeZone) && negb (v =? 37) && negb (v =? 32) && negb (host_char v)
            then None else
            cons v <$> unescape mode l
        | _ => None
        end
      else if (bool_decide (mode = encodeHost) || bool_decide (mode = encodeZone)) &&
              (c <? 128) && negb (host_char c) then None
      else cons c <$> unescape mode l
  end.

(** [validOptionalPort] *)
Definition valid_optional_port (l : list Z) : bool :=
  match l with [] => true | c :: l => (c =? 58) && forallb is_digit l end.

Fixpoint last_index (c : Z) (l : list Z) : option nat :=
  match l with
  | [] => None
  | d :: l => match last_index c l with
              | Some i => Some (S i)
              | None => if d =? c then Some 0%nat else None
              end
  end.
(** The first place of the three bytes ["%25"]. *)
Fixpoint zone_index (l : list Z) : option nat :=
  match l with
  | [] => None
  | 37 :: 50 :: 53 :: _ => Some 0%nat
  | _ :: l => S <$> zone_index l
  end.

(** [parseHost] *)
Definition parse_host (host : list Z) : option (list Z) :=
  match last_index 91 host with
  | Some (S _) => None
  | Some O =>
      close ← last_index 93 host;
      let colon_port := drop (S close) host in
      if negb (valid_optional_port colon_port) then None else
      let name := drop 1 (take close host) in
      name ← match zone_index name with
             | Some z => a ← unescape encodeHost (take z name);
                         b ← unescape encodeZone (drop z name); Some (a ++ b)
             | None => unescape encodeHost name
             end;
      match parse_addr name with
      | Some (V6 _ _) => Some ([91] ++ name ++ [93] ++ colon_port)
      | _ => None
      end
  | None =>
      match last_index 58 host with
      | None => unescape encodeHost host
      | Some i =>
          if existsb (Z.eqb 58) (take i host) then None else
          if negb (valid_optional_port (drop i host)) then None else unescape encodeHost host
      end
  end.

(** [validUserinfo] *)
Definition valid_userinfo (l : list Z) : bool :=
  forallb (λ c, is_alpha c || is_digit c ||
                existsb (Z.eqb c) [45; 46; 95; 58; 126; 33; 36; 38; 39; 40; 41; 42; 43; 44; 59; 61; 37; 64]) l.

(** [parseAuthority], the host of it *)
Definition parse_authority (l : list Z) : option (list Z) :=
  match last_index 64 l with
  | None => parse_host l
  | Some i =>
      host ← parse_host (drop (S i) l);
      if negb (valid_userinfo (take i l)) then None else
      let '(user, password) := cut_at 58 (take i l) in
      _ ← unescape encodeUserPassword user;
      _ ← unescape encodeUserPassword (default [] password);
      Some host
  end.

(** What the sources read of a [url.URL]. *)
Record URL := { url_Scheme : string; url_Host : string }.

Definition contains_ctl (l : list Z) : bool := existsb (λ c, (c <? 32) || (c =? 127)) l.

(** [url.Parse]; 35 is [#], 63 [?] and 47 [/]. *)
Definition url_Parse (raw : string) : option URL :=
  let '(u, frag) := cut_at 35 (bytes raw) in
  if contains_ctl u then None else
  '(scheme, rest) ← get_scheme u;
  let scheme := ascii_lower <$> scheme in
  let mk host := Some {| url_Scheme := of_bytes scheme; url_Host := of_bytes host |} in
  let has_scheme := negb (match scheme with [] => true | _ => false end) in
  let '(rest, _) := cut_at 63 rest in
  let check_fragment := unescape encodeFragment (default [] frag) in
  let slash := match rest with 47 :: _ => true | _ => false end in
  if negb slash && has_scheme then _ ← check_fragment; mk [] else
  if negb slash && existsb (Z.eqb 58) (cut_at 47 rest).1 then None else
  let triple := match rest with 47 :: 47 :: 47 :: _ => true | _ => false end in
  match rest with
  | 47 :: 47 :: authority =>
      if has_scheme || negb triple then
        let '(authority, path) := cut_at 47 authority in
        host ← parse_authority authority;
        _ ← unescape encodePath (match path with Some p => 47 :: p | None => [] end);
        _ ← check_fragment; mk host
      else _ ← unescape encodePath rest; _ ← check_fragment; mk []
  | _ => _ ← unescape encodePath rest; _ ← check_fragment; mk []
  end.

(** [URL.Hostname]: the host without a port and without brackets. *)
Definition Hostname (u : URL) : string :=
  let host := bytes (url_Host u) in
  let host := match last_index 58 host with
              | Some i => if valid_optional_port (drop i host) then take i host else host
              | None => host
              end in
  match host with
  | 91 :: l => match last_index 93 l with
               | Some i => if (S i =? length l)%nat then of_bytes (take i l) else of_bytes host
               | None => of_bytes host
               end
  | _ => of_bytes host
  end.
