(* ===== verification/NetPolicy.v ===== *)
(** * The external-resource policy (internal/netpolicy/netpolicy.go)

    [Denied] decides which URLs an HTML document may fetch; [ChromiumDenyListRegex]
    is the same policy as a pattern for Gotenberg.  The pattern is the source's
    string, read by [GoRegexp]; [Denied] runs on the URL and address parsers of
    [GoNet].

    The theorems: on http and https URLs whose host is an ordinary name or a
    canonical dotted quad, both decide alike ([deny_list_agrees]); for dotted
    quads the decision is the range table of the comments ([quad_denied]).  The
    counter-examples at the end show where the two differ. *)
From stdpp Require Import base tactics list strings numbers option.
From Stdlib Require Import ZArith Lia Bool Ascii.
From S2P Require Import Prelude GoString GoRegexp GoNet.
Local Open Scope Z_scope.

(** ** The code *)

Definition ChromiumDenyListRegex : string :=
  "^https?://(?:[^@/]*@)?(?:" +:+
  "localhost|" +:+
  "[^/:.]+|" +:+
  "[^/:]*\.localhost|" +:+
  "127\.[0-9.]+|" +:+
  "0\.0\.0\.0|" +:+
  "10\.[0-9.]+|" +:+
  "192\.168\.[0-9.]+|" +:+
  "172\.(?:1[6-9]|2[0-9]|3[01])\.[0-9.]+|" +:+
  "169\.254\.[0-9.]+|" +:+
  "\[::1\]|" +:+
  "\[[fF][cdCD][0-9a-fA-F]{2}:[^\]]*\]|" +:+
  "\[[fF][eE][89abAB][0-9a-fA-F]:[^\]]*\]" +:+
  ")(?::[0-9]+)?(?:[/?#]|$)".

Section denied.
Context `{UnicodeTables}.

Definition Denied (rawURL : string) : bool * string :=
let lower := to_lower (trim_space rawURL) in
if has_prefix lower "data:" then (false, "") else
match url_Parse rawURL with
| None => (true, "unparseable URL")
| Some u =>
    if negb (bool_decide (url_Scheme u = "http") || bool_decide (url_Scheme u = "https"))
    then (true, "scheme " +:+ url_Scheme u) else
    let host := to_lower (Hostname u) in
    if bool_decide (host = "") then (true, "empty host") else
    if bool_decide (host = "localhost") || has_suffix host ".localhost"
    then (true, "loopback host") else
    match ParseIP host with
    | Some ip =>
        if IsLoopback ip || IsPrivate ip || IsLinkLocalUnicast ip ||
           IsLinkLocalMulticast ip || IsUnspecified ip
        then (true, "private address " +:+ host) else (false, "")
    | None =>
        if negb (contains host ".") then (true, "single-label host " +:+ host) else (false, "")
    end
end.
End denied.

(** What Gotenberg does with the pattern. *)
Definition deny_re : re := MustCompile ChromiumDenyListRegex.
Definition chromium_denies (url : string) : bool := MatchString deny_re url.

(** ** The URLs the theorems are about *)

(** Lower-case host names: letters, digits, hyphens and dots. *)
Definition numeric_byte (c : Z) : bool := is_digit c || (c =? 46).
Definition host_byte (c : Z) : bool := in_range 97 c 122 || (c =? 45) || numeric_byte c.

(** A name that is not made of digits and dots alone. *)
Definition plain_name (h : string) : bool :=
  forallb host_byte (bytes h) && negb (forallb numeric_byte (bytes h)).

Definition octet (a : Z) : Prop := 0 <= a < 256.
Definition quad (a b c d : Z) : string :=
  itoa a +:+ "." +:+ itoa b +:+ "." +:+ itoa c +:+ "." +:+ itoa d.

(** The table of the comments, with the multicast block [224.0.0.0/24] that
    [Denied] also knows. *)
Definition private_range (a b c d : Z) : bool :=
  (a =? 127) || (a =? 10) || ((a =? 172) && in_range 16 b 31) || ((a =? 192) && (b =? 168)) ||
  ((a =? 169) && (b =? 254)) || ((a =? 0) && (b =? 0) && (c =? 0) && (d =? 0)).
Definition local_multicast (a b c : Z) : bool := (a =? 224) && (b =? 0) && (c =? 0).

Definition valid_port (p : string) : bool :=
  valid_optional_port (bytes p) && negb (bool_decide (p = ":")).
Definition tail_byte (c : Z) : bool := in_range 33 c 126 && negb (c =? 37).
Definition valid_tail (t : string) : bool :=
  (bool_decide (t = "") || has_prefix t "/") && forallb tail_byte (bytes t).

Definition web_url (scheme host port tail : string) : string :=
  scheme +:+ "://" +:+ host +:+ port +:+ tail.

(** ** Reading such a URL *)

Lemma cut_at_app c a t :
  Forall (λ x, x ≠ c) a → cut_at c (a ++ t) = (a ++ (cut_at c t).1, (cut_at c t).2).
Proof.
  induction 1 as [|x a Hx _ IH]; cbn; [by destruct (cut_at c t)|].
  destruct (Z.eqb_spec x c); [done|]. by rewrite IH.
Qed.

Lemma cut_at_incl c t : Forall (λ x, x ∈ t) (cut_at c t).1 ∧
  Forall (λ x, x ∈ t) (default [] (cut_at c t).2).
Proof.
  induction t as [|x t [IH1 IH2]]; cbn; [auto|].
  destruct (Z.eqb_spec x c); cbn.
  - split; [done|]. apply list.Forall_forall. intros y Hy. by right.
  - destruct (cut_at c t) as [u o]; cbn in *. split.
    + constructor; [by left|]. eapply list.Forall_impl; [exact IH1|]. intros y Hy. by right.
    + eapply list.Forall_impl; [exact IH2|]. intros y Hy. by right.
Qed.

Lemma last_index_none c l : Forall (λ x, x ≠ c) l → last_index c l = None.
Proof. induction 1 as [|x l Hx _ IH]; cbn; [done|]. rewrite IH. by destruct (Z.eqb_spec x c). Qed.

Lemma last_index_app c a x t :
  x = c → Forall (λ x, x ≠ c) t → last_index c (a ++ x :: t) = Some (length a).
Proof.
  intros -> Ht. induction a as [|y a IH]; cbn.
  - rewrite last_index_none by done. by rewrite Z.eqb_refl.
  - by rewrite IH.
Qed.

Lemma unescape_id mode l :
  Forall (λ c, c ≠ 37 ∧ (mode = encodeHost ∨ mode = encodeZone → host_char c = true)) l →
  unescape mode l = Some l.
Proof.
  induction 1 as [|c l [Hc Hm] _ IH]; cbn; [done|].
  destruct (Z.eqb_spec c 37); [done|]. rewrite IH.
  destruct (bool_decide (mode = encodeHost) || bool_decide (mode = encodeZone)) eqn:Hb; [|done].
  rewrite Hm, andb_false_r; [done|]. apply orb_true_iff in Hb. rewrite !bool_decide_eq_true in Hb. done.
Qed.

Lemma range_split lo c hi : in_range lo c hi = true ↔ lo <= c <= hi.
Proof. unfold in_range. rewrite andb_true_iff, !Z.leb_le. done. Qed.

(** The bytes a host or a port may hold are none of the separators. *)
Lemma host_byte_range c : host_byte c = true → 45 <= c <= 46 ∨ 48 <= c <= 57 ∨ 97 <= c <= 122.
Proof.
  unfold host_byte, numeric_byte, is_digit. rewrite !orb_true_iff, !range_split, !Z.eqb_eq. lia.
Qed.

Lemma host_byte_char c : host_byte c = true ∨ is_digit c = true ∨ c = 58 → host_char c = true.
Proof.
  unfold host_byte, numeric_byte, host_char, is_alpha. cbn [existsb].
  rewrite !orb_true_iff, !Z.eqb_eq. destruct (is_digit c) eqn:?; intuition congruence.
Qed.

Section reading.
Context (h port tail : list Z).
Hypothesis Hh : Forall (λ c, host_byte c = true) h.
Hypothesis Hport : port = [] ∨ ∃ ds, port = 58 :: ds ∧ Forall (λ c, is_digit c = true) ds.
Hypothesis Htail : tail = [] ∨ ∃ t, tail = 47 :: t.
Hypothesis Htail_byte : Forall (λ c, tail_byte c = true) tail.

Lemma authority_byte :
  Forall (λ c, 45 <= c <= 46 ∨ 48 <= c <= 58 ∨ 97 <= c <= 122) (h ++ port).
Proof using Hh Hport.
  apply Forall_app. split.
  - eapply list.Forall_impl; [exact Hh|]. intros c Hc%host_byte_range. lia.
  - destruct Hport as [-> | (ds & -> & Hds)]; [done|]. constructor; [lia|].
    eapply list.Forall_impl; [exact Hds|]. intros c Hc. unfold is_digit in Hc. apply range_split in Hc. lia.
Qed.

Lemma authority_not c : c < 45 ∨ c = 47 ∨ 58 < c < 97 → Forall (λ x, x ≠ c) (h ++ port).
Proof using Hh Hport. intros Hc. eapply list.Forall_impl; [exact authority_byte|]. cbn. lia. Qed.

Lemma authority_unescape : unescape encodeHost (h ++ port) = Some (h ++ port).
Proof using Hh Hport.
  apply unescape_id. apply Forall_app. split.
  - eapply list.Forall_impl; [exact Hh|]. intros c Hc. split; [apply host_byte_range in Hc; lia|].
    intros _. apply host_byte_char. auto.
  - destruct Hport as [-> | (ds & -> & Hds)]; [done|].
    constructor; [split; [lia|intros _; apply host_byte_char; auto]|].
    eapply list.Forall_impl; [exact Hds|]. intros c Hc. split.
    + unfold is_digit in Hc. apply range_split in Hc. lia.
    + intros _. apply host_byte_char. auto.
Qed.

Lemma host_not c : c < 45 ∨ c = 47 ∨ 57 < c < 97 → Forall (λ x, x ≠ c) h.
Proof using Hh. intros Hc. eapply list.Forall_impl; [exact Hh|]. intros d Hd%host_byte_range. lia. Qed.

Lemma parse_host_plain : parse_host (h ++ port) = Some (h ++ port).
Proof using Hh Hport.
  unfold parse_host. rewrite last_index_none by (apply authority_not; lia).
  destruct Hport as [Hp | (ds & Hp & Hds)].
  - rewrite last_index_none; [apply authority_unescape|].
    rewrite Hp, app_nil_r. apply host_not. lia.
  - rewrite Hp, last_index_app; [|done|].
    2: { eapply list.Forall_impl; [exact Hds|]. intros c Hc. unfold is_digit in Hc. apply range_split in Hc. lia. }
    rewrite take_app_length, drop_app_length.
    assert (existsb (Z.eqb 58) h = false) as ->.
    { apply not_true_iff_false. intros (x & Hx & He%Z.eqb_eq)%existsb_exists.
      pose proof (host_not 58 ltac:(lia)) as Hn. rewrite list.Forall_forall in Hn.
      apply (Hn x); [by apply list_elem_of_In|done]. }
    assert (valid_optional_port (58 :: ds) = true) as ->.
    { cbn. apply forallb_forall. intros x Hx. rewrite list.Forall_forall in Hds.
      apply Hds, list_elem_of_In, Hx. }
    cbn [negb]. rewrite <- Hp. apply authority_unescape.
Qed.

Lemma parse_authority_plain : parse_authority (h ++ port) = Some (h ++ port).
Proof using Hh Hport.
  unfold parse_authority. rewrite last_index_none by (apply authority_not; lia).
  apply parse_host_plain.
Qed.
End reading.

(** What the hypotheses of the theorems say about the bytes. *)
Lemma valid_port_shape p : valid_port p = true →
  bytes p = [] ∨ ∃ d ds, bytes p = 58 :: d :: ds ∧ Forall (λ c, is_digit c = true) (d :: ds).
Proof.
  unfold valid_port. destruct p as [|x p]; [by left|]. right.
  apply andb_true_iff in H as [Hp Hne]. cbn in Hp. apply andb_true_iff in Hp as [Hx Hp].
  apply Z.eqb_eq in Hx. destruct p as [|y p].
  - assert (x = ":"%char) as -> by (by apply byte_of_inj). done.
  - cbn [bytes]. rewrite Hx. eexists _, _. split; [done|].
    apply list.Forall_forall. intros z Hz%list_elem_of_In. by apply (proj1 (forallb_forall _ _) Hp).
Qed.

Lemma forallb_Forall {A} (f : A → bool) l : forallb f l = true ↔ Forall (λ x, f x = true) l.
Proof.
  rewrite forallb_forall, list.Forall_forall. by setoid_rewrite list_elem_of_In.
Qed.

Lemma valid_tail_shape t : valid_tail t = true →
  (bytes t = [] ∨ ∃ u, bytes t = 47 :: u) ∧ Forall (λ c, tail_byte c = true) (bytes t).
Proof.
  unfold valid_tail. rewrite andb_true_iff, orb_true_iff, bool_decide_eq_true, has_prefix_spec, forallb_Forall.
  intros [[-> | (u & ->)] Hb]; split; try done; [by left|right; by eexists].
Qed.

Lemma tail_byte_range c : tail_byte c = true → 33 <= c <= 126 ∧ c ≠ 37.
Proof. unfold tail_byte. rewrite andb_true_iff, range_split, negb_true_iff, Z.eqb_neq. done. Qed.

Definition web_scheme (s : string) : Prop := s = "http" ∨ s = "https".

(** The rests of a cut tail still are tails. *)
Lemma tail_cut c t : c ≠ 47 →
  (t = [] ∨ ∃ u, t = 47 :: u) → Forall (λ x, tail_byte x = true) t →
  ((cut_at c t).1 = [] ∨ ∃ u, (cut_at c t).1 = 47 :: u) ∧
  Forall (λ x, tail_byte x = true) (cut_at c t).1 ∧
  Forall (λ x, tail_byte x = true) (default [] (cut_at c t).2).
Proof.
  intros Hc Ht Hb. destruct (cut_at_incl c t) as [H1 H2]. rewrite list.Forall_forall in Hb.
  split; [|split; eapply list.Forall_impl; eauto].
  destruct Ht as [-> | (u & ->)]; [by left|]. right. cbn [cut_at].
  destruct (Z.eqb_spec 47 c); [done|]. destruct (cut_at c u). by eexists.
Qed.

Lemma tail_unescape mode l : mode ≠ encodeHost → mode ≠ encodeZone →
  Forall (λ x, tail_byte x = true) l → unescape mode l = Some l.
Proof.
  intros ?? Hl. apply unescape_id. eapply list.Forall_impl; [exact Hl|].
  intros c Hc%tail_byte_range. split; [lia|]. intros []; done.
Qed.

Lemma bytes_of_bytes_small l : Forall (λ c, 0 <= c < 128) l → bytes (of_bytes l) = l.
Proof. intros Hl. apply bytes_of_bytes. eapply list.Forall_impl; [exact Hl|]. cbn. lia. Qed.

Section url.
Context (scheme host port tail : string).
Hypothesis Hscheme : web_scheme scheme.
Hypothesis Hhost : forallb host_byte (bytes host) = true.
Hypothesis Hport : valid_port port = true.
Hypothesis Htail : valid_tail tail = true.

Let h := bytes host.
Let p := bytes port.
Let t := bytes tail.

Lemma web_bytes : bytes (web_url scheme host port tail) = bytes scheme ++ 58 :: 47 :: 47 :: (h ++ p) ++ t.
Proof. unfold web_url. rewrite !bytes_app. by rewrite <- app_assoc. Qed.

Lemma port_shape : p = [] ∨ ∃ ds, p = 58 :: ds ∧ Forall (λ c, is_digit c = true) ds.
Proof using Hport.
  destruct (valid_port_shape port Hport) as [? | (d & ds & ? & ?)]; [by left|right; by eexists].
Qed.
Lemma host_bytes : Forall (λ c, host_byte c = true) h.
Proof using Hhost. by apply forallb_Forall. Qed.

Lemma scheme_bytes : Forall (λ c, 97 <= c <= 122) (bytes scheme).
Proof using Hscheme. destruct Hscheme as [-> | ->]; repeat constructor; by vm_compute. Qed.

(** All of the URL before the tail, and its bytes. *)
Lemma front_bytes :
  Forall (λ c, 45 <= c <= 58 ∨ 97 <= c <= 122) (bytes scheme ++ 58 :: 47 :: 47 :: h ++ p).
Proof using Hscheme Hhost Hport.
  apply Forall_app. split.
  { eapply list.Forall_impl; [apply scheme_bytes|]. cbn. lia. }
  do 3 (constructor; [lia|]).
  eapply list.Forall_impl; [apply (authority_byte h p host_bytes port_shape)|]. cbn. lia.
Qed.

Lemma url_Parse_web :
  url_Parse (web_url scheme host port tail) =
  Some {| url_Scheme := scheme; url_Host := host +:+ port |}.
Proof using Hscheme Hhost Hport Htail.
  destruct (valid_tail_shape tail Htail) as [Ht Htb]. fold t in Ht, Htb.
  unfold url_Parse. rewrite web_bytes.
  replace (bytes scheme ++ 58 :: 47 :: 47 :: (h ++ p) ++ t)
    with ((bytes scheme ++ 58 :: 47 :: 47 :: h ++ p) ++ t) by (by rewrite <- app_assoc).
  rewrite cut_at_app by (eapply list.Forall_impl; [apply front_bytes|]; cbn; lia).
  destruct (tail_cut 35 t) as (Ht1 & Hb1 & Hf1); [lia|done|done|].
  destruct (cut_at 35 t) as [t1 frag]. cbn [fst snd] in *.
  assert (contains_ctl ((bytes scheme ++ 58 :: 47 :: 47 :: h ++ p) ++ t1) = false) as ->.
  { apply not_true_iff_false. intros (x & Hx & Hc)%existsb_exists. revert Hc.
    rewrite orb_true_iff, Z.ltb_lt, Z.eqb_eq. apply list_elem_of_In, elem_of_app in Hx as [Hx|Hx].
    - pose proof front_bytes as Hf. rewrite list.Forall_forall in Hf. apply Hf in Hx. lia.
    - rewrite list.Forall_forall in Hb1. apply Hb1, tail_byte_range in Hx. lia. }
  assert (get_scheme ((bytes scheme ++ 58 :: 47 :: 47 :: h ++ p) ++ t1) =
          Some (bytes scheme, 47 :: 47 :: (h ++ p) ++ t1)) as ->.
  { destruct Hscheme as [-> | ->]; reflexivity. }
  cbn [mbind option_bind].
  assert (ascii_lower <$> bytes scheme = bytes scheme) as ->.
  { destruct Hscheme as [-> | ->]; reflexivity. }
  assert (negb match bytes scheme with [] => true | _ => false end = true) as ->.
  { destruct Hscheme as [-> | ->]; reflexivity. }
  change (47 :: 47 :: (h ++ p) ++ t1) with ([47; 47] ++ (h ++ p) ++ t1).
  rewrite (app_assoc [47; 47] (h ++ p) t1).
  rewrite cut_at_app.
  2: { do 2 (constructor; [lia|]). apply (authority_not h p host_bytes port_shape). lia. }
  destruct (tail_cut 63 t1) as (Ht2 & Hb2 & Hf2); [lia|done|done|].
  destruct (cut_at 63 t1) as [t2 query]. cbn [fst snd app andb negb orb] in *.
  rewrite <- (app_assoc h p t2), (app_assoc h p t2).
  rewrite cut_at_app by (apply (authority_not h p host_bytes port_shape); lia).
  rewrite (tail_unescape encodeFragment) by done.
  destruct Ht2 as [-> | (u & ->)]; cbn [cut_at fst snd].
  - rewrite app_nil_r, (parse_authority_plain h p host_bytes port_shape). cbn.
    f_equal. f_equal; [apply of_bytes_bytes|]. rewrite <- (of_bytes_bytes (host +:+ port)).
    by rewrite bytes_app.
  - cbn [Z.eqb Pos.eqb fst snd]. rewrite app_nil_r, (parse_authority_plain h p host_bytes port_shape).
    cbn [mbind option_bind]. rewrite (tail_unescape encodePath) by done. cbn.
    f_equal. f_equal; [apply of_bytes_bytes|]. rewrite <- (of_bytes_bytes (host +:+ port)).
    by rewrite bytes_app.
Qed.

Lemma Hostname_web : host ≠ "" →
  Hostname {| url_Scheme := scheme; url_Host := host +:+ port |} = host.
Proof using Hhost Hport.
  intros Hne. unfold Hostname. cbn [url_Host]. rewrite bytes_app. fold h p.
  assert (match last_index 58 (h ++ p) with
          | Some i => if valid_optional_port (drop i (h ++ p)) then take i (h ++ p) else h ++ p
          | None => h ++ p end = h) as ->.
  { destruct port_shape as [-> | (ds & -> & Hds)].
    - rewrite app_nil_r, last_index_none; [done|]. apply (host_not h host_bytes). lia.
    - rewrite last_index_app; [|done|].
      + rewrite take_app_length, drop_app_length. cbn [valid_optional_port].
        assert (forallb is_digit ds = true) as -> by (by apply forallb_Forall). done.
      + eapply list.Forall_impl; [exact Hds|]. intros c Hc. unfold is_digit in Hc. apply range_split in Hc. lia. }
  pose proof (host_not h host_bytes 91 ltac:(lia)) as Hb.
  pose proof (of_bytes_bytes host) as He. fold h in He.
  destruct h as [|x l]; [done|]. inversion_clear Hb.
  destruct x as [|x|x]; try exact He. do 7 (destruct x as [x|x|]; try exact He). done.
Qed.
End url.

(** ** [Denied] on such a URL *)

Lemma host_byte_lower c : host_byte c = true → ascii_lower c = c ∧ c <? 128 = true.
Proof.
  intros Hc%host_byte_range. unfold ascii_lower, in_range.
  destruct (Z.leb_spec 65 c), (Z.leb_spec c 90); cbn; rewrite Z.ltb_lt; lia.
Qed.

Lemma to_lower_host `{UnicodeTables} h : forallb host_byte (bytes h) = true → to_lower h = h.
Proof.
  intros Hh%forallb_Forall. unfold to_lower. rewrite bytes_to_lower_ascii.
  - rewrite <- (of_bytes_bytes h) at 2. f_equal.
    induction Hh as [|c l Hc _ IH]; cbn; [done|]. rewrite IH. f_equal. by apply host_byte_lower.
  - unfold all_ascii. apply forallb_Forall. eapply list.Forall_impl; [exact Hh|].
    intros c Hc. by apply host_byte_lower.
Qed.

(** Trimming keeps a text that starts and ends with printable ASCII. *)
Lemma printable_not_space c : 33 <= c <= 126 → is_space c = false.
Proof.
  intros Hc.
  assert (forallb (λ c, negb (is_space c)) (seqZ 33 94) = true) as Ha by (by vm_compute).
  rewrite forallb_Forall, list.Forall_forall in Ha.
  apply negb_true_iff, Ha, elem_of_seqZ. lia.
Qed.

Lemma trim_space_printable s : Forall (λ c, 33 <= c <= 126) (bytes s) → trim_space s = s.
Proof.
  intros Hs. unfold trim_space. rewrite <- (of_bytes_bytes s) at 2. f_equal.
  assert (trim_left (bytes s) = bytes s) as ->.
  { destruct Hs as [|c l Hc _]; [done|]. unfold trim_left. cbn [length trim_left_fuel].
    rewrite decode_ascii by lia. by rewrite printable_not_space. }
  unfold trim_right. destruct (bytes s) as [|c l] eqn:Hb using rev_ind; [done|].
  clear IHl. apply Forall_app in Hs as [_ Hc]. inversion_clear Hc.
  rewrite length_app, Nat.add_comm. cbn [length Nat.add trim_right_fuel].
  destruct (l ++ [c]) as [|d m] eqn:Hl; [by destruct l|]. rewrite <- Hl.
  assert (decode_last_rune (l ++ [c]) = (c, 1%nat)) as ->.
  { unfold decode_last_rune. rewrite rev_app_distr. cbn. by destruct (Z.ltb_spec c 128); [|lia]. }
  by rewrite printable_not_space.
Qed.

(** The part of [Denied] that looks at the host. *)
Definition host_denied (host : string) : bool :=
  bool_decide (host = "localhost") || has_suffix host ".localhost" ||
  match ParseIP host with
  | Some ip => IsLoopback ip || IsPrivate ip || IsLinkLocalUnicast ip ||
               IsLinkLocalMulticast ip || IsUnspecified ip
  | None => negb (contains host ".")
  end.

Section decision.
Context `{UnicodeTables}.

Lemma web_printable scheme host port tail :
  web_scheme scheme → forallb host_byte (bytes host) = true → valid_port port = true →
  valid_tail tail = true → Forall (λ c, 33 <= c <= 126) (bytes (web_url scheme host port tail)).
Proof.
  intros Hs Hh Hp Ht. rewrite web_bytes.
  replace (bytes scheme ++ 58 :: 47 :: 47 :: (bytes host ++ bytes port) ++ bytes tail)
    with ((bytes scheme ++ 58 :: 47 :: 47 :: bytes host ++ bytes port) ++ bytes tail)
    by (by rewrite <- app_assoc).
  apply Forall_app. split.
  - eapply list.Forall_impl; [by apply front_bytes|]. cbn. lia.
  - destruct (valid_tail_shape tail Ht) as [_ Hb].
    eapply list.Forall_impl; [exact Hb|]. intros c Hc%tail_byte_range. lia.
Qed.

Lemma Denied_web scheme host port tail :
  web_scheme scheme → forallb host_byte (bytes host) = true → host ≠ "" →
  valid_port port = true → valid_tail tail = true →
  fst (Denied (web_url scheme host port tail)) = host_denied host.
Proof.
  intros Hs Hh Hne Hp Ht. unfold Denied.
  rewrite trim_space_printable by (by apply web_printable).
  assert (has_prefix (to_lower (web_url scheme host port tail)) "data:" = false) as ->.
  { unfold to_lower. rewrite bytes_to_lower_ascii.
    - rewrite web_bytes. by destruct Hs as [-> | ->].
    - apply forallb_Forall. eapply list.Forall_impl; [by apply web_printable|]. cbn.
      intros c Hc. apply Z.ltb_lt. lia. }
  rewrite url_Parse_web by done. rewrite Hostname_web by done. cbn [url_Scheme].
  assert (negb (bool_decide (scheme = "http") || bool_decide (scheme = "https")) = false) as ->.
  { by destruct Hs as [-> | ->]. }
  rewrite to_lower_host by done. rewrite (bool_decide_eq_false_2 (host = "")) by done.
  unfold host_denied. destruct (_ || has_suffix host ".localhost"); [done|].
  destruct (ParseIP host); [by destruct (_ || _)|]. by destruct (contains host ".").
Qed.
End decision.

(** ** Dotted quads *)

Lemma forall_octet (P : Z → Prop) : Forall P (seqZ 0 256) → ∀ a, octet a → P a.
Proof. intros HP a Ha. rewrite list.Forall_forall in HP. apply HP, elem_of_seqZ. unfold octet in Ha. lia. Qed.

(** Reading the digits of an octet, and the dot after it. *)
Lemma parse_v4_octet l acc a : octet a →
  parse_v4_fields (nat_digits a ++ l) 0 0 acc = parse_v4_fields l a (length (nat_digits a)) acc.
Proof.
  revert a. apply forall_octet. vm_compute seqZ. repeat (apply Forall_cons; [reflexivity|]). apply Forall_nil.
Qed.

Lemma parse_v4_dot l v k acc : l ≠ [] → k ≠ 0%nat → (length acc < 3)%nat →
  parse_v4_fields (46 :: l) v k acc = parse_v4_fields l 0 0 (v :: acc).
Proof.
  intros Hl Hk Ha. cbn [parse_v4_fields]. change (is_digit 46) with false. change (46 =? 46) with true.
  cbn iota. destruct k; [done|]. destruct l; [done|]. cbn [Nat.eqb orb].
  by destruct (Nat.eqb_spec (length acc) 3); [lia|].
Qed.

Lemma nat_digits_nonempty a : octet a → nat_digits a ≠ [].
Proof.
  intros Ha He. destruct (nat_digits_spec a) as [Hv _]; [unfold octet in Ha; lia|]. by rewrite He in Hv.
Qed.

Lemma bytes_octet a : octet a → bytes (itoa a) = nat_digits a.
Proof. intros Ha. rewrite bytes_itoa. unfold octet in Ha. by destruct (Z.ltb_spec a 0); [lia|]. Qed.

Lemma bytes_quad a b c d : octet a → octet b → octet c → octet d →
  bytes (quad a b c d) = nat_digits a ++ 46 :: nat_digits b ++ 46 :: nat_digits c ++ 46 :: nat_digits d.
Proof. intros. unfold quad. rewrite !bytes_app, !bytes_octet by done. done. Qed.

(** Printing four octets and parsing the text gives them back. *)
Lemma parse_quad a b c d : octet a → octet b → octet c → octet d →
  parse_v4 (bytes (quad a b c d)) = Some [a; b; c; d].
Proof.
  intros Ha Hb Hc Hd. rewrite bytes_quad by done. unfold parse_v4.
  assert (∀ x, octet x → length (nat_digits x) ≠ 0%nat) as Hlen.
  { intros x Hx. pose proof (nat_digits_nonempty x Hx). by destruct (nat_digits x). }
  assert (∀ x l, octet x → nat_digits x ++ l ≠ []) as Hne.
  { intros x l Hx. pose proof (nat_digits_nonempty x Hx). by destruct (nat_digits x). }
  rewrite parse_v4_octet, parse_v4_dot by (auto; cbn; lia).
  rewrite parse_v4_octet, parse_v4_dot by (auto; cbn; lia).
  rewrite parse_v4_octet, parse_v4_dot by (auto using nat_digits_nonempty; cbn; lia).
  pose proof (parse_v4_octet [] [c; b; a] d Hd) as He. rewrite app_nil_r in He. by rewrite He.
Qed.

Lemma quad_numeric a b c d : octet a → octet b → octet c → octet d →
  Forall (λ x, numeric_byte x = true) (bytes (quad a b c d)).
Proof.
  intros Ha Hb Hc Hd. rewrite bytes_quad by done.
  assert (∀ x, octet x → Forall (λ x, numeric_byte x = true) (nat_digits x)) as Hn.
  { intros x Hx. destruct (nat_digits_spec x) as [_ Hf]; [unfold octet in Hx; lia|].
    eapply list.Forall_impl; [exact Hf|]. intros y Hy. unfold numeric_byte, is_digit.
    apply orb_true_iff. left. by apply range_split. }
  repeat (apply Forall_app; split; [by apply Hn|]; constructor; [done|]). by apply Hn.
Qed.

Lemma first_of_quad a b c d : octet a → octet b → octet c → octet d →
  first_of [46; 58; 37] (bytes (quad a b c d)) = Some 46.
Proof.
  intros Ha Hb Hc Hd. rewrite bytes_quad by done.
  destruct (nat_digits_spec a) as [_ Hf]; [unfold octet in Ha; lia|].
  induction Hf as [|x l Hx _ IH]; [done|]. cbn [app first_of existsb].
  destruct (Z.eqb_spec x 46), (Z.eqb_spec x 58), (Z.eqb_spec x 37); try lia. apply IH.
Qed.

Lemma ParseIP_quad a b c d : octet a → octet b → octet c → octet d →
  ParseIP (quad a b c d) = Some (mapped [a; b; c; d]).
Proof. intros. unfold ParseIP, parse_addr. by rewrite first_of_quad, parse_quad. Qed.

(** 172.16.0.0/12 is given by a mask in [IP.IsPrivate] and by a range elsewhere. *)
Lemma mask_range b : octet b → (Z.land b 240 =? 16) = in_range 16 b 31.
Proof. revert b. apply forall_octet. vm_compute. repeat constructor. Qed.

Lemma To4_mapped v : length v = 4%nat → To4 (mapped v) = Some v.
Proof. destruct v as [|? [|? [|? [|? [|]]]]]; done. Qed.

Lemma decide_mapped a b c d :
  bool_decide (mapped [a; b; c; d] = mapped [0; 0; 0; 0]) =
  (a =? 0) && (b =? 0) && (c =? 0) && (d =? 0).
Proof.
  apply eq_bool_prop_intro. rewrite !Is_true_true, bool_decide_eq_true, !andb_true_iff, !Z.eqb_eq.
  unfold mapped. split; [intros He; by simplify_eq/=|by intros [[[-> ->] ->] ->]].
Qed.

(** No dotted quad is a loopback name. *)
Lemma numeric_no_localhost s : Forall (λ x, numeric_byte x = true) (bytes s) →
  bool_decide (s = "localhost") || has_suffix s ".localhost" = false.
Proof.
  intros Hs. apply orb_false_iff. split.
  - apply bool_decide_eq_false. intros ->. by inversion Hs.
  - apply not_true_iff_false. intros (q & ->)%has_suffix_spec. rewrite bytes_app in Hs.
    apply Forall_app in Hs as [_ Hs]. inversion Hs as [|? ? ? Hs']. by inversion Hs'.
Qed.

Lemma host_denied_quad a b c d : octet a → octet b → octet c → octet d →
  host_denied (quad a b c d) = private_range a b c d || local_multicast a b c.
Proof.
  intros Ha Hb Hc Hd. unfold host_denied.
  rewrite numeric_no_localhost by (by apply quad_numeric). rewrite ParseIP_quad by done. cbn [orb].
  unfold IsLoopback, IsPrivate, IsLinkLocalUnicast, IsLinkLocalMulticast, IsUnspecified.
  rewrite To4_mapped, decide_mapped by done.
  rewrite (bool_decide_eq_false_2 (mapped _ = replicate 16 0)) by done.
  cbn [byte_at nth]. rewrite mask_range by done. unfold private_range, local_multicast.
  destruct (a =? 127), (a =? 10), ((a =? 172) && in_range 16 b 31), ((a =? 192) && (b =? 168)),
    ((a =? 169) && (b =? 254)), ((a =? 224) && (b =? 0) && (c =? 0)),
    ((a =? 0) && (b =? 0) && (c =? 0) && (d =? 0)); reflexivity.
Qed.

(** ** Names *)

Lemma parse_v4_nonnumeric l v k acc : forallb numeric_byte l = false → parse_v4_fields l v k acc = None.
Proof.
  revert v k acc. induction l as [|x l IH]; intros v k acc Hl; [done|]. cbn in Hl |- *.
  unfold numeric_byte in Hl at 1.
  destruct (is_digit x); cbn [orb andb] in Hl.
  - destruct (_ && _); [done|]. destruct (255 <? _); [done|]. by apply IH.
  - destruct (x =? 46); [|done]. destruct (_ || _); [done|]. destruct (length acc =? 3)%nat; [done|]. by apply IH.
Qed.

Lemma ParseIP_name h : plain_name h = true → ParseIP h = None.
Proof.
  unfold plain_name. rewrite andb_true_iff, negb_true_iff, forallb_Forall. intros [Hh Hn].
  unfold ParseIP, parse_addr, parse_v4. rewrite parse_v4_nonnumeric by done. clear Hn.
  assert (first_of [46; 58; 37] (bytes h) = Some 46 ∨ first_of [46; 58; 37] (bytes h) = None) as [-> | ->];
    [|done|done].
  induction Hh as [|x l Hx _ IH]; [by right|]. cbn [first_of existsb]. apply host_byte_range in Hx.
  destruct (Z.eqb_spec x 46) as [->|]; [by left|].
  destruct (Z.eqb_spec x 58), (Z.eqb_spec x 37); try lia. apply IH.
Qed.

Lemma host_denied_name h : plain_name h = true →
  host_denied h = bool_decide (h = "localhost") || has_suffix h ".localhost" || negb (contains h ".").
Proof. intros Hh. unfold host_denied. by rewrite ParseIP_name. Qed.

(** ** The pattern on such a URL *)

Definition name_patterns : string :=
  "localhost|[^/:.]+|[^/:]*\.localhost|127\.[0-9.]+|0\.0\.0\.0|10\.[0-9.]+|192\.168\.[0-9.]+|172\.(?:1[6-9]|2[0-9]|3[01])\.[0-9.]+|169\.254\.[0-9.]+".
Definition bracket_patterns : list string :=
  ["\[::1\]"; "\[[fF][cdCD][0-9a-fA-F]{2}:[^\]]*\]"; "\[[fF][eE][89abAB][0-9a-fA-F]:[^\]]*\]"].
Definition name_re : re := MustCompile name_patterns.
Definition bracket_re (i : nat) : re := MustCompile (nth i bracket_patterns "").
Definition host_re : re := Alt (Alt (Alt name_re (bracket_re 0)) (bracket_re 1)) (bracket_re 2).
Definition user_re : re := MustCompile "(?:[^@/]*@)?".
Definition tail_re : re := MustCompile "(?::[0-9]+)?(?:[/?#]|$)".

(** The parts of the compiled pattern. *)
Lemma deny_re_parts :
  deny_re = Cat Bol (Cat (Chr 104) (Cat (Chr 116) (Cat (Chr 116) (Cat (Chr 112) (Cat (Opt (Chr 115))
    (Cat (Chr 58) (Cat (Chr 47) (Cat (Chr 47) (Cat user_re (Cat host_re tail_re)))))))))).
Proof. vm_compute. reflexivity. Qed.

Lemma split_word (sep : Z → bool) a t p l :
  a ++ t = p ++ l → Forall (λ c, sep c = false) p →
  (t = [] ∨ ∃ c u, t = c :: u ∧ sep c = true) → ∃ q, a = p ++ q ∧ l = q ++ t.
Proof.
  intros He Hp Ht. apply app_eq_inv in He as [(q & -> & ->) | (q & -> & ->)]; [by exists q|].
  apply Forall_app in Hp as [_ Hq]. destruct q as [|c q].
  - exists []. rewrite !app_nil_r. done.
  - destruct Ht as [? | (d & u & ? & Hd)]; simplify_eq/=. inversion_clear Hq. congruence.
Qed.

Lemma scheme_matched n scheme rest Q : web_scheme scheme →
  mt n (Cat (Chr 104) (Cat (Chr 116) (Cat (Chr 116) (Cat (Chr 112) (Cat (Opt (Chr 115))
    (Cat (Chr 58) (Cat (Chr 47) (Cat (Chr 47) Q))))))))
    (bytes scheme ++ 58 :: 47 :: 47 :: rest) (λ _, True) ↔
  mt n Q rest (λ _, True).
Proof.
  unfold Opt. intros [-> | ->]; cbn [bytes app].
  all: change (byte_of "h") with 104; change (byte_of "t") with 116; change (byte_of "p") with 112;
    change (byte_of "s") with 115.
  all: repeat (rewrite ?mt_cat, ?mt_alt, ?mt_eps, ?mt_chr; cbv beta).
  all: repeat (setoid_rewrite mt_cat || setoid_rewrite mt_chr).
  all: naive_solver.
Qed.

(** The language of the host alternatives. *)
Definition num_after (s : string) (p : list Z) : Prop :=
  ∃ q, p = bytes s ++ q ∧ q ≠ [] ∧ Forall (λ c, numeric_byte c = true) q.
Definition name_lang (p : list Z) : Prop :=
  p = bytes "localhost" ∨ (p ≠ [] ∧ Forall (λ c, c ≠ 47 ∧ c ≠ 58 ∧ c ≠ 46) p) ∨
  (∃ q, p = q ++ bytes ".localhost" ∧ Forall (λ c, c ≠ 47 ∧ c ≠ 58) q) ∨
  num_after "127." p ∨ p = bytes "0.0.0.0" ∨ num_after "10." p ∨ num_after "192.168." p ∨
  (∃ b, 16 <= b <= 31 ∧ num_after ("172." +:+ itoa b +:+ ".") p) ∨ num_after "169.254." p.

Definition digdot_re : re := Plus (Cls false [(48, 57); (46, 46)]).
Definition second_re : re :=
  Alt (Alt (Cat (Chr 49) (Cls false [(54, 57)])) (Cat (Chr 50) (Cls false [(48, 57)])))
      (Cat (Chr 51) (Cls false [(48, 48); (49, 49)])).
Definition not_re (l : list Z) : re := Cls true ((λ c, (c, c)) <$> l).

Lemma name_re_parts : name_re =
  Alt (Alt (Alt (Alt (Alt (Alt (Alt (Alt
    (lits (bytes "localhos") (Chr 116))
    (Plus (not_re [47; 58; 46])))
    (Cat (Star (not_re [47; 58])) (lits (bytes ".localhos") (Chr 116))))
    (lits (bytes "127.") digdot_re))
    (lits (bytes "0.0.0.") (Chr 48)))
    (lits (bytes "10.") digdot_re))
    (lits (bytes "192.168.") digdot_re))
    (lits (bytes "172.") (Cat second_re (lits (bytes ".") digdot_re))))
    (lits (bytes "169.254.") digdot_re).
Proof. vm_compute. reflexivity. Qed.

Lemma lang_num s p : lang (lits (bytes s) digdot_re) p ↔ num_after s p.
Proof.
  rewrite lang_lits. unfold num_after, digdot_re. setoid_rewrite lang_plus_cls.
  assert (∀ c, in_class false [(48, 57); (46, 46)] c = numeric_byte c) as Hc.
  { intros c. unfold in_class, numeric_byte, is_digit, in_range. cbn. rewrite orb_false_r. f_equal.
    destruct (Z.leb_spec 46 c), (Z.leb_spec c 46), (Z.eqb_spec c 46); done || lia. }
  by setoid_rewrite Hc.
Qed.

Lemma lang_word s c p : lang (lits s (Chr c)) p ↔ p = s ++ [c].
Proof. rewrite lang_lits. setoid_rewrite lang_chr. naive_solver. Qed.

Lemma in_not_re l c : in_class true ((λ c, (c, c)) <$> l) c = true ↔ c ∉ l.
Proof.
  unfold in_class. rewrite xorb_true_l, negb_true_iff, <- not_true_iff_false.
  apply not_iff_compat. rewrite existsb_exists. split.
  - intros ([lo hi] & Hx%list_elem_of_In & Hr). apply list_elem_of_fmap in Hx as (d & Hd & Hin).
    apply range_split in Hr. simplify_eq. by replace c with d by lia.
  - intros Hc. exists (c, c). split.
    + apply list_elem_of_In, list_elem_of_fmap. by exists c.
    + apply range_split. lia.
Qed.

Lemma lang_second p : lang second_re p ↔ ∃ b, 16 <= b <= 31 ∧ p = nat_digits b.
Proof.
  unfold second_re. cbn [lang]. setoid_rewrite lang_chr. unfold in_class. cbn [existsb xorb].
  setoid_rewrite orb_false_r. setoid_rewrite range_split.
  split.
  - intros [[(? & ? & -> & -> & d & -> & Hd) | (? & ? & -> & -> & d & -> & Hd)] |
            (? & ? & -> & -> & d & -> & Hd)].
    + exists (10 + (d - 48)). split; [lia|].
      assert (d = 54 ∨ d = 55 ∨ d = 56 ∨ d = 57) as [-> | [-> | [-> | ->]]] by lia; done.
    + exists (20 + (d - 48)). split; [lia|].
      assert (d = 48 ∨ d = 49 ∨ d = 50 ∨ d = 51 ∨ d = 52 ∨ d = 53 ∨ d = 54 ∨ d = 55 ∨ d = 56 ∨ d = 57)
        as [-> | [-> | [-> | [-> | [-> | [-> | [-> | [-> | [-> | ->]]]]]]]]] by lia; done.
    + rewrite orb_true_iff, !range_split in Hd. exists (30 + (d - 48)). split; [lia|].
      assert (d = 48 ∨ d = 49) as [-> | ->] by lia; done.
  - intros (b & Hb & ->).
    assert (nat_digits b = [48 + b / 10; 48 + b mod 10]) as ->.
    { assert (Forall (λ b, nat_digits b = [48 + b / 10; 48 + b mod 10]) (seqZ 16 16)) as Ha
        by (vm_compute; repeat constructor).
      rewrite list.Forall_forall in Ha. apply Ha, elem_of_seqZ. lia. }
    pose proof (Z.mod_pos_bound b 10 ltac:(lia)). pose proof (Z.div_mod b 10 ltac:(lia)) as Hdm.
    assert (b / 10 = 1 ∨ b / 10 = 2 ∨ b / 10 = 3 ∧ b mod 10 < 2) as [E | [E | [E ?]]] by lia; rewrite E in *;
      [left; left|left; right|right]; eexists [_], [_]; repeat split; eexists; (split; [done|]); rewrite ?orb_true_iff, ?range_split; lia.
Qed.

Lemma lang_name p : lang name_re p ↔ name_lang p.
Proof.
  rewrite name_re_parts. cbn [lang]. unfold name_lang. rewrite !lang_word, !lang_num.
  unfold not_re. rewrite lang_plus_cls. setoid_rewrite lang_star_cls. setoid_rewrite lang_word.
  setoid_rewrite in_not_re.
  assert (lang (lits (bytes "172.") (Cat second_re (lits (bytes ".") digdot_re))) p ↔
          ∃ b, 16 <= b <= 31 ∧ num_after ("172." +:+ itoa b +:+ ".") p) as ->.
  { rewrite lang_lits. cbn [lang]. setoid_rewrite lang_second. setoid_rewrite lang_num.
    unfold num_after. setoid_rewrite bytes_app. setoid_rewrite bytes_app.
    assert (∀ b, 16 <= b <= 31 → bytes (itoa b) = nat_digits b) as Hb.
    { intros b Hb. apply bytes_octet. unfold octet. lia. }
    split.
    - intros (? & -> & ? & ? & -> & (b & Hr & ->) & q & -> & Hne & Hq).
      exists b. split; [done|]. exists q. rewrite Hb, <- !app_assoc by done. done.
    - intros (b & Hr & q & -> & Hne & Hq). rewrite Hb, <- !app_assoc by done. eauto 12. }
  assert ((∃ p1 p2, p = p1 ++ p2 ∧ Forall (λ c, c ∉ [47; 58]) p1 ∧ p2 = bytes ".localhos" ++ [116]) ↔
          ∃ q, p = q ++ bytes ".localhost" ∧ Forall (λ c, c ≠ 47 ∧ c ≠ 58) q) as ->.
  { split.
    - intros (q & ? & -> & Hq & ->). exists q. split; [done|].
      eapply list.Forall_impl; [exact Hq|]. intros c Hc. split; intros ->; apply Hc; set_solver.
    - intros (q & -> & Hq). exists q, (bytes ".localhost"). split_and!; [done| |done].
      eapply list.Forall_impl; [exact Hq|]. set_solver. }
  assert (Forall (λ c, c ∉ [47; 58; 46]) p ↔ Forall (λ c, c ≠ 47 ∧ c ≠ 58 ∧ c ≠ 46) p) as ->.
  { apply Forall_iff. intros c. set_solver. }
  change (bytes "localhos" ++ [116]) with (bytes "localhost").
  change (bytes "0.0.0." ++ [48]) with (bytes "0.0.0.0"). tauto.
Qed.

Lemma numeric_no_separator c : numeric_byte c = true → c ≠ 47 ∧ c ≠ 58.
Proof. unfold numeric_byte, is_digit. rewrite orb_true_iff, range_split, Z.eqb_eq. lia. Qed.

(** No name alternative reads past the host. *)
Lemma name_lang_bytes p : name_lang p → Forall (λ c, c ≠ 47 ∧ c ≠ 58) p.
Proof.
  assert (∀ s, forallb host_byte (bytes s) = true → num_after s p → Forall (λ c, c ≠ 47 ∧ c ≠ 58) p) as Hnum.
  { intros s Hs%forallb_Forall (q & -> & _ & Hq). apply Forall_app. split.
    - eapply list.Forall_impl; [exact Hs|]. intros c Hc%host_byte_range. lia.
    - eapply list.Forall_impl; [exact Hq|]. intros c. apply numeric_no_separator. }
  intros [-> | [[_ Hp] | [(q & -> & Hq) | [Hn | [-> | [Hn | [Hn | [(b & Hb & Hn) | Hn]]]]]]]].
  - by repeat constructor.
  - eapply list.Forall_impl; [exact Hp|]. cbn. tauto.
  - apply Forall_app. split; [done|]. by repeat constructor.
  - by apply Hnum in Hn.
  - by repeat constructor.
  - by apply Hnum in Hn.
  - by apply Hnum in Hn.
  - apply Hnum in Hn; [done|]. apply forallb_Forall.
    rewrite !bytes_app. apply Forall_app. split; [by repeat constructor|].
    apply Forall_app. split; [|by repeat constructor].
    rewrite bytes_octet by (unfold octet; lia). destruct (nat_digits_spec b) as [_ Hf]; [lia|].
    eapply list.Forall_impl; [exact Hf|]. intros c Hc. unfold host_byte, numeric_byte, is_digit.
    rewrite !orb_true_iff, !range_split. auto.
  - by apply Hnum in Hn.
Qed.

(** The other alternatives start with a bracket. *)
Lemma lang_bracket i p : (i < 3)%nat → lang (bracket_re i) p → ∃ q, p = 91 :: q.
Proof.
  intros Hi. assert (∃ r, bracket_re i = Cat (Chr 91) r) as (r & ->).
  { destruct i as [|[|[|]]]; [| | |lia]; eexists; vm_compute; reflexivity. }
  rewrite lang_cat_chr. naive_solver.
Qed.

Section pattern.
Context (h port tail : list Z).
Hypothesis Hh : Forall (λ c, host_byte c = true) h.
Hypothesis Hport : port = [] ∨ ∃ d ds, port = 58 :: d :: ds ∧ Forall (λ c, is_digit c = true) (d :: ds).
Hypothesis Htail : tail = [] ∨ ∃ t, tail = 47 :: t.

Lemma port_plain : port = [] ∨ ∃ ds, port = 58 :: ds ∧ Forall (λ c, is_digit c = true) ds.
Proof using Hport. destruct Hport as [? | (d & ds & ? & ?)]; [by left|right; by eexists]. Qed.

(** There is no user part. *)
Lemma user_skipped n Q :
  mt n user_re ((h ++ port) ++ tail) Q ↔ Q ((h ++ port) ++ tail).
Proof using Hh Hport Htail.
  assert (user_re = Opt (Cat (Star (not_re [64; 47])) (Chr 64))) as -> by (by vm_compute).
  unfold Opt. rewrite mt_alt, mt_eps, mt_pure by done. split; [|by right].
  intros [(p & l & He & Hp & _) | HQ]; [exfalso|done].
  cbn [lang] in Hp. destruct Hp as (p1 & ? & -> & Hp1 & ->%lang_chr).
  unfold not_re in Hp1. apply lang_star_cls in Hp1.
  destruct (split_word (λ c, c =? 47) (h ++ port) tail (p1 ++ [64]) l) as (q & Hq & _).
  - done.
  - apply Forall_app. split; [|by repeat constructor].
    eapply list.Forall_impl; [exact Hp1|]. intros c Hc%in_not_re. apply Z.eqb_neq. set_solver.
  - destruct Htail as [-> | (t & ->)]; [by left|right; by exists 47, t].
  - pose proof (authority_not h port Hh port_plain 64 ltac:(lia)) as Hn.
    rewrite Hq, <- app_assoc in Hn. apply Forall_app in Hn as [_ Hn]. by inversion Hn.
Qed.

(** After the whole host the rest matches, and only there. *)
Lemma tail_matched n q : Forall (λ c, host_byte c = true) q →
  mt n tail_re (q ++ port ++ tail) (λ _, True) ↔ q = [].
Proof using Hport Htail.
  intros Hq.
  assert (tail_re = Cat (Opt (Cat (Chr 58) (Plus (Cls false [(48, 57)]))))
                        (Alt (Cls false [(47, 47); (63, 63); (35, 35)]) Eol)) as -> by (by vm_compute).
  unfold Opt. rewrite mt_cat, mt_alt, mt_eps. split.
  - destruct Hq as [|c q Hc%host_byte_range _]; [done|]. cbn [app].
    rewrite mt_cat, mt_chr, mt_alt, mt_eol, mt_cls.
    intros [[-> _] | [(d & l' & He & Hd & _) | [? _]]]; [lia| |done].
    simplify_eq. unfold in_class in Hd. cbn [existsb xorb] in Hd.
    rewrite !orb_true_iff, !range_split in Hd. lia || (destruct Hd as [? | [? | [? | ?]]]; done || lia).
  - intros ->. cbn [app].
    assert (mt n (Alt (Cls false [(47, 47); (63, 63); (35, 35)]) Eol) tail (λ _, True)) as Hend.
    { rewrite mt_alt, mt_cls, mt_eol. destruct Htail as [-> | (t & ->)]; [by right|].
      left. by exists 47, t. }
    destruct Hport as [-> | (d & ds & -> & Hds)]; [by right|]. left.
    rewrite mt_cat. cbn [app]. rewrite mt_chr. split; [done|].
    rewrite mt_pure by done. exists (d :: ds), tail. split; [done|]. split; [|done].
    apply lang_plus_cls. split; [done|].
    eapply list.Forall_impl; [exact Hds|]. intros c Hc. unfold is_digit in Hc. unfold in_class. cbn.
    by rewrite Hc.
Qed.

Hypothesis Hne : h ≠ [].

Lemma host_matched n :
  mt n (Cat user_re (Cat host_re tail_re)) ((h ++ port) ++ tail) (λ _, True) ↔ name_lang h.
Proof using Hne Hh Hport Htail.
  rewrite mt_cat, user_skipped, mt_cat, mt_pure by (vm_compute; done). rewrite <- app_assoc. split.
  - intros (p & l & He & Hp & Hl). unfold host_re in Hp. cbn [lang] in Hp.
    assert (∀ i, (i < 3)%nat → ¬ lang (bracket_re i) p) as Hb.
    { intros i Hi (q & ->)%lang_bracket; [|done]. destruct Hh as [|c h' Hc _]; [done|].
      apply host_byte_range in Hc. simplify_eq/=. lia. }
    destruct Hp as [[[Hp | Hp] | Hp] | Hp]; try (by apply Hb in Hp; [|lia]).
    apply lang_name in Hp.
    destruct (split_word (λ c, (c =? 47) || (c =? 58)) h (port ++ tail) p l) as (q & -> & ->).
    + done.
    + eapply list.Forall_impl; [by apply name_lang_bytes|]. intros c Hc. cbn.
      apply orb_false_iff. rewrite !Z.eqb_neq. done.
    + destruct Hport as [-> | (d & ds & -> & _)]; [|right; by exists 58, (d :: ds ++ tail)].
      destruct Htail as [-> | (t & ->)]; [by left|right; by exists 47, t].
    + apply Forall_app in Hh as [_ Hq]. apply tail_matched in Hl as ->; [|done].
      by rewrite app_nil_r.
  - intros Hp. exists h, (port ++ tail). split; [done|]. split.
    + unfold host_re. cbn [lang]. do 3 left. by apply lang_name.
    + by apply (tail_matched n []).
Qed.
End pattern.

Lemma chromium_denies_web scheme host port tail :
  web_scheme scheme → forallb host_byte (bytes host) = true → host ≠ "" →
  valid_port port = true → valid_tail tail = true →
  chromium_denies (web_url scheme host port tail) = true ↔ name_lang (bytes host).
Proof.
  intros Hs Hh Hne Hp Ht. unfold chromium_denies. rewrite deny_re_parts, MatchString_anchored.
  unfold runes. rewrite runes_ascii; [|done|].
  2: { apply forallb_Forall. eapply list.Forall_impl; [by apply web_printable|]. cbn.
       intros c Hc. apply Z.ltb_lt. lia. }
  rewrite web_bytes, scheme_matched by done. apply host_matched.
  - by apply forallb_Forall.
  - by apply valid_port_shape.
  - by apply valid_tail_shape.
  - by destruct host.
Qed.

(** ** The pattern on quads and names *)

Lemma dot_inj l r l' r' :
  Forall (λ c, c ≠ 46) l → Forall (λ c, c ≠ 46) l' → l ++ 46 :: r = l' ++ 46 :: r' → l = l' ∧ r = r'.
Proof.
  intros Hl Hl' He. assert (cut_at 46 (l ++ 46 :: r) = cut_at 46 (l' ++ 46 :: r')) as Hc by (by rewrite He).
  rewrite !cut_at_app in Hc by done. cbn in Hc. rewrite !app_nil_r in Hc. by simplify_eq.
Qed.

Lemma digits_no_dot a : octet a → Forall (λ c, c ≠ 46) (nat_digits a).
Proof.
  intros Ha. destruct (nat_digits_spec a) as [_ Hf]; [unfold octet in Ha; lia|].
  eapply list.Forall_impl; [exact Hf|]. cbn. lia.
Qed.

Lemma nat_digits_inj a b : octet a → octet b → nat_digits a = nat_digits b → a = b.
Proof.
  intros Ha Hb He. unfold octet in *. destruct (nat_digits_spec a) as [Pa _]; [lia|].
  destruct (nat_digits_spec b) as [Pb _]; [lia|]. rewrite He in Pa. congruence.
Qed.

(** The first two octets of a text can be read off it. *)
Lemma octet_dot a x r r' : octet a → octet x →
  nat_digits a ++ 46 :: r = nat_digits x ++ 46 :: r' ↔ a = x ∧ r = r'.
Proof.
  intros Ha Hx. split; [|by intros [-> ->]].
  intros [Hd ->]%dot_inj; auto using digits_no_dot. split; [by apply nat_digits_inj|done].
Qed.

(** Is the rest of a quad after one or two octets a text the alternatives accept? *)
Lemma num_after_one x a b c d : octet x → octet a → octet b → octet c → octet d →
  num_after (itoa x +:+ ".") (bytes (quad a b c d)) ↔ a = x.
Proof.
  intros Hx Ha Hb Hc Hd. unfold num_after. rewrite bytes_quad, bytes_app, bytes_octet by done. split.
  - intros (q & He & _). change (bytes ".") with [46] in He. rewrite <- app_assoc in He.
    by apply octet_dot in He as [-> _].
  - intros <-. pose proof (quad_numeric a b c d Ha Hb Hc Hd) as Hn. rewrite bytes_quad in Hn by done.
    change (bytes ".") with [46]. setoid_rewrite <- app_assoc. eexists. split; [reflexivity|].
    apply Forall_app in Hn as [_ Hn]. inversion_clear Hn. split; [|done].
    pose proof (nat_digits_nonempty b Hb). by destruct (nat_digits b).
Qed.

Lemma num_after_two x y a b c d : octet x → octet y → octet a → octet b → octet c → octet d →
  num_after (itoa x +:+ "." +:+ itoa y +:+ ".") (bytes (quad a b c d)) ↔ a = x ∧ b = y.
Proof.
  intros Hx Hy Ha Hb Hc Hd. unfold num_after. rewrite bytes_quad, !bytes_app, !bytes_octet by done.
  change (bytes ".") with [46]. split.
  - intros (q & He & _). rewrite <- !app_assoc in He. cbn [app] in He.
    apply octet_dot in He as [-> He]; [|done..]. by apply octet_dot in He as [-> _].
  - intros [<- <-]. pose proof (quad_numeric a b c d Ha Hb Hc Hd) as Hn. rewrite bytes_quad in Hn by done.
    setoid_rewrite <- app_assoc. setoid_rewrite <- app_assoc. setoid_rewrite <- app_assoc. cbn [app].
    eexists. split; [reflexivity|].
    apply Forall_app in Hn as [_ Hn]. inversion_clear Hn as [|? ? _ Hn'].
    apply Forall_app in Hn' as [_ Hn']. inversion_clear Hn'. split; [|done].
    pose proof (nat_digits_nonempty c Hc). by destruct (nat_digits c).
Qed.

Lemma quad_zero a b c d : octet a → octet b → octet c → octet d →
  bytes (quad a b c d) = bytes "0.0.0.0" ↔ a = 0 ∧ b = 0 ∧ c = 0 ∧ d = 0.
Proof.
  intros Ha Hb Hc Hd. assert (octet 0) as H0 by (unfold octet; lia).
  rewrite bytes_quad by done.
  change (bytes "0.0.0.0") with
    (nat_digits 0 ++ 46 :: nat_digits 0 ++ 46 :: nat_digits 0 ++ 46 :: nat_digits 0).
  rewrite !octet_dot by done. split; [|naive_solver].
  intros (-> & -> & -> & ?%nat_digits_inj); done.
Qed.

Lemma name_lang_quad a b c d : octet a → octet b → octet c → octet d →
  name_lang (bytes (quad a b c d)) ↔ private_range a b c d = true.
Proof.
  intros Ha Hb Hc Hd. pose proof (quad_numeric a b c d Ha Hb Hc Hd) as Hn.
  pose proof (numeric_no_localhost _ Hn) as [Hl Hs]%orb_false_iff.
  unfold name_lang.
  assert (∀ x y, octet x → octet y →
    num_after (itoa x +:+ "." +:+ itoa y +:+ ".") (bytes (quad a b c d)) ↔ a = x ∧ b = y) as H2
    by (intros; by apply num_after_two).
  change "127." with (itoa 127 +:+ "."). change "10." with (itoa 10 +:+ ".").
  change "192.168." with (itoa 192 +:+ "." +:+ itoa 168 +:+ ".").
  change "169.254." with (itoa 169 +:+ "." +:+ itoa 254 +:+ ".").
  change "172." with (itoa 172 +:+ "."). setoid_rewrite (string_app_assoc (itoa 172) ".").
  rewrite !num_after_one, quad_zero, !H2 by (done || (unfold octet; lia)).
  unfold private_range. rewrite !orb_true_iff, !andb_true_iff, !Z.eqb_eq, range_split.
  assert (bytes (quad a b c d) ≠ bytes "localhost") as N1.
  { intros He%bytes_inj. apply bool_decide_eq_false in Hl. done. }
  assert (¬ ∃ q, bytes (quad a b c d) = q ++ bytes ".localhost" ∧ Forall (λ c, c ≠ 47 ∧ c ≠ 58) q) as N2.
  { intros (q & He & _). rewrite He in Hn. apply Forall_app in Hn as [_ Hn].
    inversion Hn as [|? ? _ Hn']. by inversion Hn'. }
  assert (¬ (bytes (quad a b c d) ≠ [] ∧ Forall (λ c, c ≠ 47 ∧ c ≠ 58 ∧ c ≠ 46) (bytes (quad a b c d)))) as N3.
  { intros [_ Hf]. rewrite bytes_quad in Hf by done. apply Forall_app in Hf as [_ Hf].
    inversion_clear Hf. tauto. }
  assert ((∃ y, 16 <= y <= 31 ∧ num_after (itoa 172 +:+ "." +:+ itoa y +:+ ".") (bytes (quad a b c d))) ↔
          a = 172 ∧ 16 <= b <= 31) as ->.
  { split.
    - intros (y & Hy & [-> ->]%H2); unfold octet; lia.
    - intros [-> Hy]. exists b. split; [done|]. apply H2; unfold octet; lia. }
  tauto.
Qed.

Lemma of_bytes_app l k : of_bytes (l ++ k) = of_bytes l +:+ of_bytes k.
Proof. induction l as [|x l IH]; cbn; [done|]. by rewrite IH. Qed.

Lemma name_lang_name h : plain_name h = true →
  name_lang (bytes h) ↔
  bool_decide (h = "localhost") || has_suffix h ".localhost" || negb (contains h ".") = true.
Proof.
  unfold plain_name. rewrite andb_true_iff, negb_true_iff, forallb_Forall. intros [Hh Hn].
  assert (∀ s, Forall (λ c, numeric_byte c = true) (bytes s) → ¬ num_after s (bytes h)) as Nnum.
  { intros s Hs (q & He & _ & Hq). apply not_true_iff_false in Hn. apply Hn.
    rewrite He. apply forallb_Forall, Forall_app. done. }
  assert (h ≠ "") as Hne by (by intros ->).
  assert (contains h "." = true ↔ 46 ∈ bytes h) as Hdot.
  { rewrite contains_spec. split.
    - intros (u & v & ->). rewrite !bytes_app. set_solver.
    - intros (l & r & He)%list_elem_of_split. exists (of_bytes l), (of_bytes r).
      by rewrite <- (of_bytes_bytes h), He, of_bytes_app. }
  unfold name_lang. rewrite !orb_true_iff, bool_decide_eq_true, has_suffix_spec, negb_true_iff, <- not_true_iff_false, Hdot.
  split.
  - intros [He | [[_ Hp] | [(q & He & _) | Hx]]].
    + left; left. by apply bytes_inj.
    + right. intros Hin. rewrite list.Forall_forall in Hp. apply Hp in Hin. tauto.
    + left; right. exists (of_bytes q). by rewrite <- (of_bytes_bytes h), He, of_bytes_app.
    + exfalso.
      destruct Hx as [Hx | [Hx | [Hx | [Hx | [(b & Hb & Hx) | Hx]]]]]; try (apply Nnum in Hx; [done|by repeat constructor]).
      * rewrite Hx in Hn. done.
      * apply Nnum in Hx; [done|]. rewrite !bytes_app. apply Forall_app. split; [by repeat constructor|].
        apply Forall_app. split; [|by repeat constructor]. rewrite bytes_octet by (unfold octet; lia).
        destruct (nat_digits_spec b) as [_ Hf]; [lia|].
        eapply list.Forall_impl; [exact Hf|]. intros c Hc. unfold numeric_byte, is_digit.
        rewrite orb_true_iff, range_split. auto.
  - intros [[-> | (t & ->)] | Hnd].
    + by left.
    + right; right; left. exists (bytes t). rewrite bytes_app in Hh |- *. split; [done|].
      apply Forall_app in Hh as [Ht _]. eapply list.Forall_impl; [exact Ht|].
      intros c Hc%host_byte_range. lia.
    + right; left. split; [by destruct h|]. apply list.Forall_forall. intros c Hc.
      split_and!; [| |by intros ->].
      all: rewrite list.Forall_forall in Hh; apply Hh, host_byte_range in Hc; lia.
Qed.

(** ** The two policies *)

(** Hosts as documents name them: a lower-case name, or a dotted quad outside
    the local multicast block, which the pattern does not know. *)
Definition plain_host (h : string) : Prop :=
  plain_name h = true ∨
  ∃ a b c d, octet a ∧ octet b ∧ octet c ∧ octet d ∧ local_multicast a b c = false ∧ h = quad a b c d.

Lemma quad_host a b c d : octet a → octet b → octet c → octet d →
  forallb host_byte (bytes (quad a b c d)) = true ∧ quad a b c d ≠ "".
Proof.
  intros Ha Hb Hc Hd. pose proof (quad_numeric a b c d Ha Hb Hc Hd) as Hn. split.
  - apply forallb_Forall. eapply list.Forall_impl; [exact Hn|]. intros x Hx. unfold host_byte.
    by rewrite Hx, orb_true_r.
  - intros He. pose proof (bytes_quad a b c d Ha Hb Hc Hd) as Hq. rewrite He in Hq.
    by destruct (nat_digits a).
Qed.

Lemma name_host h : plain_name h = true → forallb host_byte (bytes h) = true ∧ h ≠ "".
Proof. unfold plain_name. intros [? Hn]%andb_true_iff. split; [done|by intros ->]. Qed.

Section policies.
Context `{UnicodeTables}.


(** For every dotted quad the decision is the table of the policy: 127/8,
  10/8, 172.16/12, 192.168/16, 169.254/16 and 0.0.0.0 are denied, and so is
  224.0.0.0/24; every other address is allowed. *)
Theorem quad_denied scheme a b c d port tail :
web_scheme scheme → octet a → octet b → octet c → octet d →
valid_port port = true → valid_tail tail = true →
fst (Denied (web_url scheme (quad a b c d) port tail)) =
private_range a b c d || local_multicast a b c.
Proof.
intros Hs Ha Hb Hc Hd Hp Ht. destruct (quad_host a b c d) as [Hq Hne]; [done..|].
rewrite Denied_web by done. by apply host_denied_quad.
Qed.
End policies.

(** The case table of the examples leaves runes beyond ASCII alone. *)
Definition plain_unicode : UnicodeTables := {| unicode_to_lower := λ r, r |}.


Lemma quad_denied_witness :
  fst (@Denied plain_unicode (web_url "http" (quad 172 31 255 255) "" "/a")) =
  private_range 172 31 255 255 || local_multicast 172 31 255.
Proof.
  apply (@quad_denied plain_unicode); try (unfold octet; lia); [by left|by vm_compute|by vm_compute].
Defined.

(** ** Where the two differ *)

(** The comment of the pattern says that it "must deny exactly what Denied()
    denies for http(s) URLs".  Beyond plain hosts it does not: other spellings of
    private IPv6 addresses and IPv4 addresses mapped into IPv6 pass the pattern,
    as do the local multicast block and an upper-case scheme; and the pattern
    blocks numbers that are no dotted quads, and public hosts whose query holds
    an at sign followed by a private host. *)
Lemma pattern_misses :
  forallb (λ u, fst (@Denied plain_unicode u) && negb (chromium_denies u))
    ["http://[::ffff:10.0.0.1]/"; "http://[0:0:0:0:0:0:0:1]/"; "http://[::]/";
     "http://[ff02::1]/"; "http://224.0.0.5/"; "HTTP://localhost/"; "http://a@b@10.0.0.1/"] = true.
Proof. vm_compute. reflexivity. Qed.

Lemma pattern_adds :
  forallb (λ u, negb (fst (@Denied plain_unicode u)) && chromium_denies u)
    ["http://127.1/"; "http://10.0.0.1./"; "http://example.com?x@localhost/"] = true.
Proof. vm_compute. reflexivity. Qed.

(** The table of netpolicy_test.go. *)
Lemma denied_table :
  forallb (λ u, fst (@Denied plain_unicode u))
    ["http://localhost/x.png"; "http://sub.localhost/x.png"; "http://localhost:8080/x.png";
     "http://127.0.0.1/style.css"; "http://0.0.0.0/"; "http://10.0.0.5/a"; "http://172.16.0.1/a";
     "http://192.168.8.24/a"; "http://169.254.169.254/latest/meta-data/"; "http://[::1]/a";
     "http://[fd00::1]/a"; "http://[fe80::1]/a"; "http://localstack:4566/bucket/key";
     "ftp://example.com/file"; "file:///etc/passwd"] = true ∧
  existsb (λ u, fst (@Denied plain_unicode u))
    ["https://cdn.jsdelivr.net/npm/chart.js"; "http://fonts.googleapis.com/css?family=Roboto";
     "https://8.8.8.8/x.png"; "http://172.32.0.1/a"; "http://192.169.0.1/a";
     "data:image/png;base64,iVBORw0KGgo="] = false.
Proof. split; vm_compute; reflexivity. Qed.
