(* ===== verification/ContainerStats.v ===== *)
(** * Container statistics ([internal/containerstats/containerstats.go])

    The counters of the container's control group and the list of the worker
    processes, read from [/sys/fs/cgroup] and [/proc].  What the kernel shows is
    an argument, a [Kernel]: the text of each file that can be read and the
    entries of [/proc].  A Go panic is [None].

    The theorems: the list of workers is sorted by process, holds exactly the
    processes that qualify, once each, and building it does not panic on the
    [stat] lines the kernel writes; the insertion sort of the code is a stable
    sort. *)
From stdpp Require Import base tactics sorting list gmap strings numbers option.
From Stdlib Require Import ZArith Lia Bool Ascii SpecFloat Sorting.Permutation.
From S2P Require Import Prelude GoFloat GoString GoTime Types FS Json.
Local Open Scope Z_scope.

(** ** Texts *)

(** [strings.Fields]: the words between white space. *)
Fixpoint fields_runes (l : list Z) (word : list Z) : list (list Z) :=
  let done := match word with [] => [] | _ => [rev word] end in
  match l with
  | [] => done
  | r :: l => if is_space r then done ++ fields_runes l [] else fields_runes l (r :: word)
  end.
(** Kernel texts are ASCII, where a rune is a byte. *)
Definition Fields (s : string) : list string := of_bytes <$> fields_runes (runes (bytes s)) [].

(** [strconv.ParseInt(s, 10, 64)]: the value comes with the error, zero on a
    syntax error and the nearest bound when the number is out of range. *)
Definition parse_signed (s : string) : option Z :=
  match bytes s with
  | 45 :: l => Z.opp <$> parse_digits l
  | 43 :: l => parse_digits l
  | l => parse_digits l
  end.
Definition ParseInt (s : string) : Z * bool :=
  match parse_signed s with
  | None => (0, false)
  | Some v => if v <? min_i64 then (min_i64, false) else if max_i64 <? v then (max_i64, false) else (v, true)
  end.

(** [strconv.ParseFloat] without its error, on decimal numbers (the kernel writes
    no others): zero on a syntax error. *)
Definition ParseFloat (s : string) : f64 :=
  let '(neg, l) := match bytes s with 45 :: l => (true, l) | 43 :: l => (false, l) | l => (false, l) end in
  let '(ds, l) := span_digits l in
  let '(fs, l) := match l with 46 :: l => span_digits l | _ => ([], l) end in
  match ds ++ fs, parse_exponent l with
  | _ :: _, Some (e, []) => (decimal neg (digits_z (ds ++ fs)) (e - Z.of_nat (length fs))).1
  | _, _ => S754_zero false
  end.

(** ** What the kernel shows *)

Record Kernel : Type := mkKernel {
  read : string → option string;
  proc : option (list string);
  page_size : Z;
  sampled : Time
}.

Section stats.
Context `{GoArch} (k : Kernel).

Definition cgroupV2Marker : string := "/sys/fs/cgroup/cgroup.controllers".
Definition cpuV2 : string := "/sys/fs/cgroup/cpu.stat".
Definition memCurrentV2 : string := "/sys/fs/cgroup/memory.current".
Definition memMaxV2 : string := "/sys/fs/cgroup/memory.max".
Definition pidsCurrentV2 : string := "/sys/fs/cgroup/pids.current".
Definition cpuacctV1 : string := "/sys/fs/cgroup/cpuacct/cpuacct.usage".
Definition memUsageV1 : string := "/sys/fs/cgroup/memory/memory.usage_in_bytes".
Definition memLimitV1 : string := "/sys/fs/cgroup/memory/memory.limit_in_bytes".
Definition pidsCurrentV1 : string := "/sys/fs/cgroup/pids/pids.current".

Definition isCgroupV2 : bool := match read k cgroupV2Marker with Some _ => true | None => false end.

Definition readInt (path : string) (def : Z) : Z :=
  match read k path with
  | None => def
  | Some b => let '(v, ok) := ParseInt (trim_space b) in if ok : bool then v else def
  end.

(** The first line that starts with [usage_usec]. *)
Fixpoint cpu_line (lines : list string) : Z :=
  match lines with
  | [] => 0
  | line :: lines =>
      if has_prefix line "usage_usec" then
        match Fields line with _ :: v :: _ => (ParseInt v).1 | _ => 0 end
      else cpu_line lines
  end.

Definition newline : ascii := of_byte 10.

(** The counters: processor time, memory, its limit, processes. *)
Definition counters : Z * Z * Z * Z :=
  if isCgroupV2 then
    (match read k cpuV2 with Some b => cpu_line (split_on b newline) | None => 0 end,
     readInt memCurrentV2 0,
     match read k memMaxV2 with
     | Some b => let raw := trim_space b in
                 if negb (String.eqb raw "") && negb (String.eqb raw "max") then (ParseInt raw).1 else 0
     | None => 0
     end,
     readInt pidsCurrentV2 0)
  else
    let limit := readInt memLimitV1 0 in
    (Z.quot (readInt cpuacctV1 0) 1000, readInt memUsageV1 0, if 2 ^ 62 <=? limit then 0 else limit,
     readInt pidsCurrentV1 0).

Definition ReadContainerStats : gmap string any :=
  let '(cpu, mem, memMax, pids) := counters in
  list_to_map
    [("cpu_usage_usec", AInt cpu); ("mem_bytes", AInt mem); ("mem_max_bytes", AInt memMax);
     ("pids_current", AInt pids); ("sampled_at", AFloat (epoch_seconds (sampled k)));
     ("cgroup_version", AInt (if isCgroupV2 then 2 else 1))].

(** ** Worker processes *)

Definition sysconfClockTick : Z := 100.

Definition systemBootUptimeSec : f64 :=
  match read k "/proc/uptime" with
  | None => S754_zero false
  | Some b => match Fields b with [] => S754_zero false | f :: _ => ParseFloat f end
  end.

(** The map of one worker. *)
Record worker : Type := mkWorker {
  pid : Z;
  cmdline : string;
  cpu_usage_usec : Z;
  rss_bytes : Z;
  etime_sec : f64;
  sampled_at : f64
}.

Definition proc_file (name file : string) : string := FilepathJoin ["/proc"; name; file].

(** The command line, and whether its program is a worker. *)
Definition nul : string := of_bytes [0].
Definition worker_cmdline (prefix name : string) : option string :=
  match read k (proc_file name "cmdline") with
  | None | Some "" => None
  | Some raw =>
      let cmdline := trim_space (replace_all raw nul " ") in
      let first := match Fields cmdline with f :: _ => f | [] => "" end in
      if has_prefix (after_last first "/"%char) prefix then Some cmdline else None
  end.

(** [s[i:]]; [None] is the panic of an index beyond the end. *)
Definition str_from (i : nat) (s : string) : option string :=
  if (String.length s <? i)%nat then None else Some (str_drop i s).

(** The processor times and the start time of a [stat] line: what follows the
    last parenthesis is split into fields.  The outer [None] is a panic, the
    inner one a line that is skipped. *)
Definition stat_times (text : string) : option (option (Z * Z * Z)) :=
  match last_index_byte text ")"%char with
  | None => Some None
  | Some rparen =>
      rest ← str_from (rparen + 2) text;
      let after := Fields rest in
      if (length after <? 20)%nat then Some None else
      let '(utime, e1) := ParseInt (nth 11 after "") in
      let '(stime, e2) := ParseInt (nth 12 after "") in
      let '(starttime, e3) := ParseInt (nth 19 after "") in
      Some (if e1 && e2 && e3 : bool then Some (utime, stime, starttime) else None)
  end.

Definition resident (name : string) : Z :=
  match read k (proc_file name "statm") with
  | None => 0
  | Some raw =>
      match Fields raw with
      | _ :: p :: _ => let '(pages, ok) := ParseInt p in if ok : bool then i64 (pages * page_size k) else 0
      | _ => 0
      end
  end.

(** One round of the loop: [Some None] is a [continue]. *)
Definition read_worker (prefix : string) (bootUptime sampledAt : f64) (name : string) : option (option worker) :=
  match parse_int name with
  | None => Some None
  | Some p =>
      match worker_cmdline prefix name, read k (proc_file name "stat") with
      | Some cmdline, Some text =>
          t ← stat_times text;
          Some (
            '(utime, stime, starttime) ← t;
            let clockTicks := f64_of_Z sysconfClockTick in
            let cpu := int_of_f64 (fdiv (fmul (f64_of_Z (i64 (utime + stime))) (f64_of_Z 1000000)) clockTicks) in
            let etime := fsub bootUptime (fdiv (f64_of_Z starttime) clockTicks) in
            let etime := if flt etime (S754_zero false) then S754_zero false else etime in
            Some (mkWorker p cmdline cpu (resident name) etime sampledAt))
      | _, _ => Some None
      end
  end.

Fixpoint read_workers (prefix : string) (boot at_ : f64) (names : list string) (acc : list worker) : option (list worker) :=
  match names with
  | [] => Some acc
  | n :: names =>
      o ← read_worker prefix boot at_ n;
      read_workers prefix boot at_ names (match o with Some w => acc ++ [w] | None => acc end)
  end.

(** The inner loop of the sort: [x] moves towards the front while the worker
    before it has a larger process number; [before] is reversed. *)
Fixpoint sift (x : worker) (before : list worker) : list worker :=
  match before with
  | [] => [x]
  | y :: before => if pid x <? pid y then y :: sift x before else x :: y :: before
  end.
Definition sort_workers (l : list worker) : list worker :=
  rev (foldl (λ sorted x, sift x sorted) [] l).

Definition ListWorkers (prefix : string) : option (list worker) :=
  let prefix := if String.eqb prefix "" then "office-convert-worker" else prefix in
  match proc k with
  | None => Some []
  | Some names => l ← read_workers prefix systemBootUptimeSec (epoch_seconds (sampled k)) names []; Some (sort_workers l)
  end.
End stats.

(** ** The sort *)

Definition by_pid (x y : worker) : Prop := pid x <= pid y.
#[global] Instance by_pid_trans : Transitive by_pid.
Proof. unfold by_pid. intros x y z. lia. Qed.

Lemma sift_perm x l : sift x l ≡ₚ x :: l.
Proof.
  induction l as [|y l IH]; cbn; [done|]. destruct (pid x <? pid y); [|done].
  rewrite IH. apply Permutation_swap.
Qed.

Lemma sift_sorted x l : StronglySorted (flip by_pid) l → StronglySorted (flip by_pid) (sift x l).
Proof.
  induction 1 as [|y l Hs IH Hy]; cbn; [by repeat constructor|].
  destruct (Z.ltb_spec (pid x) (pid y)).
  - constructor; [done|]. rewrite (sift_perm x l). constructor; [unfold flip, by_pid; lia|done].
  - constructor; [by constructor|]. constructor; [unfold flip, by_pid; lia|].
    eapply list.Forall_impl; [exact Hy|]. unfold flip, by_pid. lia.
Qed.

(** Workers with one process number keep their order. *)
Lemma sift_filter x l p :
  StronglySorted (flip by_pid) l →
  List.filter (λ w, pid w =? p) (sift x l) = List.filter (λ w, pid w =? p) (x :: l).
Proof.
  induction 1 as [|y l Hs IH Hy]; cbn; [done|].
  destruct (Z.ltb_spec (pid x) (pid y)); [|done]. cbn [List.filter] in *. rewrite IH.
  destruct (Z.eqb_spec (pid y) p), (Z.eqb_spec (pid x) p); done || lia.
Qed.

Lemma sort_fold l acc :
  StronglySorted (flip by_pid) acc →
  let r := foldl (λ sorted x, sift x sorted) acc l in
  StronglySorted (flip by_pid) r ∧ r ≡ₚ acc ++ l ∧
  ∀ p, List.filter (λ w, pid w =? p) r = rev (List.filter (λ w, pid w =? p) l) ++ List.filter (λ w, pid w =? p) acc.
Proof.
  revert acc. induction l as [|x l IH]; intros acc Hacc; cbn [foldl].
  { rewrite app_nil_r. done. }
  destruct (IH (sift x acc)) as (Hs & Hp & Hf); [by apply sift_sorted|]. split_and!; [done| |].
  - rewrite Hp, (sift_perm x acc). cbn. by rewrite Permutation_middle.
  - intros p. rewrite Hf, sift_filter by done. cbn [List.filter].
    destruct (pid x =? p); [|done]. cbn [rev]. by rewrite <- app_assoc.
Qed.

Lemma sorted_rev l : StronglySorted (flip by_pid) l → StronglySorted by_pid (rev l).
Proof.
  induction 1 as [|x l Hs IH Hx]; cbn; [constructor|].
  assert (Forall (λ y, by_pid y x) (rev l)) as Hr by (by apply Forall_rev).
  clear Hs Hx. induction IH as [|y m Hm IHm Hy]; cbn; [repeat constructor|].
  inversion_clear Hr. constructor; [by apply IHm|].
  apply Forall_app. split; [done|]. by repeat constructor.
Qed.

(** The nested loops are a stable sort by process number. *)
Lemma sort_workers_spec l :
  StronglySorted by_pid (sort_workers l) ∧ sort_workers l ≡ₚ l ∧
  ∀ p, List.filter (λ w, pid w =? p) (sort_workers l) = List.filter (λ w, pid w =? p) l.
Proof.
  destruct (sort_fold l []) as (Hs & Hp & Hf); [constructor|]. unfold sort_workers. split_and!.
  - by apply sorted_rev.
  - rewrite <- Permutation_rev. apply Hp.
  - intros p. rewrite filter_rev, Hf. cbn. by rewrite app_nil_r, rev_involutive.
Qed.

(** ** The list of workers *)

Section workers.
Context `{GoArch} (k : Kernel).

(** A [stat] line goes on after the parenthesis that closes the program's name. *)
Definition stat_shape (text : string) : Prop :=
  ∀ i, last_index_byte text ")"%char = Some i → (i + 2 <= String.length text)%nat.

Lemma stat_times_total text : stat_shape text → ∃ o, stat_times text = Some o.
Proof.
  unfold stat_times, stat_shape. intros Hs. destruct (last_index_byte text ")"%char) as [i|]; [|by eexists].
  specialize (Hs i eq_refl). unfold str_from.
  destruct (Nat.ltb_spec (String.length text) (i + 2)); [lia|]. cbn [mbind option_bind].
  destruct (_ <? 20)%nat; [by eexists|].
  destruct (ParseInt _), (ParseInt _), (ParseInt _). by eexists.
Qed.

Lemma read_worker_total prefix boot at_ name :
  (∀ text, read k (proc_file name "stat") = Some text → stat_shape text) →
  ∃ o, read_worker k prefix boot at_ name = Some o.
Proof.
  intros Hs. unfold read_worker. destruct (parse_int name); [|by eexists].
  destruct (worker_cmdline k prefix name); [|by eexists].
  destruct (read k (proc_file name "stat")) as [text|]; [|by eexists].
  destruct (stat_times_total text) as [o ->]; [by apply Hs|]. by eexists.
Qed.

Definition stats_shaped (names : list string) : Prop :=
  Forall (λ n, ∀ text, read k (proc_file n "stat") = Some text → stat_shape text) names.

Lemma read_workers_spec prefix boot at_ names acc :
  stats_shaped names →
  read_workers k prefix boot at_ names acc =
  Some (acc ++ omap (λ n, mjoin (read_worker k prefix boot at_ n)) names).
Proof.
  intros Hs. revert acc. induction Hs as [|n names Hn _ IH]; intros acc; cbn; [by rewrite app_nil_r|].
  destruct (read_worker_total prefix boot at_ n Hn) as [o ->]. cbn [mbind option_bind mjoin option_join].
  rewrite IH. destruct o; [by rewrite <- app_assoc|done].
Qed.

(** The program of a command line. *)
Definition program (cmdline : string) : string :=
  after_last (match Fields cmdline with f :: _ => f | [] => "" end) "/"%char.

Lemma read_worker_inv prefix boot at_ name w :
  read_worker k prefix boot at_ name = Some (Some w) →
  parse_int name = Some (pid w) ∧ worker_cmdline k prefix name = Some (cmdline w) ∧
  has_prefix (program (cmdline w)) prefix = true ∧ flt (etime_sec w) (S754_zero false) = false.
Proof.
  unfold read_worker. destruct (parse_int name) as [p|]; [|done].
  destruct (worker_cmdline k prefix name) as [cmd|] eqn:Hc; [|done].
  destruct (read k (proc_file name "stat")) as [text|]; [|done].
  destruct (stat_times text) as [[[[u s] t]|]|]; [|done..]. cbn [mbind option_bind]. intros [= <-]. cbn.
  split_and!; [done|done| |].
  - unfold worker_cmdline in Hc. destruct (read k (proc_file name "cmdline")) as [[|x raw]|]; [done| |done].
    destruct (has_prefix _ prefix) eqn:Hp; [|done]. by simplify_eq.
  - match goal with |- flt (if ?b then _ else _) _ = _ => destruct b eqn:Hf end; [done|exact Hf].
Qed.

Lemma list_workers_ok prefix names :
  proc k = Some names → prefix ≠ "" → stats_shaped names →
  ∃ l, ListWorkers k prefix = Some l ∧ StronglySorted by_pid l ∧
    l ≡ₚ omap (λ n, mjoin (read_worker k prefix (systemBootUptimeSec k) (epoch_seconds (sampled k)) n)) names ∧
    Forall (λ w, (∃ n, n ∈ names ∧ parse_int n = Some (pid w)) ∧
                 has_prefix (program (cmdline w)) prefix = true ∧
                 flt (etime_sec w) (S754_zero false) = false) l.
Proof.
  intros Hproc Hne Hs. unfold ListWorkers. rewrite Hproc.
  rewrite (proj2 (String.eqb_neq prefix "") Hne).
  rewrite read_workers_spec by done. cbn [mbind option_bind app].
  destruct (sort_workers_spec (omap (λ n, mjoin (read_worker k prefix (systemBootUptimeSec k)
    (epoch_seconds (sampled k)) n)) names)) as (Hsort & Hperm & _).
  eexists. split_and!; [done..|]. rewrite Hperm. apply list.Forall_forall.
  intros w (n & Hn & Hw)%list_elem_of_omap.
  destruct (read_worker _ _ _ _ n) as [[w'|]|] eqn:Hr; [|done..]. cbn in Hw. simplify_eq.
  apply read_worker_inv in Hr as (? & ? & ? & ?). eauto.
Qed.


End workers.

(** ** Examples *)

Definition sample_stat : string :=
  "42 (office-convert-) w) S 1 42 42 0 -1 4194560 900 0 0 0 150 50 0 0 20 0 1 0 1000 9000000 250".
Definition sample_cmdline : string := "/opt/office-convert-worker-docx" +:+ nul +:+ "--stdin" +:+ nul.
Definition sample_files : gmap string string :=
  list_to_map
    [("/proc/uptime", "60.25 100.00"); ("/proc/42/cmdline", sample_cmdline); ("/proc/42/stat", sample_stat);
     ("/proc/42/statm", "500 250 1"); ("/proc/7/cmdline", sample_cmdline); ("/proc/7/stat", sample_stat);
     ("/proc/1/cmdline", "/bin/sh"); ("/proc/1/stat", sample_stat); (cpuacctV1, "123456789");
     (memLimitV1, "9223372036854771712")].
Definition sample_kernel : Kernel :=
  mkKernel (λ p, sample_files !! p) (Some ["1"; "42"; "7"; "self"]) 4096 (mkTime 1700000000000000000 None).
#[local] Instance sample_arch : GoArch.
Proof. refine {| int_of_f64_oob := λ _, - 2 ^ 63 |}. unfold in_i64. intros. lia. Defined.

Example sample_workers :
  option_map (map (λ w, (pid w, cmdline w, cpu_usage_usec w, rss_bytes w))) (ListWorkers sample_kernel "") =
  Some [(7, "/opt/office-convert-worker-docx --stdin", 2000000, 0);
        (42, "/opt/office-convert-worker-docx --stdin", 2000000, 1024000)].
Proof. vm_compute. reflexivity. Qed.

Example sample_counters : counters sample_kernel = (123456, 0, 0, 0).
Proof. vm_compute. reflexivity. Qed.


(** A line that ends with the parenthesis would stop the whole endpoint. *)
Lemma stat_line_panics : stat_times "42 (office-convert-worker)" = None.
Proof. vm_compute. reflexivity. Qed.
