(* ===== verification/Worker.v ===== *)
(** * Worker subprocesses ([internal/worker/worker.go])

    The one-shot worker, the mapping of exit codes and protocol errors to the
    typed errors, and the routing of the lines a worker prints on its standard
    error.  What a worker process does is an argument ([Workers]); log events
    are not modelled. *)
From Stdlib Require Import ZArith Lia Bool SpecFloat Ascii String.
From stdpp Require Import base tactics list gmap strings.
From S2P Require Import Prelude GoFloat GoString GoFmt GoTime Types OErrors Config FS Json.
From S2P Require Ring Progress.
From stdpp Require Import list.
Local Open Scope Z_scope.

Definition ExitOK : Z := 0.
Definition ExitRenderFailure : Z := 1.
Definition ExitLicenseInvalid : Z := 2.
Definition ExitInputUnprocessable : Z := 3.
Definition ExitOOM : Z := 137.

Definition loadTimeout : Z := 600 * Second.

Record Stores : Type := mkStores {
  Heartbeats : Ring.RingStore;
  Timings : Ring.RingStore;
  ProgressStore : Progress.JobProgressStore
}.

Definition workerBinary (s : Settings) (format : FormatName) : string :=
  WorkerBinaryPrefix s +:+ "-" +:+ format.

Definition prlimitArgs (s : Settings) (binary : string) (rest : list string) : list string :=
  ["prlimit"; "--as=" +:+ itoa (WorkerRAMBytes s); "--"; binary] ++ rest.

(** ** Helpers *)

Definition formatIndex `{FloatFormat} (idx : f64) : string :=
  let s := format_g idx in if has_point_or_exp s then s else s +:+ ".0".

Definition tailStr (b : string) (n : nat) : string :=
  if (n <? String.length b)%nat then tail_str b n else b.

Definition round3 `{GoArch} (d : Z) : f64 :=
  fdiv (f64_of_Z (int_of_f64 (fadd (fmul (dur_seconds d) (f64_of_Z 1000)) (f64_ratio 1 2)))) (f64_of_Z 1000).

(** [json.Number] never occurs: the decoder is not asked for it. *)
Definition toInt `{GoArch} (v : any) (def : Z) : Z :=
  match v with AFloat n => int_of_f64 n | AInt n => n | _ => def end.

Definition asFloat (v : any) : option f64 :=
  match v with AFloat n => Some n | AInt n => Some (f64_of_Z n) | _ => None end.

Definition chunkIndex (c : option Chunk) : any :=
  match c with None => ANil | Some c => AFloat (Index c) end.

(** [m[k]]: nil when there is none. *)
Definition field (m : gmap string any) (k : string) : any := default ANil (m !! k).

(** [readLine] on what is left of a stream: the line without its terminator and
    the rest, or the unterminated rest at the end of the stream. *)
Fixpoint trim_eol_rev (l : list Z) : list Z :=
  match l with
  | b :: l' => if (b =? 10) || (b =? 13) then trim_eol_rev l' else l
  | [] => []
  end.
Definition trim_eol (l : list Z) : list Z := rev (trim_eol_rev (rev l)).

Fixpoint read_string (l : list Z) : option (list Z * list Z) :=
  match l with
  | [] => None
  | b :: l => if b =? 10 then Some ([b], l) else '(s, r) ← read_string l; Some (b :: s, r)
  end.

Inductive line_read : Type :=
| Line (line rest : list Z)
| AtEOF (line : list Z).

Definition readLine (l : list Z) : line_read :=
  match read_string l with
  | Some (s, rest) => Line (trim_eol s) rest
  | None => AtEOF l
  end.

(** The lines a reading loop hands on until the end of the stream. *)
Fixpoint read_lines (fuel : nat) (l : list Z) : list (list Z) :=
  match fuel, readLine l with
  | O, _ => []
  | S fuel, Line line rest => (if decide (line = []) then [] else [line]) ++ read_lines fuel rest
  | S _, AtEOF line => if decide (line = []) then [] else [line]
  end.

(** ** Exit codes and protocol errors *)

Definition mapExitCode (rc : Z) (stderrBytes : string) (chunk : option Chunk) : option Error :=
  if rc =? ExitOK then None
  else
    let tail := tailStr stderrBytes 1024 in
    Some (
      if rc =? ExitOOM then
        match chunk with Some c => NewOOM c | None => NewRender chunk rc tail end
      else if rc =? ExitLicenseInvalid then NewLicenseExpired ""
      else if rc =? ExitInputUnprocessable
      then NewInputUnprocessable (if String.eqb tail "" then "input unprocessable" else tail)
      else NewRender chunk rc tail).

Definition raiseError `{GoArch} (result : gmap string any) (chunk : option Chunk) : Error :=
  let code := match result !! "code" with Some c => toInt c ExitRenderFailure | None => ExitRenderFailure end in
  let detail := match field result "detail" with AStr s => s | _ => "" end in
  let detail := if String.eqb detail "" then "unknown error" else detail in
  if code =? ExitOOM then
    match chunk with Some c => NewOOM c | None => NewRender chunk code detail end
  else if code =? ExitLicenseInvalid then NewLicenseExpired ""
  else if code =? ExitInputUnprocessable then NewInputUnprocessable detail
  else NewRender chunk code detail.

(** ** The one-shot worker *)

(** How a process ends: it could not be started, it was still running at the
    limit and was killed, or it exited. *)
Inductive worker_run : Type :=
| SpawnFailed (e : string)
| TimedOut
| Exited (rc : Z) (stdout stderr : string).

(** [exec argv limit]: a run of at most [limit] nanoseconds, with its effects on
    the files. *)
Class Workers := { exec : list string → Z → IO worker_run }.

Definition timeout_of (s : Settings) : Z := (ChunkTimeoutSeconds s *! Second)%go.

(** The argument list of [runWorkerBin]; [None] is the nil dereference of a
    render without a page range. *)
Definition worker_argv (s : Settings) (mode inputPath bin formatArg outputPath : string)
    (pageRange : option (Z * Z)) : option (list string) :=
  let rest := ["--mode"; mode; "--input"; inputPath; "--format"; formatArg; "--license-path"; LicensePath s] in
  if String.eqb mode "render" then
    '(a, b) ← pageRange;
    Some (prlimitArgs s bin (rest ++ ["--output"; outputPath; "--page-range"; itoa a +:+ "-" +:+ itoa b]))
  else Some (prlimitArgs s bin rest).

(** Standard output, standard error and error; the outer [None] is a panic. *)
Definition runWorkerBin `{Workers} (s : Settings) (mode inputPath bin formatArg outputPath : string)
    (pageRange : option (Z * Z)) (chunk : option Chunk) : IO (option (string * string * option Error)) :=
  match worker_argv s mode inputPath bin formatArg outputPath pageRange with
  | None => mret None
  | Some argv =>
      r ← exec argv (timeout_of s);
      mret (Some match r with
        | SpawnFailed e => ("", "", Some (NewRender chunk (-1) ("spawn failed: " +:+ e)))
        | TimedOut => ("", "", Some (NewRender chunk (-1) "timeout exceeded"))
        | Exited rc out err => (out, err, mapExitCode rc err chunk)
        end)
  end.

Definition RunWorker `{Workers} (s : Settings) (mode inputPath : string) (format : FormatName)
    (outputPath : string) (pageRange : option (Z * Z)) (chunk : option Chunk)
    : IO (option (string * string * option Error)) :=
  runWorkerBin s mode inputPath (workerBinary s format) format outputPath pageRange chunk.

Definition RenderHTMLOneShot `{Workers} (s : Settings) (inputPath outputPath : string) : IO (option Error) :=
  r ← runWorkerBin s "render" inputPath (workerBinary s FormatDOCX) "html" outputPath (Some (1, 1)) None;
  mret (r ≫= snd).

Definition chunk_path `{FloatFormat} (scratchDir : string) (chunk : Chunk) : string :=
  scratchDir +:+ "/chunk-" +:+ formatIndex (Index chunk) +:+ ".pdf".

Definition RenderChunkOneShot `{FloatFormat} `{Workers} (s : Settings) (chunk : Chunk) (inputPath : string)
    (format : FormatName) (scratchDir : string) : IO (result Error string) :=
  let outputPath := chunk_path scratchDir chunk in
  r ← RunWorker s "render" inputPath format outputPath (Some (PageStart chunk, PageEnd chunk)) (Some chunk);
  mret match r ≫= snd with Some e => Err e | None => Ok outputPath end.

(** ** Lines on standard error *)

Section stderr.
Context `{GoArch}.

Definition tracked (requestID : string) : bool :=
  negb (String.eqb requestID "") && negb (String.eqb requestID "-").

Definition pool_index (useMsgIndex : bool) (msg : gmap string any) (poolIndexDefault : Z) : Z :=
  if useMsgIndex then toInt (field msg "pool_index") poolIndexDefault else poolIndexDefault.

Definition heartbeat_event (t : Time) (format : FormatName) (pid poolIdx : Z) (msg : gmap string any) : Ring.Event :=
  list_to_map [
    ("worker", AStr format); ("pool_index", AInt poolIdx); ("pid", AInt pid);
    ("phase", field msg "phase"); ("elapsed_s", field msg "elapsed_s");
    ("rss_bytes", field msg "rss_bytes"); ("swap_bytes", field msg "swap_bytes");
    ("cpu_jiffies", field msg "cpu_jiffies"); ("wall_ts", AFloat (epoch_seconds t))].

(** The message's fields, but for the two the orchestrator sets, written over
    the orchestrator's. *)
Definition timing_event (t : Time) (format : FormatName) (pid poolIdx : Z) (msg : gmap string any) : Ring.Event :=
  filter (λ kv, kv.1 ≠ "type" ∧ kv.1 ≠ "pool_index") msg ∪
  list_to_map [
    ("worker", AStr format); ("pool_index", AInt poolIdx); ("pid", AInt pid);
    ("wall_ts", AFloat (epoch_seconds t))].

(** An opening brace, the word type in quotes (byte 34), a colon. *)
Definition type_prefix : string := "{" +:+ of_bytes [34] +:+ "type" +:+ of_bytes [34] +:+ ":".

(** The decoded message of a line that looks like one; an error of the decoder
    is ignored, so what was decoded before it counts. *)
Definition stderr_message (raw : string) : option (gmap string any) :=
  if (8 <? String.length raw)%nat && String.eqb (str_take 8 raw) type_prefix then (Unmarshal raw).1 else None.

(** [handleStderrLine]; [t1] and [t2] are the clock readings of the event and of
    the store.  [None] is the panic of a ring with a negative bound. *)
Definition handleStderrLine (t1 t2 : Time) (format : FormatName) (pid poolIndexDefault : Z) (requestID : string)
    (stores : Stores) (useMsgIndex : bool) (raw : string) : option Stores :=
  match stderr_message raw with
  | None => Some stores
  | Some msg =>
      let poolIdx := pool_index useMsgIndex msg poolIndexDefault in
      match field msg "type" with
      | AStr ty =>
          if String.eqb ty "load_progress" then
            match asFloat (field msg "value") with
            | Some v =>
                Some (if tracked requestID
                  then mkStores (Heartbeats stores) (Timings stores)
                         (Progress.Update t1 t2 requestID (Progress.mkUpdate None None (Some v) None 0) (ProgressStore stores))
                  else stores)
            | None => Some stores
            end
          else if String.eqb ty "heartbeat" then
            if tracked requestID then
              hb ← Ring.Record_ t2 requestID (heartbeat_event t1 format pid poolIdx msg) (Heartbeats stores);
              Some (mkStores hb (Timings stores) (ProgressStore stores))
            else Some stores
          else if String.eqb ty "timing" then
            if tracked requestID then
              tm ← Ring.Record_ t2 requestID (timing_event t1 format pid poolIdx msg) (Timings stores);
              Some (mkStores (Heartbeats stores) tm (ProgressStore stores))
            else Some stores
          else Some stores
      | _ => Some stores
      end
  end.
End stderr.

(** ** Framing *)

(** A line that survives the trip: no newline in it, no carriage return at its
    end. *)
Definition frame_ok (l : list Z) : Prop := l ≠ [] ∧ 10 ∉ l ∧ last l ≠ Some 13.

Lemma read_string_line l rest : 10 ∉ l → read_string (l ++ 10 :: rest) = Some (l ++ [10], rest).
Proof.
  induction l as [|b l IH]; intros Hn; [done|]. simpl.
  destruct (Z.eqb_spec b 10) as [->|Hb]; [exfalso; apply Hn; by left|].
  rewrite IH; [done|]. intros Hin. apply Hn. by right.
Qed.

Lemma trim_eol_line l : frame_ok l → trim_eol (l ++ [10]) = l.
Proof.
  intros (Hne & Hn & Hl). unfold trim_eol. rewrite rev_app_distr. simpl.
  destruct l as [|b l _] using rev_ind; [done|]. rewrite rev_app_distr. simpl.
  rewrite last_snoc in Hl.
  destruct (Z.eqb_spec b 10) as [->|_]; [exfalso; apply Hn; set_solver|].
  destruct (Z.eqb_spec b 13) as [->|_]; [done|]. simpl. by rewrite rev_involutive.
Qed.

Lemma read_lines_frames frames fuel :
  Forall frame_ok frames → (length frames < fuel)%nat →
  read_lines fuel (mjoin ((λ f, f ++ [10]) <$> frames)) = frames.
Proof.
  intros Hf. revert fuel. induction Hf as [|f frames Hok Hf IH]; intros [|fuel] Hlen; simpl in *; try lia; [done|].
  unfold readLine. rewrite <- app_assoc. simpl. rewrite read_string_line by apply Hok.
  rewrite trim_eol_line by done. case_decide; [by destruct Hok|]. rewrite IH by lia. done.
Qed.

(** The bytes [send] and [write] put on a worker's standard input. *)
Definition command_line (cmd : list (string * json_field)) : list Z := Marshal cmd ++ [10].

(** Whatever paths and names the commands hold, the stream of commands on a
    worker's standard input splits at its newlines into exactly the commands, in
    order: a path cannot end a command early or inject another one. *)
Theorem command_framing cmds :
  read_lines (S (length cmds)) (mjoin (command_line <$> cmds)) = Marshal <$> cmds.
Proof.
  replace (mjoin (command_line <$> cmds)) with (mjoin ((λ f, f ++ [10]) <$> (Marshal <$> cmds)))
    by (by rewrite <- list_fmap_compose).
  apply read_lines_frames; [|rewrite length_fmap; lia].
  apply Forall_fmap, Forall_forall. intros cmd _. simpl.
  pose proof (marshal_printable cmd) as Hp. unfold printable in Hp. rewrite Forall_forall in Hp.
  split_and!; [done| |].
  - intros Hin%Hp. lia.
  - intros Hl%last_Some_elem_of%Hp. lia.
Qed.

(** ** Errors *)

Lemma tailStr_length s n : (String.length (tailStr s n) <= n)%nat.
Proof.
  unfold tailStr. destruct (Nat.ltb_spec n (String.length s)); [|done]. apply tail_str_length.
Qed.

(** The answer the service gives for a worker's exit code. *)
Definition exit_class (rc : Z) : FailureClass * Z :=
  if rc =? 2 then (LicenseExpired, 503)
  else if rc =? 3 then (InputUnprocessable, 422)
  else (RenderFailed, 500).

(** C33: exit code 0 and only it is a success; 2, 3 and the rest give the license,
    the unprocessable-input and the render error with their statuses; exactly
    137 on a chunk asks for a subdivision; the reason of an unprocessable input
    is never empty; and a worker in pool mode that reports the same code with a
    detail of at most 1024 bytes gets the same error. *)
Theorem exit_code_contract `{GoArch} rc stderr chunk :
  (mapExitCode rc stderr chunk = None ↔ rc = 0) ∧
  (∀ e, mapExitCode rc stderr chunk = Some e →
    (EFailureClass e, HTTPStatus e) = exit_class rc ∧
    (OOM e = true ↔ rc = 137 ∧ is_Some chunk) ∧
    (rc = 3 → ∃ reason, Detail e = Some {[ "reason" := AStr reason ]} ∧ reason ≠ "" ∧
       (String.length reason <= 1024)%nat)) ∧
  (∀ result, rc ≠ 0 → Z.abs rc < 2 ^ 53 → stderr ≠ "" → (String.length stderr <= 1024)%nat →
    result !! "code" = Some (AFloat (f64_of_Z rc)) → result !! "detail" = Some (AStr stderr) →
    Some (raiseError result chunk) = mapExitCode rc stderr chunk).
Proof.
  unfold mapExitCode, exit_class, ExitOK, ExitOOM, ExitLicenseInvalid, ExitInputUnprocessable. split_and!.
  - destruct (Z.eqb_spec rc 0); split; try done; congruence.
  - intros e. destruct (Z.eqb_spec rc 0); [done|].
    assert (String.length (tailStr stderr 1024) <= 1024)%nat as Hlen by apply tailStr_length.
    destruct (Z.eqb_spec rc 137) as [->|H137]; [|destruct (Z.eqb_spec rc 2) as [->|H2]; [|destruct (Z.eqb_spec rc 3) as [->|H3]]];
      intros [= <-].
    + destruct chunk as [c|]; (split_and!; [done| |done]).
      * split; [intros _; split; [done|by exists c]|done].
      * split; [done|by intros [_ [? ?]]].
    + split_and!; [done| |done]. split; [done|by intros [? _]].
    + split_and!; [done|split; [done|by intros [? _]]|]. intros _.
      eexists. split; [done|]. split; case_match; try done; [|simpl; lia]. by apply String.eqb_neq.
    + split_and!; [done| |done]. split; [done|by intros [? _]].
  - intros result H0 Hb Hne Hlen Hc Hd. unfold raiseError, toInt, field. rewrite Hc, Hd. simpl.
    rewrite int_of_f64_of_Z by done. unfold ExitOOM, ExitLicenseInvalid, ExitInputUnprocessable.
    rewrite (proj2 (Z.eqb_neq rc 0)), (proj2 (String.eqb_neq stderr "")) by done.
    assert (tailStr stderr 1024 = stderr) as ->.
    { unfold tailStr. by destruct (Nat.ltb_spec 1024 (String.length stderr)); [lia|]. }
    rewrite (proj2 (String.eqb_neq stderr "")) by done. done.
Qed.

(** ** Output files *)

Lemma half_units_int i : 0 <= i < 2 ^ 40 → half_units (f64_of_Z i) = Some (2 * i).
Proof.
  intros Hi. destruct (decide (i = 0)) as [->|Hne]; [done|].
  destruct (f64_of_Z_form i Hne) as (m & e & -> & He & Hm); [lia|].
  rewrite (proj2 (Z.ltb_ge i 0)), Z.abs_eq in * by lia. unfold half_units.
  assert ((if 0 <=? e + 1 then Z.pos m * 2 ^ (e + 1) else Z.pos m / 2 ^ (- (e + 1))) = 2 * i ∧
    ((0 <=? e + 1) || (Z.pos m mod 2 ^ (- (e + 1)) =? 0)) = true) as [Hk Hmod].
  { destruct (Z.leb_spec 0 (e + 1)).
    - split; [|done]. assert (e = 0 ∨ e = -1) as [-> | ->] by lia; lia.
    - assert (Z.pos m = 2 * i * 2 ^ (- (e + 1))) as Hm2.
      { rewrite Hm. replace (- e) with (1 + - (e + 1)) by lia. rewrite Z.pow_add_r by lia. lia. }
      assert (0 < 2 ^ (- (e + 1))) by (apply Z.pow_pos_nonneg; lia).
      rewrite Hm2, Z.div_mul, Z.mod_mul by lia. by split. }
  rewrite Hk, Hmod. rewrite (proj2 (Z.leb_le e 40)), (proj2 (Z.ltb_lt (2 * i) (2 ^ 41))) by lia. done.
Qed.

Lemma digits_no_point l : Forall (λ b, 48 <= b <= 57) l → existsb (λ b, (b =? 46) || (b =? 101) || (b =? 69)) l = false.
Proof. induction 1 as [|b l Hb _ IH]; [done|]. simpl. rewrite IH. lia. Qed.

Lemma format_index_int `{FloatFormat} i : 0 <= i < 1000000 → formatIndex (f64_of_Z i) = itoa i +:+ ".0".
Proof.
  intros Hi. unfold formatIndex, format_g. rewrite half_units_int by lia. unfold format_halves.
  replace (2 * i / 2) with i by (rewrite Z.mul_comm, Z.div_mul; lia).
  rewrite (proj2 (Z.ltb_lt _ _)) by lia. rewrite Z.odd_mul. simpl. rewrite string_app_empty_r.
  unfold has_point_or_exp, itoa. rewrite (proj2 (Z.ltb_ge i 0)) by lia.
  destruct (nat_digits_spec i) as [_ Hd]; [lia|].
  rewrite bytes_of_bytes by (eapply Forall_impl; [exact Hd|]; simpl; lia). by rewrite digits_no_point.
Qed.

(** Chunks with different whole indices below a million, as a plan numbers
    them, are rendered to different files of the scratch directory. *)
Theorem chunk_paths_distinct `{FloatFormat} scratch c d i j :
  Index c = f64_of_Z i → Index d = f64_of_Z j → 0 <= i < 1000000 → 0 <= j < 1000000 →
  chunk_path scratch c = chunk_path scratch d → i = j.
Proof.
  unfold chunk_path. intros -> -> Hi Hj He. rewrite !format_index_int in He by done.
  apply (f_equal bytes) in He. rewrite !bytes_app in He.
  apply app_inj_1 in He as [_ He]; [|done]. apply app_inj_1 in He as [_ He]; [|done].
  rewrite <- !bytes_app in He. apply bytes_inj in He.
  assert (itoa i = itoa j) as Hij.
  { apply (f_equal bytes) in He. rewrite !bytes_app in He. apply app_inj_2 in He as [He _]; [|done].
    apply app_inj_2 in He as [He _]; [|done]. by apply bytes_inj. }
  apply itoa_inj in Hij; [done|unfold in_i64; lia..].
Qed.

(** ** Routing of standard error *)

Lemma time_sub_self t : time_sub t t = 0.
Proof. unfold time_sub, time_diff. destruct (mono t); by rewrite Z.sub_diag. Qed.

Lemma last_last_n {A} n (l : list A) x : (0 < n)%nat → last (last_n n (l ++ [x])) = Some x.
Proof.
  intros Hn. unfold last_n. rewrite length_app. simpl. rewrite drop_app_le by lia. apply last_snoc.
Qed.

(** A recorded event is the newest one of its request. *)
Lemma record_newest now rid ev s s' :
  Ring.ring_inv s → 0 < Ring.max s → 0 <= Ring.ttl s → Ring.ignored rid = false →
  Ring.Record_ now rid ev s = Some s' →
  last (default [] (Ring.store s' !! rid)) = Some (Ring.stamp now ev).
Proof.
  intros Hi Hm Ht Hrid. unfold Ring.Record_. rewrite Hrid, Ring.trim_spec by lia. intros [= <-].
  rewrite Ring.evict_lookup. cbn.
  unfold Ring.expired. cbn. rewrite lookup_insert_eq, time_sub_self.
  destruct (Z.ltb_spec (Ring.ttl s) 0); [lia|]. rewrite lookup_insert_eq. cbn.
  apply last_last_n. lia.
Qed.

Lemma stamp_lookup t (ev : gmap string any) k :
  k ≠ "received_at" → (Ring.stamp t ev : gmap string any) !! k = ev !! k.
Proof. intros Hk. apply (lookup_insert_ne (M := gmap string)). congruence. Qed.

Lemma tracked_ignored rid : tracked rid = negb (Ring.ignored rid).
Proof. unfold tracked, Ring.ignored. by rewrite negb_orb. Qed.

Definition stores_inv (s : Stores) : Prop := Ring.ring_inv (Heartbeats s) ∧ Ring.ring_inv (Timings s).

(** A line on a worker's standard error never panics and changes at most one
    of the three stores, none for an untracked request or a line that is not a
    JSON message; and a heartbeat of a tracked request becomes its newest stored
    event, under the orchestrator's pool index for a pool of separate workers
    and under the message's for a forked pool. *)
Theorem stderr_line_routing `{GoArch} t1 t2 format pid idx rid stores useMsg raw :
  stores_inv stores →
  ∃ s', handleStderrLine t1 t2 format pid idx rid stores useMsg raw = Some s' ∧ stores_inv s' ∧
  (tracked rid = false ∨ stderr_message raw = None → s' = stores) ∧
  ((Heartbeats s' = Heartbeats stores ∧ Timings s' = Timings stores) ∨
   (Heartbeats s' = Heartbeats stores ∧ ProgressStore s' = ProgressStore stores) ∨
   (Timings s' = Timings stores ∧ ProgressStore s' = ProgressStore stores)) ∧
  (∀ msg, stderr_message raw = Some msg → field msg "type" = AStr "heartbeat" → tracked rid = true →
     0 < Ring.max (Heartbeats stores) → 0 <= Ring.ttl (Heartbeats stores) →
     ∃ ev, last (default [] (Ring.store (Heartbeats s') !! rid)) = Some ev ∧
       ev !! "pool_index" = Some (AInt (if useMsg then toInt (field msg "pool_index") idx else idx)) ∧
       ev !! "phase" = Some (field msg "phase")).
Proof.
  intros [Hh Ht]. unfold handleStderrLine. destruct (stderr_message raw) as [msg|] eqn:Hmsg.
  2:{ exists stores. split_and!; auto; by intros. }
  destruct (tracked rid) eqn:Htr.
  2:{ exists stores. split_and!; [|done|done|auto|by intros]. by repeat case_match. }
  assert (field msg "type" ≠ AStr "heartbeat" → ∃ s', Some stores = Some s' ∧ stores_inv s' ∧
    (true = false ∨ Some msg = None → s' = stores) ∧
    ((Heartbeats s' = Heartbeats stores ∧ Timings s' = Timings stores) ∨
     (Heartbeats s' = Heartbeats stores ∧ ProgressStore s' = ProgressStore stores) ∨
     (Timings s' = Timings stores ∧ ProgressStore s' = ProgressStore stores)) ∧
    (∀ msg', Some msg = Some msg' → field msg' "type" = AStr "heartbeat" → true = true →
     0 < Ring.max (Heartbeats stores) → 0 <= Ring.ttl (Heartbeats stores) →
     ∃ ev, last (default [] (Ring.store (Heartbeats s') !! rid)) = Some ev ∧
       ev !! "pool_index" = Some (AInt (if useMsg then toInt (field msg' "pool_index") idx else idx)) ∧
       ev !! "phase" = Some (field msg' "phase"))) as Hsame.
  { intros Hne. exists stores. split_and!; auto; [by split|]. by intros msg' [= <-] ?. }
  destruct (field msg "type") as [| | | |ty| | | |] eqn:Hty; try by apply Hsame.
  destruct (String.eqb_spec ty "load_progress") as [->|H1].
  { destruct (asFloat (field msg "value")); [|by apply Hsame]. eexists. split; [done|].
    split_and!; [by split|by intros [?|?]|by left|]. intros msg' [= <-] Hhb. by rewrite Hhb in Hty. }
  destruct (String.eqb_spec ty "heartbeat") as [->|H2].
  { destruct (Ring.record_inv t2 rid (heartbeat_event t1 format pid (pool_index useMsg msg idx) msg) _ Hh) as (hb & Hr & Hinv).
    rewrite Hr. simpl. eexists. split; [done|]. split_and!; [by split|by intros [?|?]|auto|].
    intros msg' [= <-] _ _ Hmax Httl. eexists. split_and!.
    - refine (record_newest t2 rid _ _ hb Hh Hmax Httl _ Hr). rewrite tracked_ignored in Htr. by apply negb_true_iff in Htr.
    - by rewrite stamp_lookup.
    - by rewrite stamp_lookup. }
  destruct (String.eqb_spec ty "timing") as [->|H3]; [|apply Hsame; congruence].
  destruct (Ring.record_inv t2 rid (timing_event t1 format pid (pool_index useMsg msg idx) msg) _ Ht) as (tm & Hr & Hinv).
  rewrite Hr. simpl. eexists. split; [done|]. split_and!; [by split|by intros [?|?]|auto|].
  intros msg' [= <-] Hhb. by rewrite Hhb in Hty.
Qed.

(** ** Concrete inputs *)

Definition sample_chunk : Chunk := mkChunk (f64_of_Z 3) 10 19 false.
Definition sample_clock : Time := mkTime (1700000000 * Second) (Some Second).
Definition sample_stores : Stores := mkStores Ring.HeartbeatStore Ring.TimingStore Progress.NewJobProgressStore.
Definition sample_heartbeat : string :=
  of_bytes (Marshal [("type", JStr "heartbeat"); ("phase", JStr "render"); ("pool_index", JInt 0)]).

Lemma sample_stores_inv : stores_inv sample_stores.
Proof. split; (split_and!; [done|done|by apply map_Forall_empty]). Qed.

#[local] Instance plain_floats : FloatFormat := {| shortest_g := λ _, "NaN" |}.

Example exit_code_contract_witness :
  let result : gmap string any := <["code" := AFloat (f64_of_Z 3)]> {["detail" := AStr "bad zip"]} in
  3 ≠ 0 ∧ Some (raiseError result (Some sample_chunk)) = mapExitCode 3 "bad zip" (Some sample_chunk).
Proof.
  intros result. split; [lia|].
  apply (exit_code_contract 3 "bad zip" (Some sample_chunk)); try reflexivity; try lia; try discriminate.
  simpl. lia.
Defined.

Example chunk_paths_distinct_witness :
  chunk_path "/s" sample_chunk = chunk_path "/s" sample_chunk ∧ 3 = 3.
Proof.
  split; [reflexivity|].
  apply (chunk_paths_distinct "/s" sample_chunk sample_chunk 3 3); try reflexivity; lia.
Defined.

Example stderr_line_routing_witness :
  stores_inv sample_stores ∧
  ∃ s', handleStderrLine sample_clock sample_clock "docx" 42 5 "r1" sample_stores false sample_heartbeat = Some s'.
Proof.
  split; [exact sample_stores_inv|].
  destruct (stderr_line_routing sample_clock sample_clock "docx" 42 5 "r1" sample_stores false sample_heartbeat
    sample_stores_inv) as (s' & Hs & _). by exists s'.
Defined.
