(* ===== verification/Leader.v ===== *)
(** * The forked pool's leader ([internal/worker/pool.go], [ForkedPoolLeader])

    One process answers many concurrent calls; each command carries a sequence
    number, and a reader hands every answer to the caller that waits for its
    number.  The leader is a transition system: each step is what one goroutine
    does between two points at which others can run (a critical section, a
    channel operation, a write).  What the process prints is arbitrary. *)
From Stdlib Require Import ZArith Lia Bool SpecFloat Ascii String.
From stdpp Require Import base tactics list gmap strings.
From S2P Require Import Prelude GoFloat GoString GoFmt GoTime Types OErrors Config FS Json Worker.
From stdpp Require Import list.
Local Open Scope Z_scope.

Definition response : Type := gmap string any.

(** The commands as they are written, keys in order. *)
Definition load_command (seq : option Z) (input : string) : list (string * json_field) :=
  [("cmd", JStr "load"); ("input", JStr input)] ++ match seq with Some s => [("seq", JInt s)] | None => [] end.
Definition render_command (seq : option Z) (chunk : Chunk) (output : string) : list (string * json_field) :=
  [("cmd", JStr "render"); ("output", JStr output); ("page_end", JInt (PageEnd chunk));
   ("page_start", JInt (PageStart chunk))] ++ match seq with Some s => [("seq", JInt s)] | None => [] end.

Section leader.
Context `{GoArch}.

(** The number an answer is for; 0 when it carries none. *)
Definition seq_of (m : response) : Z := toInt (field m "seq") 0.

(** What [failAllPending] sends to the caller waiting for [seq]. *)
Definition eof_response (reason : string) (seq : Z) : response :=
  list_to_map [("seq", AInt seq); ("status", AStr "error"); ("code", AFloat (f64_of_Z ExitRenderFailure));
               ("detail", AStr reason)].

(** ** Calls *)

Inductive request : Type :=
| RLoad (input : string)
| RRender (chunk : Chunk) (outputPath : string).

(** What a call comes back with: an answer, a failed write, or nothing in time. *)
Inductive outcome : Type :=
| OResponse (m : response)
| OWriteFailed (e : string)
| OTimeout.

(** Where a call is: before [l.seq++], before [register], before [write], in
    [awaitSeq], before the deferred [unregister], returned. *)
Inductive phase : Type :=
| PSeq
| PRegister (seq : Z)
| PWrite (seq : Z)
| PAwait (seq : Z)
| PUnregister (seq : Z) (o : outcome)
| PDone (seq : Z) (o : outcome).

Record call : Type := mkCall { req : request; ph : phase }.

Definition chunk_of (r : request) : option Chunk :=
  match r with RLoad _ => None | RRender c _ => Some c end.

Definition phase_seq (p : phase) : option Z :=
  match p with
  | PSeq => None
  | PRegister s | PWrite s | PAwait s | PUnregister s _ | PDone s _ => Some s
  end.

Definition command_of (r : request) (seq : Z) : list (string * json_field) :=
  match r with
  | RLoad input => load_command (Some seq) input
  | RRender c out => render_command (Some seq) c out
  end.

(** The results of [RenderChunk] and [LoadDocument]. *)
Definition outcome_error (o : outcome) (chunk : option Chunk) : option error :=
  match o with
  | OWriteFailed e => Some (EOther e)
  | OTimeout => Some (EConv (NewRender chunk (-1) "fork pool timeout"))
  | OResponse m =>
      match field m "status" with
      | AStr s => if String.eqb s "ok" then None else Some (EConv (raiseError m chunk))
      | _ => Some (EConv (raiseError m chunk))
      end
  end.
Definition RenderChunk (o : outcome) (chunk : Chunk) (outputPath : string) : result error string :=
  match outcome_error o (Some chunk) with Some e => Err e | None => Ok outputPath end.
Definition LoadDocument (o : outcome) : result error Z :=
  match outcome_error o None with
  | Some e => Err e
  | None => Ok match o with OResponse m => toInt (field m "page_count") 0 | _ => 0 end
  end.

(** ** The leader *)

(** The reading goroutine: waiting for a line, about to send an answer on the
    channel of a call, or returned. *)
Inductive reader_state : Type :=
| RIdle
| RSend (to : nat) (m : response)
| RClosed.

(** A channel is named by the call that made it; its capacity is one. *)
Record Leader : Type := mkLeader {
  seqno : Z;
  pending : gmap Z nat;
  chans : gmap nat (list response);
  calls : gmap nat call;
  reader : reader_state;
  stdin : list (list Z)
}.

(** [spawnForkedLeader] and [NewForkedWorkerPool]: call 0 loads the document. *)
Definition initial (input : string) : Leader :=
  mkLeader 0 ∅ ∅ {[ 0%nat := mkCall (RLoad input) (PRegister 0) ]} RIdle [].

Definition set_phase (i : nat) (p : phase) (l : Leader) : Leader :=
  mkLeader (seqno l) (pending l) (chans l)
    (alter (λ k, mkCall (req k) p) i (calls l)) (reader l) (stdin l).
Definition set_reader (r : reader_state) (l : Leader) : Leader :=
  mkLeader (seqno l) (pending l) (chans l) (calls l) r (stdin l).
Definition set_pending (p : gmap Z nat) (l : Leader) : Leader :=
  mkLeader (seqno l) p (chans l) (calls l) (reader l) (stdin l).
Definition set_chans (c : gmap nat (list response)) (l : Leader) : Leader :=
  mkLeader (seqno l) (pending l) c (calls l) (reader l) (stdin l).

(** [l.seq++; seq := l.seq] *)
Definition take_seq (i : nat) (l : Leader) : Leader :=
  let s := (seqno l +! 1)%go in
  set_phase i (PRegister s) (mkLeader s (pending l) (chans l) (calls l) (reader l) (stdin l)).

Definition register (i : nat) (seq : Z) (l : Leader) : Leader :=
  set_phase i (PWrite seq)
    (set_pending (<[seq := i]> (pending l)) (set_chans (<[i := []]> (chans l)) l)).

Definition unregister (i : nat) (seq : Z) (o : outcome) (l : Leader) : Leader :=
  set_phase i (PDone seq o) (set_pending (delete seq (pending l)) l).

Definition write (i : nat) (r : request) (seq : Z) (l : Leader) : Leader :=
  set_phase i (PAwait seq)
    (mkLeader (seqno l) (pending l) (chans l) (calls l) (reader l)
       (stdin l ++ [command_line (command_of r seq)])).

(** [readStdout] on one line that is a JSON object. *)
Definition receive (m : response) (l : Leader) : Leader :=
  match pending l !! seq_of m with
  | Some i => set_reader (RSend i m) (set_pending (delete (seq_of m) (pending l)) l)
  | None => l
  end.

(** The non-blocking part of [ch <- data]. *)
Definition deliver (i : nat) (m : response) (l : Leader) : Leader :=
  set_reader RIdle (set_chans (<[i := default [] (chans l !! i) ++ [m]]> (chans l)) l).

Definition fail_chans (reason : string) (p : gmap Z nat) (cs : gmap nat (list response))
    : gmap nat (list response) :=
  map_fold (λ seq i cs, <[i := default [] (cs !! i) ++ [eof_response reason seq]]> cs) cs p.
Definition failAllPending (reason : string) (l : Leader) : Leader :=
  set_reader RClosed (set_pending ∅ (set_chans (fail_chans reason (pending l) (chans l)) l)).

(** A send on a channel of capacity one goes through when nothing is in it. *)
Definition can_send (l : Leader) (i : nat) : Prop := chans l !! i = Some [].

Inductive step : Leader → Leader → Prop :=
| step_call l i c out k0 s0 o0 :
    calls l !! 0%nat = Some k0 → ph k0 = PDone s0 o0 → calls l !! i = None →
    step l (mkLeader (seqno l) (pending l) (chans l)
              (<[i := mkCall (RRender c out) PSeq]> (calls l)) (reader l) (stdin l))
| step_seq l i k : calls l !! i = Some k → ph k = PSeq → step l (take_seq i l)
| step_register l i k s : calls l !! i = Some k → ph k = PRegister s → step l (register i s l)
| step_write l i k s : calls l !! i = Some k → ph k = PWrite s → step l (write i (req k) s l)
| step_write_failed l i k s e :
    calls l !! i = Some k → ph k = PWrite s → step l (set_phase i (PUnregister s (OWriteFailed e)) l)
| step_answer l i k s m ms :
    calls l !! i = Some k → ph k = PAwait s → chans l !! i = Some (m :: ms) →
    step l (set_phase i (PUnregister s (OResponse m)) (set_chans (<[i := ms]> (chans l)) l))
| step_timeout l i k s :
    calls l !! i = Some k → ph k = PAwait s → step l (set_phase i (PUnregister s OTimeout) l)
| step_unregister l i k s o :
    calls l !! i = Some k → ph k = PUnregister s o → step l (unregister i s o l)
| step_line l m : reader l = RIdle → step l (receive m l)
| step_deliver l i m : reader l = RSend i m → can_send l i → step l (deliver i m l)
| step_eof l :
    reader l = RIdle → (∀ s i, pending l !! s = Some i → can_send l i) →
    step l (failAllPending "worker stdout EOF" l).

(** The states that [n] steps can lead to. *)
Inductive reach (input : string) : nat → Leader → Prop :=
| reach_0 : reach input 0 (initial input)
| reach_S n l l' : reach input n l → step l l' → reach input (S n) l'.

(** ** The invariant *)

(** Registered and not yet unregistered; registered at some time. *)
Definition waiting (p : phase) : bool :=
  match p with PWrite _ | PAwait _ | PUnregister _ _ => true | _ => false end.
Definition registered (p : phase) : bool :=
  match p with PSeq | PRegister _ => false | _ => true end.
Definition answer_of (p : phase) : option response :=
  match p with PUnregister _ (OResponse m) | PDone _ (OResponse m) => Some m | _ => None end.

Record linv (n : nat) (l : Leader) : Prop := {
  li_seqno : 0 <= seqno l <= Z.of_nat n;
  li_load : ∃ k s, calls l !! 0%nat = Some k ∧ phase_seq (ph k) = Some s;
  li_num : ∀ i k s, calls l !! i = Some k → phase_seq (ph k) = Some s →
    (i = 0%nat ∧ s = 0) ∨ (i ≠ 0%nat ∧ 1 <= s <= seqno l);
  li_inj : ∀ i j k k' s, calls l !! i = Some k → calls l !! j = Some k' →
    phase_seq (ph k) = Some s → phase_seq (ph k') = Some s → i = j;
  li_pending : ∀ s i, pending l !! s = Some i →
    can_send l i ∧ ∃ k, calls l !! i = Some k ∧ phase_seq (ph k) = Some s ∧ waiting (ph k) = true;
  li_chan : ∀ i ms, chans l !! i = Some ms →
    ∃ k s, calls l !! i = Some k ∧ phase_seq (ph k) = Some s ∧ registered (ph k) = true ∧
      Forall (λ m, seq_of m = s) ms;
  li_reader : ∀ i m, reader l = RSend i m →
    can_send l i ∧ (∀ s, pending l !! s ≠ Some i) ∧
    ∃ k, calls l !! i = Some k ∧ phase_seq (ph k) = Some (seq_of m);
  li_answer : ∀ i k m, calls l !! i = Some k → answer_of (ph k) = Some m → phase_seq (ph k) = Some (seq_of m)
}.

Lemma initial_inv input : linv 0 (initial input).
Proof.
  split; simpl; try done.
  - eexists _, 0. split; [apply lookup_singleton_eq|done].
  - intros i k s [<- <-]%lookup_singleton_Some. intros [= <-]. by left.
  - intros i j k k' s [<- _]%lookup_singleton_Some [<- _]%lookup_singleton_Some. done.
  - intros i k m [<- <-]%lookup_singleton_Some. done.
Qed.

Lemma calls_set_phase i p l j :
  calls (set_phase i p l) !! j =
    if decide (i = j) then (λ k, mkCall (req k) p) <$> calls l !! j else calls l !! j.
Proof. simpl. case_decide as Hij; [subst; apply lookup_alter_eq|by apply lookup_alter_ne]. Qed.

Lemma set_phase_lookup i p l j k :
  calls (set_phase i p l) !! j = Some k →
  (i = j ∧ ph k = p ∧ is_Some (calls l !! j)) ∨ (i ≠ j ∧ calls l !! j = Some k).
Proof.
  rewrite calls_set_phase. case_decide as Hij; [|by right]. left.
  destruct (calls l !! j); simpl in *; simplify_eq. by split_and!.
Qed.

(** A call moves on, keeping its number. *)
Lemma set_phase_inv n l i k s p :
  linv n l → calls l !! i = Some k → phase_seq (ph k) = Some s → phase_seq p = Some s →
  (waiting p = true ∨ ∀ s, pending l !! s ≠ Some i) → registered p = true →
  (∀ m, answer_of p = Some m → s = seq_of m) →
  linv n (set_phase i p l).
Proof.
  intros Hl Hk Hs Hp Hw Hr Hans.
  assert (∀ j k', calls (set_phase i p l) !! j = Some k' →
    ∃ k0, calls l !! j = Some k0 ∧ phase_seq (ph k') = phase_seq (ph k0) ∧
      (i ≠ j → k' = k0)) as Hold.
  { intros j k' [(<- & <- & _)|[Hne Hj]]%set_phase_lookup.
    - exists k. by rewrite Hs, Hp.
    - by exists k'. }
  assert (∀ j k0, calls l !! j = Some k0 → ∃ k', calls (set_phase i p l) !! j = Some k' ∧
      phase_seq (ph k') = phase_seq (ph k0) ∧ (i ≠ j → k' = k0) ∧ (i = j → ph k' = p)) as Hnew.
  { intros j k0 Hj. rewrite calls_set_phase, Hj. case_decide as Hij.
    - subst j. simplify_eq. eexists. split; [done|]. simpl. by rewrite Hs, Hp.
    - by exists k0. }
  split.
  - apply Hl.
  - destruct (li_load _ _ Hl) as (k0 & s0 & Hk0 & Hs0). destruct (Hnew _ _ Hk0) as (k' & Hk' & He & _).
    exists k', s0. by rewrite He.
  - intros j k' s' (k0 & Hk0 & He & _)%Hold Hs'. rewrite He in Hs'. exact (li_num _ _ Hl _ _ _ Hk0 Hs').
  - intros j1 j2 k1 k2 s' (k1' & Hk1 & He1 & _)%Hold (k2' & Hk2 & He2 & _)%Hold Hs1 Hs2.
    rewrite He1 in Hs1. rewrite He2 in Hs2.
    exact (li_inj _ _ Hl _ _ _ _ _ Hk1 Hk2 Hs1 Hs2).
  - intros s' j Hj. destruct (li_pending _ _ Hl s' j Hj) as (Hc & k0 & Hk0 & Hs0 & Hw0).
    split; [done|]. destruct (Hnew _ _ Hk0) as (k' & Hk' & He & Hne & Heq). exists k'.
    split_and!; [done|by rewrite He|]. destruct (decide (i = j)) as [->|Hij].
    + rewrite Heq by done. destruct Hw as [|Hw]; [done|]. by destruct (Hw s').
    + by rewrite Hne.
  - intros j ms Hj. destruct (li_chan _ _ Hl j ms Hj) as (k0 & s0 & Hk0 & Hs0 & Hr0 & Hm).
    destruct (Hnew _ _ Hk0) as (k' & Hk' & He & Hne & Heq). exists k', s0.
    split_and!; [done|by rewrite He| |done]. destruct (decide (i = j)) as [->|Hij]; [by rewrite Heq|by rewrite Hne].
  - intros j m Hj. destruct (li_reader _ _ Hl j m Hj) as (Hc & Hnp & k0 & Hk0 & Hs0).
    split_and!; [done|done|]. destruct (Hnew _ _ Hk0) as (k' & Hk' & He & _). exists k'. by rewrite He.
  - intros j k' m Hj Hm. destruct (set_phase_lookup _ _ _ _ _ Hj) as [(<- & Hph & _)|[Hne Hj']].
    + rewrite Hph, Hp in *. f_equal. by apply Hans.
    + exact (li_answer _ _ Hl _ _ _ Hj' Hm).
Qed.

Lemma delete_pending_inv n l s : linv n l → linv n (set_pending (delete s (pending l)) l).
Proof.
  intros Hl. destruct Hl as [? ? ? ? Hp ? Hr ?]. split; try done.
  - cbn; intros s' i [_ Hs']%lookup_delete_Some. by apply Hp.
  - intros i m Hm. destruct (Hr i m Hm) as (Hc & Hnp & Hk). split_and!; [done| |done].
    cbn; intros s' [_ Hs']%lookup_delete_Some. by apply (Hnp s').
Qed.

Lemma pop_inv n l i m ms :
  linv n l → chans l !! i = Some (m :: ms) → linv n (set_chans (<[i := ms]> (chans l)) l).
Proof.
  intros Hl Hi. destruct Hl as [? ? ? ? Hp Hc Hr ?].
  assert (∀ j, can_send l j → can_send (set_chans (<[i := ms]> (chans l)) l) j) as Hcs.
  { unfold can_send. simpl. intros j Hj. rewrite lookup_insert_ne; [done|]. intros ->. by rewrite Hi in Hj. }
  split; try done.
  - intros s j Hj. destruct (Hp s j Hj) as [Hs Hk]. split; [by apply Hcs|done].
  - cbn; intros j ms' [[<- <-]|[Hne Hj]]%lookup_insert_Some; [|by apply Hc].
    destruct (Hc i (m :: ms) Hi) as (k & s & Hk & Hs & Hreg & Hf). exists k, s.
    inversion Hf; subst. by split_and!.
  - intros j m' Hj. destruct (Hr j m' Hj) as (Hs & Hnp & Hk). split_and!; [by apply Hcs|done|done].
Qed.

Lemma register_inv n l i k s :
  linv n l → calls l !! i = Some k → ph k = PRegister s → linv n (register i s l).
Proof.
  intros Hl Hk Hph.
  assert (chans l !! i = None) as Hnone.
  { destruct (chans l !! i) as [ms|] eqn:Hi; [|done].
    destruct (li_chan _ _ Hl i ms Hi) as (k' & s' & Hk' & _ & Hr & _). rewrite Hk in Hk'. simplify_eq. by rewrite Hph in Hr. }
  assert (∀ s', pending l !! s' ≠ Some i) as Hnp.
  { intros s' Hs'. destruct (li_pending _ _ Hl s' i Hs') as [Hc _]. unfold can_send in Hc. by rewrite Hnone in Hc. }
  assert (linv n (set_phase i (PWrite s) l)) as Hl1.
  { eapply set_phase_inv; try done; [by rewrite Hph|by left]. }
  assert (calls (set_phase i (PWrite s) l) !! i = Some (mkCall (req k) (PWrite s))) as Hki.
  { rewrite calls_set_phase, Hk. by rewrite decide_True. }
  destruct Hl1 as [? ? ? ? Hp Hc Hr ?]. change (register i s l) with
    (set_pending (<[s := i]> (pending l)) (set_chans (<[i := []]> (chans l)) (set_phase i (PWrite s) l))).
  assert (∀ j, can_send l j → j ≠ i ∧
    can_send (set_pending (<[s := i]> (pending l)) (set_chans (<[i := []]> (chans l)) (set_phase i (PWrite s) l))) j) as Hcs.
  { unfold can_send. simpl. intros j Hj. assert (j ≠ i) by (intros ->; by rewrite Hnone in Hj).
    by rewrite lookup_insert_ne. }
  split; try done.
  - cbn; intros s' j [[<- <-]|[Hne Hj]]%lookup_insert_Some.
    + split; [by apply lookup_insert_eq|]. by eexists.
    + destruct (Hp s' j Hj) as [Hs Hk']. split; [by apply Hcs|done].
  - cbn; intros j ms [[<- <-]|[Hne Hj]]%lookup_insert_Some; [|by apply Hc].
    eexists _, s. by split_and!.
  - intros j m Hj. destruct (Hr j m Hj) as (Hs & Hnp' & Hk'). destruct (Hcs j Hs) as [Hji Hs'].
    split_and!; [done| |done]. cbn; intros s' [[<- ->]|[_ Hs'']]%lookup_insert_Some; [done|by apply (Hnp' s')].
Qed.

Lemma call_inv n l i c out :
  linv n l → calls l !! i = None →
  linv n (mkLeader (seqno l) (pending l) (chans l) (<[i := mkCall (RRender c out) PSeq]> (calls l))
            (reader l) (stdin l)).
Proof.
  intros Hl Hi.
  assert (∀ j k, calls l !! j = Some k → <[i := mkCall (RRender c out) PSeq]> (calls l) !! j = Some k) as Hold.
  { intros j k Hj. rewrite lookup_insert_ne; [done|]. intros ->. by rewrite Hi in Hj. }
  assert (∀ j k, <[i := mkCall (RRender c out) PSeq]> (calls l) !! j = Some k →
    (phase_seq (ph k) = None ∧ answer_of (ph k) = None) ∨ calls l !! j = Some k) as Hnew.
  { intros j k [[_ <-]|[_ Hj]]%lookup_insert_Some; [by left|by right]. }
  destruct Hl as [? (k0 & s0 & Hk0 & Hs0) Hnum Hinj Hp Hc Hr Hans]. split; cbn; try done.
  - exists k0, s0. by split; [apply Hold|].
  - intros j k s [[Hn _]|Hj]%Hnew Hs; [by rewrite Hn in Hs|]. by eapply Hnum.
  - intros j1 j2 k1 k2 s [[Hn1 _]|H1]%Hnew [[Hn2 _]|H2]%Hnew Hs1 Hs2; try congruence. by eapply Hinj.
  - intros s j Hj. destruct (Hp s j Hj) as (Hcs & k & Hk & Hrest). split; [done|]. exists k. by split; [apply Hold|].
  - intros j ms Hj. destruct (Hc j ms Hj) as (k & s & Hk & Hrest). exists k, s. by split; [apply Hold|].
  - intros j m Hj. destruct (Hr j m Hj) as (Hcs & Hnp & k & Hk & Hrest). split_and!; [done|done|].
    exists k. by split; [apply Hold|].
  - intros j k m [[_ Hn]|Hj]%Hnew Hm; [by rewrite Hn in Hm|]. by eapply Hans.
Qed.

Lemma take_seq_inv n l i k :
  linv n l → Z.of_nat n < 2 ^ 62 → calls l !! i = Some k → ph k = PSeq → linv (S n) (take_seq i l).
Proof.
  intros Hl Hn Hk Hph. pose proof (li_seqno _ _ Hl) as Hsq.
  assert (seqno (take_seq i l) = seqno l + 1) as Hseq.
  { unfold take_seq. cbn. by i64_norm. }
  assert (i ≠ 0%nat) as Hi0.
  { intros ->. destruct (li_load _ _ Hl) as (k0 & s0 & Hk0 & Hs0). rewrite Hk in Hk0. simplify_eq.
    by rewrite Hph in Hs0. }
  assert (∀ j k', calls (take_seq i l) !! j = Some k' →
    (i = j ∧ ph k' = PRegister (seqno l + 1)) ∨ (i ≠ j ∧ calls l !! j = Some k')) as Hcase.
  { intros j k' [(<- & Hp & _)|?]%set_phase_lookup; [|by right]. left. split; [done|]. rewrite Hp. f_equal. by i64_norm. }
  assert (∀ j k', calls l !! j = Some k' → i ≠ j → calls (take_seq i l) !! j = Some k') as Hold.
  { intros j k' Hj Hne. unfold take_seq. cbn. by rewrite lookup_alter_ne. }
  assert (∀ s, phase_seq (ph k) ≠ Some s) as Hnos by by rewrite Hph.
  destruct Hl as [_ (k0 & s0 & Hk0 & Hs0) Hnum Hinj Hp Hc Hr Hans]. split; rewrite ?Hseq; try done.
  - lia.
  - exists k0, s0. by split; [apply Hold|].
  - intros j k' s [[<- Hp']|[Hne Hj]]%Hcase Hs.
    + right. rewrite Hp' in Hs. simplify_eq/=. split; [done|lia].
    + destruct (Hnum j k' s Hj Hs) as [?|[? ?]]; [by left|right; split; [done|lia]].
  - intros j1 j2 k1 k2 s [[<- H1]|[Hne1 H1]]%Hcase [[<- H2]|[Hne2 H2]]%Hcase Hs1 Hs2; [done| | |by eapply Hinj].
    + rewrite H1 in Hs1. simplify_eq/=. destruct (Hnum _ _ _ H2 Hs2); lia.
    + rewrite H2 in Hs2. simplify_eq/=. destruct (Hnum _ _ _ H1 Hs1); lia.
  - intros s j Hj. destruct (Hp s j Hj) as (Hcs & k' & Hk' & Hs & Hw). split; [done|]. exists k'.
    split; [|done]. apply Hold; [done|]. intros ->. simplify_eq. by eapply Hnos.
  - intros j ms Hj. destruct (Hc j ms Hj) as (k' & s & Hk' & Hs & Hrest). exists k', s.
    split; [|done]. apply Hold; [done|]. intros ->. simplify_eq. by eapply Hnos.
  - intros j m Hj. destruct (Hr j m Hj) as (Hcs & Hnp & k' & Hk' & Hs). split_and!; [done|done|]. exists k'.
    split; [|done]. apply Hold; [done|]. intros ->. simplify_eq. by eapply Hnos.
  - intros j k' m [[<- H1]|[Hne1 H1]]%Hcase Hm; [by rewrite H1 in Hm|]. by eapply Hans.
Qed.

Lemma receive_inv n l m : linv n l → reader l = RIdle → linv n (receive m l).
Proof.
  intros Hl Hidle. unfold receive. destruct (pending l !! seq_of m) as [i|] eqn:Hi; [|done].
  destruct (li_pending _ _ Hl _ _ Hi) as (Hcs & k & Hk & Hs & _).
  pose proof (delete_pending_inv n l (seq_of m) Hl) as Hl'. destruct Hl' as [? ? ? ? ? ? _ ?].
  split; try done. cbn. intros j m' [= <- <-]. split_and!; [done| |by exists k].
  intros s [Hne Hs']%lookup_delete_Some. destruct (li_pending _ _ Hl _ _ Hs') as (_ & k' & Hk' & Hs2 & _).
  rewrite Hk in Hk'. simplify_eq.
Qed.

Lemma deliver_inv n l i m : linv n l → reader l = RSend i m → linv n (deliver i m l).
Proof.
  intros Hl Hrd. destruct (li_reader _ _ Hl i m Hrd) as (Hcs & Hnp & k & Hk & Hs).
  destruct Hl as [? ? ? ? Hp Hc Hr ?]. unfold deliver. unfold can_send in Hcs. rewrite Hcs. simpl. split; try done.
  - cbn. intros s j Hj. destruct (Hp s j Hj) as [Hsend Hrest]. split; [|done].
    unfold can_send. cbn. rewrite lookup_insert_ne; [done|]. intros <-. by eapply Hnp.
  - cbn. intros j ms [[<- <-]|[Hne Hj]]%lookup_insert_Some; [|by apply Hc].
    destruct (Hc i [] Hcs) as (k' & s & Hk' & Hs' & Hreg & _). rewrite Hk in Hk'. simplify_eq.
    exists k', (seq_of m). split_and!; [done|done|done|]. by repeat constructor.
Qed.

(** What [failAllPending] leaves in the channels. *)
Lemma fail_all_chans reason (p : gmap Z nat) (cs : gmap nat (list response)) :
  (∀ s i, p !! s = Some i → cs !! i = Some []) →
  (∀ s s' i, p !! s = Some i → p !! s' = Some i → s = s') →
  ∀ i, (∃ s, p !! s = Some i ∧ fail_chans reason p cs !! i = Some [eof_response reason s]) ∨
       ((∀ s, p !! s ≠ Some i) ∧ fail_chans reason p cs !! i = cs !! i).
Proof.
  unfold fail_chans. revert p. apply (map_fold_weak_ind (λ cs' p,
    (∀ s i, p !! s = Some i → cs !! i = Some []) → (∀ s s' i, p !! s = Some i → p !! s' = Some i → s = s') →
    ∀ i, (∃ s, p !! s = Some i ∧ cs' !! i = Some [eof_response reason s]) ∨
       ((∀ s, p !! s ≠ Some i) ∧ cs' !! i = cs !! i))).
  - intros _ _ i. right. by split.
  - intros s j p cs' Hs IH Hcs Hinj i.
    assert (∀ s' i', p !! s' = Some i' → <[s := j]> p !! s' = Some i') as Hsub.
    { intros s' i' Hs'. rewrite lookup_insert_ne; [done|]. intros ->. by rewrite Hs in Hs'. }
    specialize (IH ltac:(by eauto) ltac:(by eauto)).
    destruct (decide (j = i)) as [->|Hji].
    + left. exists s. split; [apply lookup_insert_eq|]. rewrite lookup_insert_eq.
      destruct (IH i) as [(s' & Hs' & _)|[_ ->]].
      * exfalso. assert (s = s') as <- by (eapply Hinj; [apply lookup_insert_eq|by apply Hsub]).
        by rewrite Hs in Hs'.
      * by rewrite (Hcs s i (lookup_insert_eq _ _ _)).
    + rewrite lookup_insert_ne by done. destruct (IH i) as [(s' & Hs' & Hc)|[Hn Hc]].
      * left. exists s'. by split; [apply Hsub|].
      * right. split; [|done]. intros s' [[_ Heq]|[_ Hs']]%lookup_insert_Some; [done|by apply (Hn s')].
Qed.

Lemma seq_of_eof reason s : seq_of (eof_response reason s) = s.
Proof. done. Qed.

Lemma fail_all_inv n l reason :
  linv n l → reader l = RIdle → linv n (failAllPending reason l).
Proof.
  intros Hl Hidle.
  pose proof (fail_all_chans reason (pending l) (chans l)) as Hcs.
  specialize (Hcs ltac:(by intros s i Hi; apply (li_pending _ _ Hl s i Hi))).
  assert (∀ s s' i, pending l !! s = Some i → pending l !! s' = Some i → s = s') as Hinj.
  { intros s s' i H1 H2. destruct (li_pending _ _ Hl s i H1) as (_ & k & Hk & Hs & _).
    destruct (li_pending _ _ Hl s' i H2) as (_ & k' & Hk' & Hs' & _). rewrite Hk in Hk'. congruence. }
  specialize (Hcs Hinj). unfold failAllPending.
  destruct (Hl) as [? ? ? ? Hp Hc Hr ?]. split; try done. cbn. intros i ms Hi.
  destruct (Hcs i) as [(s & Hs & Hci)|[_ Hci]].
  - rewrite Hci in Hi. simplify_eq. destruct (Hp s i Hs) as (_ & k & Hk & Hks & Hw). exists k, s.
    split_and!; [done|done| |].
    + by destruct (ph k).
    + repeat constructor.
  - rewrite Hci in Hi. by apply Hc.
Qed.

Lemma linv_weaken n l : linv n l → linv (S n) l.
Proof. intros [? ? ? ? ? ? ? ?]. split; try done. lia. Qed.

Lemma leader_step_inv n l l' : linv n l → Z.of_nat n < 2 ^ 62 → step l l' → linv (S n) l'.
Proof.
  intros Hl Hn Hstep. destruct Hstep as [l i c out k0 s0 o0 _ _ Hi|l i k Hk Hph|l i k s Hk Hph|l i k s Hk Hph
    |l i k s e Hk Hph|l i k s m ms Hk Hph Hc|l i k s Hk Hph|l i k s o Hk Hph|l m Hr|l i m Hr Hc|l Hr Hc].
  - by apply linv_weaken, call_inv.
  - by eapply take_seq_inv.
  - apply linv_weaken. by eapply register_inv.
  - apply linv_weaken. assert (linv n (set_phase i (PAwait s) l)) as [] by
      (eapply set_phase_inv; try done; [by rewrite Hph|by left]). by split.
  - apply linv_weaken. eapply set_phase_inv; try done; [by rewrite Hph|by left].
  - apply linv_weaken. pose proof (pop_inv n l i m ms Hl Hc) as Hl'.
    eapply set_phase_inv; try done; [by rewrite Hph|by left|]. intros m' [= <-].
    destruct (li_chan _ _ Hl i _ Hc) as (k' & s' & Hk' & Hs' & _ & Hf). rewrite Hk in Hk'. simplify_eq.
    rewrite Hph in Hs'. simplify_eq/=. by inversion Hf.
  - apply linv_weaken. eapply set_phase_inv; try done; [by rewrite Hph|by left].
  - apply linv_weaken. unfold unregister.
    pose proof (delete_pending_inv n l s Hl) as Hl'. eapply set_phase_inv; try done; [by rewrite Hph| |].
    + right. cbn. intros s' [Hne Hs']%lookup_delete_Some.
      destruct (li_pending _ _ Hl s' i Hs') as (_ & k' & Hk' & Hs & _). rewrite Hk in Hk'. simplify_eq.
      rewrite Hph in Hs. by simplify_eq/=.
    + intros m Hm. assert (phase_seq (ph k) = Some (seq_of m)) as Hs.
      { eapply (li_answer _ _ Hl); [done|]. rewrite Hph. done. }
      rewrite Hph in Hs. by simplify_eq/=.
  - apply linv_weaken. by apply receive_inv.
  - apply linv_weaken. by apply deliver_inv.
  - apply linv_weaken. by apply fail_all_inv.
Qed.

Lemma reach_inv input n l : reach input n l → Z.of_nat n < 2 ^ 62 → linv n l.
Proof.
  induction 1 as [|n l l' Hr IH Hs]; intros Hn; [apply initial_inv|].
  eapply leader_step_inv; [apply IH; lia|lia|done].
Qed.

(** ** Theorems *)

(** C15: in every state the leader can get into, whatever the process prints, an
    answer that reached a call carries that call's number, no two calls share a
    number, and neither the reader nor [failAllPending] (which holds the mutex)
    ever blocks on a channel. *)
Theorem answers_reach_their_caller input n l :
  reach input n l → Z.of_nat n < 2 ^ 62 →
  (∀ i k s m, calls l !! i = Some k →
     ph k = PUnregister s (OResponse m) ∨ ph k = PDone s (OResponse m) → seq_of m = s) ∧
  (∀ i j k k' s, calls l !! i = Some k → calls l !! j = Some k' →
     phase_seq (ph k) = Some s → phase_seq (ph k') = Some s → i = j) ∧
  (∀ i m, reader l = RSend i m → can_send l i) ∧
  (∀ s i, pending l !! s = Some i → can_send l i).
Proof.
  intros Hr Hn. pose proof (reach_inv _ _ _ Hr Hn) as Hl. split_and!.
  - intros i k s m Hk Hp.
    assert (phase_seq (ph k) = Some (seq_of m)) as Hs.
    { apply (li_answer _ _ Hl i k m Hk). by destruct Hp as [-> | ->]. }
    by destruct Hp as [Hp|Hp]; rewrite Hp in Hs; simplify_eq/=.
  - apply (li_inj _ _ Hl).
  - intros i m Hm. apply (li_reader _ _ Hl i m Hm).
  - intros s i Hi. apply (li_pending _ _ Hl s i Hi).
Qed.

(** A number is registered only for a call that is still waiting, and each
    for a call of its own; so once every call has returned nothing is left
    registered. *)
Theorem no_leaked_registration input n l :
  reach input n l → Z.of_nat n < 2 ^ 62 →
  (∀ s i, pending l !! s = Some i →
     ∃ k, calls l !! i = Some k ∧ phase_seq (ph k) = Some s ∧ waiting (ph k) = true) ∧
  (∀ s s' i, pending l !! s = Some i → pending l !! s' = Some i → s = s') ∧
  ((∀ i k, calls l !! i = Some k → ∃ s o, ph k = PDone s o) → pending l = ∅).
Proof.
  intros Hr Hn. pose proof (reach_inv _ _ _ Hr Hn) as Hl.
  assert (∀ s i, pending l !! s = Some i →
     ∃ k, calls l !! i = Some k ∧ phase_seq (ph k) = Some s ∧ waiting (ph k) = true) as Hp.
  { intros s i Hi. apply (li_pending _ _ Hl s i Hi). }
  split_and!; [done| |].
  - intros s s' i (k & Hk & Hs & _)%Hp (k' & Hk' & Hs' & _)%Hp. rewrite Hk in Hk'. congruence.
  - intros Hdone. apply map_empty. intros s. destruct (pending l !! s) as [i|] eqn:Hi; [|done].
    destruct (Hp s i Hi) as (k & Hk & _ & Hw). destruct (Hdone i k Hk) as (s' & o & Hph). by rewrite Hph in Hw.
Qed.

Lemma set_phase_self i p l r q :
  calls l !! i = Some (mkCall r q) → calls (set_phase i p l) !! i = Some (mkCall r p).
Proof. intros Hk. rewrite calls_set_phase, Hk. by rewrite decide_True. Qed.

(** [call_ends i r l]: steps of call [i] alone, which is for [r], end it. *)
Definition call_ends (i : nat) (r : request) (l : Leader) : Prop :=
  ∃ l' s o, rtc step l l' ∧ calls l' !! i = Some (mkCall r (PDone s o)) ∧
    (∀ j, j ≠ i → calls l' !! j = calls l !! j) ∧ reader l' = reader l.

Lemma call_ends_step i r p l l1 :
  calls l1 = calls l → reader l1 = reader l → step l (set_phase i p l1) →
  call_ends i r (set_phase i p l1) → call_ends i r l.
Proof.
  intros Hc Hr Hs (l' & s & o & Hsteps & Hi & Hj & Hrd). exists l', s, o.
  split_and!; [by eapply rtc_l|done| |by rewrite Hrd].
  intros j Hne. rewrite Hj, calls_set_phase, Hc by done. by rewrite decide_False.
Qed.

(** By the number of stages the call still has before it. *)
Lemma call_ends_unregister i r l s o : calls l !! i = Some (mkCall r (PUnregister s o)) → call_ends i r l.
Proof.
  intros Hk. eapply call_ends_step; [..|by eapply step_unregister|]; [done|done|].
  eexists _, s, o. split_and!; [done| |done|done].
  exact (set_phase_self i _ (set_pending _ l) _ _ Hk).
Qed.

Lemma call_ends_await i r l s : calls l !! i = Some (mkCall r (PAwait s)) → call_ends i r l.
Proof.
  intros Hk. eapply call_ends_step; [..|by eapply step_timeout|]; [done|done|].
  eapply call_ends_unregister. exact (set_phase_self i _ l _ _ Hk).
Qed.

Lemma call_ends_write i r l s : calls l !! i = Some (mkCall r (PWrite s)) → call_ends i r l.
Proof.
  intros Hk. eapply call_ends_step; [..|by eapply step_write|]; [done|done|].
  eapply call_ends_await. eapply set_phase_self; exact Hk.
Qed.

Lemma call_ends_register i r l s : calls l !! i = Some (mkCall r (PRegister s)) → call_ends i r l.
Proof.
  intros Hk. eapply call_ends_step; [..|by eapply step_register|]; [done|done|].
  eapply call_ends_write. eapply set_phase_self; exact Hk.
Qed.

Lemma call_ends_seq i r l : calls l !! i = Some (mkCall r PSeq) → call_ends i r l.
Proof.
  intros Hk. eapply call_ends_step; [..|by eapply step_seq|]; [done|done|].
  eapply call_ends_register. eapply set_phase_self; exact Hk.
Qed.

End leader.

(** ** A concrete run *)

Definition sample_answer (seq : Z) (pages : Z) : response :=
  list_to_map [("seq", AInt seq); ("status", AStr "ok"); ("page_count", AInt pages)].

Lemma sample_run : ∃ n l, reach "/s/in.docx" n l ∧ Z.of_nat n < 2 ^ 62 ∧
  calls l !! 0%nat = Some (mkCall (RLoad "/s/in.docx") (PDone 0 (OResponse (sample_answer 0 25)))).
Proof.
  eexists 6%nat, _. split; [|split; [done|]].
  - eapply reach_S; [eapply reach_S; [eapply reach_S; [eapply reach_S; [eapply reach_S; [eapply reach_S; [apply reach_0|]|]|]|]|]|].
    + eapply (step_register _ 0); reflexivity.
    + eapply (step_write _ 0); reflexivity.
    + apply (step_line _ (sample_answer 0 25)). reflexivity.
    + eapply (step_deliver _ 0 (sample_answer 0 25)); reflexivity.
    + eapply (step_answer _ 0); reflexivity.
    + eapply (step_unregister _ 0); reflexivity.
  - reflexivity.
Qed.

Example answers_reach_their_caller_witness :
  ∃ n l, reach "/s/in.docx" n l ∧
  ∀ i m, reader l = RSend i m → can_send l i.
Proof.
  destruct sample_run as (n & l & Hr & Hn & _). exists n, l. split; [exact Hr|].
  exact (proj1 (proj2 (proj2 (answers_reach_their_caller "/s/in.docx" n l Hr Hn)))).
Defined.

Example no_leaked_registration_witness :
  ∃ n l, reach "/s/in.docx" n l ∧
  ∀ s s' i, pending l !! s = Some i → pending l !! s' = Some i → s = s'.
Proof.
  destruct sample_run as (n & l & Hr & Hn & _). exists n, l. split; [exact Hr|].
  exact (proj1 (proj2 (no_leaked_registration "/s/in.docx" n l Hr Hn))).
Defined.

