(* ===== verification/Pool.v ===== *)
(** * Worker pools ([internal/worker/pool.go])

    The pool of separate workers: how each worker is started, driven and
    stopped, and how calls check workers out of the channel [available]; and the
    pool around the forked leader of [Leader.v].  What the processes do and how
    the goroutines interleave is arbitrary. *)
From Stdlib Require Import ZArith Lia Bool SpecFloat Ascii String.
From stdpp Require Import base tactics list gmap strings.
From S2P Require Import Prelude GoFloat GoString GoFmt GoTime Types OErrors Config FS Json Worker Leader.
From stdpp Require Import list.
Local Open Scope Z_scope.

Definition forkUnsafeFormats : list FormatName := [FormatXLSX].

(** [os.Getenv] gives the empty string for an unset variable. *)
Definition PoolModeAvailable (env : gmap string string) : bool :=
  negb (String.eqb (default "" (env !! "OFFICE_CONVERT_POOL_MODE")) "0").

Definition ForkAfterLoadEnabled (s : Settings) (format : FormatName) : bool :=
  if existsb (String.eqb format) forkUnsafeFormats then false else ForkAfterLoad s.

(** The command line of [spawnPooledWorker] and [spawnRaw]. *)
Definition pool_argv (s : Settings) (format : FormatName) (extraArgs : list string) : list string :=
  prlimitArgs s (workerBinary s format)
    (["--mode"; "pool"; "--format"; format; "--license-path"; LicensePath s] ++ extraArgs).

(** ** Processes *)

(** A worker process: [running] until it exits or is killed, [reaped] once
    [Wait] has returned, which is when [ProcessState] becomes non-nil. *)
Record Process : Type := mkProcess { running : bool; reaped : bool }.

Definition started : Process := mkProcess true false.
Definition alive (p : Process) : bool := negb (reaped p).

(** [cmd.Process.Kill], and [cmd.Wait], which returns once the process has
    exited. *)
Definition kill_signal (p : Process) : Process := mkProcess false (reaped p).
Definition wait (p : Process) : Process := mkProcess false true.

(** [quit]: the quit command, then up to five seconds, then a kill; [obeys] says
    whether the process exits in time. *)
Definition quit (obeys : bool) (p : Process) : Process :=
  if alive p then wait (if obeys then p else kill_signal p) else p.

Definition kill (p : Process) : Process :=
  wait (if alive p then kill_signal p else p).

(** [ForkedPoolLeader.quit], which waits ten seconds, and [ForkedPoolLeader.kill]. *)
Definition leader_quit (obeys : bool) (p : Process) : Process :=
  if reaped p then p else wait (if obeys then p else kill_signal p).
Definition leader_kill (p : Process) : Process :=
  wait (if reaped p then p else kill_signal p).

(** ** One worker *)

(** What the select of [await] yields: a line, the closed channel, or the timer. *)
Inductive received : Type :=
| RLine (line : string)
| REOF
| RTimer.

Section worker.
Context `{GoArch} (json_error : string → string).

(** [await] and whether it kills the process. *)
Definition await (r : received) (chunk : option Chunk) : result error (gmap string any) * bool :=
  match r with
  | REOF => (Err (EConv (NewRender chunk ExitRenderFailure "worker stdout EOF")), false)
  | RLine line =>
      let '(m, bad) := Unmarshal line in
      if bad then (Err (EConv (NewRender chunk ExitRenderFailure ("invalid worker JSON: " +:+ json_error line))), false)
      else (Ok (default ∅ m), false)
  | RTimer => (Err (EConv (NewRender chunk (-1) "pool worker timeout")), true)
  end.

(** [result["status"] != "ok"] *)
Definition status_ok (m : gmap string any) : bool :=
  match field m "status" with AStr s => String.eqb s "ok" | _ => false end.

(** [LoadDocument] and [RenderChunk] of a worker, given the error of the write,
    if any, and what is received. *)
Definition load_document (write_error : option string) (r : received) : result error Z * bool :=
  match write_error with
  | Some e => (Err (EOther e), false)
  | None =>
      let '(res, killed) := await r None in
      (match res with
       | Err e => Err e
       | Ok m => if status_ok m then Ok (toInt (field m "page_count") 0) else Err (EConv (raiseError m None))
       end, killed)
  end.

Definition render_chunk (write_error : option string) (r : received) (chunk : Chunk) (outputPath : string)
    : result error string * bool :=
  match write_error with
  | Some e => (Err (EOther e), false)
  | None =>
      let '(res, killed) := await r (Some chunk) in
      (match res with
       | Err e => Err e
       | Ok m => if status_ok m then Ok outputPath else Err (EConv (raiseError m (Some chunk)))
       end, killed)
  end.

(** ** Starting a pool *)

(** What the goroutine of [NewWorkerPool] for one index meets: a failed start,
    or a started process and the outcome of its load. *)
Inductive start : Type :=
| SSpawnFailed (e : string)
| SLoad (write_error : option string) (r : received).

(** The goroutine's result and the state of its process: a worker whose load
    fails is killed. *)
Definition start_worker (s : start) : result error Z * option Process :=
  match s with
  | SSpawnFailed e => (Err (EOther e), None)
  | SLoad we r =>
      let '(res, killed) := load_document we r in
      let p := if killed then kill_signal started else started in
      (res, Some (match res with Ok _ => p | Err _ => kill p end))
  end.

Record WorkerPool : Type := mkPool {
  workers : list nat;
  available : list nat;
  pageCount : Z;
  havePages : bool
}.

Definition first_error {A} (results : list (result error A)) : option error :=
  head (omap (λ r, match r with Err e => Some e | Ok _ => None end) results).

(** The indices and page counts of the workers that loaded. *)
Definition successes (results : list (result error Z)) : list (nat * Z) :=
  omap (λ ir, match ir.2 with Ok pages => Some (ir.1, pages) | Err _ => None end)
       (imap (λ i r, (i, r)) results).

(** [NewWorkerPool] over what its goroutines meet: the pool or the first error,
    and the processes. *)
Definition NewWorkerPool (starts : list start) : result error WorkerPool * list (option Process) :=
  let outcomes := start_worker <$> starts in
  let results := outcomes.*1 in
  let ws := successes results in
  match first_error results with
  | Some e =>
      (Err e, imap (λ i p, if existsb (λ w, Nat.eqb w.1 i) ws then kill <$> p else p) outcomes.*2)
  | None =>
      (Ok (mkPool ws.*1 ws.*1 (match ws with [] => 0 | w :: _ => w.2 end) (negb (Nat.eqb (length ws) 0))),
       outcomes.*2)
  end.

Definition ActualPageCount (p : WorkerPool) : Z * bool := (pageCount p, havePages p).

(** [Close]: every worker quits; [obeys i] as in [quit]. *)
Definition Close (obeys : nat → bool) (p : WorkerPool) (procs : list (option Process)) : list (option Process) :=
  imap (λ i q, if existsb (Nat.eqb i) (workers p) then quit (obeys i) <$> q else q) procs.

(** ** The forked pool *)

Record ForkedWorkerPool : Type := mkForked { leader_pages : Z; leader_havePages : bool }.

(** [NewForkedWorkerPool]: [None] for the process when it could not be started;
    [o] is how the load call ends. *)
Definition NewForkedWorkerPool (spawn_error : option string) (o : outcome)
    : result error ForkedWorkerPool * option Process :=
  match spawn_error with
  | Some e => (Err (EOther e), None)
  | None =>
      match LoadDocument o with
      | Err e => (Err e, Some (leader_kill started))
      | Ok pages => (Ok (mkForked pages true), Some started)
      end
  end.

Definition ForkedClose (obeys : bool) (p : option Process) : option Process := leader_quit obeys <$> p.

(** ** Rendering through a pool *)

(** [WorkerPool.RenderChunk]: [cancelled] is the error of the context when it ends
    before a worker is available; else one is checked out, driven and put back. *)
Definition RenderChunk `{FloatFormat} (cancelled write_error : option string) (r : received) (chunk : Chunk)
    (scratchDir : string) : result error string :=
  match cancelled with
  | Some e => Err (EOther e)
  | None => (render_chunk write_error r chunk (chunk_path scratchDir chunk)).1
  end.

Definition ForkedRenderChunk `{FloatFormat} (o : outcome) (chunk : Chunk) (scratchDir : string) : result error string :=
  Leader.RenderChunk o chunk (chunk_path scratchDir chunk).

Definition ForkedActualPageCount (p : ForkedWorkerPool) : Z * bool := (leader_pages p, leader_havePages p).

(** ** Nothing is left running *)

Definition gone (p : option Process) : Prop :=
  match p with None => True | Some p => running p = false ∧ reaped p = true end.

Lemma kill_gone p : gone (Some (kill p)).
Proof. by destruct p. Qed.

Lemma quit_gone obeys : gone (Some (quit obeys started)).
Proof. by destruct obeys. Qed.

(** A goroutine leaves a process exactly when its result is a success. *)
Lemma start_worker_process s :
  match start_worker s with
  | (Ok _, p) => p = Some started
  | (Err _, p) => gone p
  end.
Proof.
  destruct s as [e|we r]; simpl; [done|].
  destruct (load_document we r) as [[pages|e] killed] eqn:Hl.
  - destruct killed; [|done]. unfold load_document in Hl. destruct we; [done|].
    destruct r as [line| |]; simpl in Hl; [|done|done].
    destruct (Unmarshal line) as [m []]; simpl in Hl; simplify_eq.
  - apply kill_gone.
Qed.

Lemma successes_lookup results i pages :
  (i, pages) ∈ successes results ↔ results !! i = Some (Ok pages).
Proof.
  unfold successes. rewrite list_elem_of_omap. split.
  - intros ([j r] & Hin & Hr). apply elem_of_lookup_imap in Hin as (k & r' & [= -> ->] & Hk).
    simpl in Hr. destruct r'; by simplify_eq.
  - intros Hi. exists (i, Ok pages). split; [|done]. apply elem_of_lookup_imap. by exists i, (Ok pages).
Qed.

Lemma first_error_none {A} (results : list (result error A)) :
  first_error results = None ↔ ∀ i e, results !! i ≠ Some (Err e).
Proof.
  unfold first_error. rewrite head_None. split.
  - intros Hn i e Hi. assert (e ∈ omap (λ r : result error A, match r with Err e => Some e | Ok _ => None end) results) as Hin.
    { apply list_elem_of_omap. exists (Err e). split; [by eapply list_elem_of_lookup_2|done]. }
    rewrite Hn in Hin. by apply elem_of_nil in Hin.
  - intros Hall. destruct (omap _ results) as [|e l] eqn:He; [done|].
    assert (e ∈ omap (λ r : result error A, match r with Err e => Some e | Ok _ => None end) results) as Hin
      by (rewrite He; by left).
    apply list_elem_of_omap in Hin as ([a|e'] & Hin & Hr); [done|]. simplify_eq.
    apply list_elem_of_lookup in Hin as [i Hi]. by apply Hall in Hi.
Qed.

Lemma successes_all (pages : list Z) : successes (Ok <$> pages) = imap (λ i p, (i, p)) pages.
Proof.
  unfold successes. change (λ (i : nat) (r : result error Z), (i, r)) with (λ (i : nat) (r : result error Z), (id i, r)).
  change (λ (i : nat) (p : Z), (i, p)) with (λ (i : nat) (p : Z), (id i, p)).
  generalize (@id nat). induction pages as [|p pages IH]; intros f; [done|].
  simpl. f_equal. apply (IH (f ∘ S)).
Qed.

Lemma imap_pair_fst (pages : list Z) : (imap (λ i p, (i, p)) pages).*1 = seq 0 (length pages).
Proof.
  apply list_eq. intros i. rewrite list_lookup_fmap, list_lookup_imap.
  destruct (pages !! i) as [p|] eqn:Hp; simpl.
  - symmetry. apply lookup_seq. split; [done|]. by eapply lookup_lt_Some.
  - symmetry. apply lookup_seq_ge. by apply lookup_ge_None.
Qed.

Lemma all_ok {A} (results : list (result error A)) :
  (∀ i e, results !! i ≠ Some (Err e)) → ∃ l, results = Ok <$> l.
Proof.
  induction results as [|[a|e] rs IH]; intros Hall; [by exists []| |by destruct (Hall 0%nat e)].
  destruct IH as [l ->]; [intros i e Hi; by apply (Hall (S i) e)|]. by exists (a :: l).
Qed.

(** What a goroutine of [NewWorkerPool] leaves. *)
Definition start_ok (o : result error Z * option Process) : Prop :=
  match o with (Ok _, p) => p = Some started | (Err _, p) => gone p end.

Lemma starts_ok starts : Forall start_ok (start_worker <$> starts).
Proof. apply Forall_fmap, Forall_forall. intros s _. apply start_worker_process. Qed.

(** The failing branch of [NewWorkerPool] ends every process. *)
Lemma kill_successes_gone (outcomes : list (result error Z * option Process)) :
  Forall start_ok outcomes →
  Forall gone (imap (λ i p, if existsb (λ w, Nat.eqb w.1 i) (successes outcomes.*1) then kill <$> p else p) outcomes.*2).
Proof.
  intros Hok. apply Forall_lookup_2. intros i q (p & Hp & ->)%list_lookup_imap_Some.
  rewrite list_lookup_fmap in Hp. destruct (outcomes !! i) as [[r p']|] eqn:Ho; [|done]. simplify_eq/=.
  pose proof (Forall_lookup_1 _ _ _ _ Hok Ho) as Hs. destruct (existsb _ _) eqn:Hex.
  - destruct p as [p|]; [apply kill_gone|done].
  - destruct r as [pages|e']; [|done]. exfalso. apply not_true_iff_false in Hex. apply Hex.
    apply existsb_exists. exists (i, pages). split; [|apply Nat.eqb_refl].
    apply list_elem_of_In, successes_lookup. by rewrite list_lookup_fmap, Ho.
Qed.

(** The first error is that of the first failing index. *)
Lemma first_error_first {A} (results : list (result error A)) e :
  first_error results = Some e →
  ∃ i, results !! i = Some (Err e) ∧ ∀ j, (j < i)%nat → ∃ a, results !! j = Some (Ok a).
Proof.
  induction results as [|[a|e'] rs IH]; [done| |].
  - intros (i & Hi & Hj)%IH. exists (S i). split; [done|]. intros [|j] Hlt; [by exists a|]. apply Hj. lia.
  - intros [= ->]. exists 0%nat. split; [done|]. lia.
Qed.

Lemma close_gone obeys p procs :
  Forall (λ q, q = Some started) procs → workers p = seq 0 (length procs) → Forall gone (Close obeys p procs).
Proof.
  intros Hs Hw. apply Forall_lookup_2. unfold Close. intros i q (q' & Hq & ->)%list_lookup_imap_Some.
  rewrite (Forall_lookup_1 _ _ _ _ Hs Hq). rewrite (proj2 (existsb_exists _ _)); [apply quit_gone|].
  exists i. split; [|apply Nat.eqb_refl]. rewrite Hw. apply in_seq. apply lookup_lt_Some in Hq. lia.
Qed.


(** A forked pool that fails to start leaves no process, its error is that of
    the start or of the load call, and a started one ends with the pool. *)
Theorem forked_pool_all_or_nothing spawn_error o obeys :
  let '(r, p) := NewForkedWorkerPool spawn_error o in
  gone (ForkedClose obeys p) ∧
  match r with
  | Err e => gone p ∧ (spawn_error = Some (match e with EOther m => m | EConv _ => "" end) ∨ LoadDocument o = Err e)
  | Ok fp => spawn_error = None ∧ LoadDocument o = Ok (leader_pages fp) ∧ leader_havePages fp = true ∧ p = Some started
  end.
Proof.
  unfold NewForkedWorkerPool. destruct spawn_error as [e|]; [by split_and!; [..|left]|].
  destruct (LoadDocument o) as [pages|e]; (split; [by destruct obeys|]); [done|]. split; [apply kill_gone|by right].
Qed.
End worker.

(** ** Checking workers out *)

(** Where a call of [WorkerPool.RenderChunk] is: in the select, holding a worker,
    or returned. *)
Inductive user : Type :=
| UWaiting
| UHolding (w : nat)
| UCancelled
| UReturned (w : nat).

(** The channel [available] (its capacity is the number of workers), the calls,
    and how often each worker has been handed to one. *)
Record Checkout : Type := mkCheckout {
  channel : list nat;
  users : gmap nat user
}.

Inductive checkout_step (n : nat) : Checkout → Checkout → Prop :=
| co_call c i : users c !! i = None → checkout_step n c (mkCheckout (channel c) (<[i := UWaiting]> (users c)))
| co_take c i w ws :
    users c !! i = Some UWaiting → channel c = w :: ws →
    checkout_step n c (mkCheckout ws (<[i := UHolding w]> (users c)))
| co_cancel c i :
    users c !! i = Some UWaiting → checkout_step n c (mkCheckout (channel c) (<[i := UCancelled]> (users c)))
| co_return c i w :
    users c !! i = Some (UHolding w) → (length (channel c) < n)%nat →
    checkout_step n c (mkCheckout (channel c ++ [w]) (<[i := UReturned w]> (users c))).

(** The state in which [NewWorkerPool] leaves a pool of [n] workers. *)
Definition checkout_start (n : nat) : Checkout := mkCheckout (seq 0 n) ∅.

Record checkout_inv (n : nat) (c : Checkout) : Prop := {
  ci_nodup : NoDup (channel c);
  ci_workers : ∀ w, (w < n)%nat ↔ w ∈ channel c ∨ ∃ i, users c !! i = Some (UHolding w);
  ci_free : ∀ w i, w ∈ channel c → users c !! i ≠ Some (UHolding w);
  ci_once : ∀ w i j, users c !! i = Some (UHolding w) → users c !! j = Some (UHolding w) → i = j
}.

Lemma checkout_start_inv n : checkout_inv n (checkout_start n).
Proof.
  split; simpl.
  - apply NoDup_seq.
  - intros w. rewrite elem_of_seq. split; [left; lia|]. intros [?|[i Hi]]; [lia|by rewrite lookup_empty in Hi].
  - intros w i _. by rewrite lookup_empty.
  - intros w i j Hi. by rewrite lookup_empty in Hi.
Qed.

(** A call that neither held nor comes to hold a worker changes state. *)
Lemma checkout_idle n c i u :
  checkout_inv n c → (∀ w, users c !! i ≠ Some (UHolding w)) → (∀ w, u ≠ UHolding w) →
  checkout_inv n (mkCheckout (channel c) (<[i := u]> (users c))).
Proof.
  intros [Hnd Hw Hf Ho] Hold Hu.
  assert (∀ j w, <[i := u]> (users c) !! j = Some (UHolding w) ↔ users c !! j = Some (UHolding w)) as Heq.
  { intros j w. rewrite lookup_insert_Some. split; [intros [[_ Hx]|[_ ?]]; [by destruct (Hu w)|done]|].
    intros Hj. right. split; [|done]. intros ->. by apply (Hold w). }
  split; simpl; [done| | |].
  - intros w. rewrite Hw. by setoid_rewrite Heq.
  - intros w j Hin. rewrite Heq. by apply Hf.
  - intros w j k. rewrite !Heq. apply Ho.
Qed.

Lemma checkout_step_inv n c c' : checkout_inv n c → checkout_step n c c' → checkout_inv n c'.
Proof.
  intros Hc Hs. destruct Hs as [c i Hi|c i w ws Hi Hch|c i Hi|c i w Hi Hlen].
  - apply checkout_idle; [done|by rewrite Hi|done].
  - destruct Hc as [Hnd Hw Hf Ho]. rewrite Hch in *. apply NoDup_cons in Hnd as [Hnin Hnd]. split; simpl; [done| | |].
    + intros v. rewrite Hw, elem_of_cons. split.
      * intros [[->|Hv]|[j Hj]]; [right; exists i; apply lookup_insert_eq|by left|right].
        exists j. rewrite lookup_insert_ne; [done|]. intros ->. by rewrite Hi in Hj.
      * intros [Hv|[j Hj]]; [by left; right|]. apply lookup_insert_Some in Hj as [[-> [= ->]]|[_ Hj]]; eauto.
    + intros v j Hv [[-> [= ->]]|[_ Hj]]%lookup_insert_Some; [done|]. apply (Hf v j); [by right|done].
    + intros v j k [[-> [= ->]]|[Hij Hj]]%lookup_insert_Some [[-> Heq]|[Hik Hk]]%lookup_insert_Some; try done.
      * exfalso. apply (Hf v k); [by left|done].
      * simplify_eq. exfalso. apply (Hf v j); [by left|done].
      * by eapply Ho.
  - apply checkout_idle; [done|by rewrite Hi|done].
  - destruct Hc as [Hnd Hw Hf Ho]. split; simpl.
    + apply NoDup_app. split_and!; [done| |apply NoDup_singleton].
      intros v Hv ->%list_elem_of_singleton. by apply (Hf w i).
    + intros v. rewrite Hw, elem_of_app, list_elem_of_singleton. split.
      * intros [Hv|[j Hj]]; [by left; left|]. destruct (decide (i = j)) as [<-|Hij].
        -- rewrite Hi in Hj. simplify_eq. by left; right.
        -- right. exists j. by rewrite lookup_insert_ne.
      * intros [[Hv| ->]|[j Hj]]; [by left|by right; exists i|].
        apply lookup_insert_Some in Hj as [[_ Hx]|[_ Hj]]; [done|eauto].
    + intros v j Hv [[_ Hx]|[Hij Hj]]%lookup_insert_Some; [done|].
      apply elem_of_app in Hv as [Hv|Hv%list_elem_of_singleton]; [by apply (Hf v j)|]. subst v.
      apply Hij. by eapply Ho.
    + intros v j k [[_ Hx]|[_ Hj]]%lookup_insert_Some [[_ Hy]|[_ Hk]]%lookup_insert_Some; try done. by eapply Ho.
Qed.

(** However calls overlap and are cancelled, a worker is used by one call at
    a time and never while it lies in the channel; putting it back never blocks;
    and once no call holds one, all workers are available again. *)
Theorem workers_exclusive n c :
  rtc (checkout_step n) (checkout_start n) c →
  NoDup (channel c) ∧
  (∀ w i j, users c !! i = Some (UHolding w) → users c !! j = Some (UHolding w) → i = j) ∧
  (∀ w i, users c !! i = Some (UHolding w) →
     w ∉ channel c ∧ ∃ c', checkout_step n c c' ∧ users c' !! i = Some (UReturned w)) ∧
  ((∀ w i, users c !! i ≠ Some (UHolding w)) → channel c ≡ₚ seq 0 n).
Proof.
  intros Hr. assert (checkout_inv n c) as [Hnd Hw Hf Ho].
  { assert (checkout_inv n (checkout_start n)) as H0 by apply checkout_start_inv.
    revert Hr H0. generalize (checkout_start n).
    induction 1 as [|x y z Hs _ IH]; intros Hx; [done|]. apply IH. by eapply checkout_step_inv. }
  split_and!; [done|done| |].
  - intros w i Hi. assert (w ∉ channel c) as Hnin by (intros Hin; by apply (Hf w i)).
    split; [done|]. eexists. split; [apply (co_return n c i w Hi)|apply lookup_insert_eq].
    assert (w :: channel c ⊆+ seq 0 n) as Hsub.
    { apply NoDup_submseteq; [by constructor|]. intros v [->|Hv]%elem_of_cons; apply elem_of_seq.
      - split; [lia|]. apply Hw. right. by exists i.
      - split; [lia|]. apply Hw. by left. }
    apply submseteq_length in Hsub. rewrite length_seq in Hsub. simpl in Hsub. lia.
  - intros Hnone. apply NoDup_Permutation; [done|apply NoDup_seq|]. intros w.
    rewrite elem_of_seq. split.
    + intros Hin. split; [lia|]. apply Hw. by left.
    + intros [_ Hlt]. apply Hw in Hlt as [?|[i Hi]]; [done|]. by destruct (Hnone w i).
Qed.

Example workers_exclusive_witness :
  let c := mkCheckout [1%nat] (<[0%nat := UHolding 0]> ∅) in
  rtc (checkout_step 2) (checkout_start 2) c ∧ NoDup (channel c).
Proof.
  intros c. assert (rtc (checkout_step 2) (checkout_start 2) c) as Hr.
  { eapply rtc_l; [apply (co_call 2 _ 0); reflexivity|].
    eapply rtc_l; [eapply (co_take 2 _ 0 0 [1%nat]); reflexivity|].
    simpl. rewrite insert_insert_eq. apply rtc_refl. }
  split; [exact Hr|]. exact (proj1 (workers_exclusive 2 c Hr)).
Defined.
