(* ===== verification/Pooled.v ===== *)
(** * One persistent worker and its line protocol ([internal/worker/pool.go])

    [PooledWorker]: the caller that holds the worker writes a command and waits
    in [await]; meanwhile a goroutine moves the lines the process prints into the
    channel [respCh], which holds at most eight.  A run is a list of events in any
    order.  [answers_in_step] says when an answer belongs to the command it is
    taken for; [late_line_answers_next_call] is the case in which it does not. *)
From Stdlib Require Import ZArith Lia Bool SpecFloat Ascii String.
From stdpp Require Import base tactics list gmap strings.
From S2P Require Import Prelude GoFloat GoString GoFmt GoTime Types OErrors Config FS Json Worker.
From S2P Require Ring Progress Leader Pool.
From stdpp Require Import list.
Local Open Scope Z_scope.

(** ** Starting a worker *)

(** The errors of the four calls of [spawnPooledWorker] (and of [spawnRaw]), in
    their order. *)
Record spawn_calls : Type := mkSpawn {
  stdin_pipe : option string;
  stdout_pipe : option string;
  stderr_pipe : option string;
  cmd_start : option string
}.

Definition spawn_error (c : spawn_calls) : option string :=
  match stdin_pipe c, stdout_pipe c, stderr_pipe c, cmd_start c with
  | Some e, _, _, _ => Some e
  | None, Some e, _, _ => Some e
  | None, None, Some e, _ => Some e
  | None, None, None, r => r
  end.

(** ** The state *)

Definition respCh_cap : nat := 8.

(** How a call ends: its write failed, or what [await] received. *)
Inductive ending : Type :=
| EWriteFailed (e : string)
| EReceived (r : Pool.received).

(** The caller: there is none, or it is about to write, or waits. *)
Inductive caller : Type :=
| Idle
| Sending (r : Leader.request)
| Awaiting (r : Leader.request).

(** [commands]: what was written to standard input.  [printed]: every line the
    process printed so far; [out_pipe] are those the goroutine has not read,
    [respCh] those it has put in the channel.  [killed]: the signal was sent.
    [log]: the calls that have ended, oldest first. *)
Record PooledWorker : Type := mkWorker {
  commands : list (list Z);
  exited : bool;
  killed : bool;
  printed : list string;
  out_pipe : list string;
  respCh : list string;
  closed : bool;
  who : caller;
  log : list (Leader.request * ending)
}.

Definition spawned : PooledWorker := mkWorker [] false false [] [] [] false Idle [].

Definition command_of (r : Leader.request) : list (string * json_field) :=
  match r with
  | Leader.RLoad input => Leader.load_command None input
  | Leader.RRender c out => Leader.render_command None c out
  end.

(** ** The events *)

Inductive event : Type :=
| Call (r : Leader.request)
| WriteOk
| WriteFails (e : string)
| TakeLine
| SeeClosed
| TimerFires
| Prints (line : string)
| Exits
| ReadsLine
| ReadsEOF.

Definition ends (e : ending) (kill : bool) (r : Leader.request) (ch : list string) (w : PooledWorker) : PooledWorker :=
  mkWorker (commands w) (exited w) (killed w || kill) (printed w) (out_pipe w) ch (closed w) Idle
    (log w ++ [(r, e)]).

Definition set_who (u : caller) (w : PooledWorker) : PooledWorker :=
  mkWorker (commands w) (exited w) (killed w) (printed w) (out_pipe w) (respCh w) (closed w) u (log w).

(** One event; [None] when it cannot happen.  The channel is closed once the
    stream has ended, and the goroutine waits while the channel is full. *)
Definition step (e : event) (w : PooledWorker) : option PooledWorker :=
  match e, who w with
  | Call r, Idle => Some (set_who (Sending r) w)
  | WriteOk, Sending r =>
      Some (mkWorker (commands w ++ [command_line (command_of r)]) (exited w) (killed w) (printed w) (out_pipe w)
              (respCh w) (closed w) (Awaiting r) (log w))
  | WriteFails m, Sending r => Some (ends (EWriteFailed m) false r (respCh w) w)
  | TakeLine, Awaiting r =>
      match respCh w with
      | l :: ls => Some (ends (EReceived (Pool.RLine l)) false r ls w)
      | [] => None
      end
  | SeeClosed, Awaiting r =>
      if closed w && bool_decide (respCh w = []) then Some (ends (EReceived Pool.REOF) false r [] w) else None
  | TimerFires, Awaiting r => Some (ends (EReceived Pool.RTimer) true r (respCh w) w)
  | Prints l, _ =>
      if exited w || String.eqb l "" then None
      else Some (mkWorker (commands w) false (killed w) (printed w ++ [l]) (out_pipe w ++ [l]) (respCh w)
                   (closed w) (who w) (log w))
  | Exits, _ =>
      Some (mkWorker (commands w) true (killed w) (printed w) (out_pipe w) (respCh w) (closed w) (who w) (log w))
  | ReadsLine, _ =>
      match out_pipe w with
      | l :: ls =>
          if (length (respCh w) <? respCh_cap)%nat
          then Some (mkWorker (commands w) (exited w) (killed w) (printed w) ls (respCh w ++ [l]) (closed w) (who w) (log w))
          else None
      | [] => None
      end
  | ReadsEOF, _ =>
      if exited w && bool_decide (out_pipe w = []) && negb (closed w)
      then Some (mkWorker (commands w) true (killed w) (printed w) [] (respCh w) true (who w) (log w))
      else None
  | _, _ => None
  end.

(** The protocol the workers keep: one line per command, after it was written. *)
Definition answers_commands (e : event) (w : PooledWorker) : bool :=
  match e with Prints _ => (length (printed w) <? length (commands w))%nat | _ => true end.

Fixpoint run (es : list event) (w : PooledWorker) : option PooledWorker :=
  match es with
  | [] => Some w
  | e :: es => if answers_commands e w then w ← step e w; run es w else None
  end.

(** What [LoadDocument] and [RenderChunk] return for an ended call. *)
Definition chunk_result `{GoArch} (json_error : string → string) (e : ending) (chunk : Chunk) (outputPath : string)
    : result error string :=
  match e with
  | EWriteFailed m => (Pool.render_chunk json_error (Some m) Pool.REOF chunk outputPath).1
  | EReceived r => (Pool.render_chunk json_error None r chunk outputPath).1
  end.

(** ** The standard error of a worker *)

(** Every line until the end of the stream goes to [handleStderrLine], the
    unterminated rest last, under the index of the pool and not the line's. *)
Fixpoint stderr_lines (fuel : nat) (l : list Z) : list (list Z) :=
  match fuel with
  | O => []
  | S fuel =>
      match readLine l with
      | Line line rest => line :: stderr_lines fuel rest
      | AtEOF line => [line]
      end
  end.

(** [readStderr] on a whole stream; line [k] is handled at [now k]. *)
Definition readStderr `{GoArch} (now : nat → Time * Time) (format : FormatName) (pid poolIndex : Z) (requestID : string)
    (useMsgIndex : bool) (stores : Stores) (stream : list Z) : option Stores :=
  foldl (λ acc kl, s ← acc;
           handleStderrLine (now kl.1).1 (now kl.1).2 format pid poolIndex requestID s useMsgIndex (of_bytes kl.2))
    (Some stores) (imap pair (stderr_lines (S (length stream)) stream)).

(** ** The log *)

Definition received_of (lg : list (Leader.request * ending)) : list (Leader.request * Pool.received) :=
  omap (λ re, match re.2 with EReceived r => Some (re.1, r) | EWriteFailed _ => None end) lg.

Definition lines_of (lg : list (Leader.request * Pool.received)) : list string :=
  omap (λ re, match re.2 with Pool.RLine l => Some l | _ => None end) lg.

Definition pending_command (u : caller) : list (list Z) :=
  match u with Awaiting r => [command_line (command_of r)] | _ => [] end.

Definition timed (re : Leader.request * ending) : bool :=
  match re.2 with EReceived Pool.RTimer => true | _ => false end.

Definition eofs (n : nat) : list Pool.received := replicate n Pool.REOF.

Record winv (w : PooledWorker) : Prop := {
  wi_fifo : lines_of (received_of (log w)) ++ respCh w ++ out_pipe w = printed w;
  wi_cap : (length (respCh w) <= respCh_cap)%nat;
  wi_commands : ((λ r, command_line (command_of r)) <$> (received_of (log w)).*1) ++ pending_command (who w) = commands w;
  wi_closed : closed w = true → out_pipe w = [] ∧ exited w = true;
  wi_demand : (length (printed w) <= length (commands w))%nat;
  wi_killed : killed w = false → ∃ n,
    (received_of (log w)).*2 = (Pool.RLine <$> lines_of (received_of (log w))) ++ eofs n ∧
    (n = 0%nat ∨ closed w = true ∧ respCh w = []);
  wi_timer : killed w = existsb timed (log w)
}.

Lemma received_snoc lg r e :
  received_of (lg ++ [(r, e)]) =
  received_of lg ++ match e with EReceived x => [(r, x)] | EWriteFailed _ => [] end.
Proof. unfold received_of. rewrite omap_app. by destruct e. Qed.

Lemma lines_snoc lg r x :
  lines_of (lg ++ [(r, x)]) = lines_of lg ++ match x with Pool.RLine l => [l] | _ => [] end.
Proof. unfold lines_of. rewrite omap_app. by destruct x. Qed.

Lemma eofs_snoc n : eofs n ++ [Pool.REOF] = eofs (S n).
Proof. unfold eofs. by rewrite <- replicate_cons_app. Qed.

#[local] Arguments command_line : simpl never.
#[local] Arguments Nat.ltb : simpl never.

Lemma spawned_inv : winv spawned.
Proof. split; cbn; try done; [unfold respCh_cap; lia|]. intros _. exists 0%nat. by split; [|left]. Qed.

#[local] Hint Rewrite received_snoc lines_snoc : log.
#[local] Hint Rewrite @fmap_app @app_nil_r : log.

(** A call that ends: what was received joins the log. *)
Lemma ends_inv e kill r ch w :
  winv w → kill = timed (r, e) →
  (match e with EReceived _ => who w = Awaiting r | EWriteFailed _ => who w = Sending r end) →
  (match e with
   | EReceived (Pool.RLine l) => respCh w = l :: ch
   | EReceived Pool.REOF => closed w = true ∧ respCh w = [] ∧ ch = []
   | EReceived Pool.RTimer | EWriteFailed _ => ch = respCh w
   end) → winv (ends e kill r ch w).
Proof.
  intros [Hf Hc Hcmd Hcl Hd Hk Ht] -> Hw Hch. unfold ends.
  assert (killed w || timed (r, e) = existsb timed (log w ++ [(r, e)])) as Ht'
    by (rewrite existsb_app; cbn; by rewrite orb_false_r, Ht).
  assert (∀ k, killed w || k = false → killed w = false) as Hor by (intros k [? _]%orb_false_iff; done).
  destruct e as [m|[l| |]]; rewrite Hw in Hcmd; cbn in Hcmd.
  - subst ch. split; cbn; autorewrite with log; cbn; rewrite ?app_nil_r in *; try done. intros Hk'%Hor. by apply Hk.
  - split; cbn; autorewrite with log; cbn; rewrite ?app_nil_r in *; try done.
    + rewrite <- Hf, Hch. by rewrite <- app_assoc.
    + rewrite Hch in Hc. cbn in Hc. lia.
    + intros Hk'%Hor. destruct (Hk Hk') as (n & Hn & [->|[_ Hnil]]); [|congruence].
      exists 0%nat. split; [|by left]. rewrite Hn. cbn. by rewrite !app_nil_r.
  - destruct Hch as (Hclo & Hnil & ->). rewrite Hnil in Hf.
    split; cbn; autorewrite with log; cbn; rewrite ?app_nil_r in *; try done; [lia|].
    intros Hk'%Hor. destruct (Hk Hk') as (n & Hn & _). exists (S n). split; [|by right].
    rewrite Hn, <- app_assoc. f_equal. apply eofs_snoc.
  - subst ch. split; cbn; autorewrite with log; cbn; rewrite ?app_nil_r in *; try done.
    rewrite orb_true_r. by intros.
Qed.

Lemma pooled_step_inv e w w' : winv w → answers_commands e w = true → step e w = Some w' → winv w'.
Proof.
  intros Hi Ha Hs. pose proof Hi as [Hf Hc Hcmd Hcl Hd Hk Ht].
  destruct e as [r'|m|m| | | |l| | |]; cbn in Hs.
  1-6: destruct (who w) as [|r|r] eqn:Hw; try done.
  - simplify_eq. split; cbn; try done.
  - simplify_eq. split; cbn; try done; [by rewrite <- Hcmd; cbn; rewrite app_nil_r|rewrite length_app; cbn; lia].
  - simplify_eq. by apply ends_inv.
  - destruct (respCh w) as [|l ls] eqn:Hr; simplify_eq. by apply ends_inv.
  - destruct (closed w) eqn:Hclo; [|done]. cbn in Hs. case_bool_decide; simplify_eq. by apply ends_inv.
  - simplify_eq. by apply ends_inv.
  - destruct (exited w || String.eqb l "") eqn:Hx; simplify_eq. apply orb_false_iff in Hx as [Hx _].
    apply Nat.ltb_lt in Ha. split; cbn; try done; [by rewrite <- Hf, !app_assoc| |rewrite length_app; cbn; lia].
    intros Hclo. destruct (Hcl Hclo). congruence.
  - simplify_eq. split; cbn; try done. intros Hclo. by destruct (Hcl Hclo).
  - destruct (out_pipe w) as [|l ls] eqn:Ho; [done|]. destruct (Nat.ltb_spec (length (respCh w)) respCh_cap); simplify_eq.
    assert (closed w = false) as Hclo by (destruct (closed w); [by destruct (Hcl eq_refl)|done]).
    split; cbn; try done; [by rewrite <- Hf, <- app_assoc|rewrite length_app; cbn; lia| |].
    { intros Hx. congruence. }
    intros Hk'. destruct (Hk Hk') as (n & Hn & [->|[? _]]); [|congruence]. exists 0%nat. by split; [|left].
  - destruct (exited w) eqn:Hx; [|done]. cbn in Hs. case_bool_decide as Ho; [|done]. cbn in Hs.
    destruct (closed w) eqn:Hclo; [done|]. cbn in Hs. simplify_eq. rewrite Ho in *. split; cbn; try done.
    intros Hk'. destruct (Hk Hk') as (n & Hn & [->|[? _]]); [|congruence]. exists 0%nat. by split; [|left].
Qed.

Lemma run_inv es : ∀ w w', winv w → run es w = Some w' → winv w'.
Proof.
  induction es as [|e es IH]; intros w w' Hi Hr; cbn in Hr; [by simplify_eq|].
  destruct (answers_commands e w) eqn:Ha; [|done].
  apply bind_Some in Hr as (w1 & Hs & Hr). apply (IH w1); [|done]. by eapply pooled_step_inv.
Qed.

(** ** Answers and commands *)

(** The first entries of an untimed log are its lines. *)
Lemma line_entry (lg : list (Leader.request * Pool.received)) n k r l :
  lg.*2 = (Pool.RLine <$> lines_of lg) ++ eofs n → lg !! k = Some (r, Pool.RLine l) → lines_of lg !! k = Some l.
Proof.
  intros Hlg Hk. assert (lg.*2 !! k = Some (Pool.RLine l)) as H2 by (by rewrite list_lookup_fmap, Hk).
  rewrite Hlg in H2. apply lookup_app_Some in H2 as [H2|[_ H2]].
  - rewrite list_lookup_fmap in H2. by destruct (lines_of lg !! k); simplify_eq/=.
  - unfold eofs in H2. by apply lookup_replicate in H2 as [? _].
Qed.

Lemma one_in_flight w : winv w → killed w = false → (length (respCh w) + length (out_pipe w) <= 1)%nat.
Proof.
  intros [Hf Hc Hcmd Hcl Hd Hk _] Hkl. destruct (Hk Hkl) as (n & Hlog & Hn).
  assert (length (received_of (log w)) = length (lines_of (received_of (log w))) + n)%nat as Hlen.
  { rewrite <- (length_fmap snd), Hlog, length_app, length_fmap. unfold eofs. by rewrite length_replicate. }
  apply (f_equal length) in Hf, Hcmd. rewrite !length_app, !length_fmap in *.
  assert (length (pending_command (who w)) <= 1)%nat by (destruct (who w); cbn; lia).
  destruct Hn as [->|[Hclo Hresp]]; [lia|]. destruct (Hcl Hclo) as [Ho _]. rewrite Hresp, Ho. cbn. lia.
Qed.

Section answers.
Context `{GoArch} (json_error : string → string).

Lemma chunk_result_ok e chunk out p :
  chunk_result json_error e chunk out = Ok p →
  p = out ∧ ∃ l m, e = EReceived (Pool.RLine l) ∧ Unmarshal l = (m, false) ∧ Pool.status_ok (default ∅ m) = true.
Proof.
  unfold chunk_result, Pool.render_chunk, Pool.await. destruct e as [m|[l| |]]; cbn; try done.
  destruct (Unmarshal l) as [m []] eqn:Hu; cbn; [done|]. destruct (Pool.status_ok _) eqn:Hs; [|done].
  intros [= <-]. split; [done|]. by exists l, m.
Qed.

(** C13: a worker that prints one line per command keeps its answers in step with
    its commands until one of its calls times out, however the caller, the
    process and the reading goroutine interleave: the k-th command written is the
    one whose call takes the k-th line printed, a chunk is reported as rendered
    only when that line says ok, and after the end of the output every call is
    told so.  At most one line is on its way at any moment, so the goroutine never
    waits for the channel; and the process has been killed exactly when a call of
    the log timed out. *)
Theorem answers_in_step es w :
  run es spawned = Some w →
  (killed w = false →
   (∀ k r l, received_of (log w) !! k = Some (r, Pool.RLine l) →
      printed w !! k = Some l ∧ commands w !! k = Some (command_line (command_of r))) ∧
   (∀ k c out x p, received_of (log w) !! k = Some (Leader.RRender c out, x) →
      chunk_result json_error (EReceived x) c out = Ok p →
      p = out ∧ ∃ l m, printed w !! k = Some l ∧ Unmarshal l = (m, false) ∧ Pool.status_ok (default ∅ m) = true) ∧
   (∀ j k r x, received_of (log w) !! j = Some (r, Pool.REOF) → (j < k)%nat →
      (received_of (log w)).*2 !! k = Some x → x = Pool.REOF) ∧
   (length (respCh w) + length (out_pipe w) <= 1)%nat ∧
   (out_pipe w ≠ [] → is_Some (step ReadsLine w))) ∧
  killed w = existsb timed (log w).
Proof.
  intros Hr. pose proof (run_inv es _ _ spawned_inv Hr) as Hi. pose proof Hi as [Hf Hc Hcmd Hcl Hd Hk Ht]. split; [|done]. intros Hkl.
  destruct (Hk Hkl) as (n & Hlog & Hn).
  assert (∀ k r l, received_of (log w) !! k = Some (r, Pool.RLine l) →
    printed w !! k = Some l ∧ commands w !! k = Some (command_line (command_of r))) as Hline.
  { intros k r l Hkr. rewrite <- Hf, <- Hcmd. split; apply lookup_app_l_Some; [by eapply line_entry|].
    by rewrite list_lookup_fmap, list_lookup_fmap, Hkr. }
  split_and!; [exact Hline| | | |].
  - intros k c out x p Hkx (-> & l & m & [= ->] & Hu & Hs)%chunk_result_ok. split; [done|]. exists l, m.
    split_and!; [by eapply Hline|done|done].
  - intros j k r x Hj Hlt Hx. assert ((received_of (log w)).*2 !! j = Some Pool.REOF) as Hj2 by (by rewrite list_lookup_fmap, Hj).
    rewrite Hlog in Hj2, Hx. apply lookup_app_Some in Hj2 as [Hj2|[Hj2 _]].
    + rewrite list_lookup_fmap in Hj2. by destruct (lines_of _ !! j).
    + rewrite lookup_app_r in Hx by lia. by apply lookup_replicate in Hx as [-> _].
  - by apply one_in_flight.
  - intros Hne. pose proof (one_in_flight w Hi Hkl) as H1. cbn. destruct (out_pipe w) as [|l ls]; [done|]. cbn in H1.
    rewrite (proj2 (Nat.ltb_lt _ _)); [done|unfold respCh_cap; lia].
Qed.
End answers.

(** ** The standard error *)

Definition ring_within (m : Z) (r : Ring.RingStore) : Prop := Ring.ring_inv r ∧ Ring.max r = m.
Definition stores_within (hb tm : Z) (s : Stores) : Prop :=
  ring_within hb (Heartbeats s) ∧ ring_within tm (Timings s).

Lemma record_within m t rid ev r :
  ring_within m r → ∃ r', Ring.Record_ t rid ev r = Some r' ∧ ring_within m r'.
Proof.
  intros [Hi Hm]. destruct (Ring.step_inv r (Ring.ORecord t rid ev) Hi) as (r' & Hr & Hi' & Hm' & _).
  exists r'. split; [done|]. split; [done|congruence].
Qed.

Lemma handle_within `{GoArch} hb tm t1 t2 format pid idx rid s useMsg raw :
  stores_within hb tm s →
  ∃ s', handleStderrLine t1 t2 format pid idx rid s useMsg raw = Some s' ∧ stores_within hb tm s'.
Proof.
  intros [Hh Ht]. unfold handleStderrLine. assert (stores_within hb tm s) as Hs by done.
  destruct (stderr_message raw) as [msg|]; [|by exists s].
  destruct (field msg "type") as [| | | |ty| | | |]; try by exists s.
  repeat case_match; try (by eexists).
  - edestruct (record_within hb) as (r & -> & Hr); [done|]. by eexists.
  - edestruct (record_within tm) as (r & -> & Hr); [done|]. by eexists.
Qed.

(** A worker's standard error never panics and keeps the bounds of the stores,
    whatever bytes come. *)
Lemma read_stderr_within `{GoArch} hb tm now format pid idx rid useMsg stores stream :
  stores_within hb tm stores →
  ∃ s', readStderr now format pid idx rid useMsg stores stream = Some s' ∧ stores_within hb tm s'.
Proof.
  unfold readStderr. generalize (imap pair (stderr_lines (S (length stream)) stream)). intros lines.
  revert stores. induction lines as [|[k line] lines IH]; intros s Hs; cbn; [by exists s|].
  destruct (handle_within hb tm (now k).1 (now k).2 format pid idx rid s useMsg (of_bytes line) Hs) as (s' & -> & Hs').
  by apply IH.
Qed.

(** ** Concrete runs *)

Definition ok_line : string := of_bytes (Marshal [("status", JStr "ok")]).
Definition loaded_line : string := of_bytes (Marshal [("page_count", JInt 12); ("status", JStr "ok")]).
Definition first_chunk : Chunk := mkChunk (f64_of_Z 0) 1 6 false.
Definition second_chunk : Chunk := mkChunk (f64_of_Z 1) 7 12 false.

Definition loads : list event :=
  [Call (Leader.RLoad "/s/in.docx"); WriteOk; Prints loaded_line; ReadsLine; TakeLine].
Definition renders (c : Chunk) (out : string) : list event :=
  [Call (Leader.RRender c out); WriteOk; Prints ok_line; ReadsLine; TakeLine].

(** The line of a render that timed out lies in the channel when the next render
    of the worker waits. *)
Definition late_run : list event :=
  loads ++ [Call (Leader.RRender first_chunk "/s/chunk-0.0.pdf"); WriteOk; Prints ok_line; ReadsLine; TimerFires;
            Call (Leader.RRender second_chunk "/s/chunk-1.0.pdf"); WriteOk; TakeLine].

Lemma answers_in_step_witness :
  ∃ w, run (loads ++ renders second_chunk "/s/chunk-1.0.pdf") spawned = Some w ∧ killed w = false ∧
    received_of (log w) !! 1%nat = Some (Leader.RRender second_chunk "/s/chunk-1.0.pdf", Pool.RLine ok_line) ∧
    printed w !! 1%nat = Some ok_line.
Proof.
  destruct (run (loads ++ renders second_chunk "/s/chunk-1.0.pdf") spawned) as [w|] eqn:Hr;
    [|exfalso; vm_compute in Hr; discriminate].
  pose proof (answers_in_step (λ _, "") (loads ++ renders second_chunk "/s/chunk-1.0.pdf") w Hr) as [Hw _].
  assert (killed w = false ∧ received_of (log w) !! 1%nat =
    Some (Leader.RRender second_chunk "/s/chunk-1.0.pdf", Pool.RLine ok_line)) as [Hk Hrec].
  { vm_compute in Hr. injection Hr as <-. vm_compute. split; reflexivity. }
  exists w. split_and!; [reflexivity|exact Hk|exact Hrec|]. destruct (Hw Hk) as [Hl _]. apply (Hl _ _ _ Hrec).
Defined.

Section sample.
Context `{GoArch}.

(** After a timeout the worker goes back to the pool, and the next render on it
    can be given the late line: it is reported as rendered although the worker
    has been killed and has answered one render only. *)
Lemma late_line_answers_next_call json_error :
  ∃ w, run late_run spawned = Some w ∧ killed w = true ∧ length (printed w) = 2%nat ∧
    ∃ e, last (log w) = Some (Leader.RRender second_chunk "/s/chunk-1.0.pdf", e) ∧
      chunk_result json_error e second_chunk "/s/chunk-1.0.pdf" = Ok "/s/chunk-1.0.pdf".
Proof.
  destruct (run late_run spawned) as [w|] eqn:Hr; [|exfalso; vm_compute in Hr; discriminate].
  assert (killed w = true ∧ length (printed w) = 2%nat ∧
    last (log w) = Some (Leader.RRender second_chunk "/s/chunk-1.0.pdf", EReceived (Pool.RLine ok_line))) as (Hk & Hp & Hl).
  { vm_compute in Hr. injection Hr as <-. split_and!; vm_compute; reflexivity. }
  exists w. split_and!; [reflexivity|done|done|]. eexists. split; [exact Hl|]. vm_compute. reflexivity.
Qed.
End sample.
