(* ===== verification/Probe.v ===== *)
(** * Format detection and the page probe ([internal/probe])

    The format of an upload by its first bytes, the content of its archive or
    compound file, or its name; the page count by the document's own metadata,
    or by the worker's probe with one retry under the format its error hints at.
    The ZIP reader, the XML decoder and [qpdf --show-npages] are arguments. *)
From Stdlib Require Import ZArith Lia Bool SpecFloat Ascii String.
From stdpp Require Import base tactics list gmap strings.
From S2P Require Import Prelude GoFloat GoString GoFmt Types OErrors Config FS Json.
From S2P Require Worker.
From stdpp Require Import list.
Local Open Scope Z_scope.

(** An archive entry: its name and its content, [None] when it cannot be read. *)
Definition zip_entry : Type := string * option string.

(** What the readers of the standard library and [qpdf] make of a file's
    content: the entries of an archive, the [Pages] and [Slides] elements of an
    [app.xml] ([None] for malformed XML), the output of [qpdf --show-npages]
    ([None] when it fails), the text of a JSON error. *)
Class Readers := {
  open_zip : string → option (list zip_entry);
  app_props : string → option (option Z * option Z);
  show_npages : string → gmap string string → option string;
  json_error : string → string
}.

(** ** Tables *)

Definition AcceptedUploadFormats : list string :=
  ["docx"; "pptx"; "xlsx"; "pdf"; "doc"; "xls"; "ppt"; "csv"; "rtf";
   "odt"; "ods"; "odp"; "odg"; "png"; "jpg"; "jpeg"; "tiff"; "tif";
   "gif"; "bmp"; "webp"; "svg"; "eml"].

Definition pdfMagic : list Z := bytes "%PDF-".
Definition zipMagic : list Z := [80; 75; 3; 4].
Definition ole2Magic : list Z := [208; 207; 17; 224; 161; 177; 26; 225].
Definition rtfMagic : list Z := bytes "{\rtf".
Definition pngMagic : list Z := [137; 80; 78; 71; 13; 10; 26; 10].
Definition jpegMagic : list Z := [255; 216; 255].
Definition gif87Magic : list Z := bytes "GIF87a".
Definition gif89Magic : list Z := bytes "GIF89a".
Definition bmpMagic : list Z := bytes "BM".
Definition tiffLE : list Z := bytes "II*" ++ [0].
Definition tiffBE : list Z := bytes "MM" ++ [0; 42].
Definition riffMagic : list Z := bytes "RIFF".
Definition webpTag : list Z := bytes "WEBP".

Definition emlHeaderPrefixes : list string :=
  ["received:"; "return-path:"; "delivered-to:"; "message-id:";
   "date:"; "from:"; "to:"; "subject:"; "mime-version:"; "x-"].

Definition ooxmlContentTypeToFormat : list (string * FormatName) :=
  [("application/vnd.openxmlformats-officedocument.wordprocessingml.document.main+xml", FormatDOCX);
   ("application/vnd.openxmlformats-officedocument.presentationml.presentation.main+xml", FormatPPTX);
   ("application/vnd.openxmlformats-officedocument.spreadsheetml.sheet.main+xml", FormatXLSX)].

Definition odfMimetypeToFormat : gmap string DispatchFormat := list_to_map
  [("application/vnd.oasis.opendocument.text", DispatchDOCX);
   ("application/vnd.oasis.opendocument.spreadsheet", DispatchXLSX);
   ("application/vnd.oasis.opendocument.presentation", DispatchPPTX);
   ("application/vnd.oasis.opendocument.graphics", DispatchODG)].

Definition unrenderableODFSubtypes : gmap string string := list_to_map
  [("application/vnd.oasis.opendocument.formula", "OpenDocument Formula (.odf)");
   ("application/vnd.oasis.opendocument.base", "OpenDocument Base (.odb)")].

(** The two-byte characters of a text, without the last zero byte. *)
Fixpoint wide (l : list Z) : list Z :=
  match l with [] => [] | [b] => [b] | b :: l => b :: 0 :: wide l end.

Definition ole2StreamSignatures : list (list Z * FormatName) :=
  [(wide (bytes "PowerPoint Document"), FormatPPTX); (wide (bytes "WordDocument"), FormatDOCX);
   (wide (bytes "Workbook"), FormatXLSX); (wide (bytes "Book"), FormatXLSX)].

Definition ole2ExtToFormat : gmap string FormatName := list_to_map
  [("doc", FormatDOCX); ("dot", FormatDOCX); ("xls", FormatXLSX); ("xlt", FormatXLSX); ("xlm", FormatXLSX);
   ("ppt", FormatPPTX); ("pot", FormatPPTX); ("pps", FormatPPTX)].

(** ** Bytes *)

(** [bytes.HasPrefix], [bytes.Contains]. *)
Fixpoint starts_with (l p : list Z) : bool :=
  match p, l with
  | [], _ => true
  | b :: p, c :: l => (b =? c) && starts_with l p
  | _, [] => false
  end.
Fixpoint contains_bytes (l sub : list Z) : bool :=
  starts_with l sub || match l with [] => false | _ :: l => contains_bytes l sub end.

Definition first (l : list Z) (n : nat) : list Z := take n l.

(** [bytes.TrimLeft] by the byte order mark, whose three bytes are one rune, and
    by ASCII white space. *)
Definition bom : list Z := [239; 187; 191].
Fixpoint trim_boms_fuel (n : nat) (l : list Z) : list Z :=
  match n with
  | O => l
  | S n => if starts_with l bom then trim_boms_fuel n (drop 3 l) else l
  end.
Definition trim_boms (l : list Z) : list Z := trim_boms_fuel (length l) l.
Definition ascii_space (b : Z) : bool := (b =? 32) || in_range 9 b 13.
Fixpoint trim_ascii_space (l : list Z) : list Z :=
  match l with b :: l' => if ascii_space b then trim_ascii_space l' else l | [] => [] end.

(** [hex.EncodeToString] *)
Definition hex_bytes (l : list Z) : string := of_bytes (mjoin ((λ b, [hex_digit (b / 16); hex_digit (b mod 16)]) <$> l)).

(** What follows the last dot of a name, in lower case. *)
Definition lower_extension `{UnicodeTables} (filename : string) : option string :=
  i ← last_index_byte filename "."%char; Some (to_lower (str_drop (S i) filename)).

(** ** Detection *)

Section detect.
Context `{UnicodeTables} `{Readers}.

Definition unsupported (magic reason : string) : Error := NewUnsupportedFormat magic AcceptedUploadFormats reason.

(** [bytes.TrimPrefix] takes one byte order mark. *)
Definition LooksLikeHTML (magicBytes : list Z) : bool :=
  let head := first magicBytes 1024 in
  let head := if starts_with head bom then drop 3 head else head in
  let head := trim_ascii_space head in
  let lower := bytes_to_lower (first head 64) in
  starts_with lower (bytes "<!doctype html") || starts_with lower (bytes "<html").

Definition hasHTMLExtension (filename : string) : bool :=
  match lower_extension filename with
  | Some ext => String.eqb ext "html" || String.eqb ext "htm"
  | None => false
  end.

Definition IsHTMLUpload (head : list Z) (filename : string) : bool := LooksLikeHTML head || hasHTMLExtension filename.

Fixpoint before_newline (l : list Z) : list Z :=
  match l with [] => [] | b :: l => if b =? 10 then [] else b :: before_newline l end.

Definition looksLikeEML (magicBytes : list Z) : bool :=
  let head := trim_ascii_space (trim_boms (first magicBytes 1024)) in
  if negb (contains_bytes (first head 200) (bytes ": ")) then false
  else
    let lower := bytes_to_lower (before_newline head) in
    existsb (λ p, starts_with lower (bytes p)) emlHeaderPrefixes.

Definition looksLikeSVG (magicBytes : list Z) : bool :=
  let head := first magicBytes 512 in
  let trimmed := trim_ascii_space (trim_boms head) in
  (starts_with trimmed (bytes "<?xml") || starts_with trimmed (bytes "<svg")) &&
  contains_bytes (bytes_to_lower head) (bytes "<svg").

Definition detectImageFormat (m : list Z) : DispatchFormat :=
  if starts_with m pngMagic then DispatchPNG
  else if starts_with m jpegMagic then DispatchJPG
  else if starts_with m gif87Magic || starts_with m gif89Magic then DispatchGIF
  else if starts_with m bmpMagic then DispatchBMP
  else if starts_with m tiffLE || starts_with m tiffBE then DispatchTIFF
  else if starts_with m riffMagic && contains_bytes (first m 16) webpTag then DispatchWEBP
  else if looksLikeSVG m then DispatchSVG
  else "".

Definition containsFmt (fs : list FormatName) (want : FormatName) : bool := existsb (String.eqb want) fs.

(** The stream names found in the first half megabyte. *)
Definition ole2_found (head : list Z) : list FormatName :=
  (List.filter (λ s, contains_bytes head s.1) ole2StreamSignatures).*2.

Definition ole2_priority (found : list FormatName) : option FormatName :=
  match found with
  | [] => None
  | f :: _ =>
      Some (if containsFmt found FormatDOCX then FormatDOCX
            else if containsFmt found FormatPPTX then FormatPPTX
            else if containsFmt found FormatXLSX then FormatXLSX
            else f)
  end.

Definition ole2_by_name (filename : string) : result Error FormatName :=
  match (if String.eqb filename "" then None else lower_extension filename ≫= λ ext, ole2ExtToFormat !! ext) with
  | Some f => Ok f
  | None => Err (unsupported (hex_bytes ole2Magic) "")
  end.

Definition classifyOLE2 (sourcePath filename : string) : IO (result Error FormatName) :=
  head ← (if String.eqb sourcePath "" then mret None else os_open sourcePath);
  mret (match head ≫= λ h, ole2_priority (ole2_found (first (bytes h) (Z.to_nat 524288))) with
        | Some f => Ok f
        | None => ole2_by_name filename
        end).

Definition classifyByContentTypes (content : string) : FormatName :=
  match List.find (λ e, GoString.contains content e.1) ooxmlContentTypeToFormat with
  | Some e => e.2
  | None => FormatDOCX
  end.

Definition readZipEntry (f : zip_entry) : string := default "" f.2.

(** The loop over the entries, [contentTypes] so far. *)
Fixpoint inspect_entries (contentTypes : string) (es : list zip_entry) : result Error DispatchFormat :=
  match es with
  | [] => Ok (if String.eqb contentTypes "" then DispatchDOCX else classifyByContentTypes contentTypes)
  | f :: es =>
      if String.eqb f.1 "mimetype" then
        let mimetype := trim_space (readZipEntry f) in
        match odfMimetypeToFormat !! mimetype, unrenderableODFSubtypes !! mimetype with
        | Some fm, _ => Ok fm
        | None, Some reason => Err (unsupported mimetype (reason +:+ " is not supported by Aspose.Total C++"))
        | None, None => inspect_entries contentTypes es
        end
      else if String.eqb f.1 "[Content_Types].xml" then inspect_entries (readZipEntry f) es
      else inspect_entries contentTypes es
  end.

(** [zip.OpenReader] *)
Definition zip_open (path : string) : IO (option (list zip_entry)) :=
  c ← os_open path; mret (c ≫= open_zip).

Definition inspectOOXMLPath (path : string) : IO (result Error DispatchFormat) :=
  zr ← zip_open path;
  mret (match zr with None => Ok DispatchDOCX | Some es => inspect_entries "" es end).

Definition inspectOOXMLPrefix (prefix : list Z) : FormatName :=
  match open_zip (of_bytes prefix) with
  | None => FormatDOCX
  | Some es =>
      match List.find (λ f, String.eqb f.1 "[Content_Types].xml") es with
      | Some f => classifyByContentTypes (readZipEntry f)
      | None => FormatDOCX
      end
  end.

(** The sniffs of what has no magic bytes, and the name. *)
Definition detect_text (m : list Z) (filename : string) : result Error DispatchFormat :=
  let img := detectImageFormat m in
  if negb (String.eqb img "") then Ok img
  else if LooksLikeHTML m then Ok DispatchHTML
  else if looksLikeEML m then Ok DispatchEML
  else if hasHTMLExtension filename then Ok DispatchHTML
  else Err (unsupported (hex_bytes (first m 8)) "").

Definition DetectFormat (m : list Z) (sourcePath filename : string) : IO (result Error DispatchFormat) :=
  match m with
  | [] => mret (Err (unsupported "(empty)" ""))
  | _ =>
      if starts_with m pdfMagic then mret (Ok DispatchPDF)
      else if starts_with m zipMagic then
        (if String.eqb sourcePath "" then mret (Ok (inspectOOXMLPrefix m)) else inspectOOXMLPath sourcePath)
      else if starts_with m ole2Magic then classifyOLE2 sourcePath filename
      else if starts_with m rtfMagic then mret (Ok DispatchDOCX)
      else mret (detect_text m filename)
  end.
End detect.

(** ** The worker's answer *)

Record probeJSON : Type := mkJSON {
  jPageCount : option Z;
  jFormat : string;
  jNaturalSeams : list (list Z);
  jSizeBytes : option Z
}.

(** The folding [encoding/json] compares field names by: ASCII letters, and the
    two other characters that fold to one. *)
Definition fold_rune (r : Z) : Z :=
  if in_range 97 r 122 then r - 32 else if r =? 383 then 83 else if r =? 8490 then 75 else r.
Definition fold_name (k : string) : list Z := fold_rune <$> runes (bytes k).

(** A value stored into a field of each type: the new content, and whether the
    value did not fit. *)
Definition store_int (v : any) (old : option Z) : option Z * bool :=
  match v with ANil => (None, false) | AInt z => (Some z, false) | _ => (old, true) end.
Definition store_string (v : any) (old : string) : string * bool :=
  match v with ANil => (old, false) | AStr s => (s, false) | _ => (old, true) end.
Definition store_elem (v : any) : Z * bool :=
  match v with ANil => (0, false) | AInt z => (z, false) | _ => (0, true) end.
Definition store_row (v : any) : list Z * bool :=
  match v with
  | ANil => ([], false)
  | AList vs => ((store_elem <$> vs).*1, existsb snd (store_elem <$> vs))
  | _ => ([], true)
  end.
Definition store_rows (v : any) (old : list (list Z)) : list (list Z) * bool :=
  match v with
  | ANil => ([], false)
  | AList vs => ((store_row <$> vs).*1, existsb snd (store_row <$> vs))
  | _ => (old, true)
  end.

Definition store_field (st : probeJSON * bool) (kv : string * any) : probeJSON * bool :=
  let '(d, bad) := st in
  let '(k, v) := kv in
  if decide (fold_name k = bytes "PAGE_COUNT") then
    let '(n, b) := store_int v (jPageCount d) in
    (mkJSON n (jFormat d) (jNaturalSeams d) (jSizeBytes d), bad || b)
  else if decide (fold_name k = bytes "FORMAT") then
    let '(f, b) := store_string v (jFormat d) in
    (mkJSON (jPageCount d) f (jNaturalSeams d) (jSizeBytes d), bad || b)
  else if decide (fold_name k = bytes "NATURAL_SEAMS") then
    let '(rows, b) := store_rows v (jNaturalSeams d) in
    (mkJSON (jPageCount d) (jFormat d) rows (jSizeBytes d), bad || b)
  else if decide (fold_name k = bytes "SIZE_BYTES") then
    let '(n, b) := store_int v (jSizeBytes d) in
    (mkJSON (jPageCount d) (jFormat d) (jNaturalSeams d) n, bad || b)
  else st.

(** [json.Unmarshal] into the struct; [None] is an error.  A field that occurs
    twice keeps the last value; a [null] inside the rows is a zero, as it is
    where the field occurs once. *)
Definition decode_probe (text : string) : option probeJSON :=
  let l := bytes text in
  match parse_value int_number (2 * length l + 2) 0 l with
  | Some (v, _, rest) =>
      match skip_space rest, v with
      | [], AObj ms =>
          let '(d, bad) := foldl store_field (mkJSON None "" [] None, false) ms in
          if bad : bool then None else Some d
      | [], ANil => Some (mkJSON None "" [] None)
      | _, _ => None
      end
  | None => None
  end.

Definition seam_of (row : list Z) : option (Z * Z) := match row with a :: b :: _ => Some (a, b) | _ => None end.

Definition ParseProbeJSON `{Readers} (stdout : string) : result Error ProbeResult :=
  match decode_probe stdout with
  | None => Err (NewInputUnprocessable ("worker returned invalid JSON: " +:+ json_error stdout))
  | Some d =>
      match jPageCount d, jSizeBytes d, String.eqb (jFormat d) "" with
      | Some n, Some size, false => Ok (mkProbe n (jFormat d) (omap seam_of (jNaturalSeams d)) size)
      | _, _, _ => Err (NewInputUnprocessable "worker probe JSON missing field")
      end
  end.

(** ** The metadata probe *)

Definition staleMetadataSizeThreshold : Z := 200000.

Definition bytesPerPageEstimate : gmap string Z := list_to_map
  [(FormatDOCX, 20000); (FormatPPTX, 100000); (FormatXLSX, 50000); (FormatPDF, 30000)].

Definition estimatePagesFromSize (size : Z) (format : FormatName) : Z :=
  let bpp := default 20000 (bytesPerPageEstimate !! format) in
  let est := Z.quot size bpp in
  if est <? 1 then 1 else est.

(** The expression [^\s*(\d+)\s*$]; white space in it is tab, newline, form feed,
    carriage return and blank. *)
Definition re_space (b : Z) : bool := (b =? 9) || (b =? 10) || (b =? 12) || (b =? 13) || (b =? 32).
Fixpoint skip_re_space (l : list Z) : list Z :=
  match l with b :: l' => if re_space b then skip_re_space l' else l | [] => [] end.
Definition qpdfNPagesRE (out : string) : option string :=
  let '(ds, rest) := span_digits (skip_re_space (bytes out)) in
  match ds, skip_re_space rest with
  | _ :: _, [] => Some (of_bytes ds)
  | _, _ => None
  end.

Section probe.
Context `{UnicodeTables} `{Readers} `{Worker.Workers}.

(** The first [app.xml]; the zero counts are the failures. *)
Definition ooxmlCount (path : string) (slides : bool) : IO Z :=
  zr ← zip_open path;
  mret (match zr ≫= List.find (λ f, String.eqb f.1 "docProps/app.xml") with
        | Some (_, Some data) =>
            match app_props data with
            | Some (pages, sl) => default 0 (if slides : bool then sl else pages)
            | None => 0
            end
        | _ => 0
        end).

Definition is_slide (f : zip_entry) : bool := has_prefix f.1 "ppt/slides/slide" && has_suffix f.1 ".xml".
Definition pptxSlideCountFromZip (path : string) : IO Z :=
  zr ← zip_open path;
  mret (match zr with Some es => Z.of_nat (length (List.filter is_slide es)) | None => 0 end).

Definition qpdfPageCount (path : string) : IO Z :=
  fs ← get_files;
  mret (match show_npages path fs with
        | None => 0
        | Some out => default 0 (qpdfNPagesRE out ≫= parse_int)
        end).

(** [os.Stat] on a file. *)
Definition os_size (path : string) : IO (option Z) :=
  bad ← faulty; fs ← get_files; mret (if bad : bool then None else str_len <$> fs !! path).

Definition lite_docx (path : string) (size : Z) : IO Z :=
  c ← ooxmlCount path false;
  mret (if c <=? 0 then estimatePagesFromSize size FormatDOCX
        else if (c =? 1) && (staleMetadataSizeThreshold <? size) then estimatePagesFromSize size FormatDOCX
        else c).

Definition lite_pptx (path : string) (size : Z) : IO Z :=
  n ← ooxmlCount path true;
  n ← (if n <=? 0 then pptxSlideCountFromZip path else mret n);
  mret (if n <=? 0 then estimatePagesFromSize size FormatPPTX else n).

Definition ProbeLite (inputPath : string) (format : FormatName) : IO (option ProbeResult) :=
  size ← os_size inputPath;
  match size with
  | None => mret None
  | Some size =>
      n ← (if String.eqb format FormatDOCX then lite_docx inputPath size
           else if String.eqb format FormatPPTX then lite_pptx inputPath size
           else if String.eqb format FormatPDF then qpdfPageCount inputPath
           else mret 0);
      mret (if n <=? 0 then None else Some (mkProbe n format [] size))
  end.

(** ** The worker's probe *)

Definition mismatchRetryFormat (errMsg : string) (format : FormatName) : FormatName :=
  if GoString.contains errMsg "word doc" && negb (String.eqb format FormatDOCX) then FormatDOCX
  else if GoString.contains errMsg "excel" || (GoString.contains errMsg "workbook" && negb (String.eqb format FormatXLSX))
  then FormatXLSX
  else if GoString.contains errMsg "powerpoint" ||
    (GoString.contains errMsg "presentation" && negb (String.eqb format FormatPPTX))
  then FormatPPTX
  else "".

(** One run of the worker in probe mode: its standard output and its error.  In
    this mode [RunWorker] does not panic, so the last case is not taken. *)
Definition run_probe (s : Settings) (inputPath : string) (format : FormatName) : IO (string * option Error) :=
  r ← Worker.RunWorker s "probe" inputPath format "" None None;
  mret (match r with Some (out, _, e) => (out, e) | None => ("", None) end).

(** The second run, under the format the error hints at. *)
Definition probe_retry (s : Settings) (inputPath : string) (retry : FormatName) : IO (option ProbeResult) :=
  '(out, e) ← run_probe s inputPath retry;
  mret (match e with
        | Some _ => None
        | None => match ParseProbeJSON out with
                  | Ok pr => Some (mkProbe (PageCount pr) retry (NaturalSeams pr) (SizeBytes pr))
                  | Err _ => None
                  end
        end).

Definition Probe (s : Settings) (inputPath : string) (format : FormatName) : IO (result Error ProbeResult) :=
  lite ← ProbeLite inputPath format;
  match lite with
  | Some pr => mret (Ok pr)
  | None =>
      '(out, e) ← run_probe s inputPath format;
      match e with
      | None => mret (ParseProbeJSON out)
      | Some e =>
          let retry :=
            if decide (EFailureClass e = InputUnprocessable) then mismatchRetryFormat (to_lower (Msg e)) format else "" in
          if String.eqb retry "" then mret (Err e)
          else
            pr ← probe_retry s inputPath retry;
            mret (match pr with Some pr => Ok pr | None => Err e end)
      end
  end.
End probe.

(** ** Detection: the answers *)

Definition dispatch_formats : list DispatchFormat :=
  [DispatchDOCX; DispatchPPTX; DispatchXLSX; DispatchPDF; DispatchODG; DispatchPNG; DispatchJPG; DispatchTIFF;
   DispatchGIF; DispatchBMP; DispatchWEBP; DispatchSVG; DispatchEML; DispatchHTML].

(** A detection gives one of the formats the dispatcher knows, or says that the
    format is not supported. *)
Definition known_or_unsupported (r : result Error DispatchFormat) : Prop :=
  match r with
  | Ok f => f ∈ dispatch_formats
  | Err e => EFailureClass e = UnsupportedFormat ∧ HTTPStatus e = 400
  end.

#[local] Ltac known := apply (bool_decide_unpack (_ ∈ dispatch_formats)); reflexivity.

Lemma unsupported_class magic reason :
  EFailureClass (unsupported magic reason) = UnsupportedFormat ∧ HTTPStatus (unsupported magic reason) = 400.
Proof. unfold unsupported, NewUnsupportedFormat. by destruct (String.eqb reason ""). Qed.

Lemma ooxml_type_known content : classifyByContentTypes content ∈ dispatch_formats.
Proof.
  unfold classifyByContentTypes, ooxmlContentTypeToFormat. cbn [List.find].
  repeat case_match; simplify_eq; known.
Qed.

Lemma map_values_known {A} (l : list (string * A)) (P : A → Prop) k v :
  Forall P l.*2 → (list_to_map l : gmap string A) !! k = Some v → P v.
Proof.
  intros Hall Hk. apply elem_of_list_to_map_2 in Hk. rewrite Forall_forall in Hall. apply Hall.
  apply list_elem_of_fmap. by exists (k, v).
Qed.

Lemma inspect_entries_known types es : known_or_unsupported (inspect_entries types es).
Proof.
  revert types. induction es as [|f es IH]; intros types; simpl.
  - destruct (String.eqb types ""); [known|apply ooxml_type_known].
  - destruct (String.eqb f.1 "mimetype").
    + destruct (odfMimetypeToFormat !! _) as [fm|] eqn:Ho.
      * eapply (map_values_known _ (λ f, f ∈ dispatch_formats)); [|exact Ho]. repeat constructor; known.
      * destruct (unrenderableODFSubtypes !! _); [apply unsupported_class|apply IH].
    + destruct (String.eqb f.1 _); apply IH.
Qed.

Lemma os_open_files p w : let '(_, w') := os_open p w in files w' = files w.
Proof. unfold os_open, mbind, io_bind, mret, io_ret, get_files, faulty. by destruct (faults w). Qed.

Section detection.
Context `{UnicodeTables} `{Readers}.

Lemma image_known m : detectImageFormat m = "" ∨ detectImageFormat m ∈ dispatch_formats.
Proof.
  unfold detectImageFormat. repeat match goal with |- context [if ?b then _ else _] => destruct b end;
    try (by left); right; known.
Qed.

Lemma detect_text_known m filename : known_or_unsupported (detect_text m filename).
Proof.
  unfold detect_text. destruct (String.eqb_spec (detectImageFormat m) "") as [He|Hne]; simpl.
  - repeat match goal with |- context [if ?b then _ else _] => destruct b end; try known. apply unsupported_class.
  - by destruct (image_known m).
Qed.

Lemma ole2_priority_spec found :
  Forall (λ f, f ∈ [FormatDOCX; FormatPPTX; FormatXLSX]) found →
  ole2_priority found =
    if decide (FormatDOCX ∈ found) then Some FormatDOCX
    else if decide (FormatPPTX ∈ found) then Some FormatPPTX
    else if decide (FormatXLSX ∈ found) then Some FormatXLSX else None.
Proof.
  intros Hall. assert (∀ f, containsFmt found f = bool_decide (f ∈ found)) as Hc.
  { intros f. apply eq_true_iff_eq. rewrite bool_decide_eq_true. unfold containsFmt. rewrite existsb_exists. split.
    - intros (g & Hg & ->%String.eqb_eq). by apply list_elem_of_In.
    - intros Hf. exists f. split; [by apply list_elem_of_In|by apply String.eqb_refl]. }
  unfold ole2_priority. rewrite !Hc. destruct found as [|f fs]; [done|].
  rewrite <- !decide_bool_decide. repeat case_decide; try done.
  apply Forall_cons in Hall as [Hf _]. set_solver.
Qed.

Lemma ole2_found_formats head : Forall (λ f, f ∈ [FormatDOCX; FormatPPTX; FormatXLSX]) (ole2_found head).
Proof.
  unfold ole2_found. apply Forall_fmap, Forall_forall. intros s Hs%list_elem_of_In%filter_In.
  destruct Hs as [Hs _]. simpl in Hs. destruct Hs as [<-|[<-|[<-|[<-|[]]]]]; simpl; set_solver.
Qed.

Lemma ole2_by_name_known filename : known_or_unsupported (ole2_by_name filename).
Proof.
  unfold ole2_by_name. destruct (if String.eqb filename "" then _ else _) as [f|] eqn:Hf; [|apply unsupported_class].
  destruct (String.eqb filename ""); [done|]. destruct (lower_extension filename) as [ext|]; [|done]. simpl in Hf.
  eapply (map_values_known _ (λ f, f ∈ dispatch_formats)); [|exact Hf]. repeat constructor; known.
Qed.

End detection.

(** ** Detection: what is recognised *)

Lemma starts_with_app p l : starts_with (p ++ l) p = true.
Proof. induction p as [|b p IH]; [by destruct l|]. simpl. by rewrite Z.eqb_refl, IH. Qed.

Lemma starts_with_take n l p : starts_with (take n l) p = true → starts_with l p = true.
Proof.
  revert n l. induction p as [|b p IH]; intros n l; [by destruct l|]. destruct n as [|n], l as [|c l]; try done.
  simpl. intros [-> Hp]%andb_true_iff. simpl. by eapply IH.
Qed.

Lemma starts_with_head b p c l : b ≠ c → starts_with (c :: l) (b :: p) = false.
Proof. intros Hne. simpl. by rewrite (proj2 (Z.eqb_neq b c)). Qed.

Lemma trim_space_take ws l n :
  Forall (λ b, ascii_space b = true) ws →
  trim_ascii_space (take n (ws ++ l)) = trim_ascii_space (take (n - length ws) l).
Proof.
  revert n. induction ws as [|b ws IH]; intros n Hall; [by rewrite Nat.sub_0_r|].
  apply Forall_cons in Hall as [Hb Hall]. destruct n as [|n]; [done|]. simpl. by rewrite Hb, IH.
Qed.

Lemma trim_space_none b l : ascii_space b = false → trim_ascii_space (b :: l) = b :: l.
Proof. intros Hb. simpl. by rewrite Hb. Qed.

Lemma trim_boms_none b l : b ≠ 239 → trim_boms (b :: l) = b :: l.
Proof.
  intros Hb. unfold trim_boms. cbn [length trim_boms_fuel]. unfold bom. by rewrite starts_with_head.
Qed.

Lemma trim_boms_enough n m l : (length l <= n)%nat → (length l <= m)%nat → trim_boms_fuel n l = trim_boms_fuel m l.
Proof.
  revert m l. induction n as [|n IH]; intros [|m] l Hn Hm; try done.
  - destruct l; [done|simpl in Hn; lia].
  - destruct l; [done|simpl in Hm; lia].
  - cbn [trim_boms_fuel]. destruct (starts_with l bom) eqn:Hb; [|done]. destruct l as [|b l]; [done|].
    apply IH; rewrite length_drop; simpl in *; lia.
Qed.

Lemma trim_boms_bom l : trim_boms (bom ++ l) = trim_boms l.
Proof.
  transitivity (trim_boms_fuel (S (S (length l))) l); [|apply trim_boms_enough; lia].
  unfold trim_boms. change (length (bom ++ l)) with (S (S (S (length l)))).
  generalize (S (S (length l))). intros n. cbn [trim_boms_fuel]. by rewrite starts_with_app.
Qed.

Section recognition.
Context `{UnicodeTables} `{Readers}.

Lemma lower_ascii_app tag l :
  Forall (λ b, 0 <= b < 128) tag → bytes_to_lower (tag ++ l) = (ascii_lower <$> tag) ++ bytes_to_lower l.
Proof.
  induction 1 as [|b tag Hb _ IH]; [done|]. rewrite <- app_comm_cons, fmap_cons, <- app_comm_cons, <- IH.
  change (b :: tag ++ l) with ([b] ++ (tag ++ l)). generalize (tag ++ l). intros k. unfold bytes_to_lower, runes.
  cbn [app length runes_fuel]. rewrite decode_ascii by lia. cbn [drop]. rewrite fmap_cons.
  unfold rune_lower at 1. rewrite (proj2 (Z.ltb_lt b 128)) by lia.
  rewrite encode_rune_ascii; [done|]. unfold ascii_lower, in_range. case_match; lia.
Qed.

(** An opening tag of an HTML document, in any case. *)
Definition html_tag (tag : list Z) : Prop :=
  ascii_lower <$> tag = bytes "<!doctype html" ∨ ascii_lower <$> tag = bytes "<html".

Lemma html_tag_form tag :
  html_tag tag → ∃ c tag', tag = 60 :: c :: tag' ∧ c ≠ 115 ∧ c ≠ 63 ∧ Forall (λ b, 0 <= b < 128) tag ∧
    (length tag <= 14)%nat.
Proof.
  intros Htag.
  assert (∀ b c, ascii_lower b = c → 33 <= c < 128 → 0 <= b < 128) as Hrange.
  { intros b c Hb Hc. unfold ascii_lower, in_range in Hb. case_match; lia. }
  assert (Forall (λ b, 0 <= b < 128) tag ∧ (length tag <= 14)%nat) as [Hall Hlen].
  { rewrite <- (length_fmap ascii_lower tag). split; [|by destruct Htag as [-> | ->]; vm_compute; lia].
    assert (Forall (λ c, 32 <= c < 128) (ascii_lower <$> tag)) as Hc.
    { destruct Htag as [-> | ->]; vm_compute; repeat constructor; done. }
    rewrite Forall_fmap in Hc. eapply Forall_impl; [exact Hc|]. intros b Hb. simpl in Hb.
    unfold ascii_lower, in_range in Hb. case_match; lia. }
  assert (∃ x y l, tag = x :: y :: l ∧ ascii_lower x = 60 ∧ (ascii_lower y = 33 ∨ ascii_lower y = 104)) as
    (x & y & l & -> & Hx & Hy).
  { destruct tag as [|x [|y l]]; [by destruct Htag|by destruct Htag|].
    exists x, y, l. destruct Htag as [Ht|Ht]; injection Ht as Hx Hy _; rewrite Hx, Hy; vm_compute; auto. }
  exists y, l. unfold ascii_lower, in_range in Hx, Hy. split_and!; try done.
  - f_equal. repeat case_match; lia.
  - repeat case_match; lia.
  - repeat case_match; lia.
Qed.

Lemma html_sniff pre ws tag rest :
  pre = [] ∨ pre = bom → Forall (λ b, ascii_space b = true) ws → html_tag tag →
  (length pre + length ws + length tag <= 1024)%nat →
  LooksLikeHTML (pre ++ ws ++ tag ++ rest) = true.
Proof.
  intros Hpre Hws Htag Hlen. destruct (html_tag_form tag Htag) as (c & tag' & Ht & _ & _ & Hascii & Hlt).
  unfold LooksLikeHTML, first.
  assert ((if starts_with (take 1024 (pre ++ ws ++ tag ++ rest)) bom then drop 3 (take 1024 (pre ++ ws ++ tag ++ rest))
           else take 1024 (pre ++ ws ++ tag ++ rest)) = take (1024 - length pre) (ws ++ tag ++ rest)) as ->.
  { destruct Hpre as [-> | ->].
    - cbn [app length]. rewrite Nat.sub_0_r. destruct (starts_with _ bom) eqn:Hb; [|done].
      apply starts_with_take in Hb. destruct ws as [|w ws].
      + rewrite Ht in Hb. done.
      + apply Forall_cons in Hws as [Hw _]. cbn [app starts_with bom] in Hb. apply andb_true_iff in Hb as [Hb _].
        apply Z.eqb_eq in Hb. subst w. done.
    - rewrite take_app_ge by (simpl; lia). by rewrite starts_with_app. }
  rewrite trim_space_take by done. rewrite take_app_ge by lia.
  assert (∀ l, trim_ascii_space (tag ++ l) = tag ++ l) as -> by (intros l; by rewrite Ht).
  rewrite take_app_ge by lia. rewrite lower_ascii_app by done.
  destruct Htag as [-> | ->]; rewrite starts_with_app; [done|apply orb_true_r].
Qed.

Lemma svg_sniff_no pre ws tag rest :
  pre = [] ∨ pre = bom → Forall (λ b, ascii_space b = true) ws → html_tag tag →
  looksLikeSVG (pre ++ ws ++ tag ++ rest) = false.
Proof.
  intros Hpre Hws Htag. destruct (html_tag_form tag Htag) as (c & tag' & Ht & Hc & Hc' & _).
  unfold looksLikeSVG, first. assert (3 <= 512)%nat as Hn by lia. revert Hn. generalize 512%nat. intros n Hn.
  assert (∃ k, trim_ascii_space (trim_boms (take n (pre ++ ws ++ tag ++ rest))) = trim_ascii_space (take k (tag ++ rest)))
    as [k ->].
  { assert (∀ n, trim_boms (take n (ws ++ tag ++ rest)) = take n (ws ++ tag ++ rest)) as Hno.
    { intros [|m]; [done|]. destruct ws as [|b ws].
      - rewrite Ht. by apply trim_boms_none.
      - apply Forall_cons in Hws as [Hb _]. apply trim_boms_none. intros ->. done. }
    destruct Hpre as [-> | ->]; cbn [app].
    - rewrite Hno, trim_space_take by done. by eexists.
    - destruct n as [|[|[|n]]]; [lia..|].
      change (take (S (S (S n))) (bom ++ ws ++ tag ++ rest)) with (bom ++ take n (ws ++ tag ++ rest)).
      exists (n - length ws)%nat. rewrite <- (trim_space_take ws) by done. f_equal.
      by rewrite trim_boms_bom, Hno. }
  assert (∀ p d, d ≠ c → starts_with (trim_ascii_space (take k (tag ++ rest))) (60 :: d :: p) = false) as Hsw.
  { intros p d Hd. rewrite Ht. destruct k as [|[|k]]; [done|done|]. cbn [take app].
    rewrite trim_space_none by done. cbn [starts_with]. by rewrite (proj2 (Z.eqb_neq d c)). }
  change (bytes "<?xml") with (60 :: 63 :: bytes "xml"). change (bytes "<svg") with (60 :: 115 :: bytes "vg").
  by rewrite !Hsw by done.
Qed.

(** An upload that starts with an HTML tag, in any case and after at most one
    byte order mark and any ASCII white space within the first kilobyte, is
    taken for HTML under every name, without a look at the file. *)
Theorem html_recognised pre ws tag rest path filename w :
  pre = [] ∨ pre = bom → Forall (λ b, ascii_space b = true) ws → html_tag tag →
  (length pre + length ws + length tag <= 1024)%nat →
  DetectFormat (pre ++ ws ++ tag ++ rest) path filename w = (Ok DispatchHTML, w).
Proof.
  intros Hpre Hws Htag Hlen. pose proof (html_sniff pre ws tag rest Hpre Hws Htag Hlen) as Hsniff.
  pose proof (svg_sniff_no pre ws tag rest Hpre Hws Htag) as Hsvg.
  assert (∃ b l, pre ++ ws ++ tag ++ rest = b :: l ∧ (b = 239 ∨ ascii_space b = true ∨ b = 60)) as (b & l & Hl & Hb).
  { destruct (html_tag_form tag Htag) as (c & tag' & -> & _).
    destruct Hpre as [-> | ->]; [|by eexists _, _; split; [|left]].
    destruct ws as [|b ws]; [by eexists _, _; split; [|right; right]|].
    apply Forall_cons in Hws as [Hb _]. by eexists _, _; split; [|right; left]. }
  assert (∀ p, match p with d :: _ => (d =? 239) || ascii_space d || (d =? 60) | [] => true end = false →
    starts_with (b :: l) p = false) as Hsw.
  { intros [|d p] Hd; [done|]. apply starts_with_head. intros ->. destruct Hb as [-> | [Hb| ->]]; [done| |done].
    rewrite Hb, orb_true_r in Hd. done. }
  rewrite Hl in *. unfold DetectFormat.
  assert (detectImageFormat (b :: l) = "") as Himg.
  { unfold detectImageFormat. rewrite Hsvg. by rewrite !Hsw by reflexivity. }
  assert (detect_text (b :: l) filename = Ok DispatchHTML) as Htext.
  { unfold detect_text. by rewrite Himg, Hsniff. }
  rewrite Htext. by rewrite !Hsw by reflexivity.
Qed.
End recognition.

(** ** The worker's answer is read back *)

Definition quoted (s : string) : list Z := 34 :: bytes s ++ [34].
Definition row_bytes (s : Z * Z) : list Z := 91 :: bytes (itoa s.1) ++ 44 :: bytes (itoa s.2) ++ [93].
Fixpoint rows_bytes (seams : list (Z * Z)) : list Z :=
  match seams with
  | [] => [93]
  | s :: ss => row_bytes s ++ match ss with [] => [93] | _ => 44 :: rows_bytes ss end
  end.

(** The text of an answer, as the worker prints it. *)
Definition probe_text (pr : ProbeResult) : list Z :=
  123 :: quoted "page_count" ++ 58 :: bytes (itoa (PageCount pr)) ++
  44 :: quoted "format" ++ 58 :: quoted (Format pr) ++
  44 :: quoted "natural_seams" ++ 58 :: 91 :: rows_bytes (NaturalSeams pr) ++
  44 :: quoted "size_bytes" ++ 58 :: bytes (itoa (SizeBytes pr)) ++ [125].

Lemma itoa_head z : ∃ b l, bytes (itoa z) = b :: l ∧ (b = 45 ∨ 48 <= b <= 57).
Proof.
  rewrite bytes_itoa. destruct (Z.ltb_spec z 0); [by eexists _, _; split; [|left]|].
  destruct (nat_digits_spec z) as [Hv Hf]; [lia|]. destruct (nat_digits z) as [|b l]; [done|].
  apply Forall_cons in Hf as [Hb _]. by eexists _, _; split; [|right].
Qed.

Lemma parse_value_int f depth z c r :
  in_i64 z → delimiter c →
  parse_value int_number (S f) depth (bytes (itoa z) ++ c :: r) = Some (AInt z, false, c :: r).
Proof.
  intros Hz Hc. pose proof (int_number_itoa z c r Hz Hc) as Hn. destruct (itoa_head z) as (b & l & Hb & Hr).
  rewrite Hb in *. cbn [app parse_value] in *.
  assert (skip_space (b :: l ++ c :: r) = b :: l ++ c :: r) as ->.
  { cbn [skip_space]. by rewrite !(proj2 (Z.eqb_neq b _)) by lia. }
  unfold parse_scalar. by rewrite !(proj2 (Z.eqb_neq b _)) by lia.
Qed.

Lemma parse_value_str f depth s r :
  plain_string s → parse_value int_number (S f) depth (quoted s ++ r) = Some (AStr s, false, r).
Proof.
  intros Hs. unfold quoted. cbn [app parse_value skip_space]. unfold parse_scalar. cbn [Z.eqb Pos.eqb orb].
  rewrite <- app_assoc. cbn [app]. rewrite parse_string_plain; [|done|].
  - cbn [mbind option_bind]. by rewrite of_bytes_bytes.
  - rewrite length_app, bytes_length. lia.
Qed.

Lemma parse_key_plain k r : plain_string k → parse_key (quoted k ++ 58 :: r) = Some (k, r).
Proof.
  intros Hk. unfold quoted, parse_key. cbn [app skip_space]. cbn [Z.eqb Pos.eqb orb].
  rewrite <- app_assoc. cbn [app]. rewrite parse_string_plain; [|done|].
  - cbn [mbind option_bind skip_space Z.eqb Pos.eqb orb]. by rewrite of_bytes_bytes.
  - rewrite length_app, bytes_length. lia.
Qed.

Lemma itoa_not_bracket z r c : c = 93 ∨ c = 125 → head (skip_space (bytes (itoa z) ++ r)) ≠ Some c.
Proof.
  intros Hc. destruct (itoa_head z) as (b & l & -> & Hb). cbn [app skip_space].
  rewrite !(proj2 (Z.eqb_neq b _)) by lia. cbn. intros [= ->]. lia.
Qed.

Definition seam_ok (s : Z * Z) : Prop := in_i64 s.1 ∧ in_i64 s.2.

Lemma parse_row f depth s r :
  seam_ok s → depth < max_nesting →
  parse_value int_number (S (S (S (S f)))) depth (row_bytes s ++ r) = Some (AList [AInt s.1; AInt s.2], false, r).
Proof.
  intros [H1 H2] Hd. unfold row_bytes. cbn [app]. remember (S (S (S f))) as g eqn:Hg. cbn [parse_value skip_space].
  cbn [Z.eqb Pos.eqb orb]. rewrite (proj2 (Z.ltb_ge max_nesting (depth + 1))) by lia.
  rewrite <- !app_assoc. cbn [app]. rewrite <- app_assoc. cbn [app].
  rewrite decide_False by (apply itoa_not_bracket; by left).
  subst g. remember (S (S f)) as g eqn:Hg. cbn [parse_elements]. subst g.
  rewrite parse_value_int by (done || by left). cbn [mbind option_bind skip_space Z.eqb Pos.eqb orb].
  cbn [parse_elements]. rewrite parse_value_int by (done || by right; left).
  done.
Qed.

Lemma parse_rows s seams f depth r :
  seam_ok s → Forall seam_ok seams → depth < max_nesting → (length seams + 5 <= f)%nat →
  parse_elements int_number f depth (rows_bytes (s :: seams) ++ r) =
    Some ((λ s, AList [AInt s.1; AInt s.2]) <$> s :: seams, false, r).
Proof.
  intros Hs Hall Hd. revert s f Hs. induction Hall as [|s' ss Hs' Hss IH]; intros s f Hs Hf; simpl in Hf;
    do 5 (destruct f as [|f]; [lia|]).
  - change (rows_bytes [s] ++ r) with ((row_bytes s ++ [93]) ++ r). rewrite <- app_assoc.
    remember (S (S (S (S f)))) as g eqn:Hg. cbn [parse_elements]. subst g. by rewrite parse_row.
  - change (rows_bytes (s :: s' :: ss)) with (row_bytes s ++ 44 :: rows_bytes (s' :: ss)). rewrite <- app_assoc.
    remember (S (S (S (S f)))) as g eqn:Hg. cbn [parse_elements]. subst g. rewrite parse_row by done.
    cbn [mbind option_bind skip_space app Z.eqb Pos.eqb orb].
    rewrite IH by (done || lia). done.
Qed.

Lemma row_head seams r : ∃ l, rows_bytes seams ++ r = (match seams with [] => 93 | _ => 91 end) :: l.
Proof. destruct seams as [|s ss]; simpl; by eexists. Qed.

Lemma parse_seams f depth seams r :
  Forall seam_ok seams → depth + 1 < max_nesting → (length seams + 5 <= f)%nat →
  parse_value int_number (S f) depth (91 :: rows_bytes seams ++ r) =
    Some (AList ((λ s, AList [AInt s.1; AInt s.2]) <$> seams), false, r).
Proof.
  intros Hall Hd Hf. cbn [parse_value skip_space Z.eqb Pos.eqb orb].
  rewrite (proj2 (Z.ltb_ge max_nesting (depth + 1))) by lia.
  destruct seams as [|s ss]; [done|]. destruct (row_head (s :: ss) r) as [l Hl].
  rewrite decide_False by (rewrite Hl; done).
  apply Forall_cons in Hall as [Hs Hss]. simpl in Hf. by rewrite parse_rows by (done || lia).
Qed.

Lemma parse_member f depth k v x c r :
  plain_string k → (∀ r, parse_value int_number f depth (v ++ c :: r) = Some (x, false, c :: r)) → delimiter c →
  parse_members int_number (S f) depth (quoted k ++ 58 :: v ++ c :: r) =
    (if c =? 44 then '(ms, bad, l) ← parse_members int_number f depth r; Some ((k, x) :: ms, bad, l)
     else if c =? 125 then Some ([(k, x)], false, r) else None).
Proof.
  intros Hk Hv Hc. cbn [parse_members]. rewrite parse_key_plain by done. cbn [mbind option_bind].
  rewrite Hv. cbn [mbind option_bind]. by destruct Hc as [-> | [-> | ->]].
Qed.

(** What the decoder sees in an answer. *)
Lemma probe_text_members pr f :
  in_i64 (PageCount pr) → in_i64 (SizeBytes pr) → Forall seam_ok (NaturalSeams pr) → plain_string (Format pr) →
  (length (NaturalSeams pr) + 20 <= f)%nat →
  parse_value int_number f 0 (probe_text pr) =
    Some (AObj [("page_count", AInt (PageCount pr)); ("format", AStr (Format pr));
                ("natural_seams", AList ((λ s, AList [AInt s.1; AInt s.2]) <$> NaturalSeams pr));
                ("size_bytes", AInt (SizeBytes pr))], false, []).
Proof.
  intros Hn Hsz Hseams Hf Hfuel. destruct f as [|f]; [lia|].
  assert (∀ k : string, bool_decide (plain_string k) = true → plain_string k) as Hplain.
  { intros k. apply (bool_decide_eq_true_1 _). }
  assert (∀ z r, in_i64 z → delimiter (hd 0 r) → r ≠ [] → ∀ g, (1 <= g)%nat →
    parse_value int_number g 1 (bytes (itoa z) ++ r) = Some (AInt z, false, r)) as Hint.
  { intros z [|c r] Hz Hc Hr [|g] Hg; try done; try lia. by apply parse_value_int. }
  unfold probe_text. cbn [parse_value skip_space Z.eqb Pos.eqb orb]. change (max_nesting <? 0 + 1) with false.
  cbv iota. rewrite decide_False by done. rewrite Z.add_0_l.
  do 5 (destruct f as [|f]; [lia|]).
  rewrite (parse_member _ _ "page_count" (bytes (itoa (PageCount pr))) (AInt (PageCount pr)) 44);
    [|by apply Hplain; vm_compute|intros r; apply Hint; [done|by left|done|lia]|by left].
  cbn [Z.eqb Pos.eqb].
  rewrite (parse_member _ _ "format" (quoted (Format pr)) (AStr (Format pr)) 44);
    [|by apply Hplain; vm_compute|intros r; by apply parse_value_str|by left].
  cbn [Z.eqb Pos.eqb].
  rewrite (app_comm_cons (rows_bytes (NaturalSeams pr)) _ 91).
  rewrite (parse_member _ _ "natural_seams" (91 :: rows_bytes (NaturalSeams pr))
    (AList ((λ s, AList [AInt s.1; AInt s.2]) <$> NaturalSeams pr)) 44);
    [|by apply Hplain; vm_compute|intros r; rewrite <- app_comm_cons; apply parse_seams; [done|done|lia]|by left].
  cbn [Z.eqb Pos.eqb].
  rewrite (parse_member _ _ "size_bytes" (bytes (itoa (SizeBytes pr))) (AInt (SizeBytes pr)) 125);
    [|by apply Hplain; vm_compute|intros r; apply Hint; [done|by right; right|done|lia]|by right; right].
  done.
Qed.

Section answers.
Context `{Readers}.

Lemma rows_bytes_length seams : (length seams <= length (rows_bytes seams))%nat.
Proof.
  induction seams as [|s ss IH]; [simpl; lia|]. cbn [rows_bytes length]. rewrite length_app.
  unfold row_bytes at 1. cbn [length]. destruct ss; simpl in *; lia.
Qed.

Lemma probe_text_length pr : (length (NaturalSeams pr) + 20 <= length (probe_text pr))%nat.
Proof.
  pose proof (rows_bytes_length (NaturalSeams pr)). unfold probe_text.
  assert (∀ s, length (quoted s) = S (S (length (bytes s)))) as Hq.
  { intros s. unfold quoted. cbn [length]. rewrite length_app. simpl. lia. }
  repeat first [rewrite length_app|rewrite Hq|progress cbn [length]].
  change (length (bytes "page_count")) with 10%nat. change (length (bytes "natural_seams")) with 13%nat. lia.
Qed.

Lemma probe_text_range pr : Forall (λ b, 0 <= b < 256) (probe_text pr).
Proof.
  assert (∀ s, Forall (λ b, 0 <= b < 256) (quoted s)) as Hq.
  { intros s. constructor; [lia|]. apply Forall_app. split; [apply bytes_range|by repeat constructor]. }
  assert (∀ seams, Forall (λ b, 0 <= b < 256) (rows_bytes seams)) as Hrows.
  { assert (∀ s, Forall (λ b, 0 <= b < 256) (row_bytes s)) as Hrow.
    { intros s. unfold row_bytes. repeat first [apply bytes_range|apply Forall_app; split|constructor]; lia. }
    induction seams as [|s ss IH]; [by repeat constructor|]. apply Forall_app. split; [apply Hrow|].
    destruct ss; [by repeat constructor|]. by constructor. }
  unfold probe_text.
  repeat first [apply bytes_range|apply Hq|apply Hrows|apply Forall_app; split|constructor]; lia.
Qed.

(** What each member of an answer stores. *)
Lemma store_page_count d n : store_field (d, false) ("page_count", AInt n) = (mkJSON (Some n) (jFormat d) (jNaturalSeams d) (jSizeBytes d), false).
Proof. done. Qed.
Lemma store_format d f : store_field (d, false) ("format", AStr f) = (mkJSON (jPageCount d) f (jNaturalSeams d) (jSizeBytes d), false).
Proof. done. Qed.
Lemma store_size d n : store_field (d, false) ("size_bytes", AInt n) = (mkJSON (jPageCount d) (jFormat d) (jNaturalSeams d) (Some n), false).
Proof. done. Qed.
Lemma store_seams d seams :
  store_field (d, false) ("natural_seams", AList ((λ s, AList [AInt s.1; AInt s.2]) <$> seams)) =
    (mkJSON (jPageCount d) (jFormat d) ((λ s : Z * Z, [s.1; s.2]) <$> seams) (jSizeBytes d), false).
Proof.
  assert ((store_row <$> ((λ s, AList [AInt s.1; AInt s.2]) <$> seams)).*1 = (λ s, [s.1; s.2]) <$> seams
    ∧ existsb snd (store_row <$> ((λ s, AList [AInt s.1; AInt s.2]) <$> seams)) = false) as [Hst Hbad].
  { induction seams as [|s ss [IH1 IH2]]; [done|]. rewrite !fmap_cons, IH1. split; [done|].
    cbn [existsb]. by rewrite IH2. }
  unfold store_field. rewrite decide_False, decide_False, decide_True by (vm_compute; done).
  cbn [store_rows]. by rewrite Hst, Hbad.
Qed.

(** The probe reads back what the worker prints: any page count, size and
    seams of 64 bits and any format name of plain ASCII. *)
Theorem probe_answer_roundtrip pr :
  in_i64 (PageCount pr) → in_i64 (SizeBytes pr) → Forall seam_ok (NaturalSeams pr) →
  plain_string (Format pr) → Format pr ≠ "" →
  ParseProbeJSON (of_bytes (probe_text pr)) = Ok pr.
Proof.
  intros Hn Hsz Hseams Hf Hne. unfold ParseProbeJSON, decode_probe.
  rewrite bytes_of_bytes by apply probe_text_range.
  rewrite probe_text_members; try done.
  2:{ pose proof (probe_text_length pr). lia. }
  cbn [skip_space foldl]. rewrite store_page_count, store_format, store_seams, store_size.
  cbn [jPageCount jSizeBytes jFormat jNaturalSeams].
  rewrite (proj2 (String.eqb_neq _ _)) by done. f_equal. destruct pr as [n f seams sz]. cbn. f_equal.
  clear. induction seams as [|[a b] ss IH]; [done|]. cbn. by rewrite IH.
Qed.
End answers.

(** ** The probe *)

Section outcomes.
Context `{UnicodeTables} `{Readers} `{Worker.Workers}.

Lemma estimate_positive size format : 1 <= estimatePagesFromSize size format.
Proof. unfold estimatePagesFromSize. destruct (Z.ltb_spec (Z.quot size (default 20000 (bytesPerPageEstimate !! format))) 1); lia. Qed.

(** What the metadata probe finds. *)
Definition from_metadata (format : FormatName) (pr : ProbeResult) : Prop :=
  1 <= PageCount pr ∧ Format pr = format ∧ NaturalSeams pr = [].

Lemma lite_spec path format w pr w' :
  ProbeLite path format w = (Some pr, w') → from_metadata format pr.
Proof.
  unfold ProbeLite, mbind, io_bind, mret, io_ret. destruct (os_size path w) as [[size|] w1]; [|done].
  match goal with |- context [let '(a, b) := ?m w1 in _] => destruct (m w1) as [n w2] end.
  destruct (Z.leb_spec n 0); [done|]. intros [= <- <-]. unfold from_metadata. simpl. split_and!; [lia|done|done].
Qed.

(** The errors a worker run without a chunk can end with. *)
Definition probe_error (e : Error) : Prop :=
  EFailureClass e ∈ [RenderFailed; LicenseExpired; InputUnprocessable] ∧ OOM e = false ∧ EChunk e = None.

#[local] Ltac probe_class := split_and!; [apply (bool_decide_unpack (_ ∈ _)); reflexivity|done|done].

Lemma map_exit_class rc err e : Worker.mapExitCode rc err None = Some e → probe_error e.
Proof.
  unfold Worker.mapExitCode, probe_error. intros Hm. repeat (case_match; simplify_eq); probe_class.
Qed.

Lemma run_probe_class s path format w out e w' : run_probe s path format w = ((out, Some e), w') → probe_error e.
Proof.
  unfold run_probe, Worker.RunWorker, Worker.runWorkerBin, mbind, io_bind, mret, io_ret, probe_error.
  change (Worker.worker_argv s "probe" path (Worker.workerBinary s format) format "" None) with
    (Some (Worker.prlimitArgs s (Worker.workerBinary s format)
       ["--mode"; "probe"; "--input"; path; "--format"; format; "--license-path"; LicensePath s])).
  cbv iota beta. destruct (Worker.exec _ _ w) as [[e'| |rc o err] w1]; intros Hr; simplify_eq; try probe_class.
  by eapply map_exit_class.
Qed.

Lemma parse_error_class out e : ParseProbeJSON out = Err e → probe_error e.
Proof. unfold ParseProbeJSON, probe_error. intros Hp. repeat (case_match; simplify_eq); probe_class. Qed.

End outcomes.

(** ** The hypotheses can hold *)

Section witnesses.
#[local] Instance no_readers : Readers :=
  {| open_zip := λ _, None; app_props := λ _, None; show_npages := λ _ _, None; json_error := λ _, "" |}.
#[local] Instance ascii_tables : UnicodeTables := {| unicode_to_lower := λ r, r |}.

Example html_recognised_witness :
  let w := mkWorld ∅ ∅ [] [] None "" in
  DetectFormat (bom ++ [10] ++ bytes "<HTML" ++ bytes "><body>") "" "page.txt" w = (Ok DispatchHTML, w).
Proof.
  intros w. apply (html_recognised bom [10] (bytes "<HTML") (bytes "><body>") "" "page.txt" w).
  - by right.
  - by repeat constructor.
  - right. vm_compute. reflexivity.
  - vm_compute. lia.
Defined.

Example probe_answer_roundtrip_witness :
  let pr := mkProbe 12 FormatDOCX [(1, 5); (6, 12)] 40960 in
  ParseProbeJSON (of_bytes (probe_text pr)) = Ok pr.
Proof.
  intros pr. apply (probe_answer_roundtrip pr); unfold in_i64; cbn [PageCount SizeBytes NaturalSeams Format pr].
  - lia.
  - lia.
  - repeat constructor; cbn; lia.
  - apply (bool_decide_unpack _). vm_compute. exact I.
  - done.
Defined.
End witnesses.
