(* ===== verification/CSVInput.v ===== *)
(** * CSV uploads as spreadsheets ([internal/csvinput])

    A CSV upload becomes an XLSX archive with one sheet: the reader of
    [encoding/csv] as the program sets it up (lazy quotes, any number of
    fields), the width of the columns, the XML of the sheet.  The archive writer
    is an argument.  The reader uses fuel, the length of the text;
    [parse_fields_fuel] shows that more changes nothing. *)
From Stdlib Require Import ZArith Lia Bool SpecFloat Ascii String.
From stdpp Require Import base tactics list strings.
From S2P Require Import Prelude GoFloat GoString Probe.
From S2P Require Json.
From stdpp Require Import list.
Local Open Scope Z_scope.

Definition minColW : f64 := f64_of_Z 8.
Definition maxColW : f64 := f64_of_Z 50.
Definition charToIn : f64 := f64_ratio 7 96.
Definition a4PortraitPrintable : f64 := f64_ratio 687 100.

Definition IsCSVFilename `{UnicodeTables} (filename : string) : bool :=
  negb (String.eqb filename "") && has_suffix (to_lower filename) ".csv".

(** ** The reader of [encoding/csv] *)

(** What precedes the next newline with the newline, and what follows it. *)
Fixpoint take_line (l : list Z) : list Z * list Z :=
  match l with
  | [] => ([], [])
  | b :: l => if b =? 10 then ([10], l) else let '(x, r) := take_line l in (b :: x, r)
  end.

(** A carriage return before the newline, or at the end of the input, is dropped. *)
Definition normalize (line : list Z) : list Z :=
  match rev line with
  | b :: r =>
      if b =? 13 then rev r
      else if b =? 10 then match r with c :: r' => if c =? 13 then rev (10 :: r') else line | [] => line end
      else line
  | [] => line
  end.
Definition readLine (l : list Z) : list Z * list Z := let '(line, rest) := take_line l in (normalize line, rest).

Definition lengthNL (line : list Z) : nat := match rev line with b :: _ => if b =? 10 then 1 else 0 | [] => 0 end.

(** What precedes the first byte [c], and what follows it. *)
Fixpoint cut_byte (c : Z) (l : list Z) : option (list Z * list Z) :=
  match l with
  | [] => None
  | b :: l => if b =? c then Some ([], l) else '(x, r) ← cut_byte c l; Some (b :: x, r)
  end.

(** The fields of a record: [parse_fields] before a field, [parse_quoted] inside a
    quoted one of which [buf] has been read.  34 is the quote, 44 the comma. *)
Fixpoint parse_fields (fuel : nat) (line rest : list Z) : list (list Z) * list Z :=
  match fuel with
  | O => ([], rest)
  | S fuel =>
      let unquoted :=
        match cut_byte 44 line with
        | Some (field, line) => let '(fs, rest) := parse_fields fuel line rest in (field :: fs, rest)
        | None => ([take (length line - lengthNL line) line], rest)
        end in
      match line with
      | b :: line' => if b =? 34 then parse_quoted fuel [] line' rest else unquoted
      | [] => unquoted
      end
  end
with parse_quoted (fuel : nat) (buf line rest : list Z) : list (list Z) * list Z :=
  match fuel with
  | O => ([], rest)
  | S fuel =>
      match cut_byte 34 line with
      | Some (x, line) =>
          let buf := buf ++ x in
          match line with
          | b :: line' =>
              if b =? 34 then parse_quoted fuel (buf ++ [34]) line' rest
              else if b =? 44 then let '(fs, rest) := parse_fields fuel line' rest in (buf :: fs, rest)
              else if Nat.eqb (lengthNL line) (length line) then ([buf], rest)
              else parse_quoted fuel (buf ++ [34]) line rest
          | [] => ([buf], rest)
          end
      | None =>
          match line with
          | [] => ([buf], rest)
          | _ => let '(line', rest) := readLine rest in parse_quoted fuel (buf ++ line) line' rest
          end
      end
  end.

Definition readRecord (line rest : list Z) : list (list Z) * list Z :=
  parse_fields (S (length line + length rest)) line rest.

(** Empty lines are skipped. *)
Fixpoint readAll (fuel : nat) (l : list Z) : list (list (list Z)) :=
  match fuel, l with
  | S fuel, _ :: _ =>
      let '(line, rest) := readLine l in
      if Nat.eqb (length line) (lengthNL line) then readAll fuel rest
      else let '(fs, rest) := readRecord line rest in fs :: readAll fuel rest
  | _, _ => []
  end.

Definition strings_of (record : list (list Z)) : list string := of_bytes <$> record.

(** With these settings the reader has no error to report. *)
Definition readRows (csvBytes : list Z) : list (list string) :=
  let l := if starts_with csvBytes bom then drop 3 csvBytes else csvBytes in
  strings_of <$> readAll (length l) l.

(** ** [strconv.ParseFloat]: is a text a number in range? *)

Definition lower_byte (b : Z) : Z := Z.lor b 32.
Definition lower_word (l : list Z) : string := of_bytes (ascii_lower <$> l).

(** The optional sign, and what follows it. *)
Definition split_sign (l : list Z) : bool * list Z :=
  match l with b :: l' => if b =? 43 then (false, l') else if b =? 45 then (true, l') else (false, l) | [] => (false, l) end.

(** Infinities, with an optional sign, and [nan]. *)
Definition special (l : list Z) : bool :=
  let w := lower_word (split_sign l).2 in
  String.eqb w "inf" || String.eqb w "infinity" || String.eqb (lower_word l) "nan".

Definition is_hex_letter (b : Z) : bool := in_range 97 (lower_byte b) 102.
Definition mantissa_digit (hex : bool) (b : Z) : bool := is_digit b || (hex && is_hex_letter b).
Definition digit_of (b : Z) : Z := if is_digit b then b - 48 else lower_byte b - 87.

(** The mantissa: its digits without the underscores, how many of them follow the
    point, was there a point, and what follows. *)
Fixpoint span_mantissa (hex sawdot : bool) (l : list Z) : list Z * Z * list Z :=
  match l with
  | b :: l' =>
      if b =? 95 then span_mantissa hex sawdot l'
      else if b =? 46 then if sawdot then ([], 0, l) else span_mantissa hex true l'
      else if mantissa_digit hex b then
        let '(ds, frac, r) := span_mantissa hex sawdot l' in (digit_of b :: ds, (if sawdot then 1 else 0) + frac, r)
      else ([], 0, l)
  | [] => ([], 0, l)
  end.

(** The digits of the exponent; a large one stops growing. *)
Fixpoint span_exponent (e : Z) (l : list Z) : Z * list Z :=
  match l with
  | b :: l' =>
      if is_digit b then span_exponent (if e <? 10000 then e * 10 + (b - 48) else e) l'
      else if b =? 95 then span_exponent e l' else (e, l)
  | [] => (e, l)
  end.

(** The optional exponent; [None] is a syntax error. *)
Definition exponent_part (hex : bool) (l : list Z) : option (Z * list Z) :=
  match l with
  | b :: l' =>
      if lower_byte b =? (if hex then 112 else 101) then
        let '(neg, l) := split_sign l' in
        match l with
        | d :: _ => if is_digit d then let '(e, r) := span_exponent 0 l in Some ((if neg then - e else e), r) else None
        | [] => None
        end
      else if hex then None else Some (0, l)
  | [] => if hex then None else Some (0, l)
  end.

(** [underscoreOK]: an underscore stands between two digits; a base prefix counts
    as a digit.  [saw] is the class of the last byte: 94 at the beginning, 48 for
    a digit, 95 for an underscore, 33 for anything else. *)
Fixpoint underscores_between (hex : bool) (saw : Z) (l : list Z) : bool :=
  match l with
  | [] => negb (saw =? 95)
  | b :: l =>
      if mantissa_digit hex b then underscores_between hex 48 l
      else if b =? 95 then (saw =? 48) && underscores_between hex 95 l
      else negb (saw =? 95) && underscores_between hex 33 l
  end.
Definition underscoreOK (l : list Z) : bool :=
  let l := (split_sign l).2 in
  match l with
  | b :: p :: l' =>
      if (b =? 48) && ((lower_byte p =? 98) || (lower_byte p =? 111) || (lower_byte p =? 120))
      then underscores_between (lower_byte p =? 120) 48 l'
      else underscores_between false 94 l
  | _ => underscores_between false 94 l
  end.

(** Is the number out of range? *)
Definition overflows (hex : bool) (m e : Z) : bool :=
  if hex then
    if m =? 0 then false
    else if 1100 <? zdigits m + e then true
    else if zdigits m + e <? -1200 then false
    else match (if 0 <=? e then binary_normalize 53 1024 m e false
                else let '(q, e', l) := SFdiv_core_binary 53 1024 m 0 (2 ^ (- e)) 0 in binary_round_aux 53 1024 false q e' l) with
         | S754_infinity _ => true
         | _ => false
         end
  else (Json.decimal false m e).2.

Definition number_in_range (l : list Z) : bool :=
  let '(_, body) := split_sign l in
  let '(hex, body) :=
    match body with
    | b :: p :: (_ :: _) as r => if (b =? 48) && (lower_byte p =? 120) then (true, r) else (false, body)
    | _ => (false, body)
    end in
  let '(ds, frac, r) := span_mantissa hex false body in
  match ds, exponent_part hex r with
  | [], _ | _, None => false
  | _, Some (e, r) =>
      let m := foldl (λ acc d, acc * (if hex then 16 else 10) + d) 0 ds in
      Nat.eqb (length r) 0 && (negb (existsb (Z.eqb 95) l) || underscoreOK l) &&
      negb (overflows hex m (e - (if hex then 4 else 1) * frac))
  end.

Definition isNumber (v : string) : bool :=
  negb (String.eqb v "") && (special (bytes v) || number_in_range (bytes v)).

Example numbers :
  (isNumber <$> ["1"; "1.5"; "-3"; "1e5"; "0"; ""; "abc"; "1,000"; "$5"; "NaN"; "-Infinity"; "+nan"; "0x1p-2"; "0x1"; "1_000"; "1__0"; "1e400"; ".5"; "."; "1e"; "infinit"])
  = [true; true; true; true; true; false; false; false; false; true; true; false; true; false; true; false; false; true; false; false; false].
Proof. vm_compute. reflexivity. Qed.

(** ** The sheet *)

Definition nCols (rows : list (list string)) : nat := foldl (λ n r, if (n <? length r)%nat then length r else n) 0%nat rows.

Definition maxLen (rows : list (list string)) (ci : nat) : Z :=
  foldl (λ m r, match r !! ci with Some v => if m <? str_len v then str_len v else m | None => m end) 0 rows.

Definition colWidth (rows : list (list string)) (ci : nat) : f64 :=
  let w := f64_of_Z (maxLen rows ci +! 2)%go in
  let w := if flt w minColW then minColW else w in
  if flt maxColW w then maxColW else w.

Definition estimateColWidths (rows : list (list string)) : list f64 := colWidth rows <$> seq 0 (nCols rows).

Definition totalIn (colWidths : list f64) : f64 := foldl (λ t w, fadd t (fmul w charToIn)) f0 colWidths.
Definition orientation (colWidths : list f64) : string :=
  if flt a4PortraitPrintable (totalIn colWidths) then "landscape" else "portrait".

(** The letters of a column, 65 for A: base 26 without a zero. *)
Fixpoint col_letters (fuel : nat) (n : Z) (s : list Z) : list Z :=
  let s := 65 + n mod 26 :: s in
  match fuel with
  | O => s
  | S fuel => if n / 26 - 1 <? 0 then s else col_letters fuel (n / 26 - 1) s
  end.
Definition colLetter (idx : Z) : string := of_bytes (col_letters (Z.to_nat (Z.log2 (idx + 1))) idx []).

Definition xmlEscape (s : string) : string :=
  let s := replace_all s "&" "&amp;" in
  let s := replace_all s "<" "&lt;" in
  replace_all s ">" "&gt;".

(** Markup, with apostrophes in the place of the double quotes. *)
Fixpoint markup (s : string) : string :=
  match s with
  | EmptyString => EmptyString
  | String c s => String (if (c =? "'")%char then ascii_of_nat 34 else c) (markup s)
  end.

(** [%.2f] of a finite number: hundredths, the nearest and of two the even. *)
Definition hundredths (m : positive) (e : Z) : Z :=
  if 0 <=? e then 100 * Z.pos m * 2 ^ e
  else
    let n := 100 * Z.pos m in
    let d := 2 ^ (- e) in
    let q := n / d in
    match n mod d * 2 ?= d with Lt => q | Gt => q + 1 | Eq => if Z.even q then q else q + 1 end.
Definition format_f2 (x : f64) : string :=
  let digits n := itoa (n / 100) +:+ "." +:+ of_bytes [48 + n / 10 mod 10; 48 + n mod 10] in
  match x with
  | S754_zero s => (if s then "-" else "") +:+ digits 0
  | S754_finite s m e => (if s then "-" else "") +:+ digits (hundredths m e)
  | S754_infinity s => if s then "-Inf" else "+Inf"
  | S754_nan => "NaN"
  end.

Definition colXML (i : nat) (w : f64) : string :=
  markup "<col min='" +:+ itoa (Z.of_nat i + 1) +:+ markup "' max='" +:+ itoa (Z.of_nat i + 1) +:+
  markup "' width='" +:+ format_f2 w +:+ markup "' customWidth='1'/>".
Definition colsXML (colWidths : list f64) : string :=
  match colWidths with
  | [] => ""
  | _ => "<cols>" +:+ foldr String.append "" (imap colXML colWidths) +:+ "</cols>"
  end.

Definition cellXML (rIdx : Z) (ci : nat) (val : string) : string :=
  let ref := colLetter (Z.of_nat ci) +:+ itoa rIdx in
  if (1 <? rIdx) && isNumber val
  then markup "<c r='" +:+ ref +:+ markup "'><v>" +:+ val +:+ "</v></c>"
  else markup "<c r='" +:+ ref +:+ markup "' t='inlineStr'><is><t xml:space='preserve'>" +:+ xmlEscape val +:+ "</t></is></c>".
Definition rowXML (ri : nat) (row : list string) : string :=
  let rIdx := Z.of_nat ri + 1 in
  markup "<row r='" +:+ itoa rIdx +:+ markup "'>" +:+ foldr String.append "" (imap (cellXML rIdx) row) +:+ "</row>".

Definition sheetXML (rows : list (list string)) (colWidths : list f64) (orientation : string) : string :=
  markup "<?xml version='1.0' encoding='UTF-8' standalone='yes'?>" +:+
  markup "<worksheet xmlns='http://schemas.openxmlformats.org/spreadsheetml/2006/main'>" +:+
  colsXML colWidths +:+
  "<sheetData>" +:+ foldr String.append "" (imap rowXML rows) +:+ "</sheetData>" +:+
  markup "<pageSetup paperSize='9' orientation='" +:+ orientation +:+ markup "'/>" +:+
  "</worksheet>".

Definition contentTypesXML : string :=
  markup "<?xml version='1.0' encoding='UTF-8' standalone='yes'?>" +:+
  markup "<Types xmlns='http://schemas.openxmlformats.org/package/2006/content-types'>" +:+
  markup "<Default Extension='rels' ContentType='application/vnd.openxmlformats-package.relationships+xml'/>" +:+
  markup "<Default Extension='xml' ContentType='application/xml'/>" +:+
  markup "<Override PartName='/xl/workbook.xml' ContentType='application/vnd.openxmlformats-officedocument.spreadsheetml.sheet.main+xml'/>" +:+
  markup "<Override PartName='/xl/worksheets/sheet1.xml' ContentType='application/vnd.openxmlformats-officedocument.spreadsheetml.worksheet+xml'/>" +:+
  "</Types>".
Definition rootRelsXML : string :=
  markup "<?xml version='1.0' encoding='UTF-8' standalone='yes'?>" +:+
  markup "<Relationships xmlns='http://schemas.openxmlformats.org/package/2006/relationships'>" +:+
  markup "<Relationship Id='rId1' Type='http://schemas.openxmlformats.org/officeDocument/2006/relationships/officeDocument' Target='xl/workbook.xml'/>" +:+
  "</Relationships>".
Definition workbookXML : string :=
  markup "<?xml version='1.0' encoding='UTF-8' standalone='yes'?>" +:+
  markup "<workbook xmlns='http://schemas.openxmlformats.org/spreadsheetml/2006/main' " +:+
  markup "xmlns:r='http://schemas.openxmlformats.org/officeDocument/2006/relationships'>" +:+
  markup "<sheets><sheet name='Sheet1' sheetId='1' r:id='rId1'/></sheets></workbook>".
Definition workbookRelsXML : string :=
  markup "<?xml version='1.0' encoding='UTF-8' standalone='yes'?>" +:+
  markup "<Relationships xmlns='http://schemas.openxmlformats.org/package/2006/relationships'>" +:+
  markup "<Relationship Id='rId1' Type='http://schemas.openxmlformats.org/officeDocument/2006/relationships/worksheet' Target='worksheets/sheet1.xml'/>" +:+
  "</Relationships>".

(** The archive writer: the bytes of an archive with these entries, or an error. *)
Class ZipWriter := { write_zip : list (string * string) → result string string }.

Definition xlsx_entries (csvBytes : list Z) : list (string * string) :=
  let rows := readRows csvBytes in
  let colWidths := estimateColWidths rows in
  [("[Content_Types].xml", contentTypesXML); ("_rels/.rels", rootRelsXML); ("xl/workbook.xml", workbookXML);
   ("xl/_rels/workbook.xml.rels", workbookRelsXML); ("xl/worksheets/sheet1.xml", sheetXML rows colWidths (orientation colWidths))].
Definition CSVBytesToXLSXBytes `{ZipWriter} (csvBytes : list Z) : result string string := write_zip (xlsx_entries csvBytes).

Example sheet : (readRows (bytes "name,score
Ada,99
Bob,fifty
")) = [["name"; "score"]; ["Ada"; "99"]; ["Bob"; "fifty"]].
Proof. vm_compute. reflexivity. Qed.
Example letters : (colLetter <$> [0; 25; 26; 27; 51; 52; 701; 702]) = ["A"; "Z"; "AA"; "AB"; "AZ"; "BA"; "ZZ"; "AAA"].
Proof. vm_compute. reflexivity. Qed.
Example cell : cellXML 2 1 "99" = markup "<c r='B2'><v>99</v></c>".
Proof. vm_compute. reflexivity. Qed.
Example width : format_f2 (f64_ratio 41 4) = "10.25".
Proof. vm_compute. reflexivity. Qed.

(** ** The reader: lines and fuel *)

Lemma cut_byte_app c x l : c ∉ x → cut_byte c (x ++ c :: l) = Some (x, l).
Proof.
  induction x as [|b x IH]; intros Hx; cbn [app cut_byte]; [by rewrite Z.eqb_refl|].
  apply not_elem_of_cons in Hx as [Hb Hx]. rewrite (proj2 (Z.eqb_neq b c)) by done. by rewrite IH.
Qed.

Lemma cut_byte_none c l : c ∉ l → cut_byte c l = None.
Proof.
  induction l as [|b l IH]; intros Hl; [done|]. apply not_elem_of_cons in Hl as [Hb Hl].
  cbn [cut_byte]. rewrite (proj2 (Z.eqb_neq b c)) by done. by rewrite IH.
Qed.

Lemma cut_byte_some c l x r : cut_byte c l = Some (x, r) → l = x ++ c :: r.
Proof.
  revert x r. induction l as [|b l IH]; intros x r; [done|]. cbn [cut_byte].
  destruct (Z.eqb_spec b c) as [->|]; [by intros [= <- <-]|].
  destruct (cut_byte c l) as [[y k]|]; [|done]. intros [= <- <-]. by rewrite (IH y k).
Qed.

Lemma cut_byte_length c l x r : cut_byte c l = Some (x, r) → (length r < length l)%nat.
Proof. intros ->%cut_byte_some. rewrite length_app. simpl. lia. Qed.

Lemma take_line_app l : (take_line l).1 ++ (take_line l).2 = l.
Proof.
  induction l as [|b l IH]; [done|]. cbn [take_line]. destruct (Z.eqb_spec b 10) as [->|]; [done|].
  destruct (take_line l) as [x r]. simpl in *. by rewrite IH.
Qed.

Lemma take_line_cons b l : b ≠ 10 → take_line (b :: l) = (b :: (take_line l).1, (take_line l).2).
Proof. intros Hb. cbn [take_line]. rewrite (proj2 (Z.eqb_neq b 10)) by done. by destruct (take_line l). Qed.

Lemma take_line_plain f l : 10 ∉ f → take_line (f ++ l) = (f ++ (take_line l).1, (take_line l).2).
Proof.
  induction f as [|b f IH]; intros Hf; cbn [app]; [by destruct (take_line l)|]. apply not_elem_of_cons in Hf as [Hb Hf].
  rewrite take_line_cons by done. by rewrite IH.
Qed.

Lemma take_line_nonempty l : l ≠ [] → (take_line l).1 ≠ [].
Proof. destruct l as [|b l]; [done|]. cbn [take_line]. destruct (b =? 10); [done|]. by destruct (take_line l). Qed.

Lemma normalize_length line : (length (normalize line) <= length line)%nat.
Proof.
  unfold normalize. pose proof (length_rev line) as Hl. destruct (rev line) as [|b r]; [done|]. simpl in Hl.
  destruct (b =? 13); [rewrite length_rev; lia|]. destruct (b =? 10); [|done].
  destruct r as [|c r]; [done|]. destruct (c =? 13); [|done]. rewrite length_rev. simpl in *. lia.
Qed.

Lemma normalize_plain line : 13 ∉ line → normalize line = line.
Proof.
  intros H13. assert (13 ∉ rev line) as H' by (by rewrite list_elem_of_In, <- in_rev, <- list_elem_of_In).
  unfold normalize. destruct (rev line) as [|b r]; [done|]. apply not_elem_of_cons in H' as [Hb Hr].
  rewrite (proj2 (Z.eqb_neq b 13)) by done. destruct (b =? 10); [|done]. destruct r as [|c r]; [done|].
  apply not_elem_of_cons in Hr as [Hc _]. by rewrite (proj2 (Z.eqb_neq c 13)).
Qed.

Lemma readLine_length l : (length (readLine l).1 + length (readLine l).2 <= length l)%nat.
Proof.
  unfold readLine. pose proof (take_line_app l) as Hl. destruct (take_line l) as [line rest]. simpl in *.
  rewrite <- Hl, length_app. pose proof (normalize_length line). lia.
Qed.

Lemma readLine_plain l : 13 ∉ l → readLine l = take_line l.
Proof.
  intros H13. unfold readLine. pose proof (take_line_app l) as Hl. destruct (take_line l) as [line rest]. simpl in Hl.
  rewrite normalize_plain; [done|]. rewrite <- Hl in H13. set_solver.
Qed.

(** Any fuel beyond the length of what is left gives the same fields. *)
Lemma parsers_fuel n :
  (∀ m line rest, (length line + length rest < n)%nat → (length line + length rest < m)%nat →
     parse_fields n line rest = parse_fields m line rest) ∧
  (∀ m buf line rest, (length line + length rest < n)%nat → (length line + length rest < m)%nat →
     parse_quoted n buf line rest = parse_quoted m buf line rest).
Proof.
  induction n as [|n [IHf IHq]]; [split; intros; lia|]. split.
  - intros [|m] line rest Hn Hm; [lia|]. cbn [parse_fields].
    assert (∀ f k, cut_byte 44 line = Some (f, k) → parse_fields n k rest = parse_fields m k rest) as Hk.
    { intros f k Hc%cut_byte_length. apply IHf; lia. }
    destruct line as [|b line]; cbn [length] in *.
    + done.
    + destruct (b =? 34); [apply IHq; lia|].
      destruct (cut_byte 44 (b :: line)) as [[f k]|]; [|done]. by rewrite (Hk f k).
  - intros [|m] buf line rest Hn Hm; [lia|]. cbn [parse_quoted].
    destruct (cut_byte 34 line) as [[x k]|] eqn:Hc.
    + apply cut_byte_length in Hc. destruct k as [|b k]; [done|]. simpl in Hc.
      destruct (b =? 34); [apply IHq; lia|]. destruct (b =? 44); [by rewrite (IHf m) by lia|].
      destruct (Nat.eqb _ _); [done|]. apply IHq; simpl; lia.
    + destruct line as [|b line]; [done|]. pose proof (readLine_length rest).
      destruct (readLine rest) as [line' rest']. simpl in *. apply IHq; lia.
Qed.
Lemma parse_fields_fuel n m line rest :
  (length line + length rest < n)%nat → (length line + length rest < m)%nat →
  parse_fields n line rest = parse_fields m line rest.
Proof. apply parsers_fuel. Qed.
Lemma parse_quoted_fuel n m buf line rest :
  (length line + length rest < n)%nat → (length line + length rest < m)%nat →
  parse_quoted n buf line rest = parse_quoted m buf line rest.
Proof. apply parsers_fuel. Qed.

Lemma parsers_shrink n :
  (∀ line rest, (length (parse_fields n line rest).2 <= length rest)%nat) ∧
  (∀ buf line rest, (length (parse_quoted n buf line rest).2 <= length rest)%nat).
Proof.
  induction n as [|n [IHf IHq]]; [done|]. split.
  - intros line rest. cbn [parse_fields].
    assert ((length (match cut_byte 44 line with
      | Some (field, line0) => let '(fs, rest0) := parse_fields n line0 rest in (field :: fs, rest0)
      | None => ([take (length line - lengthNL line) line], rest) end).2 <= length rest)%nat) as Hu.
    { destruct (cut_byte 44 line) as [[f k]|]; [|done]. specialize (IHf k rest). by destruct (parse_fields n k rest). }
    destruct line as [|b line]; [done|]. by destruct (b =? 34).
  - intros buf line rest. cbn [parse_quoted]. destruct (cut_byte 34 line) as [[x [|b k]]|]; [done| |].
    + destruct (b =? 34); [done|]. destruct (b =? 44); [|by destruct (Nat.eqb _ _)].
      specialize (IHf k rest). by destruct (parse_fields n k rest).
    + destruct line as [|b line]; [done|]. pose proof (readLine_length rest). destruct (readLine rest) as [line' rest'].
      specialize (IHq (buf ++ b :: line) line' rest'). simpl in *. lia.
Qed.

(** ** The reader: one step at a time *)

Definition fields_of (line rest : list Z) : list (list Z) * list Z := parse_fields (S (length line + length rest)) line rest.
Definition quoted_of (buf line rest : list Z) : list (list Z) * list Z := parse_quoted (S (length line + length rest)) buf line rest.

Lemma fields_quoted line rest : fields_of (34 :: line) rest = quoted_of [] line rest.
Proof. done. Qed.

Lemma fields_comma f line rest :
  44 ∉ f → head f ≠ Some 34 →
  fields_of (f ++ 44 :: line) rest = (f :: (fields_of line rest).1, (fields_of line rest).2).
Proof.
  intros Hf Hhd. unfold fields_of at 1. cbn [parse_fields]. rewrite cut_byte_app by done.
  rewrite (parse_fields_fuel _ (S (length line + length rest))) by (rewrite ?length_app; simpl; lia). fold (fields_of line rest).
  destruct f as [|b f]; cbn [app]; [by destruct (fields_of line rest)|].
  rewrite (proj2 (Z.eqb_neq b 34)) by (intros ->; done). by destruct (fields_of line rest).
Qed.

Lemma take_dropped_newline f e :
  10 ∉ f → e = [] ∨ e = [10] → take (length (f ++ e) - lengthNL (f ++ e)) (f ++ e) = f.
Proof.
  intros Hf He. unfold lengthNL. rewrite rev_app_distr, length_app. destruct He as [-> | ->]; cbn [rev app length].
  - rewrite app_nil_r. assert (match rev f with b :: _ => if b =? 10 then 1%nat else 0%nat | [] => 0%nat end = 0%nat) as ->.
    { destruct (rev f) as [|b r] eqn:Hr; [done|]. destruct (Z.eqb_spec b 10) as [->|]; [|done].
      exfalso. apply Hf. rewrite list_elem_of_In, in_rev, Hr. by left. }
    apply take_ge. lia.
  - by rewrite Nat.add_sub, take_app_length.
Qed.

Lemma fields_last f e rest :
  44 ∉ f → 10 ∉ f → head f ≠ Some 34 → e = [] ∨ e = [10] → fields_of (f ++ e) rest = ([f], rest).
Proof.
  intros Hf Hnl Hhd He. unfold fields_of. cbn [parse_fields].
  rewrite cut_byte_none by (destruct He as [-> | ->]; set_solver). rewrite take_dropped_newline by done.
  destruct f as [|b f]; cbn [app]; [by destruct He as [-> | ->]|]. by rewrite (proj2 (Z.eqb_neq b 34)) by (intros ->; done).
Qed.

Lemma quoted_byte buf b line rest :
  b ≠ 34 → line ≠ [] → quoted_of buf (b :: line) rest = quoted_of (buf ++ [b]) line rest.
Proof.
  intros Hb Hl. unfold quoted_of.
  rewrite (parse_quoted_fuel (S (length line + length rest)) (S (S (length line + length rest)))) by lia.
  change (length (b :: line) + length rest)%nat with (S (length line + length rest)).
  generalize (S (length line + length rest)). intros g.
  cbn [parse_quoted cut_byte]. rewrite (proj2 (Z.eqb_neq b 34)) by done.
  destruct (cut_byte 34 line) as [[x k]|] eqn:Hc; cbn [mbind option_bind].
  - cbv zeta. by rewrite <- !app_assoc.
  - destruct line as [|c line]; [done|]. rewrite <- app_assoc. done.
Qed.

Lemma quoted_newline buf rest :
  quoted_of buf [10] rest = quoted_of (buf ++ [10]) (readLine rest).1 (readLine rest).2.
Proof.
  unfold quoted_of at 1. cbn [parse_quoted cut_byte Z.eqb Pos.eqb mbind option_bind]. pose proof (readLine_length rest).
  destruct (readLine rest) as [line' rest']. apply parse_quoted_fuel; simpl in *; lia.
Qed.

Lemma quoted_quote buf line rest : quoted_of buf (34 :: 34 :: line) rest = quoted_of (buf ++ [34]) line rest.
Proof.
  unfold quoted_of at 1. cbn [parse_quoted cut_byte Z.eqb Pos.eqb]. rewrite app_nil_r.
  apply parse_quoted_fuel; simpl; lia.
Qed.

Lemma quoted_comma buf line rest :
  quoted_of buf (34 :: 44 :: line) rest = (buf :: (fields_of line rest).1, (fields_of line rest).2).
Proof.
  unfold quoted_of. cbn [parse_quoted cut_byte Z.eqb Pos.eqb]. rewrite app_nil_r.
  rewrite (parse_fields_fuel _ (S (length line + length rest))) by (simpl; lia). fold (fields_of line rest).
  by destruct (fields_of line rest).
Qed.

Lemma quoted_last buf e rest : e = [] ∨ e = [10] → quoted_of buf (34 :: e) rest = ([buf], rest).
Proof. unfold quoted_of. intros [-> | ->]; cbn [parse_quoted cut_byte Z.eqb Pos.eqb lengthNL rev app length Nat.eqb]; by rewrite app_nil_r. Qed.

(** ** What is written is read back *)

(** A field between quotes, with its quotes doubled. *)
Fixpoint double_quotes (f : list Z) : list Z :=
  match f with [] => [] | b :: f => (if b =? 34 then [34; 34] else [b]) ++ double_quotes f end.

Section written.
(** Which fields are quoted. *)
Variable q : list Z → bool.

Definition field_text (f : list Z) : list Z := if q f then 34 :: double_quotes f ++ [34] else f.
Fixpoint row_text (fs : list (list Z)) : list Z :=
  match fs with
  | [] => []
  | f :: fs => field_text f ++ match fs with [] => [] | _ => 44 :: row_text fs end
  end.
(** The records, one per line; the newline of the last is optional. *)
Fixpoint rows_text (final : bool) (rows : list (list (list Z))) : list Z :=
  match rows with
  | [] => []
  | r :: rows => row_text r ++ match rows with [] => if final then [10] else [] | _ => 10 :: rows_text final rows end
  end.

(** What needs no quotes; a carriage return is not kept as it is. *)
Definition field_ok (f : list Z) : Prop := 13 ∉ f ∧ (q f = false → 44 ∉ f ∧ 10 ∉ f ∧ head f ≠ Some 34).
(** A line that holds one empty field without quotes is an empty line. *)
Definition row_ok (r : list (list Z)) : Prop := r ≠ [] ∧ Forall field_ok r ∧ (r = [[]] → q [] = true).

Lemma double_quotes_plain c f : c ≠ 34 → c ∉ f → c ∉ double_quotes f.
Proof.
  intros Hc. induction f as [|b f IH]; [done|]. intros [Hb Hf]%not_elem_of_cons. cbn [double_quotes].
  specialize (IH Hf). destruct (b =? 34); set_solver.
Qed.

Lemma field_text_plain f : 13 ∉ f → 13 ∉ field_text f.
Proof. intros Hf. unfold field_text. pose proof (double_quotes_plain 13 f). destruct (q f); [|done]. set_solver. Qed.

Lemma row_text_plain r : Forall field_ok r → 13 ∉ row_text r.
Proof.
  induction 1 as [|f fs [Hf _] _ IH]; [set_solver|]. cbn [row_text]. pose proof (field_text_plain f Hf).
  destruct fs; set_solver.
Qed.

Lemma read_quoted buf f text :
  13 ∉ f → 13 ∉ text →
  quoted_of buf (take_line (double_quotes f ++ 34 :: text)).1 (take_line (double_quotes f ++ 34 :: text)).2 =
    quoted_of (buf ++ f) (34 :: (take_line text).1) (take_line text).2.
Proof.
  revert buf. induction f as [|b f IH]; intros buf Hf Ht.
  - cbn [double_quotes app]. rewrite take_line_cons by done. by rewrite app_nil_r.
  - apply not_elem_of_cons in Hf as [Hb Hf]. cbn [double_quotes]. rewrite (app_assoc buf [b] f : buf ++ b :: f = _).
    destruct (Z.eqb_spec b 34) as [->|Hq].
    + cbn [app]. rewrite !take_line_cons by done. cbn [fst snd]. rewrite quoted_quote. by apply IH.
    + destruct (Z.eq_dec b 10) as [->|Hn].
      * change (take_line ([10] ++ ?l)) with ([10], l). cbn [app fst snd take_line Z.eqb Pos.eqb].
        rewrite quoted_newline. rewrite readLine_plain by (pose proof (double_quotes_plain 13 f); set_solver). by apply IH.
      * cbn [app]. rewrite take_line_cons by done. cbn [fst snd].
        rewrite quoted_byte; [by apply IH|done|]. apply take_line_nonempty. by destruct (double_quotes f).
Qed.

Lemma read_field f text :
  field_ok f → 13 ∉ text →
  fields_of (take_line (field_text f ++ 44 :: text)).1 (take_line (field_text f ++ 44 :: text)).2 =
    (f :: (fields_of (take_line text).1 (take_line text).2).1, (fields_of (take_line text).1 (take_line text).2).2).
Proof.
  intros [Hcr Hplain] Ht. unfold field_text. destruct (q f).
  - rewrite <- app_comm_cons, <- app_assoc, take_line_cons by done. cbn [fst snd]. rewrite fields_quoted.
    cbn [app]. rewrite read_quoted by set_solver. rewrite take_line_cons by done. cbn [fst snd app]. apply quoted_comma.
  - destruct Hplain as (Hc & Hn & Hh); [done|]. rewrite take_line_plain by done. cbn [fst snd].
    rewrite take_line_cons by done. by apply fields_comma.
Qed.

Lemma read_last f e text :
  field_ok f → 13 ∉ text → e = [10] ∨ (e = [] ∧ text = []) →
  fields_of (take_line (field_text f ++ e ++ text)).1 (take_line (field_text f ++ e ++ text)).2 = ([f], text).
Proof.
  intros [Hcr Hplain] Ht He.
  assert (take_line (e ++ text) = (e, text)) as Hline by (by destruct He as [-> | [-> ->]]).
  assert (e = [] ∨ e = [10]) as He' by naive_solver. unfold field_text. destruct (q f).
  - rewrite <- app_comm_cons, <- app_assoc, take_line_cons by done. cbn [fst snd]. rewrite fields_quoted.
    cbn [app]. rewrite read_quoted by (destruct He' as [-> | ->]; set_solver). rewrite Hline. by apply quoted_last.
  - destruct Hplain as (Hc & Hn & Hh); [done|]. rewrite take_line_plain, Hline by done. by apply fields_last.
Qed.

Lemma read_row r e text :
  r ≠ [] → Forall field_ok r → 13 ∉ text → e = [10] ∨ (e = [] ∧ text = []) →
  fields_of (take_line (row_text r ++ e ++ text)).1 (take_line (row_text r ++ e ++ text)).2 = (r, text).
Proof.
  intros Hr Hall Ht He. induction Hall as [|f fs Hf Hfs IH]; [done|]. destruct fs as [|g fs].
  - cbn [row_text]. rewrite app_nil_r. by apply read_last.
  - change (row_text (f :: g :: fs)) with (field_text f ++ 44 :: row_text (g :: fs)).
    rewrite <- app_assoc, <- app_comm_cons.
    rewrite read_field; [by rewrite IH|done|]. pose proof (row_text_plain (g :: fs) Hfs). destruct He as [-> | [-> ->]]; set_solver.
Qed.

(** A record is not an empty line. *)
Lemma row_text_head r text : row_ok r → ∃ b l, row_text r ++ text = b :: l ∧ b ≠ 10.
Proof.
  intros (Hr & Hall & Hone). destruct r as [|f fs]; [done|]. apply Forall_cons in Hall as [[_ Hf] _].
  cbn [row_text]. unfold field_text. destruct (q f) eqn:Hq; [by eexists _, _|].
  destruct (Hf eq_refl) as (_ & Hn & _). destruct f as [|b f].
  - destruct fs as [|g fs]; [by rewrite Hone in Hq|]. by eexists _, _.
  - apply not_elem_of_cons in Hn as [Hb _]. by eexists b, _.
Qed.

Lemma line_not_empty b l : b ≠ 10 → Nat.eqb (length (b :: l)) (lengthNL (b :: l)) = false.
Proof.
  intros Hb. apply Nat.eqb_neq. unfold lengthNL. destruct l as [|c l].
  - cbn. by rewrite (proj2 (Z.eqb_neq b 10)).
  - cbn [length]. destruct (rev (b :: c :: l)) as [|d r]; [lia|]. destruct (d =? 10); lia.
Qed.
End written.

Lemma readAll_step b l :
  readLine (b :: l) = take_line (b :: l) → b ≠ 10 →
  ∀ n fs rest, (length (b :: l) <= n)%nat → fields_of (take_line (b :: l)).1 (take_line (b :: l)).2 = (fs, rest) →
  readAll n (b :: l) = fs :: readAll (pred n) rest.
Proof.
  intros Hr Hb [|n] fs rest Hn Hfs; [simpl in Hn; lia|]. cbn [readAll pred]. rewrite Hr.
  rewrite take_line_cons in * by done. cbn [fst snd] in Hfs. rewrite line_not_empty by done.
  unfold readRecord. unfold fields_of in Hfs. by rewrite Hfs.
Qed.

Section written.
Variable q : list Z → bool.

Lemma rows_text_plain final rows : Forall (row_ok q) rows → 13 ∉ rows_text q final rows.
Proof.
  induction 1 as [|r rows (_ & Hr & _) _ IH]; [set_solver|]. cbn [rows_text]. pose proof (row_text_plain q r Hr).
  destruct rows; [|set_solver]. destruct final; set_solver.
Qed.

(** Records take no more than their text. *)
Lemma read_rows_text final rows n :
  Forall (row_ok q) rows → (length (rows_text q final rows) <= n)%nat → readAll n (rows_text q final rows) = rows.
Proof.
  intros Hall. revert n. induction Hall as [|r rows Hr Hall IH]; intros n Hn; [by destruct n|].
  pose proof (rows_text_plain final (r :: rows)) as Hcr. destruct Hr as (Hne & Hfs & Hone) eqn:Heq. clear Heq.
  assert (∃ e text, rows_text q final (r :: rows) = row_text q r ++ e ++ text ∧ (e = [10] ∨ (e = [] ∧ text = [])) ∧
    13 ∉ text ∧ text = rows_text q final rows) as (e & text & Htext & He & Ht & Hrest).
  { cbn [rows_text]. destruct rows as [|r' rows].
    - exists (if final then [10] else []), []. rewrite app_nil_r. split_and!; [done|by destruct final; [left|right]|set_solver|done].
    - exists [10], (rows_text q final (r' :: rows)). split_and!; [done|by left|by apply rows_text_plain|done]. }
  specialize (Hcr ltac:(by constructor)). rewrite Htext in *.
  destruct (row_text_head q r (e ++ text) Hr) as (b & l & Hbl & Hb).
  pose proof (read_row q r e text Hne Hfs Ht He) as Hrow. rewrite Hbl in *.
  rewrite (readAll_step b l (readLine_plain _ Hcr) Hb n r text Hn Hrow). f_equal. subst text. apply IH.
  pose proof (take_line_app (b :: l)) as Hl. pose proof (proj1 (parsers_shrink (S (length (take_line (b :: l)).1 + length (take_line (b :: l)).2)))
    (take_line (b :: l)).1 (take_line (b :: l)).2) as Hshrink.
  unfold fields_of in Hrow. rewrite Hrow in Hshrink. rewrite <- Hl, length_app in Hn.
  pose proof (take_line_nonempty (b :: l) ltac:(done)). destruct (take_line (b :: l)).1; [done|]. simpl in *. lia.
Qed.
End written.

(** *** Carriage returns *)

(** Every newline with a carriage return before it. *)
Fixpoint to_crlf (l : list Z) : list Z := match l with [] => [] | b :: l => (if b =? 10 then [13; 10] else [b]) ++ to_crlf l end.

Lemma to_crlf_app l k : to_crlf (l ++ k) = to_crlf l ++ to_crlf k.
Proof. induction l as [|b l IH]; [done|]. cbn [app to_crlf]. by rewrite IH, app_assoc. Qed.

Lemma to_crlf_length l : (length l <= length (to_crlf l))%nat.
Proof. induction l as [|b l IH]; [done|]. cbn [to_crlf]. rewrite length_app. destruct (b =? 10); simpl; lia. Qed.

Lemma take_line_crlf l :
  take_line (to_crlf l) = (to_crlf (take_line l).1, to_crlf (take_line l).2).
Proof.
  induction l as [|b l IH]; [done|]. cbn [to_crlf take_line]. destruct (Z.eqb_spec b 10) as [->|Hb]; [done|].
  cbn [app]. rewrite take_line_cons, IH by done. destruct (take_line l) as [x r]. cbn [fst snd to_crlf].
  by rewrite (proj2 (Z.eqb_neq b 10)).
Qed.

(** A line without its newline has none inside. *)
Lemma take_line_form l : ∃ x, (take_line l = (x ++ [10], drop (S (length x)) l) ∨ (take_line l = (x, []) ∧ x = l)) ∧ 10 ∉ x.
Proof.
  induction l as [|b l IH]; [by exists []; split; [right|set_solver]|]. destruct (Z.eq_dec b 10) as [->|Hb].
  - exists []. split; [by left|set_solver].
  - destruct IH as (x & Hx & Hn). exists (b :: x). rewrite take_line_cons by done. split; [|set_solver].
    destruct Hx as [-> | [-> ->]]; [left|right]; done.
Qed.

Lemma to_crlf_plain x : 10 ∉ x → to_crlf x = x.
Proof.
  induction x as [|b x IH]; [done|]. intros [Hb Hx]%not_elem_of_cons. cbn [to_crlf].
  rewrite (proj2 (Z.eqb_neq b 10)) by done. cbn [app]. by rewrite IH.
Qed.

Lemma readLine_crlf l : 13 ∉ l → readLine (to_crlf l) = ((take_line l).1, to_crlf (take_line l).2).
Proof.
  intros Hcr. unfold readLine. rewrite take_line_crlf. f_equal. pose proof (take_line_app l) as Hl.
  destruct (take_line_form l) as (x & Hx & Hn). destruct Hx as [Hx | [Hx _]]; rewrite Hx in *; cbn [fst snd] in *.
  - rewrite to_crlf_app, to_crlf_plain by done. change (to_crlf [10]) with [13; 10].
    unfold normalize. rewrite rev_app_distr. cbn [rev app Z.eqb Pos.eqb]. by rewrite rev_involutive.
  - rewrite to_crlf_plain by done. apply normalize_plain. by rewrite <- Hl, app_nil_r in Hcr.
Qed.

Lemma take_line_no_cr l : 13 ∉ l → 13 ∉ (take_line l).2.
Proof. intros Hl. rewrite <- (take_line_app l) in Hl. set_solver. Qed.

Lemma parsers_crlf n :
  (∀ line rest, 13 ∉ rest → 13 ∉ (parse_fields n line rest).2 ∧
     parse_fields n line (to_crlf rest) = ((parse_fields n line rest).1, to_crlf (parse_fields n line rest).2)) ∧
  (∀ buf line rest, 13 ∉ rest → 13 ∉ (parse_quoted n buf line rest).2 ∧
     parse_quoted n buf line (to_crlf rest) = ((parse_quoted n buf line rest).1, to_crlf (parse_quoted n buf line rest).2)).
Proof.
  induction n as [|n [IHf IHq]]; [done|].
  split.
  - intros line rest Hr. cbn [parse_fields].
    assert (∀ f k, 13 ∉ (let '(fs, rest) := parse_fields n k rest in ((f : list Z) :: fs, rest)).2 ∧
      (let '(fs, rest) := parse_fields n k (to_crlf rest) in (f :: fs, rest)) =
        ((let '(fs, rest) := parse_fields n k rest in (f :: fs, rest)).1,
         to_crlf (let '(fs, rest) := parse_fields n k rest in (f :: fs, rest)).2)) as Hu.
    { intros f k. destruct (IHf k rest Hr) as [H1 ->]. by destruct (parse_fields n k rest). }
    destruct line as [|b line]; [done|]. destruct (b =? 34); [by apply IHq|].
    destruct (cut_byte 44 (b :: line)) as [[f k]|]; [apply Hu|done].
  - intros buf line rest Hr. cbn [parse_quoted]. destruct (cut_byte 34 line) as [[x [|b k]]|]; [done| |].
    + destruct (b =? 34); [by apply IHq|]. destruct (b =? 44); [|destruct (Nat.eqb _ _); [done|by apply IHq]].
      destruct (IHf k rest Hr) as [H1 ->]. by destruct (parse_fields n k rest).
    + destruct line as [|b line]; [done|]. rewrite readLine_crlf, readLine_plain by done.
      pose proof (take_line_no_cr rest Hr). destruct (take_line rest) as [line' rest']. by apply IHq.
Qed.

Lemma readAll_crlf n m l :
  13 ∉ l → (length l <= n)%nat → (length (to_crlf l) <= m)%nat → readAll m (to_crlf l) = readAll n l.
Proof.
  revert n l. induction m as [|m IH]; intros n l Hcr Hn Hm.
  - pose proof (to_crlf_length l). destruct l; [by destruct n|simpl in *; lia].
  - destruct l as [|b l]; [by destruct n|]. destruct n as [|n]; [simpl in Hn; lia|].
    pose proof (readLine_crlf (b :: l) Hcr) as Hline. pose proof (take_line_app (b :: l)) as Hl.
    pose proof (take_line_nonempty (b :: l) ltac:(done)) as Hne. pose proof (take_line_no_cr (b :: l) Hcr) as Hcr'.
    pose proof (take_line_crlf (b :: l)) as Htl. pose proof (take_line_app (to_crlf (b :: l))) as Hcl.
    pose proof (readLine_plain (b :: l) Hcr) as Hplain. destruct (to_crlf (b :: l)) as [|c k] eqn:Hck.
    { cbn [to_crlf] in Hck. by destruct (b =? 10). }
    cbn [readAll]. rewrite Hline, Hplain. rewrite Htl in Hcl. destruct (take_line (b :: l)) as [line rest]. cbn [fst snd] in *.
    rewrite <- Hl, length_app in Hn. rewrite <- Hcl, length_app in Hm.
    assert (0 < length line)%nat as Hpos by (destruct line; [done|simpl; lia]). pose proof (to_crlf_length line) as Hline'.
    destruct (Nat.eqb _ _); [apply IH; [done|lia|lia]|].
    unfold readRecord. pose proof (to_crlf_length rest) as Hrl.
    rewrite (parse_fields_fuel _ (S (length line + length (to_crlf rest)))) with (line := line) (rest := rest) by lia.
    destruct (parsers_crlf (S (length line + length (to_crlf rest)))) as [Hp _]. destruct (Hp line rest Hcr') as [Hcr2 ->].
    pose proof (proj1 (parsers_shrink (S (length line + length (to_crlf rest)))) line rest) as Hs1.
    pose proof (proj1 (parsers_shrink (S (length line + length (to_crlf rest)))) line (to_crlf rest)) as Hs2.
    rewrite (proj2 (Hp line rest Hcr')) in Hs2.
    destruct (parse_fields _ line rest) as [fs rest']. cbn [fst snd] in *. f_equal. apply IH; [done|lia|lia].
Qed.

(** C37: what is written by the rules of RFC 4180 is read back: records of any
    fields without carriage returns, each field quoted or not as the writer
    likes as long as what needs quotes has them, lines ended by a newline or by
    a carriage return and a newline, the last perhaps not ended, the text
    perhaps after a byte order mark. *)
Theorem csv_roundtrip q final crlf mark rows :
  let text := if crlf : bool then to_crlf (rows_text q final rows) else rows_text q final rows in
  Forall (row_ok q) rows → mark = bom ∨ (mark = [] ∧ starts_with text bom = false) →
  readRows (mark ++ text) = strings_of <$> rows.
Proof.
  intros text Hrows Hmark. unfold readRows.
  assert ((if starts_with (mark ++ text) bom then drop 3 (mark ++ text) else mark ++ text) = text) as ->.
  { destruct Hmark as [-> | [-> Hs]]; [by rewrite starts_with_app|]. cbn [app]. by rewrite Hs. }
  f_equal. pose proof (rows_text_plain q final rows Hrows) as Hcr. subst text. destruct crlf.
  - rewrite (readAll_crlf (length (rows_text q final rows))) by done. by apply read_rows_text.
  - by apply read_rows_text.
Qed.

(** ** The letters of a column *)

Definition letter (b : Z) : Prop := 65 <= b <= 90.
Definition col_value (l : list Z) : Z := foldl (λ acc b, acc * 26 + (b - 64)) 0 l.

Lemma col_value_snoc l b : col_value (l ++ [b]) = col_value l * 26 + (b - 64).
Proof. unfold col_value. by rewrite foldl_app. Qed.

Lemma col_value_pos l : Forall letter l → 0 <= col_value l ∧ (l ≠ [] → 0 < col_value l).
Proof.
  induction l as [|b l IH] using rev_ind; intros Hl; [done|]. apply Forall_app in Hl as [Hl [Hb _]%Forall_cons].
  rewrite col_value_snoc. unfold letter in Hb. specialize (IH Hl). lia.
Qed.

Lemma col_value_inj l k : Forall letter l → Forall letter k → col_value l = col_value k → l = k.
Proof.
  revert k. induction l as [|b l IH] using rev_ind; intros k Hl Hk Heq.
  - destruct k as [|c k]; [done|]. destruct (col_value_pos (c :: k) Hk) as [_ Hp]. specialize (Hp ltac:(done)). unfold col_value at 1 in Heq. simpl in Heq. lia.
  - apply Forall_app in Hl as [Hl [Hb _]%Forall_cons]. destruct k as [|c k _] using rev_ind.
    { rewrite col_value_snoc in Heq. destruct (col_value_pos l Hl). unfold letter in Hb. unfold col_value at 2 in Heq. simpl in Heq. lia. }
    apply Forall_app in Hk as [Hk [Hc _]%Forall_cons]. rewrite !col_value_snoc in Heq. unfold letter in *.
    assert (col_value l = col_value k ∧ b = c) as [Hv ->] by lia. f_equal. by apply IH.
Qed.

Lemma col_letters_app fuel n s : col_letters fuel n s = col_letters fuel n [] ++ s.
Proof.
  revert n s. induction fuel as [|fuel IH]; intros n s; cbn [col_letters]; [done|].
  destruct (_ <? 0); [done|]. rewrite IH. symmetry. rewrite IH. by rewrite <- app_assoc.
Qed.

Lemma col_letters_spec fuel n :
  0 <= n → n + 1 < 2 ^ (Z.of_nat fuel + 1) →
  col_value (col_letters fuel n []) = n + 1 ∧ Forall letter (col_letters fuel n []).
Proof.
  revert n. induction fuel as [|fuel IH]; intros n Hn Hf.
  - assert (n = 0) as -> by (change (2 ^ (Z.of_nat 0 + 1)) with 2 in Hf; lia). split; [done|]. by repeat constructor.
  - cbn [col_letters]. assert (letter (65 + n mod 26)) as Hl by (unfold letter; pose proof (Z.mod_pos_bound n 26); lia).
    pose proof (Z.div_mod n 26 ltac:(lia)) as Hdm. destruct (Z.ltb_spec (n / 26 - 1) 0).
    + split; [|by constructor]. unfold col_value. cbn [foldl]. assert (0 <= n / 26) by (by apply Z.div_pos). lia.
    + rewrite col_letters_app. destruct (IH (n / 26 - 1)) as [Hv Hall]; [done| |].
      * replace (n / 26 - 1 + 1) with (n / 26) by lia. apply Z.div_lt_upper_bound; [lia|].
        replace (Z.of_nat (S fuel) + 1) with (Z.of_nat fuel + 1 + 1) in Hf by lia. rewrite (Z.pow_add_r 2 (Z.of_nat fuel + 1)) in Hf by lia. lia.
      * split; [|apply Forall_app; by split; [|by constructor]]. rewrite col_value_snoc, Hv. lia.
Qed.

Lemma col_letter_bytes idx :
  0 <= idx → col_value (bytes (colLetter idx)) = idx + 1 ∧ Forall letter (bytes (colLetter idx)).
Proof.
  intros Hi. unfold colLetter. pose proof (Z.log2_spec (idx + 1) ltac:(lia)) as [_ Hlt]. pose proof (Z.log2_nonneg (idx + 1)).
  destruct (col_letters_spec (Z.to_nat (Z.log2 (idx + 1))) idx) as [Hv Hl]; [done| |].
  { rewrite Z2Nat.id by done. by rewrite Z.add_1_r. }
  rewrite bytes_of_bytes; [done|]. eapply Forall_impl; [exact Hl|]. unfold letter. intros b Hb. simpl in Hb. lia.
Qed.

(** The names of the columns are the words of capital letters in the usual
    order: every column has its own, and every word names a column. *)
Theorem col_letter_bijective :
  (∀ i j, 0 <= i → 0 <= j → colLetter i = colLetter j → i = j) ∧
  (∀ l, l ≠ [] → Forall letter l → ∃ i, 0 <= i ∧ i + 1 = col_value l ∧ colLetter i = of_bytes l).
Proof.
  split.
  - intros i j Hi Hj Heq. destruct (col_letter_bytes i Hi) as [Hv _]. destruct (col_letter_bytes j Hj) as [Hw _].
    rewrite Heq in Hv. lia.
  - intros l Hne Hl. destruct (col_value_pos l Hl) as [_ Hp]. specialize (Hp Hne). exists (col_value l - 1).
    split_and!; [lia|lia|]. destruct (col_letter_bytes (col_value l - 1)) as [Hv Hall]; [lia|].
    rewrite <- (of_bytes_bytes (colLetter _)). f_equal. apply col_value_inj; [done|done|lia].
Qed.

(** ** The text of a cell *)

Fixpoint map_str (f : ascii → string) (s : string) : string :=
  match s with EmptyString => "" | String c s => f c +:+ map_str f s end.

Lemma map_str_app f s t : map_str f (s +:+ t) = map_str f s +:+ map_str f t.
Proof. induction s as [|c s IH]; [done|]. cbn. by rewrite IH, string_app_assoc. Qed.

Lemma map_str_map f g s : map_str g (map_str f s) = map_str (λ c, map_str g (f c)) s.
Proof. induction s as [|c s IH]; [done|]. cbn. by rewrite map_str_app, IH. Qed.

Lemma map_str_ext f g s : (∀ c, f c = g c) → map_str f s = map_str g s.
Proof. intros Hfg. induction s as [|c s IH]; [done|]. cbn. by rewrite Hfg, IH. Qed.

Definition replace_char (c : ascii) (new : string) (d : ascii) : string := if (c =? d)%char then new else String d "".

Lemma replace_all_char c new s : replace_all s (String c "") new = map_str (replace_char c new) s.
Proof.
  unfold replace_all. generalize (le_n (String.length s)). generalize (String.length s) at 2 3. intros n.
  revert s. induction n as [|n IH]; intros s Hn; [by destruct s; simpl in *; [|lia]|].
  destruct s as [|d s]; [done|]. simpl in Hn. cbn [replace_all_fuel has_prefix map_str String.length str_drop].
  unfold replace_char at 1. destruct (Ascii.eqb_spec c d) as [->|]; cbn [andb]; rewrite IH by lia; done.
Qed.

(** What [xmlEscape] makes of a character. *)
Definition escape_char (c : ascii) : string :=
  if (c =? "&")%char then "&amp;" else if (c =? "<")%char then "&lt;" else if (c =? ">")%char then "&gt;" else String c "".

Lemma xmlEscape_chars s : xmlEscape s = map_str escape_char s.
Proof.
  unfold xmlEscape. rewrite !replace_all_char, !map_str_map. apply map_str_ext. intros c. unfold escape_char, replace_char at 3.
  rewrite (Ascii.eqb_sym "&" c). destruct (Ascii.eqb_spec c "&"); [done|]. cbn [map_str]. unfold replace_char at 2.
  rewrite (Ascii.eqb_sym "<" c). destruct (Ascii.eqb_spec c "<"); [done|]. cbn [append map_str]. unfold replace_char.
  rewrite (Ascii.eqb_sym ">" c). by destruct (Ascii.eqb_spec c ">").
Qed.

(** The character data of an XML element with the three entities replaced;
    [None] when there is other markup in it. *)
Fixpoint char_data (s : string) : option string :=
  match s with
  | EmptyString => Some ""
  | String c s' =>
      if (c =? "&")%char then
        match s' with
        | String "a" (String "m" (String "p" (String ";" r))) => String "&" <$> char_data r
        | String "l" (String "t" (String ";" r)) => String "<" <$> char_data r
        | String "g" (String "t" (String ";" r)) => String ">" <$> char_data r
        | _ => None
        end
      else if (c =? "<")%char || (c =? ">")%char then None
      else String c <$> char_data s'
  end.

Lemma char_data_escape s : char_data (xmlEscape s) = Some s.
Proof.
  rewrite xmlEscape_chars. induction s as [|c s IH]; [done|]. cbn [map_str]. unfold escape_char at 1.
  destruct (Ascii.eqb_spec c "&") as [->|H1].
  { by change (char_data ("&amp;" +:+ ?t)) with (String "&" <$> char_data t); rewrite IH. }
  destruct (Ascii.eqb_spec c "<") as [->|H2].
  { by change (char_data ("&lt;" +:+ ?t)) with (String "<" <$> char_data t); rewrite IH. }
  destruct (Ascii.eqb_spec c ">") as [->|H3].
  { by change (char_data ("&gt;" +:+ ?t)) with (String ">" <$> char_data t); rewrite IH. }
  cbn [append char_data]. by rewrite (proj2 (Ascii.eqb_neq c "&") H1), (proj2 (Ascii.eqb_neq c "<") H2),
    (proj2 (Ascii.eqb_neq c ">") H3), IH.
Qed.

(** Bytes that are not markup. *)
Definition inert (b : Z) : Prop := b ≠ 38 ∧ b ≠ 60 ∧ b ≠ 62.

Lemma char_data_inert s : Forall inert (bytes s) → char_data s = Some s.
Proof.
  induction s as [|c s IH]; [done|]. cbn [bytes]. intros [Hc Hs]%Forall_cons. cbn [char_data].
  assert (∀ d, byte_of d = 38 ∨ byte_of d = 60 ∨ byte_of d = 62 → (c =? d)%char = false) as Hd.
  { intros d Hd. apply Ascii.eqb_neq. intros ->. unfold inert in Hc. lia. }
  rewrite !Hd by (vm_compute; tauto). by rewrite IH.
Qed.

(** A text that is a number holds no markup. *)
Lemma inert_range b : 0 <= b → (b < 38 ∨ 38 < b < 60 ∨ b = 61 ∨ 62 < b) → inert b.
Proof. unfold inert. lia. Qed.

Lemma span_mantissa_inert hex dot l ds frac r :
  span_mantissa hex dot l = (ds, frac, r) → ∃ x, l = x ++ r ∧ Forall inert x.
Proof.
  revert dot ds frac r. induction l as [|b l IH]; intros dot ds frac r; cbn [span_mantissa]; [by intros [= <- <- <-]; exists []|].
  destruct (Z.eqb_spec b 95) as [->|].
  { intros (x & -> & Hx)%IH. exists (95 :: x). split; [done|]. constructor; [by unfold inert|done]. }
  destruct (Z.eqb_spec b 46) as [->|].
  { destruct dot; [by intros [= <- <- <-]; exists []|]. intros (x & -> & Hx)%IH. exists (46 :: x).
    split; [done|]. constructor; [by unfold inert|done]. }
  destruct (mantissa_digit hex b) eqn:Hd; [|by intros [= <- <- <-]; exists []].
  destruct (span_mantissa hex dot l) as [[ds' frac'] r'] eqn:Hs. intros [= <- <- <-].
  destruct (IH _ _ _ _ Hs) as (x & -> & Hx). exists (b :: x). split; [done|]. constructor; [|done].
  unfold mantissa_digit, is_digit, in_range, is_hex_letter, in_range, lower_byte in Hd.
  destruct (Z.eq_dec b 38) as [->|]; [by destruct hex|]. destruct (Z.eq_dec b 60) as [->|]; [by destruct hex|].
  destruct (Z.eq_dec b 62) as [->|]; [by destruct hex|]. done.
Qed.

Lemma span_exponent_inert e l e' r : span_exponent e l = (e', r) → ∃ x, l = x ++ r ∧ Forall inert x.
Proof.
  revert e. induction l as [|b l IH]; intros e; cbn [span_exponent]; [by intros [= <- <-]; exists []|].
  destruct (is_digit b) eqn:Hd.
  - intros (x & -> & Hx)%IH. exists (b :: x). split; [done|]. constructor; [|done].
    unfold is_digit, in_range in Hd. unfold inert. lia.
  - destruct (Z.eqb_spec b 95) as [->|]; [|by intros [= <- <-]; exists []].
    intros (x & -> & Hx)%IH. exists (95 :: x). split; [done|]. by constructor; [unfold inert|].
Qed.

Lemma split_sign_inert l : ∃ x, l = x ++ (split_sign l).2 ∧ Forall inert x.
Proof.
  destruct l as [|b l]; [by exists []|]. cbn [split_sign].
  destruct (Z.eqb_spec b 43) as [->|]; [by exists [43]; split; [|repeat constructor]|].
  destruct (Z.eqb_spec b 45) as [->|]; [by exists [45]; split; [|repeat constructor]|]. by exists [].
Qed.

Lemma lower_byte_inert p c : lower_byte p = c → inert c → c ∉ [38; 60; 62] → inert p.
Proof. intros <- _ Hc. unfold inert. split_and!; intros ->; apply Hc; vm_compute; set_solver. Qed.

Lemma exponent_part_inert hex l e r : exponent_part hex l = Some (e, r) → ∃ x, l = x ++ r ∧ Forall inert x.
Proof.
  unfold exponent_part. destruct l as [|b l]; [destruct hex; [done|intros [= <- <-]; by exists []]|].
  destruct (Z.eqb_spec (lower_byte b) (if hex then 112 else 101)) as [Hb|];
    [|by destruct hex; [done|intros [= <- <-]; exists []]].
  assert (inert b) as Hib.
  { apply (lower_byte_inert _ _ Hb); destruct hex; [by unfold inert|by unfold inert|set_solver|set_solver]. }
  destruct (split_sign_inert l) as (x & Hl & Hx). destruct (split_sign l) as [neg k]. cbn [snd] in Hl. subst l.
  destruct k as [|d k]; [done|]. destruct (is_digit d); [|done].
  destruct (span_exponent 0 (d :: k)) as [e' r'] eqn:He. apply span_exponent_inert in He as (y & Hy & Hiy).
  intros [= _ <-]. exists (b :: x ++ y). rewrite Hy. split; [by rewrite <- app_comm_cons, app_assoc|].
  constructor; [done|]. by apply Forall_app.
Qed.

Lemma number_inert l : number_in_range l = true → Forall inert l.
Proof.
  unfold number_in_range. destruct (split_sign_inert l) as (x & Hl & Hx).
  destruct (split_sign l) as [neg body]. cbn [snd] in Hl.
  assert (∃ y hex r0, (match body with
    | b :: p :: (_ :: _) as r => if (b =? 48) && (lower_byte p =? 120) then (true, r) else (false, body)
    | _ => (false, body) end) = (hex, r0) ∧ body = y ++ r0 ∧ Forall inert y) as (y & hex & r0 & -> & Hy & Hiy).
  { destruct body as [|b [|p [|c r]]]; [by exists [], false, []|by exists [], false, [b]|by exists [], false, [b; p]|].
    destruct (Z.eqb_spec b 48) as [->|]; [|by exists [], false, (b :: p :: c :: r)].
    destruct (Z.eqb_spec (lower_byte p) 120) as [Hp|]; [|by exists [], false, (48 :: p :: c :: r)].
    exists [48; p], true, (c :: r). split; [done|]. split; [done|]. repeat constructor; try done.
    all: intros ->; done. }
  destruct (span_mantissa hex false r0) as [[ds frac] r1] eqn:Hm. apply span_mantissa_inert in Hm as (z & -> & Hz).
  destruct ds as [|d ds]; [done|]. destruct (exponent_part hex r1) as [[e r2]|] eqn:He; [|done].
  apply exponent_part_inert in He as (u & -> & Hu). intros Hok. apply andb_true_iff in Hok as [[Hr _]%andb_true_iff _].
  apply Nat.eqb_eq in Hr. destruct r2; [|done]. subst l body. rewrite app_nil_r. by repeat (apply Forall_app; split).
Qed.

Lemma lower_word_inert l w :
  Forall (λ b, 0 <= b < 256) l → lower_word l = w → Forall (λ b, 97 <= b <= 122) (bytes w) → Forall inert l.
Proof.
  intros Hl <- Hw. unfold lower_word in Hw.
  assert (Forall (λ b, 0 <= ascii_lower b < 256) l) as Hl'.
  { eapply Forall_impl; [exact Hl|]. intros b Hb. simpl in Hb. unfold ascii_lower, in_range. case_match; lia. }
  rewrite bytes_of_bytes in Hw by (by apply Forall_fmap). apply Forall_fmap in Hw. eapply Forall_impl; [exact Hw|].
  intros b Hb. unfold compose, ascii_lower, in_range in Hb. unfold inert. case_match; lia.
Qed.

Lemma special_inert s : special (bytes s) = true → Forall inert (bytes s).
Proof.
  unfold special. destruct (split_sign_inert (bytes s)) as (x & Hl & Hx). pose proof (bytes_range s) as Hr.
  intros Hs. apply orb_true_iff in Hs as [[Hs|Hs]%orb_true_iff|Hs]; apply String.eqb_eq in Hs.
  3: by eapply lower_word_inert; [exact Hr|exact Hs|repeat constructor; vm_compute; done].
  all: rewrite Hl in Hr |- *; apply Forall_app in Hr as [_ Hr]; apply Forall_app; split; [done|].
  all: eapply lower_word_inert; [exact Hr|exact Hs|repeat constructor; vm_compute; done].
Qed.

Lemma isNumber_inert v : isNumber v = true → Forall inert (bytes v).
Proof.
  unfold isNumber. intros [_ [Hs|Hn]%orb_true_iff]%andb_true_iff; [by apply special_inert|by apply number_inert].
Qed.

(** Whatever the text of a cell, what stands between its tags is well-formed
    character data that reads back as that text: a number below the first row as
    it is, anything else escaped. *)
Theorem cell_shows_its_value rIdx ci val :
  ∃ body, char_data body = Some val ∧
    cellXML rIdx ci val =
      if (1 <? rIdx) && isNumber val
      then markup "<c r='" +:+ (colLetter (Z.of_nat ci) +:+ itoa rIdx) +:+ markup "'><v>" +:+ body +:+ "</v></c>"
      else markup "<c r='" +:+ (colLetter (Z.of_nat ci) +:+ itoa rIdx) +:+
        markup "' t='inlineStr'><is><t xml:space='preserve'>" +:+ body +:+ "</t></is></c>".
Proof.
  unfold cellXML. destruct (1 <? rIdx); cbn [andb]; [|exists (xmlEscape val); by split; [apply char_data_escape|]].
  destruct (isNumber val) eqn:Hn.
  - exists val. split; [|done]. by apply char_data_inert, isNumber_inert.
  - exists (xmlEscape val). by split; [apply char_data_escape|].
Qed.

(** ** The width of a column *)

Lemma flt_small a b : Z.abs a < 2 ^ 53 → Z.abs b < 2 ^ 53 → flt (f64_of_Z a) (f64_of_Z b) = (a <? b).
Proof.
  intros Ha Hb. destruct (f64_of_Z_exact a Ha) as [Fa Sa]. destruct (f64_of_Z_exact b Hb) as [Fb Sb].
  pose proof (f64_of_Z_valid a) as Va. pose proof (f64_of_Z_valid b) as Vb.
  destruct (flt (f64_of_Z a) (f64_of_Z b)) eqn:Hlt; symmetry.
  - apply flt_scaled_mono in Hlt; try done. rewrite Sa, Sb in Hlt. apply Z.ltb_lt. nia.
  - apply Z.ltb_ge. destruct (Z.le_gt_cases b a) as [|Hgt]; [done|]. exfalso.
    rewrite flt_not_ge in Hlt by (by apply ffinite_fnum). apply negb_false_iff in Hlt.
    apply fle_scaled in Hlt; try done. rewrite Sa, Sb in Hlt. nia.
Qed.

(** A column as wide as its longest cell and two more, between 8 and 50. *)
Lemma colWidth_spec rows ci :
  0 <= maxLen rows ci < 2 ^ 52 → colWidth rows ci = f64_of_Z (Z.min 50 (Z.max 8 (maxLen rows ci + 2))).
Proof.
  intros Hm. unfold colWidth, minColW, maxColW. assert (2 ^ 52 < 2 ^ 53 < 2 ^ 62) as Hp by (vm_compute; done).
  rewrite i64_id by (unfold in_i64; lia). rewrite flt_small by lia. destruct (Z.ltb_spec (maxLen rows ci + 2) 8).
  - rewrite flt_small by lia. rewrite Z.max_l, Z.min_r by lia. done.
  - rewrite flt_small by lia. rewrite Z.max_r by lia. destruct (Z.ltb_spec 50 (maxLen rows ci + 2)); f_equal; lia.
Qed.

Lemma nCols_bound rows : Forall (λ r, (length r <= nCols rows)%nat) rows.
Proof.
  unfold nCols. assert (∀ l n, (n <= foldl (λ n (r : list string), if (n <? length r)%nat then length r else n) n l)%nat ∧
    Forall (λ r, (length r <= foldl (λ n (r : list string), if (n <? length r)%nat then length r else n) n l)%nat) l) as Hl.
  { induction l as [|r l IH]; intros n; [done|]. cbn [foldl].
    destruct (Nat.ltb_spec n (length r)) as [Hlt|Hge]; [destruct (IH (length r)) as [H1 H2]|destruct (IH n) as [H1 H2]];
      (split; [lia|]; constructor; [lia|done]). }
  apply Hl.
Qed.

Lemma maxLen_spec rows ci :
  0 <= maxLen rows ci ∧ Forall (λ r, ∀ v, r !! ci = Some v → str_len v <= maxLen rows ci) rows ∧
  (maxLen rows ci = 0 ∨ Exists (λ r, ∃ v, r !! ci = Some v ∧ maxLen rows ci = str_len v) rows).
Proof.
  unfold maxLen. set (f := λ m (r : list string), _).
  assert (∀ l m, m <= foldl f m l ∧ Forall (λ r, ∀ v, r !! ci = Some v → str_len v <= foldl f m l) l ∧
    (foldl f m l = m ∨ Exists (λ r, ∃ v, r !! ci = Some v ∧ foldl f m l = str_len v) l)) as Hl; [|by apply (Hl rows 0)].
  induction l as [|r l IH]; intros m; [split_and!; [done|done|by left]|]. cbn [foldl].
  destruct (IH (f m r)) as (H1 & H2 & H3).
  assert (m <= f m r ∧ (∀ v, r !! ci = Some v → str_len v <= f m r) ∧
    (f m r = m ∨ ∃ v, r !! ci = Some v ∧ f m r = str_len v)) as (G1 & G2 & G3).
  { subst f. cbn. destruct (r !! ci) as [v|]; [|by split_and!; [|done|left]].
    destruct (Z.ltb_spec m (str_len v)); split_and!; try lia; try (intros ? [= <-]; lia). right. by exists v. }
  split_and!; [lia| |].
  - constructor; [|done]. intros v Hv. specialize (G2 v Hv). lia.
  - destruct H3 as [Heq|Hex]; [|right; by right]. rewrite Heq. destruct G3 as [Hm|(v & Hv & Hm)]; [by left|].
    right. left. by exists v.
Qed.

(** There is a width for every column of the longest record; each is between 8
    and 50, and no cell has more than the width less two unless the width is 50. *)
Theorem column_widths rows :
  Forall (Forall (λ v, str_len v < 2 ^ 52)) rows →
  length (estimateColWidths rows) = nCols rows ∧
  Forall (λ r, (length r <= nCols rows)%nat) rows ∧
  ∀ ci, (ci < nCols rows)%nat → ∃ w, estimateColWidths rows !! ci = Some (f64_of_Z w) ∧ 8 <= w <= 50 ∧
    Forall (λ r, ∀ v, r !! ci = Some v → str_len v + 2 <= w ∨ w = 50) rows.
Proof.
  intros Hcells. unfold estimateColWidths. split; [by rewrite length_fmap, length_seq|]. split; [apply nCols_bound|].
  intros ci Hci. destruct (maxLen_spec rows ci) as (H0 & Hle & Hex).
  assert (maxLen rows ci < 2 ^ 52) as Hlt.
  { destruct Hex as [->|(r & Hr & v & Hv & ->)%Exists_exists]; [by vm_compute|].
    rewrite Forall_forall in Hcells. specialize (Hcells r Hr). rewrite Forall_forall in Hcells.
    apply Hcells. by apply list_elem_of_lookup_2 in Hv. }
  exists (Z.min 50 (Z.max 8 (maxLen rows ci + 2))). split_and!; [|lia|lia|].
  - rewrite list_lookup_fmap, lookup_seq_lt by done. cbn. by rewrite colWidth_spec.
  - eapply Forall_impl; [exact Hle|]. intros r Hr v Hv. specialize (Hr v Hv). lia.
Qed.

(** Texts that are no numbers in a spreadsheet are stored as numbers: what Go reads
    as a float literal goes between the tags as it is. *)
Lemma literals_stored_as_numbers :
  (cellXML 2 0 <$> ["1_000"; "0x1p-2"; "Infinity"; "nan"]) =
    (λ v, markup "<c r='A2'><v>" +:+ v +:+ "</v></c>") <$> ["1_000"; "0x1p-2"; "Infinity"; "nan"].
Proof. vm_compute. reflexivity. Qed.

(** ** The hypotheses can hold *)

Section witnesses.
(** A writer that quotes what holds a comma, a newline or a quote, and empty fields. *)
Definition needs_quotes (f : list Z) : bool :=
  match f with [] => true | _ => existsb (λ b, (b =? 44) || (b =? 10) || (b =? 34)) f end.
Definition sample_rows : list (list (list Z)) :=
  [[bytes "name"; bytes "a, b"]; [[]]; [bytes "x"; [34; 10; 34]; []]].

Lemma sample_rows_ok : Forall (row_ok needs_quotes) sample_rows.
Proof.
  assert (∀ f, bool_decide (13 ∉ f) && (needs_quotes f || bool_decide (44 ∉ f ∧ 10 ∉ f ∧ head f ≠ Some 34)) = true →
    field_ok needs_quotes f) as Hf.
  { intros f [H1%bool_decide_eq_true H2]%andb_true_iff. split; [done|]. intros Hq. rewrite Hq in H2.
    by apply bool_decide_eq_true in H2. }
  repeat constructor; try done; apply Hf; vm_compute; done.
Qed.

Example csv_roundtrip_witness :
  readRows (bom ++ to_crlf (rows_text needs_quotes false sample_rows)) = strings_of <$> sample_rows.
Proof. apply (csv_roundtrip needs_quotes false true bom sample_rows); [apply sample_rows_ok|by left]. Defined.

Example column_widths_witness :
  let rows := [["name"; "score"]; ["a long name indeed"]] in
  length (estimateColWidths rows) = nCols rows ∧ nCols rows = 2%nat.
Proof.
  intros rows. split; [|reflexivity]. apply (column_widths rows). repeat constructor; vm_compute; done.
Defined.
End witnesses.
