(* ===== verification/LibreOffice.v ===== *)
(** * The LibreOffice fallback ([internal/libreoffice])

    One headless run of [soffice] per request; the process is an argument. *)
From Stdlib Require Import ZArith Lia Bool Ascii String.
From stdpp Require Import base tactics list gmap strings.
From S2P Require Import Prelude GoFloat GoString GoTime Types OErrors FS.
From stdpp Require Import list.
Local Open Scope Z_scope.

Definition sofficeBin : string := "soffice".

(** How a child ends: it could not be started, it was killed at its limit with
    what it had printed so far, or it exited. *)
Inductive child_run : Type :=
| NotStarted (e : string)
| KilledAtLimit (stdout stderr : string)
| ChildExited (rc : Z) (stdout stderr : string).

(** Is [soffice] on the path?  A run of it, with its effects on the files. *)
Class Soffice := {
  soffice_found : bool;
  run_soffice : list string → Z → IO child_run
}.

Definition nonZero (rc : Z) : Z := if rc =? 0 then 1 else rc.
Definition tailStr (s : string) (n : nat) : string := if (n <? String.length s)%nat then tail_str s n else s.

Section libreoffice.
Context `{Soffice} `{OSErrors}.

(** Standard output, standard error, exit code, did it time out. *)
Definition runWithTimeout (argv : list string) (timeout : Z) : IO (string * string * Z * bool) :=
  r ← run_soffice argv timeout;
  mret (match r with
        | NotStarted e => ("", e, 1, false)
        | KilledAtLimit out err => (out, err, -1, true)
        | ChildExited rc out err => (out, err, rc, false)
        end).

Definition soffice_argv (profileDir outputDir inputPath : string) : list string :=
  [sofficeBin; "-env:UserInstallation=file://" +:+ profileDir;
   "--headless"; "--nologo"; "--nofirststartwizard"; "--norestore";
   "--convert-to"; "pdf"; "--outdir"; outputDir; inputPath].

(** The PDF the run left: named after the input, or the first there is. *)
Definition find_pdf (inputPath outputDir : string) : IO (result Error string) :=
  let stem := trim_suffix (Base inputPath) (Ext inputPath) in
  let expected := FilepathJoin [outputDir; stem +:+ ".pdf"] in
  ok ← os_exists expected;
  if ok : bool then mret (Ok expected)
  else
    matches ← os_glob outputDir ".pdf";
    mret (match matches with
          | [] => Err (NewRender None 0 "libreoffice exited 0 but no .pdf appeared in outdir")
          | m :: _ => Ok m
          end).

Definition run_and_find (inputPath outputDir profileDir : string) (timeoutSeconds : Z) : IO (result Error string) :=
  '(stdout, stderr, rc, timedOut) ← runWithTimeout (soffice_argv profileDir outputDir inputPath) (timeoutSeconds *! Second)%go;
  if timedOut : bool then mret (Err (NewRender None (-1) "libreoffice timed out"))
  else if negb (rc =? 0) then
    let tail := tailStr (if String.eqb stderr "" then stdout else stderr) 1024 in
    mret (Err (NewRender None (nonZero rc) ("libreoffice: " +:+ trim_space tail)))
  else find_pdf inputPath outputDir.

Definition ConvertToPDF (inputPath outputDir : string) (timeoutSeconds : Z) : IO (result Error string) :=
  if negb soffice_found then
    mret (Err (plain_error RenderFailed 500 "libreoffice (soffice) not installed" None))
  else
    ok ← os_mkdir_all outputDir;
    if negb ok then mret (Err (NewRender None (-1) ("mkdir outdir: " +:+ os_error "mkdir" outputDir)))
    else
      let profileDir := FilepathJoin [outputDir; "lo_profile"] in
      ok ← os_mkdir_all profileDir;
      if negb ok then mret (Err (NewRender None (-1) ("mkdir profile: " +:+ os_error "mkdir" profileDir)))
      else run_and_find inputPath outputDir profileDir timeoutSeconds.
End libreoffice.
