(* ===== verification/Email.v ===== *)
(** * E-mail to PDF ([internal/email])

    Two workers in three runs: the message becomes an MHTML file, its pages are
    counted, its pages are rendered. *)
From Stdlib Require Import ZArith Lia Bool Ascii String.
From stdpp Require Import base tactics list gmap strings.
From S2P Require Import Prelude GoFloat GoString Types OErrors Config FS Json.
From S2P Require Worker Probe.
From stdpp Require Import list.
Local Open Scope Z_scope.

(** The [page_count] member of the probe's answer: absent, null, a number of
    64 bits, or anything that does not fit. *)
Definition store_page_count (st : option Z * bool) (kv : string * any) : option Z * bool :=
  if decide (Probe.fold_name kv.1 = bytes "PAGE_COUNT")
  then let '(n, bad) := Probe.store_int kv.2 st.1 in (n, st.2 || bad)
  else st.

(** [json.Unmarshal] into a struct with that one field. *)
Definition decode_page_count (text : string) : option Z :=
  let l := bytes text in
  match parse_value int_number (2 * length l + 2) 0 l with
  | Some (AObj ms, _, rest) =>
      match skip_space rest with
      | [] => let '(n, bad) := foldl store_page_count (None, false) ms in if bad : bool then None else n
      | _ => None
      end
  | _ => None
  end.

Section email.
Context `{Worker.Workers} `{OSErrors} (s : Settings).

(** A run of a worker; in its two modes as called here it does not panic. *)
Definition runWorker (mode inputPath : string) (format : FormatName) (outputPath : string)
    (pageRange : option (Z * Z)) : IO (string * option Error) :=
  r ← Worker.RunWorker s mode inputPath format outputPath pageRange None;
  mret (match r with Some (out, _, e) => (out, e) | None => ("", None) end).

(** The third run, over all pages. *)
Definition render_pages (mhtPath pdfPath : string) (pages : Z) : IO (result Error string) :=
  '(_, e) ← runWorker "render" mhtPath FormatDOCX pdfPath (Some (1, pages));
  match e with
  | Some e => mret (Err e)
  | None =>
      ok ← os_exists pdfPath;
      mret (if ok : bool then Ok pdfPath else Err (NewRender None 0 "worker-docx exited 0 but produced no PDF output"))
  end.

(** The second run, and what follows. *)
Definition count_and_render (mhtPath pdfPath : string) : IO (result Error string) :=
  '(out, e) ← runWorker "probe" mhtPath FormatDOCX "" None;
  match e with
  | Some e => mret (Err e)
  | None =>
      match decode_page_count out with
      | None => mret (Err (NewRender None 0 "worker-docx probe returned malformed JSON"))
      | Some n =>
          if n <? 1 then mret (Err (NewRender None 0 "worker-docx probe reported page_count<1"))
          else render_pages mhtPath pdfPath n
      end
  end.

Definition ConvertToPDF (inputPath scratchDir : string) : IO (result Error string) :=
  ok ← os_mkdir_all scratchDir;
  if negb ok then mret (Err (NewRender None (-1) ("mkdir email scratch: " +:+ os_error "mkdir" scratchDir)))
  else
    let stem := trim_suffix (Base inputPath) (Ext inputPath) in
    let mhtPath := FilepathJoin [scratchDir; stem +:+ ".mht"] in
    let pdfPath := FilepathJoin [scratchDir; stem +:+ ".pdf"] in
    '(_, e) ← runWorker "render" inputPath "email" mhtPath (Some (1, 1));
    match e with
    | Some e => mret (Err e)
    | None =>
        ok ← os_exists mhtPath;
        if negb ok then mret (Err (NewRender None 0 "worker-email exited 0 but produced no MHT output"))
        else count_and_render mhtPath pdfPath
    end.
End email.
