(* ===== verification/Gotenberg.v ===== *)
(** * The Gotenberg client ([internal/gotenberg])

    HTML to PDF by a Chromium service.  The HTTP transport is an argument: a
    request has an answer, whose body may end early, or no answer at all. *)
From Stdlib Require Import ZArith Lia Bool Ascii String.
From stdpp Require Import base tactics list gmap strings.
From S2P Require Import Prelude GoFloat GoString GoTime Types OErrors FS.
From stdpp Require Import list.
Local Open Scope Z_scope.

Definition engineName : string := "gotenberg".

Record WaitOptions : Type := mkWait { WaitDelay : string; WaitForExpression : string }.

(** A multipart form: the file part, and the fields, which are sent in no
    particular order. *)
Record Form : Type := mkForm { form_file : string; form_fields : gmap string string }.

(** What the transport makes of a request of at most [timeout] nanoseconds: the
    error of a request that has no answer; or the status, the body as it is read
    block by block, and whether it was read to its end. *)
Record Answer : Type := mkAnswer { StatusCode : Z; body_blocks : list string; body_complete : bool }.
Class Transport := {
  bad_request : string → option string;
  http_post : string → Form → Z → result string Answer
}.

Record Client : Type := mkClient { baseURL : string; timeout : Z }.

(** [strings.TrimRight(s, "/")] *)
Definition trim_right_slashes (s : string) : string := str_rev (strip_slashes (str_rev s)).
Definition New (baseURL : string) (timeoutSeconds : Z) : Client :=
  mkClient (trim_right_slashes baseURL) (timeoutSeconds *! Second)%go.

Definition body (a : Answer) : string := foldr String.append "" (body_blocks a).
Definition bodyTail (a : Answer) : string := trim_space (head_str (body a) 512).

Section gotenberg.
Context `{Transport} `{OSErrors}.

(** The geometry of the page is the same for every request. *)
Definition form_of (html : string) (opts : WaitOptions) : Form :=
  let fields : gmap string string := list_to_map
    [("paperWidth", "8.5"); ("paperHeight", "11"); ("marginTop", "0.5"); ("marginBottom", "0.5");
     ("marginLeft", "0.5"); ("marginRight", "0.5")] in
  let fields := if String.eqb (WaitDelay opts) "" then fields else <["waitDelay" := WaitDelay opts]> fields in
  let fields := if String.eqb (WaitForExpression opts) "" then fields
    else <["waitForExpression" := WaitForExpression opts]> fields in
  mkForm html fields.
Definition buildForm (htmlPath : string) (opts : WaitOptions) : IO (result string Form) :=
  c ← os_open htmlPath;
  mret (match c with None => Err (os_error "open" htmlPath) | Some html => Ok (form_of html opts) end).

Definition render_error (msg : string) : option Error := Some (NewRender None (-1) msg).

(** [io.Copy] of what is left of the body. *)
Fixpoint copy_body (outPath : string) (blocks : list string) : IO bool :=
  match blocks with
  | [] => mret true
  | b :: blocks => ok ← os_append outPath b; if ok : bool then copy_body outPath blocks else mret false
  end.

(** The first five bytes, and what is left in the blocks. *)
Fixpoint drop_blocks (n : nat) (blocks : list string) : list string :=
  match blocks with
  | [] => []
  | b :: bs => if (String.length b <=? n)%nat then drop_blocks (n - String.length b) bs else str_drop n b :: bs
  end.

Definition writePDF (a : Answer) (outPath : string) : IO (option Error) :=
  ok ← os_create outPath;
  if negb ok then mret (render_error ("create output: " +:+ os_error "create" outPath))
  else
    let head := str_take 5 (body a) in
    if negb (String.eqb head "%PDF-") then mret (render_error "gotenberg returned non-PDF output")
    else
      ok ← os_append outPath head;
      if negb ok then mret (render_error ("write output: " +:+ os_error "write" outPath))
      else
        ok ← copy_body outPath (drop_blocks 5 (body_blocks a));
        mret (if ok && body_complete a then None else render_error ("stream output: " +:+ os_error "copy" outPath)).

(** What is made of an answer. *)
Definition classify (a : Answer) (outPath : string) : IO (option Error) :=
  let c := StatusCode a in
  if (200 <=? c) && (c <? 300) then writePDF a outPath
  else if (400 <=? c) && (c <? 500) then
    mret (Some (NewInputUnprocessable ("gotenberg rejected the page (HTTP " +:+ itoa c +:+ "): " +:+ bodyTail a)))
  else mret (render_error ("gotenberg HTTP " +:+ itoa c +:+ ": " +:+ bodyTail a)).

Definition endpoint (c : Client) : string := baseURL c +:+ "/forms/chromium/convert/html".

Definition ConvertHTML (c : Client) (htmlPath : string) (opts : WaitOptions) (outPath : string) : IO (option Error) :=
  if String.eqb (baseURL c) "" then
    mret (Some (NewEngineUnavailable engineName "" "engine not configured (OFFICE_CONVERT_GOTENBERG_URL is empty)"))
  else
    form ← buildForm htmlPath opts;
    match form with
    | Err e => mret (render_error ("gotenberg form: " +:+ e))
    | Ok form =>
        match bad_request (endpoint c) with
        | Some e => mret (render_error ("gotenberg request: " +:+ e))
        | None =>
            match http_post (endpoint c) form (timeout c) with
            | Err e => mret (Some (NewEngineUnavailable engineName (baseURL c) e))
            | Ok a => classify a outPath
            end
        end
    end.
End gotenberg.

(** ** Theorems *)

Lemma str_drop_zero s : str_drop 0 s = s.
Proof. by destruct s. Qed.
Lemma str_split_at n s : str_take n s +:+ str_drop n s = s.
Proof. revert s. induction n as [|n IH]; intros [|c s]; try done. cbn. by rewrite IH. Qed.
Lemma str_drop_past a b n :
  str_drop n (a +:+ b) =
  if (String.length a <=? n)%nat then str_drop (n - String.length a) b else str_drop n a +:+ b.
Proof.
  revert n. induction a as [|c a IH]; intros n; cbn [String.length Nat.leb].
  - by destruct n.
  - destruct n as [|n]; [done|]. cbn. apply IH.
Qed.

Lemma drop_blocks_body n bs : foldr String.append "" (drop_blocks n bs) = str_drop n (foldr String.append "" bs).
Proof.
  revert n. induction bs as [|b bs IH]; intros n; cbn [drop_blocks foldr]; [by destruct n|].
  rewrite str_drop_past. by destruct (_ <=? _)%nat; [apply IH|].
Qed.

Lemma copy_body_content path bs c w :
  files w !! path = Some c → (copy_body path bs w).1 = true →
  files (copy_body path bs w).2 !! path = Some (c +:+ foldr String.append "" bs).
Proof.
  revert c w. induction bs as [|b bs IH]; intros c w Hc; cbn [copy_body foldr]; [by rewrite string_app_empty_r|].
  unfold mbind, io_bind. destruct (os_append path b w) as [[] w1] eqn:Ha; [|done]. intros Hok.
  rewrite (IH (c +:+ b)); [by rewrite string_app_assoc| |done].
  revert Ha. unfold os_append, mbind, io_bind, get_files, set_files, faulty, mret, io_ret.
  destruct (faults w) as [|[] f]; cbn; rewrite ?Hc; intros [= <-]; cbn; by rewrite lookup_insert_eq.
Qed.

Lemma write_pdf_content `{OSErrors} a out w :
  (writePDF a out w).1 = None →
  body_complete a = true ∧ has_prefix (body a) "%PDF-" = true ∧ files (writePDF a out w).2 !! out = Some (body a).
Proof.
  unfold writePDF, os_create, os_append, mbind, io_bind, mret, io_ret, get_files, set_files.
  destruct (faulty w) as [[] w1]; [done|]. cbn [negb].
  destruct (String.eqb_spec (str_take 5 (body a)) "%PDF-") as [Hhead|Hne]; [|done]. cbn [negb]. rewrite Hhead.
  assert (body a = "%PDF-" +:+ str_drop 5 (body a)) as Hbody by (by rewrite <- Hhead, str_split_at).
  set (w2 := mkWorld _ _ _ _ _ _). destruct (faulty w2) as [bad w3] eqn:Hf.
  destruct bad; [done|]. cbn [negb]. set (w4 := mkWorld _ _ _ _ _ _).
  assert (files w4 !! out = Some "%PDF-") as Hw4.
  { assert (files w3 = files w2) as Hw3 by (unfold faulty in Hf; by destruct (faults w2) as [|[] fs]; simplify_eq).
    cbn. by rewrite lookup_insert_eq, Hw3; cbn; rewrite lookup_insert_eq. }
  pose proof (copy_body_content out (drop_blocks 5 (body_blocks a)) "%PDF-" w4 Hw4) as Hc.
  destruct (copy_body out _ w4) as [ok w5]. cbn [fst snd] in Hc |- *. destruct ok; [|done]. destruct (body_complete a); [|done]. intros _.
  split_and!; [done|rewrite Hbody; apply has_prefix_app|]. etrans; [by apply Hc|]. f_equal. rewrite drop_blocks_body. symmetry. exact Hbody.
Qed.

(** With no failing system call a complete body that begins like a PDF is written whole. *)
Lemma copy_body_lands path bs w : faults w = [] → (copy_body path bs w).1 = true ∧ faults (copy_body path bs w).2 = [].
Proof.
  revert w. induction bs as [|b bs IH]; intros w Hnil; [done|]. cbn [copy_body].
  unfold os_append, mbind, io_bind, get_files, set_files, faulty, mret, io_ret. rewrite Hnil. by apply IH.
Qed.
Lemma write_pdf_lands `{OSErrors} a out w :
  faults w = [] → body_complete a = true → has_prefix (body a) "%PDF-" = true →
  (writePDF a out w).1 = None ∧ faults (writePDF a out w).2 = [].
Proof.
  intros Hnil Hc [t Ht]%has_prefix_spec. destruct w as [fs ds f tr an se]. cbn in Hnil. subst f. unfold writePDF. rewrite Ht.
  unfold os_create, os_append, mbind, io_bind, mret, io_ret, get_files, set_files, faulty.
  replace (str_take 5 _) with "%PDF-" by (by destruct t). cbn -[copy_body]. match goal with |- context [copy_body out ?bs ?w] =>
    pose proof (copy_body_lands out bs w eq_refl) as [Hok Hn]; destruct (copy_body out bs w) as [ok w'] end.
  cbn in *. by rewrite Hok, Hc.
Qed.

Lemma write_pdf_error `{OSErrors} a out w e :
  (writePDF a out w).1 = Some e → (EFailureClass e, HTTPStatus e) = (RenderFailed, 500).
Proof.
  unfold writePDF, mbind, io_bind, mret, io_ret, render_error. destruct (os_create out w) as [[] w1]; cbn [negb]; [|by intros [= <-]].
  destruct (String.eqb _ _); cbn [negb]; [|by intros [= <-]]. destruct (os_append _ _ w1) as [[] w2]; cbn [negb]; [|by intros [= <-]].
  destruct (copy_body _ _ w2) as [ok w3]. cbn. destruct (_ && _); [done|by intros [= <-]].
Qed.


(** Conversely, a service that takes the page and answers it with a complete PDF
    has converted it, as long as no system call fails. *)
Record service_answers `{Transport} (c : Client) (html : string) (opts : WaitOptions) (a : Answer) : Prop := {
  sa_configured : baseURL c ≠ "";
  sa_request : bad_request (endpoint c) = None;
  sa_post : http_post (endpoint c) (form_of html opts) (timeout c) = Ok a;
  sa_status : 200 <= StatusCode a < 300;
  sa_complete : body_complete a = true;
  sa_pdf : has_prefix (body a) "%PDF-" = true
}.
Lemma service_converts `{Transport} `{OSErrors} c htmlPath html opts a out w :
  service_answers c html opts a → faults w = [] → files w !! htmlPath = Some html →
  ∃ w', ConvertHTML c htmlPath opts out w = (None, w') ∧ faults w' = [] ∧ files w' !! out = Some (body a).
Proof.
  intros [Hurl Hreq Hpost Hstatus Hc Hpdf] Hnil Hf. unfold ConvertHTML. rewrite (proj2 (String.eqb_neq _ _) Hurl).
  unfold buildForm, os_open, mbind, io_bind, mret, io_ret, get_files, faulty. rewrite Hnil. cbv iota beta. rewrite Hf.
  cbv iota beta. rewrite Hreq, Hpost.
  unfold classify. rewrite (proj2 (Z.leb_le _ _)), (proj2 (Z.ltb_lt _ _)) by lia. cbn [andb].
  match goal with |- context [writePDF a out ?w] => pose proof (write_pdf_lands a out w Hnil Hc Hpdf) as [Hn Hn'];
    pose proof (write_pdf_content a out w Hn) as (_ & _ & Hout); destruct (writePDF a out w) as [e w'] end.
  cbn in *. exists w'. by rewrite Hn.
Qed.
