(* ===== verification/Http.v ===== *)
(** * Responses ([writeError], [writeJSON], [streamWriter] of [internal/server])

    A response is what [FS.v] keeps of it: the status and headers, sent once,
    and the bytes of the body.  JSON bodies are encoded as [encoding/json] does;
    the shortest text of a float is an argument. *)
From Stdlib Require Import ZArith Lia Bool SpecFloat Ascii String.
From stdpp Require Import base tactics list gmap strings.
From S2P Require Import Prelude GoFloat GoString GoTime Types OErrors FS Json Qpdf.
From stdpp Require Import list.
Local Open Scope Z_scope.

(** ** JSON *)

(** The members of a map, by key. *)
Fixpoint insert_member (kv : string * any) (l : list (string * any)) : list (string * any) :=
  match l with
  | [] => [kv]
  | x :: l' => if String.leb kv.1 x.1 then kv :: l else x :: insert_member kv l'
  end.
Definition sort_members (l : list (string * any)) : list (string * any) := foldr insert_member [] l.
Definition obj (m : gmap string any) : any := AObj (sort_members (map_to_list m)).

Class JSONFloats := { json_float : f64 → string }.

(** Values separated by commas. *)
Fixpoint commas (l : list (list Z)) : list Z :=
  match l with [] => [] | [x] => x | x :: l => x ++ 44 :: commas l end.

(** [json.Marshal] of a value. *)
Fixpoint encode `{JSONFloats} (v : any) : list Z :=
  match v with
  | ANil => bytes "null"
  | ABool b => bytes (if b then "true" else "false")
  | AInt z => bytes (itoa z)
  | AFloat x => bytes (json_float x)
  | AStr s => json_string s
  | AInts l => 91 :: commas ((λ z, bytes (itoa z)) <$> l) ++ [93]
  | AStrs l => 91 :: commas (json_string <$> l) ++ [93]
  | AList l => 91 :: commas ((fix go l := match l with [] => [] | v :: l => encode v :: go l end) l) ++ [93]
  | AObj l =>
      123 :: commas ((fix go (l : list (string * any)) :=
        match l with [] => [] | (k, v) :: l => (json_string k ++ 58 :: encode v) :: go l end) l) ++ [125]
  end.

(** ** Headers and status *)

Abbreviation headers := (gmap string string).

(** [WriteHeader]: the first one sends the status and the headers, any other is
    ignored. *)
Definition write_header (code : Z) (hs : headers) : IO unit := λ w,
  match answered w with
  | None => ((), mkWorld (files w) (dirs w) (faults w) (trace w) (Some (code, hs)) (sent w))
  | Some _ => ((), w)
  end.

(** A body with its content type; an error of the connection is ignored. *)
Definition write_body (code : Z) (hs : headers) (contentType body : string) : IO unit :=
  write_header code (<["Content-Type" := contentType]> hs);;
  ok ← send body;
  mret ().
Definition writeHTML (hs : headers) (html : string) : IO unit := write_body 200 hs "text/html; charset=utf-8" html.

Section json_responses.
Context `{JSONFloats}.

(** The encoder writes a newline after the value. *)
Definition json_body (body : gmap string any) : string := of_bytes (encode (obj body) ++ [10]).
Definition writeJSON (code : Z) (hs : headers) (body : gmap string any) : IO unit :=
  write_body code hs "application/json" (json_body body).

(** ** Errors *)

Definition toStr (v : any) : string := match v with AInt n => itoa n | AStr s => s | _ => "" end.
Definition toInt64 (v : any) : Z := match v with AInt n => n | _ => 0 end.

(** An error of another kind is a render failure. *)
Definition as_conversion_error (e : error) : Error :=
  match e with EConv e => e | EOther msg => plain_error RenderFailed 500 msg None end.

Definition detail_field (e : Error) (k : string) : option any := d ← Detail e; d !! k.

(** The headers an error adds. *)
Definition error_headers (now : Time) (e : Error) (hs : headers) : headers :=
  match EFailureClass e with
  | Busy => match detail_field e "retry_after_seconds" with Some v => <["Retry-After" := toStr v]> hs | None => hs end
  | RateLimited =>
      let retry := default ANil (detail_field e "retry_after_seconds") in
      <["X-RateLimit-Reset" := itoa (unix now +! toInt64 retry)%go]>
      (<["X-RateLimit-Remaining" := "0"]>
      (<["X-RateLimit-Limit" := toStr (default ANil (detail_field e "limit"))]>
      (<["Retry-After" := toStr retry]> hs)))
  | _ => hs
  end.

(** The diagnostic of an error. *)
Definition diagnostic (rid : string) (e : Error) : gmap string any :=
  <["request_id" := AStr rid]> (<["failure_class" := AStr (failure_string (EFailureClass e))]>
    {[ "detail" := obj (DetailDict e) ]}).

Definition writeError (now : Time) (hs : headers) (rid : string) (e : error) : IO unit :=
  let oe := as_conversion_error e in
  writeJSON (HTTPStatus oe) (error_headers now oe hs) (diagnostic rid oe).
End json_responses.

(** ** The streaming writer *)

(** [streamWriter.Write]: the status and the headers go out with the first block. *)
Definition stream_write (hs : headers) (block : string) : IO bool :=
  write_header 200 hs;;
  send block.

Lemma write_header_keeps code hs w :
  files (write_header code hs w).2 = files w ∧ faults (write_header code hs w).2 = faults w ∧
  sent (write_header code hs w).2 = sent w.
Proof. unfold write_header. by destruct (answered w). Qed.

Lemma stream_write_spec hs b w :
  let '(ok, w') := stream_write hs b w in
  (∃ d, str_prefix d b ∧ sent w' = sent w +:+ d ∧ (ok = true → d = b)) ∧ files w' = files w ∧
  (faults w = [] → ok = true ∧ faults w' = []).
Proof.
  unfold stream_write, mbind, io_bind. pose proof (write_header_keeps 200 hs w) as (Hf & Hn & Hs).
  destruct (write_header 200 hs w) as [u w1]. cbn [snd] in *. pose proof (sink_write_spec response b w1) as Hw. cbn in Hw.
  destruct (send b w1) as [ok w2] eqn:Hsend. rewrite <- Hs, <- Hf, <- Hn. destruct Hw as (Hd & Hfs & Hnil). split_and!; [done| |done].
  unfold send in Hsend. destruct (faulty w1) as [[] w3] eqn:Hfl; simplify_eq; unfold faulty in Hfl;
    destruct (faults w1); by simplify_eq.
Qed.

(** The writer of a response, and [io.MultiWriter] of it and a file. *)
Program Definition stream_sink (hs : headers) : Sink := mkSink (stream_write hs) sent (λ _, False) _ _.
Next Obligation.
  intros hs b w. pose proof (stream_write_spec hs b w) as H. destruct (stream_write hs b w) as [ok w'].
  destruct H as (Hd & Hf & Hn). split_and!; [done|by rewrite Hf|done].
Qed.
Next Obligation. done. Qed.

Definition multi_write (hs : headers) (file block : string) : IO bool :=
  ok ← stream_write hs block;
  if ok : bool then os_append file block else mret false.

Program Definition multi_sink (hs : headers) (file : string) : Sink := mkSink (multi_write hs file) sent (λ p, p = file) _ _.
Next Obligation.
  intros hs file b w. unfold multi_write, mbind, io_bind. pose proof (stream_write_spec hs b w) as H.
  destruct (stream_write hs b w) as [ok w1]. destruct H as ((d & Hd & Hs & Hok) & Hf & Hn). destruct ok; cycle 1.
  { cbn. split_and!; [by exists d|by rewrite Hf|intros Hnil; by destruct (Hn Hnil)]. }
  pose proof (os_append_spec file b w1) as Ha. destruct (os_append file b w1) as [ok2 w2]. destruct Ha as (Hf2 & Hs2 & Hn2).
  split_and!.
  - exists d. rewrite Hs2. split_and!; [done|done|]. intros _. by apply Hok.
  - intros p Hp. rewrite Hf2, <- Hf. destruct ok2; [|done]. by rewrite lookup_insert_ne by congruence.
  - intros Hnil. destruct (Hn Hnil) as [_ Hnil1]. by apply Hn2.
Qed.
Next Obligation. done. Qed.
