(* ===== verification/Cursor.v ===== *)
(** * Cursor tokens ([internal/obs/recent.go], [Cursor.Encode] and [DecodeCursor])

    A token of [/v1/conversions] is URL-safe base64 over the compact JSON object
    of a timestamp and a request identifier.  This file models both layers and
    proves that decoding gives an encoded cursor back ([cursor_roundtrip]), for
    any request identifier in UTF-8: the JSON encoder's escapes are undone by
    the parser of [Json].  [codec] is the implementation of the interface that
    [Recent] paginates with.

    The shortest text of a float is an argument; [FloatText] states what the
    documentation of [strconv] promises of it, that it reads back as the same
    float. *)
From stdpp Require Import base tactics list strings numbers option.
From Stdlib Require Import ZArith Lia Bool Ascii SpecFloat.
From S2P Require Import Prelude GoFloat GoString GoFmt Types Json Recent FS Http.
Local Open Scope Z_scope.

(** ** Base64, URL alphabet, with padding *)

Definition b64_char (i : Z) : Z :=
  if i <? 26 then 65 + i else if i <? 52 then 71 + i else if i <? 62 then i - 4
  else if i =? 62 then 45 else 95.
Definition b64_value (c : Z) : option Z :=
  if in_range 65 c 90 then Some (c - 65) else if in_range 97 c 122 then Some (c - 71)
  else if in_range 48 c 57 then Some (c + 4)
  else if c =? 45 then Some 62 else if c =? 95 then Some 63 else None.

(** [base64.URLEncoding.EncodeToString]; 61 is the padding. *)
Fixpoint b64_encode (l : list Z) : list Z :=
  match l with
  | [] => []
  | [a] => [b64_char (a / 4); b64_char (a mod 4 * 16); 61; 61]
  | [a; b] => [b64_char (a / 4); b64_char (a mod 4 * 16 + b / 16); b64_char (b mod 16 * 4); 61]
  | a :: b :: c :: l =>
      b64_char (a / 4) :: b64_char (a mod 4 * 16 + b / 16) ::
      b64_char (b mod 16 * 4 + c / 64) :: b64_char (c mod 64) :: b64_encode l
  end.

(** [DecodeString]: line breaks are skipped, the padding ends the text, and the
    unused bits before it are not looked at. *)
Fixpoint b64_quanta (l : list Z) : option (list Z) :=
  match l with
  | [] => Some []
  | w :: x :: y :: z :: l =>
      w ← b64_value w; x ← b64_value x;
      if z =? 61 then
        match l with
        | [] => if y =? 61 then Some [w * 4 + x / 16]
                else y ← b64_value y; Some [w * 4 + x / 16; x mod 16 * 16 + y / 4]
        | _ => None
        end
      else
        y ← b64_value y; z ← b64_value z; r ← b64_quanta l;
        Some (w * 4 + x / 16 :: x mod 16 * 16 + y / 4 :: y mod 4 * 64 + z :: r)
  | _ => None
  end.
Definition b64_decode (l : list Z) : option (list Z) :=
  b64_quanta (filter (λ c, c ≠ 10 ∧ c ≠ 13) l).

(** ** The cursor object *)

(** The fields are found under their names up to case folding, in which the long
    s (383) folds to S. *)
Definition is_ts (key : string) : bool :=
  match runes (bytes key) with
  | [a; b] => ((a =? 116) || (a =? 84)) && ((b =? 115) || (b =? 83) || (b =? 383))
  | _ => false
  end.
Definition is_id (key : string) : bool :=
  match runes (bytes key) with
  | [a; b] => ((a =? 105) || (a =? 73)) && ((b =? 100) || (b =? 68))
  | _ => false
  end.

(** A number for a field of type [float64]; one out of range is an infinity
    here, which the field then refuses. *)
Definition field_number (l : list Z) : option (any * bool * list Z) :=
  '(x, _, r) ← parse_number l; Some (AFloat x, false, r).

(** Store one member; [None] is a type error.  A null leaves a field alone, and
    other members are ignored. *)
Definition set_member (c : option Cursor) (kv : string * any) : option Cursor :=
  c ← c;
  if is_ts kv.1 then
    match kv.2 with
    | AFloat x => if ffinite x then Some (mkCursor x (ID c)) else None
    | ANil => Some c
    | _ => None
    end
  else if is_id kv.1 then
    match kv.2 with AStr s => Some (mkCursor (TS c) s) | ANil => Some c | _ => None end
  else Some c.

Definition zero_cursor : Cursor := mkCursor (S754_zero false) "".

(** [json.Unmarshal(data, &c)] *)
Definition unmarshal_cursor (l : list Z) : option Cursor :=
  '(v, _, rest) ← parse_value field_number (2 * length l + 2) 0 l;
  match skip_space rest, v with
  | [], AObj ms => foldl set_member (Some zero_cursor) ms
  | [], ANil => Some zero_cursor
  | _, _ => None
  end.

Section cursor.
Context `{JSONFloats}.

(** [json.Marshal(c)]; its error on a float without JSON text leaves no bytes. *)
Definition marshal_cursor (c : Cursor) : list Z :=
  if ffinite (TS c)
  then bytes "{" ++ json_string "ts" ++ [58] ++ bytes (json_float (TS c)) ++ [44] ++
       json_string "id" ++ [58] ++ json_string (ID c) ++ bytes "}"
  else [].

(** [Cursor.Encode] *)
Definition Encode (c : Cursor) : string := of_bytes (b64_encode (marshal_cursor c)).
End cursor.

(** [DecodeCursor] *)
Definition DecodeCursor (raw : string) : option Cursor :=
  data ← b64_decode (bytes raw); unmarshal_cursor data.

(** ** Base64 round trip *)

Definition byte (b : Z) : Prop := 0 <= b < 256.

Lemma b64_value_char i : 0 <= i < 64 →
  b64_value (b64_char i) = Some i ∧ b64_char i ≠ 61 ∧ b64_char i ≠ 10 ∧ b64_char i ≠ 13 ∧ byte (b64_char i).
Proof.
  intros Hi.
  assert (forallb (λ i, bool_decide (b64_value (b64_char i) = Some i) &&
    negb (existsb (Z.eqb (b64_char i)) [61; 10; 13]) && in_range 0 (b64_char i) 255) (seqZ 0 64) = true)
    as Ha by (by vm_compute).
  rewrite forallb_forall in Ha. specialize (Ha i).
  rewrite <- list_elem_of_In, elem_of_seqZ in Ha. specialize (Ha ltac:(lia)).
  rewrite !andb_true_iff, bool_decide_eq_true, negb_true_iff in Ha. cbn [existsb] in Ha.
  rewrite !orb_false_iff, !Z.eqb_neq in Ha. unfold in_range in Ha. rewrite andb_true_iff, !Z.leb_le in Ha.
  unfold byte. destruct Ha as [[? (? & ? & ? & _)] ?]. split_and!; done || lia.
Qed.

(** What the decoder computes from the sextets of three bytes. *)
Lemma sextets a b c : byte a → byte b → byte c →
  0 <= a / 4 < 64 ∧ 0 <= a mod 4 * 16 + b / 16 < 64 ∧ 0 <= b mod 16 * 4 + c / 64 < 64 ∧ 0 <= c mod 64 < 64 ∧
  a / 4 * 4 + (a mod 4 * 16 + b / 16) / 16 = a ∧
  (a mod 4 * 16 + b / 16) mod 16 * 16 + (b mod 16 * 4 + c / 64) / 4 = b ∧
  (b mod 16 * 4 + c / 64) mod 4 * 64 + c mod 64 = c.
Proof. unfold byte. intros. repeat split; Z.to_euclidean_division_equations; lia. Qed.

Lemma list3_ind (P : list Z → Prop) :
  P [] → (∀ a, P [a]) → (∀ a b, P [a; b]) → (∀ a b c l, P l → P (a :: b :: c :: l)) → ∀ l, P l.
Proof.
  intros P0 P1 P2 P3 l. enough (P l ∧ (∀ a, P (a :: l)) ∧ (∀ a b, P (a :: b :: l))) by tauto.
  induction l as [|x l (IH0 & IH1 & IH2)]; auto.
Qed.

Lemma b64_encode_chars l : Forall byte l → Forall (λ c, (c ≠ 10 ∧ c ≠ 13) ∧ byte c) (b64_encode l).
Proof.
  assert (∀ i, 0 <= i < 64 → (b64_char i ≠ 10 ∧ b64_char i ≠ 13) ∧ byte (b64_char i)) as Hc.
  { intros i Hi. destruct (b64_value_char i Hi) as (_ & _ & ? & ? & ?). done. }
  assert (((61:Z) ≠ 10 ∧ (61:Z) ≠ 13) ∧ byte 61) as Hp by (unfold byte; lia).
  assert (byte 0) as H0 by (unfold byte; lia).
  induction l as [|a|a b|a b c l IH] using list3_ind; intros Hl; cbn [b64_encode]; [done|..].
  - inversion_clear Hl. destruct (sextets a 0 0) as (? & ? & _); [done..|].
    repeat (constructor; [try done; apply Hc; Z.to_euclidean_division_equations; lia|]). done.
  - inversion_clear Hl as [|? ? ? Hl']. inversion_clear Hl'. destruct (sextets a b 0) as (? & ? & ? & _); [done..|].
    repeat (constructor; [try done; apply Hc; Z.to_euclidean_division_equations; lia|]). done.
  - inversion_clear Hl as [|? ? ? Hl']. inversion_clear Hl' as [|? ? ? Hl'']. inversion_clear Hl''.
    destruct (sextets a b c) as (? & ? & ? & ? & _); [done..|].
    repeat (constructor; [by apply Hc|]). by apply IH.
Qed.

Lemma b64_roundtrip l : Forall byte l → b64_decode (b64_encode l) = Some l.
Proof.
  intros Hl. unfold b64_decode.
  assert (filter (λ c, c ≠ 10 ∧ c ≠ 13) (b64_encode l) = b64_encode l) as ->.
  { induction (b64_encode_chars l Hl) as [|c k [Hc _] _ IH]; [done|]. by rewrite filter_cons_True, IH. }
  assert (byte 0) as H0 by (unfold byte; lia).
  induction l as [|a|a b|a b c l IH] using list3_ind; cbn [b64_encode b64_quanta]; [done|..].
  - inversion_clear Hl as [|? ? Ha _]. unfold byte in Ha.
    destruct (b64_value_char (a / 4)) as (-> & _); [Z.to_euclidean_division_equations; lia|].
    destruct (b64_value_char (a mod 4 * 16)) as (-> & _); [Z.to_euclidean_division_equations; lia|]. cbn.
    do 2 f_equal. Z.to_euclidean_division_equations; lia.
  - inversion_clear Hl as [|? ? Ha Hl']. inversion_clear Hl' as [|? ? Hb _].
    destruct (sextets a b 0) as (S1 & S2 & S3 & _ & E1 & E2 & _); [done..|].
    rewrite Z.div_0_l, Z.add_0_r in S3, E2 by lia.
    destruct (b64_value_char _ S1) as (-> & _). destruct (b64_value_char _ S2) as (-> & _).
    destruct (b64_value_char _ S3) as (-> & N3 & _).
    cbn [mbind option_bind]. rewrite (proj2 (Z.eqb_neq _ _) N3). change (61 =? 61) with true.
    cbn [mbind option_bind]. by rewrite E1, E2.
  - inversion_clear Hl as [|? ? ? Hl']. inversion_clear Hl' as [|? ? ? Hl'']. inversion_clear Hl''.
    destruct (sextets a b c) as (S1 & S2 & S3 & S4 & E1 & E2 & E3); [done..|].
    destruct (b64_value_char _ S1) as (-> & _). destruct (b64_value_char _ S2) as (-> & _).
    destruct (b64_value_char _ S3) as (-> & _). destruct (b64_value_char _ S4) as (-> & N4 & _).
    cbn [mbind option_bind]. rewrite (proj2 (Z.eqb_neq _ _) N4), IH by done.
    cbn [mbind option_bind]. by rewrite E1, E2, E3.
Qed.

(** ** JSON strings read back *)

Lemma ascii_unescaped b k : 0 <= b < 128 → parse_char (json_ascii b ++ k) = Some ([b], k).
Proof.
  intros Hb. assert (Forall (λ b, ∀ k, parse_char (json_ascii b ++ k) = Some ([b], k)) (seqZ 0 128)) as Ha.
  { vm_compute seqZ. repeat (constructor; [intros; reflexivity|]). constructor. }
  rewrite list.Forall_forall in Ha. apply Ha, elem_of_seqZ. lia.
Qed.

(** No escape starts with a quote. *)
Lemma json_ascii_head b k : 0 <= b < 128 → head (json_ascii b ++ k) ≠ Some 34.
Proof.
  intros Hb. assert (Forall (λ b, ∀ k, head (json_ascii b ++ k) ≠ Some 34) (seqZ 0 128)) as Ha.
  { vm_compute seqZ. repeat (constructor; [intros; cbn; congruence|]). constructor. }
  rewrite list.Forall_forall in Ha. apply Ha, elem_of_seqZ. lia.
Qed.

(** A well-formed sequence decodes alike whatever follows it. *)
Lemma decode_rune_prefix b l k : 128 <= b →
  let '(r, w) := decode_rune (b :: l) in
  ¬ (r = rune_error ∧ w = 1%nat) → decode_rune (take w (b :: l) ++ k) = (r, w).
Proof.
  intros Hb. unfold decode_rune. destruct (Z.ltb_spec b 128); [lia|].
  destruct (in_range 194 b 223) eqn:E2.
  { destruct l as [|b1 l]; [tauto|]. destruct (cont b1) eqn:C1; [|tauto]. intros _. cbn.
    destruct (Z.ltb_spec b 128); [lia|]. by rewrite E2, C1. }
  destruct (in_range 224 b 239) eqn:E3.
  { destruct l as [|b1 [|b2 l]]; [tauto..|]. destruct (_ && _) eqn:C; [|tauto]. intros _. cbn [take app].
    destruct (Z.ltb_spec b 128); [lia|]. by rewrite E2, E3, C. }
  destruct (in_range 240 b 244) eqn:E4; [|tauto].
  destruct l as [|b1 [|b2 [|b3 l]]]; [tauto..|]. destruct (_ && _) eqn:C; [|tauto]. intros _. cbn [take app].
  destruct (Z.ltb_spec b 128); [lia|]. by rewrite E2, E3, E4, C.
Qed.

(** One character of the encoder's output reads back as the rune it encodes. *)
Definition encoded_char (l : list Z) : list Z :=
  let '(r, w) := decode_rune l in
  if (r =? rune_error) && (Nat.eqb w 1) then hex_escape rune_error
  else if (r =? 8232) || (r =? 8233) then hex_escape r else take w l.

Lemma high_unescaped b l k : 128 <= b →
  parse_char (encoded_char (b :: l) ++ k) = Some (encode_rune (decode_rune (b :: l)).1, k) ∧
  head (encoded_char (b :: l) ++ k) ≠ Some 34.
Proof.
  intros Hb. pose proof (decode_rune_prefix b l k Hb) as Hd. unfold encoded_char.
  pose proof (decode_rune_width b l) as Hw.
  destruct (decode_rune (b :: l)) as [r w] eqn:Hr. cbn [fst snd] in *.
  destruct ((r =? rune_error) && Nat.eqb w 1) eqn:He.
  { apply andb_true_iff in He as [->%Z.eqb_eq _]. by split. }
  destruct ((r =? 8232) || (r =? 8233)) eqn:Hs.
  { apply orb_true_iff in Hs as [->%Z.eqb_eq | ->%Z.eqb_eq]; by split. }
  specialize (Hd ltac:(intros [-> ->]; done)). destruct w as [|w]; [lia|].
  cbn [take app head] in Hd |- *. split; [|injection 1; lia].
  unfold parse_char. destruct (Z.eqb_spec b 92); [lia|]. destruct (Z.ltb_spec b 32); [lia|].
  rewrite Hd. do 2 f_equal.
  assert (S w <= length (b :: l))%nat as Hle.
  { revert Hr. unfold decode_rune. clear. repeat case_match; intros; simplify_eq; cbn; lia. }
  cbn [drop]. rewrite drop_app_length'; [done|]. rewrite length_take. cbn in Hle. lia.
Qed.

(** The whole string: every rune as the decoder of UTF-8 sees it. *)
Lemma parse_encoded_string n l r fuel :
  Forall byte l → (length l <= n)%nat → (length (json_string_fuel n l) < fuel)%nat →
  parse_string fuel (json_string_fuel n l ++ 34 :: r) = Some (flat_map encode_rune (runes_fuel n l), r).
Proof.
  revert l fuel. induction n as [|n IH]; intros l fuel Hl Hn Hf.
  { destruct fuel as [|fuel]; [lia|]. destruct l; [done|cbn in Hn; lia]. }
  destruct fuel as [|fuel]; [lia|]. destruct l as [|b l]; [done|].
  inversion Hl as [|? ? Hb Hl']; subst. unfold byte in Hb. cbn [json_string_fuel runes_fuel].
  pose proof (decode_rune_width b l) as Hw.
  assert (Forall byte (drop (decode_rune (b :: l)).2 (b :: l))) as Hdrop by (by apply Forall_drop).
  assert (length (drop (decode_rune (b :: l)).2 (b :: l)) <= n)%nat as Hlen
    by (rewrite length_drop; cbn in *; lia).
  destruct (Z.ltb_spec b 128).
  - rewrite decode_ascii in * by done. cbn [fst snd drop flat_map] in *.
    pose proof (ascii_unescaped b (json_string_fuel n l) ltac:(lia)) as Hc%parse_char_length.
    cbn [json_string_fuel] in Hf. rewrite (proj2 (Z.ltb_lt b 128)) in Hf by done. cbn [drop] in Hf. rewrite !drop_0 in *.
    rewrite <- app_assoc. cbn [parse_string].
    rewrite decide_False by (apply json_ascii_head; lia). rewrite ascii_unescaped by lia.
    cbn [mbind option_bind]. rewrite IH by (done || lia). cbn [mbind option_bind].
    by rewrite encode_rune_ascii by lia.
  - fold (encoded_char (b :: l)).
    assert ((let '(r0, w) := decode_rune (b :: l) in
      (if (r0 =? rune_error) && Nat.eqb w 1 then hex_escape rune_error
       else if (r0 =? 8232) || (r0 =? 8233) then hex_escape r0 else take w (b :: l)) ++
      json_string_fuel n (drop w (b :: l))) =
      encoded_char (b :: l) ++ json_string_fuel n (drop (decode_rune (b :: l)).2 (b :: l))) as ->.
    { unfold encoded_char. by destruct (decode_rune (b :: l)). }
    assert (length (encoded_char (b :: l) ++ json_string_fuel n (drop (decode_rune (b :: l)).2 (b :: l))) < S fuel)%nat as Hf'.
    { revert Hf. cbn [json_string_fuel]. rewrite (proj2 (Z.ltb_ge b 128)) by done. unfold encoded_char.
      by destruct (decode_rune (b :: l)). }
    destruct (high_unescaped b l (json_string_fuel n (drop (decode_rune (b :: l)).2 (b :: l)))) as [Hc%parse_char_length _]; [lia|].
    rewrite <- app_assoc. cbn [parse_string].
    destruct (high_unescaped b l (json_string_fuel n (drop (decode_rune (b :: l)).2 (b :: l)) ++ 34 :: r))
      as [Hp Hh]; [lia|].
    rewrite decide_False by done. rewrite Hp. cbn [mbind option_bind]. rewrite IH by (done || lia).
    cbn [mbind option_bind]. by destruct (decode_rune (b :: l)) as [r0 w].
Qed.

Lemma parse_json_string s r fuel :
  (length (json_string_fuel (String.length s) (bytes s)) < fuel)%nat →
  parse_string fuel (json_string_fuel (String.length s) (bytes s) ++ 34 :: r) =
  Some (flat_map encode_rune (runes (bytes s)), r).
Proof.
  intros Hf. unfold runes. rewrite bytes_length. apply parse_encoded_string; [|by rewrite bytes_length|done].
  apply bytes_range.
Qed.

(** The encoder writes bytes. *)
Lemma json_string_fuel_bytes n l : Forall byte l → Forall byte (json_string_fuel n l).
Proof.
  assert (∀ b, 0 <= b < 128 → Forall byte (json_ascii b)) as Ha.
  { intros b Hb.
    assert (Forall (λ b, Forall byte (json_ascii b)) (seqZ 0 128)) as Hall.
    { vm_compute seqZ. repeat (constructor; [unfold byte; vm_compute; repeat (constructor; [split; congruence|]); constructor|]). constructor. }
    rewrite list.Forall_forall in Hall. apply Hall, elem_of_seqZ. lia. }
  assert (∀ r, r = rune_error ∨ r = 8232 ∨ r = 8233 → Forall byte (hex_escape r)) as He.
  { intros r [-> | [-> | ->]]; unfold byte; vm_compute; repeat (constructor; [split; congruence|]); constructor. }
  revert l. induction n as [|n IH]; intros [|b l] Hl; try constructor.
  cbn [json_string_fuel]. pose proof Hl as Hl0. inversion_clear Hl as [|? ? Hb Hl']. unfold byte in Hb.
  destruct (Z.ltb_spec b 128).
  - apply Forall_app. split; [apply Ha; lia|by apply IH].
  - destruct (decode_rune (b :: l)) as [r w]. apply Forall_app. split; [|by apply IH, Forall_drop].
    destruct (_ && _); [apply He; auto|]. destruct ((r =? 8232) || (r =? 8233)) eqn:Hr; [|by apply Forall_take].
    apply orb_true_iff in Hr. rewrite !Z.eqb_eq in Hr. apply He. auto.
Qed.

Lemma json_string_bytes s : Forall byte (json_string s).
Proof.
  constructor; [unfold byte; lia|]. apply Forall_app. split; [apply json_string_fuel_bytes, bytes_range|].
  constructor; [unfold byte; lia|done].
Qed.

(** ** The round trip *)

Section roundtrip.
Context `{JSONFloats}.

(** The text of [x] starts like a number and, in front of a comma, reads back
    as [x]. *)
Definition reads_back (x : f64) : Prop :=
  (∃ b l, bytes (json_float x) = b :: l ∧ (b = 45 ∨ 48 <= b <= 57)) ∧
  ∀ r, parse_number (bytes (json_float x) ++ 44 :: r) = Some (x, false, 44 :: r).

Lemma parse_float_member x fuel depth r :
  reads_back x → parse_value field_number (S fuel) depth (bytes (json_float x) ++ 44 :: r) =
  Some (AFloat x, false, 44 :: r).
Proof.
  intros [(b & l & Hb & Hh) Hr]. specialize (Hr r). rewrite Hb in *. cbn [app] in *.
  assert (skip_space (b :: l ++ 44 :: r) = b :: l ++ 44 :: r) as Hs.
  { cbn. destruct (Z.eqb_spec b 32), (Z.eqb_spec b 9), (Z.eqb_spec b 10), (Z.eqb_spec b 13); lia || done. }
  cbn [parse_value]. rewrite Hs. unfold parse_scalar.
  assert ((b =? 123) || (b =? 91) = false) as -> by (apply orb_false_iff; rewrite !Z.eqb_neq; lia).
  rewrite (proj2 (Z.eqb_neq b 34)), (proj2 (Z.eqb_neq b 116)), (proj2 (Z.eqb_neq b 102)),
    (proj2 (Z.eqb_neq b 110)) by lia.
  unfold field_number. by rewrite Hr.
Qed.

Lemma parse_string_member s fuel depth r :
  parse_value field_number (S fuel) depth (json_string s ++ r) =
  Some (AStr (of_bytes (flat_map encode_rune (runes (bytes s)))), false, r).
Proof.
  unfold json_string. cbn [app parse_value skip_space]. cbn [orb Z.eqb Pos.eqb].
  unfold parse_scalar. cbn [Z.eqb Pos.eqb]. rewrite <- app_assoc. cbn [app].
  rewrite parse_json_string; [done|]. rewrite length_app. lia.
Qed.

Lemma parse_key_json k r :
  parse_key (json_string k ++ 58 :: r) = Some (of_bytes (flat_map encode_rune (runes (bytes k))), r).
Proof.
  unfold json_string, parse_key. cbn [app skip_space Z.eqb Pos.eqb orb]. rewrite <- app_assoc. cbn [app].
  rewrite parse_json_string; [done|]. rewrite length_app. lia.
Qed.

Lemma parse_cursor x s :
  reads_back x → ffinite x = true → valid_utf8 s →
  unmarshal_cursor (marshal_cursor (mkCursor x s)) = Some (mkCursor x s).
Proof.
  intros Hx Hf Hs. unfold unmarshal_cursor, marshal_cursor. cbn [TS ID]. rewrite Hf.
  change (bytes "{" ++ ?l) with (123 :: l). change (bytes "}") with [125].
  match goal with |- context [length ?t] => set (l := t) end.
  assert (∃ n, (2 * length l + 2 = S (S (S (S n))))%nat) as (n & ->).
  { exists (2 * length l - 2)%nat. subst l. cbn [length]. lia. }
  subst l. cbn [app].
  remember (json_string "ts" ++ _) as ms eqn:Hms.
  assert (head (skip_space ms) ≠ Some 125) as Hne by (by rewrite Hms).
  assert (parse_members field_number (S (S (S n))) 1 ms = Some ([("ts", AFloat x); ("id", AStr s)], false, [])) as Hp.
  { rewrite Hms. cbn [parse_members]. rewrite parse_key_json. cbn [mbind option_bind].
    rewrite parse_float_member by done. cbn [mbind option_bind skip_space Z.eqb Pos.eqb orb].
    cbn [parse_members]. rewrite parse_key_json. cbn [mbind option_bind].
    rewrite parse_string_member. cbn [mbind option_bind skip_space Z.eqb Pos.eqb orb].
    unfold valid_utf8 in Hs. rewrite Hs. done. }
  cbn [parse_value skip_space Z.eqb Pos.eqb orb]. change (max_nesting <? 0 + 1) with false. cbn iota.
  rewrite decide_False by done. change (0 + 1) with 1. rewrite Hp. cbn [mbind option_bind skip_space foldl].
  unfold set_member. cbn. by rewrite Hf.
Qed.

Lemma cursor_decodes c :
  reads_back (TS c) → ffinite (TS c) = true → valid_utf8 (ID c) →
  DecodeCursor (Encode c) = Some c.
Proof.
  intros Hr Hf Hs. unfold DecodeCursor, Encode.
  assert (Forall byte (marshal_cursor c)) as Hb.
  { unfold marshal_cursor. rewrite Hf.
    repeat (apply Forall_app; split); auto using json_string_bytes; try apply bytes_range;
      by repeat constructor. }
  rewrite bytes_of_bytes.
  - rewrite b64_roundtrip by done. cbn [mbind option_bind]. destruct c as [x s]. by apply parse_cursor.
  - eapply list.Forall_impl; [by apply b64_encode_chars|]. unfold byte. tauto.
Qed.

(** C21: Decoding an encoded cursor gives the cursor back: for any request
    identifier in UTF-8, whatever characters JSON has to escape in it, and any
    finite timestamp whose text reads back. *)
Theorem cursor_roundtrip c :
  reads_back (TS c) → ffinite (TS c) = true → valid_utf8 (ID c) →
  DecodeCursor (Encode c) = Some c.
Proof. apply cursor_decodes. Qed.
End roundtrip.

(** ** The interface of [Recent] *)

(** What the documentation of [strconv] says of the shortest text of a float:
    it is a number that reads back as the same float. *)
Class FloatText `{JSONFloats} :=
  float_reads_back : ∀ x, fvalid x → ffinite x = true → reads_back x.

Definition codec `{FloatText} : CursorCodec.
Proof.
  refine {| Recent.Encode := Encode; Recent.DecodeCursor := DecodeCursor; decode_encode := _ |}.
  intros c Hv Hf Hs. apply cursor_decodes; auto using float_reads_back.
Defined.

Definition sample_floats : JSONFloats := {| json_float := λ _, "1700000000.5" |}.

(** An identifier with a quote, a tag, a line separator and an emoji. *)
Definition sample_cursor : Cursor :=
  mkCursor (decimal false 17000000005 (-1)).1
    (of_bytes [97; 34; 60; 98; 226; 128; 168; 240; 159; 153; 130]).

Lemma cursor_roundtrip_witness :
  Encode (H := sample_floats) sample_cursor ≠ "" ∧
  DecodeCursor (Encode (H := sample_floats) sample_cursor) = Some sample_cursor.
Proof.
  split; [by vm_compute|]. apply (@cursor_roundtrip sample_floats).
  - split.
    + eexists _, _. split; [reflexivity|]. right. by vm_compute.
    + intros r. vm_compute. reflexivity.
  - vm_compute. reflexivity.
  - vm_compute. reflexivity.
Defined.

(** Texts that are no JSON object in base64 are refused; field names match up to
    case, and a missing field keeps its zero value. *)
Example malformed_cursors : DecodeCursor <$> ["%%%"; "e30"; "W10="; "eyJ0cyI6IjEifQ=="] = [None; None; None; None].
Proof. vm_compute. reflexivity. Qed.
Example lenient_cursors :
  DecodeCursor <$> ["e30="; "eyJUUyI6MSwiaUQiOiJhIn0="] =
  [Some zero_cursor; Some (mkCursor (f64_of_Z 1) "a")].
Proof. vm_compute. reflexivity. Qed.
