(* ===== verification/FanOut.v ===== *)
(** * Rendering all chunks at once ([internal/orchestrator/orchestrator.go], [renderAll])

    One goroutine per chunk, a semaphore that bounds how many render at a time,
    a context that is cancelled by the first error or by the caller.  The
    goroutines interleave arbitrarily; what rendering a chunk can come back with
    is a relation. *)
From Stdlib Require Import ZArith Lia Bool String.
From stdpp Require Import base tactics list relations.
From S2P Require Import Prelude GoString Types OErrors.
From stdpp Require Import list.
Local Open Scope nat_scope.

(** Where a goroutine is: in the select, past it (before the check of the
    context), in [renderFn], before the deferred release, returned. *)
Inductive gstate : Type := GWaiting | GAcquired | GRunning | GReleasing | GFinished.

#[export] Instance gstate_eq_dec : EqDecision gstate.
Proof. solve_decision. Defined.

(** [out i = None] is the zero [chunkPath]. *)
Record Fan : Type := mkFan {
  tokens : nat;
  gs : list gstate;
  out : list (option (Chunk * string));
  firstErr : option error;
  cancelled : bool;
  parent_done : bool
}.

Definition ctx_done (f : Fan) : bool := cancelled f || parent_done f.

Definition capacity (parallel : Z) : nat := Z.to_nat (if (parallel <? 1)%Z then 1 else parallel)%Z.

Definition set_g (i : nat) (g : gstate) (f : Fan) : Fan :=
  mkFan (tokens f) (<[i := g]> (gs f)) (out f) (firstErr f) (cancelled f) (parent_done f).
Definition set_tokens (n : nat) (f : Fan) : Fan :=
  mkFan n (gs f) (out f) (firstErr f) (cancelled f) (parent_done f).
Definition set_out (o : list (option (Chunk * string))) (f : Fan) : Fan :=
  mkFan (tokens f) (gs f) o (firstErr f) (cancelled f) (parent_done f).

(** The critical section after an error: the first one is kept and cancels. *)
Definition record_error (e : error) (f : Fan) : Fan :=
  match firstErr f with
  | None => mkFan (tokens f) (gs f) (out f) (Some e) true (parent_done f)
  | Some _ => f
  end.

Definition start_fan (chunks : list Chunk) : Fan :=
  mkFan 0 (replicate (length chunks) GWaiting) (replicate (length chunks) None) None false false.

(** What [renderAll] returns after [wg.Wait]. *)
Definition fan_result (f : Fan) : result error (list (option (Chunk * string))) :=
  match firstErr f with Some e => Err e | None => Ok (out f) end.
Definition all_finished (f : Fan) : Prop := Forall (λ g, g = GFinished) (gs f).

Section fan.
Context (chunks : list Chunk) (parallel : Z) (returns : Chunk → result error string → Prop).

Inductive fan_step : Fan → Fan → Prop :=
| fan_acquire f i :
    gs f !! i = Some GWaiting → tokens f < capacity parallel →
    fan_step f (set_g i GAcquired (set_tokens (S (tokens f)) f))
| fan_skip f i :
    gs f !! i = Some GWaiting → ctx_done f = true → fan_step f (set_g i GFinished f)
| fan_stop f i :
    gs f !! i = Some GAcquired → ctx_done f = true → fan_step f (set_g i GReleasing f)
| fan_start f i :
    gs f !! i = Some GAcquired → ctx_done f = false → fan_step f (set_g i GRunning f)
| fan_ok f i c p :
    gs f !! i = Some GRunning → chunks !! i = Some c → returns c (Ok p) →
    fan_step f (set_g i GReleasing (set_out (<[i := Some (c, p)]> (out f)) f))
| fan_fail f i c e :
    gs f !! i = Some GRunning → chunks !! i = Some c → returns c (Err e) →
    fan_step f (set_g i GReleasing (record_error e f))
| fan_release f i :
    gs f !! i = Some GReleasing → fan_step f (set_g i GFinished (set_tokens (pred (tokens f)) f))
| fan_parent f :
    parent_done f = false →
    fan_step f (mkFan (tokens f) (gs f) (out f) (firstErr f) (cancelled f) true).

(** ** Counting *)

Definition holds (g : gstate) : nat :=
  match g with GAcquired | GRunning | GReleasing => 1 | _ => 0 end.
Definition weight (g : gstate) : nat :=
  match g with GWaiting => 4 | GAcquired => 3 | GRunning => 2 | GReleasing => 1 | GFinished => 0 end.

Lemma sum_insert {A} (h : A → nat) (l : list A) i x y :
  l !! i = Some x → sum_list_with h (<[i := y]> l) + h x = sum_list_with h l + h y.
Proof.
  revert i. induction l as [|z l IH]; intros [|i]; simpl; try done; [intros [= ->]; lia|].
  intros Hi%IH. lia.
Qed.

Lemma sum_positive {A} (h : A → nat) (l : list A) : 0 < sum_list_with h l → ∃ i x, l !! i = Some x ∧ 0 < h x.
Proof.
  induction l as [|z l IH]; simpl; [lia|]. intros Hs. destruct (decide (0 < h z)) as [Hz|Hz].
  - by exists 0, z.
  - destruct IH as (i & x & Hi & Hx); [lia|]. by exists (S i), x.
Qed.

Lemma sum_replicate {A} (h : A → nat) n x : sum_list_with h (replicate n x) = n * h x.
Proof. induction n as [|n IH]; simpl; lia. Qed.

(** ** The invariant *)

Record fan_inv (f : Fan) : Prop := {
  fi_gs : length (gs f) = length chunks;
  fi_outlen : length (out f) = length chunks;
  fi_tokens : tokens f = sum_list_with holds (gs f);
  fi_bound : tokens f <= capacity parallel;
  fi_err : firstErr f = None ↔ cancelled f = false;
  fi_err_real : ∀ e, firstErr f = Some e → ∃ i c, chunks !! i = Some c ∧ returns c (Err e);
  fi_out : ∀ i c p, out f !! i = Some (Some (c, p)) → chunks !! i = Some c ∧ returns c (Ok p);
  fi_done : ctx_done f = false → ∀ i g, gs f !! i = Some g → (g = GReleasing ∨ g = GFinished) →
    ∃ cp, out f !! i = Some (Some cp)
}.

Lemma start_fan_inv : fan_inv (start_fan chunks).
Proof.
  split; simpl; rewrite ?length_replicate; try done.
  - rewrite sum_replicate. simpl. lia.
  - lia.
  - intros i c p [Hi _]%lookup_replicate. done.
  - intros _ i g [-> _]%lookup_replicate [?|?]; done.
Qed.

(** A goroutine moves without touching the results. *)
Lemma move_inv f i g g' n :
  fan_inv f → gs f !! i = Some g → n + holds g = tokens f + holds g' → n <= capacity parallel →
  (g' = GReleasing ∨ g' = GFinished → ctx_done f = true ∨ g = GReleasing ∨ g = GFinished) →
  fan_inv (set_g i g' (set_tokens n f)).
Proof.
  intros [Hg Ho Ht Hb He Hr Hout Hd] Hi Hn Hcap Hlast. pose proof (sum_insert holds _ _ _ g' Hi).
  split; simpl; try done.
  - by rewrite length_insert.
  - lia.
  - change (ctx_done _) with (ctx_done f). intros Hctx j g0 [(<- & <- & _)|[Hne Hj]]%list_lookup_insert_Some Hend.
    + destruct (Hlast Hend) as [Hx|Hx]; [by rewrite Hx in Hctx|]. by eapply Hd.
    + by eapply Hd.
Qed.

Lemma set_tokens_id f : set_tokens (tokens f) f = f.
Proof. by destruct f. Qed.

Lemma record_error_inv f e c i :
  fan_inv f → chunks !! i = Some c → returns c (Err e) → fan_inv (record_error e f).
Proof.
  intros Hf Hc He. unfold record_error. destruct (firstErr f) eqn:Herr; [done|].
  destruct Hf as [Hg Ho Ht Hb He0 Hr Hout Hd]. split; simpl; try done.
  intros e' [= <-]. by exists i, c.
Qed.

Lemma fan_step_inv f f' : fan_inv f → fan_step f f' → fan_inv f'.
Proof.
  intros Hf Hs. pose proof (fi_bound _ Hf). destruct Hs as [f i Hi Hlt|f i Hi Hc|f i Hi Hc|f i Hi Hc|f i c p Hi Hc Hr
    |f i c e Hi Hc Hr|f i Hi|f Hp].
  - eapply move_inv; [done|done|simpl; lia|lia|by intros [?|?]].
  - rewrite <- (set_tokens_id f). eapply move_inv; [done|done|simpl; lia|lia|by left].
  - rewrite <- (set_tokens_id f). eapply move_inv; [done|done|simpl; lia|lia|by left].
  - rewrite <- (set_tokens_id f). eapply move_inv; [done|done|simpl; lia|lia|by intros [?|?]].
  - destruct Hf as [Hg Ho Ht Hb He Hre Hout Hd]. pose proof (sum_insert holds _ _ _ GReleasing Hi) as Hsum.
    assert (i < length (out f)) as Hlt by (rewrite Ho; by eapply lookup_lt_Some).
    split; simpl; try done.
    + by rewrite length_insert.
    + by rewrite length_insert.
    + simpl in Hsum. lia.
    + intros j c' p' [(<- & [= <- <-] & _)|[Hne Hj]]%list_lookup_insert_Some; [done|by apply Hout].
    + change (ctx_done _) with (ctx_done f). intros Hctx j g Hj Hend. destruct (decide (i = j)) as [<-|Hne].
      * exists (c, p). by apply list_lookup_insert_eq.
      * rewrite list_lookup_insert_ne by done. rewrite list_lookup_insert_ne in Hj by done. by eapply Hd.
  - assert (fan_inv (record_error e f)) as Hf' by by eapply record_error_inv.
    assert (gs (record_error e f) = gs f) as Hgs by (unfold record_error; by destruct (firstErr f)).
    assert (ctx_done (record_error e f) = true) as Hctx.
    { unfold record_error, ctx_done. destruct (firstErr f) eqn:Herr; [|done].
      destruct (cancelled f) eqn:Hca; [done|]. apply (fi_err _ Hf) in Hca. by rewrite Hca in Herr. }
    rewrite <- (set_tokens_id (record_error e f)).
    eapply (move_inv _ i GRunning); [done|by rewrite Hgs|done|by apply fi_bound|by left].
  - eapply move_inv; [done|done| |lia|by right; left].
    pose proof (fi_tokens _ Hf). pose proof (sum_insert holds _ _ _ GFinished Hi) as Hsum. simpl in *. lia.
  - destruct Hf as [Hg Ho Ht Hb He Hre Hout Hd]. split; simpl; try done.
    unfold ctx_done. simpl. by rewrite orb_true_r.
Qed.

Lemma fan_reach_inv f : rtc fan_step (start_fan chunks) f → fan_inv f.
Proof.
  intros Hr. assert (fan_inv (start_fan chunks)) as H0 by apply start_fan_inv. revert Hr H0.
  generalize (start_fan chunks). induction 1 as [|x y z Hs _ IH]; intros Hx; [done|]. apply IH. by eapply fan_step_inv.
Qed.

(** ** Theorems *)

Definition running (g : gstate) : nat := match g with GRunning => 1 | _ => 0 end.

Lemma running_holds l : sum_list_with running l <= sum_list_with holds l.
Proof. induction l as [|[] l IH]; simpl; lia. Qed.

(** C16: at most [max 1 parallel] chunks are being rendered at any time, and once
    an error is recorded or the request is cancelled no further chunk starts. *)
Theorem fan_bounded_and_fails_fast f :
  rtc fan_step (start_fan chunks) f →
  (Z.of_nat (sum_list_with running (gs f)) <= Z.max 1 parallel)%Z ∧
  (firstErr f ≠ None ∨ parent_done f = true → ∀ f', fan_step f f' →
     ∀ i, gs f' !! i = Some GRunning → gs f !! i = Some GRunning).
Proof.
  intros Hr. pose proof (fan_reach_inv f Hr) as Hf. split.
  - pose proof (running_holds (gs f)). pose proof (fi_tokens _ Hf). pose proof (fi_bound _ Hf) as Hb.
    unfold capacity in Hb. destruct (Z.ltb_spec parallel 1); lia.
  - intros Hend. assert (ctx_done f = true) as Hctx.
    { unfold ctx_done. destruct Hend as [He| ->]; [|apply orb_true_r]. destruct (cancelled f) eqn:Hc; [done|].
      by apply (fi_err _ Hf) in Hc. }
    assert (∀ i j g x, gs x = gs f → <[i := g]> (gs x) !! j = Some GRunning → g ≠ GRunning → gs f !! j = Some GRunning) as Hins.
    { intros i j g x -> [(_ & -> & _)|[_ Hj]]%list_lookup_insert_Some; done. }
    intros f' Hs j. destruct Hs as [f i Hi Hlt|f i Hi Hc|f i Hi Hc|f i Hi Hc|f i c p Hi Hc Hre
      |f i c e Hi Hc Hre|f i Hi|f Hp]; simpl; intros Hj; try done;
      try (by apply (Hins _ _ _ f eq_refl Hj)); [by rewrite Hctx in Hc|].
    apply (Hins _ _ _ (record_error e f)) in Hj; [done| |done]. unfold record_error. by destruct (firstErr f).
Qed.

Lemma fan_finished f :
  rtc fan_step (start_fan chunks) f → all_finished f →
  match fan_result f with
  | Err e => ∃ i c, chunks !! i = Some c ∧ returns c (Err e)
  | Ok out => length out = length chunks ∧
      (parent_done f = false → ∃ paths, out = Some <$> zip chunks paths ∧
         Forall2 (λ c p, returns c (Ok p)) chunks paths)
  end.
Proof.
  intros Hr Hend. pose proof (fan_reach_inv f Hr) as Hf. unfold fan_result.
  destruct (firstErr f) as [e|] eqn:He; [by apply (fi_err_real _ Hf)|]. split; [apply Hf|].
  intros Hp. assert (ctx_done f = false) as Hctx.
  { unfold ctx_done. rewrite Hp, orb_false_r. by apply (fi_err _ Hf). }
  assert (∀ i c, chunks !! i = Some c → ∃ p, out f !! i = Some (Some (c, p)) ∧ returns c (Ok p)) as Hall.
  { intros i c Hc. assert (i < length (gs f)) as Hlt by (rewrite (fi_gs _ Hf); by eapply lookup_lt_Some).
    apply lookup_lt_is_Some in Hlt as [g Hg]. pose proof (Forall_lookup_1 _ _ _ _ Hend Hg) as ->.
    destruct (fi_done _ Hf Hctx i _ Hg (or_intror eq_refl)) as [[c' p] Hcp].
    destruct (fi_out _ Hf i c' p Hcp) as [Hc' Hret]. simplify_eq. by exists p. }
  pose proof (fi_outlen _ Hf) as Hlen. revert Hlen Hall. generalize (out f). clear.
  induction chunks as [|c cs IH]; intros [|o os] Hlen Hall; try done.
  - exists []. by split.
  - destruct (Hall 0 c eq_refl) as (p & [= ->] & Hret).
    destruct (IH os) as (ps & -> & Hps); [simpl in Hlen; lia|intros i; apply (Hall (S i))|].
    exists (p :: ps). split; [done|by constructor].
Qed.

(** When all goroutines have returned, an error that [renderAll] reports is
    one that rendering some chunk came back with; and without an error, unless
    the caller cancelled, there is one path per chunk, in the order of the
    chunks whatever order they finished in, each the one its rendering
    returned. *)
Theorem fan_result_ordered f :
  rtc fan_step (start_fan chunks) f → all_finished f →
  match fan_result f with
  | Err e => ∃ i c, chunks !! i = Some c ∧ returns c (Err e)
  | Ok out => length out = length chunks ∧
      (parent_done f = false → ∃ paths, out = Some <$> zip chunks paths ∧
         Forall2 (λ c p, returns c (Ok p)) chunks paths)
  end.
Proof. apply fan_finished. Qed.

(** The steps a state still allows. *)
Definition fan_measure (f : Fan) : nat :=
  sum_list_with weight (gs f) + (if parent_done f then 0 else 1).

Lemma fan_step_measure f f' : fan_step f f' → fan_measure f' < fan_measure f.
Proof.
  unfold fan_measure. intros [g i Hi Hlt|g i Hi Hc|g i Hi Hc|g i Hi Hc|g i c p Hi Hc Hre|g i c e Hi Hc Hre|g i Hi|g Hp];
    try (simpl; match goal with |- context [<[i := ?x]> _] => pose proof (sum_insert weight _ _ _ x Hi) as Hs end;
         simpl in *; lia).
  - assert (gs (record_error e g) = gs g ∧ parent_done (record_error e g) = parent_done g) as [Hgs Hpd]
      by (unfold record_error; by destruct (firstErr g)).
    simpl. rewrite Hgs, Hpd. pose proof (sum_insert weight _ _ _ GReleasing Hi) as Hs. simpl in Hs. lia.
  - simpl. rewrite Hp. lia.
Qed.

(** C29: [renderAll] ends: every run takes at most four steps per chunk and one
    for a cancellation, and as long as renderings come back a state in which
    some goroutine has not returned has a next step: there is no deadlock on the
    semaphore. *)
Theorem fan_terminates f :
  (∀ c, c ∈ chunks → ∃ r, returns c r) →
  (∀ n, nsteps fan_step n (start_fan chunks) f → n <= 4 * length chunks + 1) ∧
  (rtc fan_step (start_fan chunks) f → ¬ all_finished f → ∃ f', fan_step f f' ∧ parent_done f' = parent_done f).
Proof.
  intros Htotal. split.
  - assert (∀ n x y, nsteps fan_step n x y → n + fan_measure y <= fan_measure x) as Hm.
    { induction 1 as [x|n x y z Hs _ IH]; [lia|]. apply fan_step_measure in Hs. lia. }
    intros n Hn. apply Hm in Hn. unfold fan_measure in Hn at 2. simpl in Hn. rewrite sum_replicate in Hn. simpl in Hn. lia.
  - intros Hr Hnot. pose proof (fan_reach_inv f Hr) as Hf.
    assert (∀ i g, gs f !! i = Some g → 0 < holds g → ∃ f', fan_step f f' ∧ parent_done f' = parent_done f) as Hmove.
    { intros i [] Hi Hg; simpl in Hg; try lia.
      - destruct (ctx_done f) eqn:Hctx; eexists; (split; [by first [by apply fan_stop|by apply fan_start]|done]).
      - assert (i < length chunks) as Hlt by (rewrite <- (fi_gs _ Hf); by eapply lookup_lt_Some).
        apply lookup_lt_is_Some in Hlt as [c Hc]. destruct (Htotal c) as [[p|e] Hre]; [by eapply list_elem_of_lookup_2| |].
        + eexists. split; [by eapply fan_ok|done].
        + eexists. split; [by eapply fan_fail|]. unfold record_error. simpl. by destruct (firstErr f).
      - eexists. split; [by apply fan_release|done]. }
    apply not_Forall_Exists in Hnot; [|apply _]. apply Exists_exists in Hnot as (g & Hg & Hne).
    apply list_elem_of_lookup in Hg as [i Hi]. destruct g; try (eapply Hmove; [exact Hi|simpl; lia]); [|by destruct Hne].
    destruct (decide (tokens f < capacity parallel)) as [Hlt|Hge].
    + eexists. split; [by apply fan_acquire|done].
    + assert (0 < sum_list_with holds (gs f)) as Hpos.
      { rewrite <- (fi_tokens _ Hf). unfold capacity in Hge. destruct (Z.ltb_spec parallel 1); lia. }
      apply sum_positive in Hpos as (j & g & Hj & Hg). by eapply Hmove.
Qed.
End fan.

(** ** One goroutine after the other *)

(** The schedule that the executable model of the pipeline uses: in order,
    stopping at the first error. *)
Fixpoint render_in_order (f : Chunk → result error string) (chunks : list Chunk)
    : result error (list (Chunk * string)) :=
  match chunks with
  | [] => Ok []
  | c :: cs => p ← f c; ps ← render_in_order f cs; Ok ((c, p) :: ps)
  end.

Section in_order.
Context (chunks : list Chunk) (parallel : Z) (f : Chunk → result error string).

Local Abbreviation step := (fan_step chunks parallel (λ c r, r = f c)).

(** The chunks before the [k]-th are done, [ps] are their results. *)
Definition fan_upto (ps : list (Chunk * string)) (rest : nat) : Fan :=
  mkFan 0 (replicate (length ps) GFinished ++ replicate rest GWaiting)
    ((Some <$> ps) ++ replicate rest None) None false false.

Lemma insert_middle {A} (l k : list A) x y : <[length l := y]> (l ++ x :: k) = l ++ y :: k.
Proof. rewrite <- (Nat.add_0_r (length l)), insert_app_r. done. Qed.

Lemma lookup_middle {A} (l k : list A) x : (l ++ x :: k) !! length l = Some x.
Proof. by rewrite lookup_app_r, Nat.sub_diag. Qed.

(** The goroutine at a position, alone with the rest still waiting. *)
Definition fan_mid (t : nat) (g : gstate) (o : option (Chunk * string)) (e : option error)
    (ps : list (Chunk * string)) (rest : nat) : Fan :=
  mkFan t (replicate (length ps) GFinished ++ g :: replicate rest GWaiting)
    ((Some <$> ps) ++ o :: replicate rest None) e (match e with Some _ => true | None => false end) false.

Lemma mid_set t g g' o e ps rest :
  <[length ps := g']> (gs (fan_mid t g o e ps rest)) = gs (fan_mid t g' o e ps rest).
Proof.
  pose proof (insert_middle (replicate (length ps) GFinished) (replicate rest GWaiting) g g') as H.
  by rewrite length_replicate in H.
Qed.

Lemma mid_lookup t g o e ps rest : gs (fan_mid t g o e ps rest) !! length ps = Some g.
Proof.
  pose proof (lookup_middle (replicate (length ps) GFinished) (replicate rest GWaiting) g) as H.
  by rewrite length_replicate in H.
Qed.

Lemma capacity_pos : 0 < capacity parallel.
Proof. unfold capacity. destruct (Z.ltb_spec parallel 1); lia. Qed.

(** From its turn to its call: two steps. *)
Lemma mid_start ps rest : rtc step (fan_upto ps (S rest)) (fan_mid 1 GRunning None None ps rest).
Proof.
  eapply rtc_l; [apply (fan_acquire _ _ _ (fan_mid 0 GWaiting None None ps rest) (length ps));
    [apply mid_lookup|apply capacity_pos]|].
  unfold set_g, set_tokens. cbn [gs tokens]. rewrite (mid_set 0 GWaiting GAcquired).
  eapply rtc_l; [apply (fan_start _ _ _ (fan_mid 1 GAcquired None None ps rest) (length ps));
    [apply mid_lookup|done]|].
  unfold set_g. cbn [gs tokens]. rewrite (mid_set 1 GAcquired GRunning). apply rtc_refl.
Qed.

Lemma mid_ok ps c p rest :
  chunks !! length ps = Some c → f c = Ok p →
  rtc step (fan_upto ps (S rest)) (fan_upto (ps ++ [(c, p)]) rest).
Proof.
  intros Hc Hf. etrans; [apply mid_start|].
  eapply rtc_l; [eapply (fan_ok _ _ _ _ (length ps) c p); [apply mid_lookup|done|by rewrite Hf]|].
  unfold set_g, set_out. cbn [gs out]. rewrite mid_set.
  assert (<[length ps := Some (c, p)]> (out (fan_mid 1 GRunning None None ps rest)) =
    out (fan_mid 1 GReleasing (Some (c, p)) None ps rest)) as ->.
  { pose proof (insert_middle (Some <$> ps) (replicate rest None) None (Some (c, p))) as H.
    by rewrite length_fmap in H. }
  eapply rtc_l; [apply (fan_release _ _ _ (fan_mid 1 GReleasing (Some (c, p)) None ps rest) (length ps)); apply mid_lookup|].
  unfold set_g, set_tokens. cbn [gs tokens]. rewrite mid_set. unfold fan_upto, fan_mid. cbn.
  rewrite length_app, fmap_app, replicate_add, <- !app_assoc. apply rtc_refl.
Qed.

(** After an error the goroutines still waiting give up, one by one. *)
Lemma skip_rest e t o (done waiting : nat) :
  ∃ s, rtc step (mkFan t (replicate done GFinished ++ replicate waiting GWaiting) o (Some e) true false) s ∧
    all_finished s ∧ firstErr s = Some e.
Proof.
  revert done. induction waiting as [|n IH]; intros k.
  - eexists. split; [apply rtc_refl|]. split; [|done]. unfold all_finished. simpl.
    rewrite app_nil_r. by apply Forall_replicate.
  - destruct (IH (S k)) as (s & Hs & Hrest). exists s. split; [|done].
    eapply rtc_l; [apply (fan_skip _ _ _ _ k); [|done]|].
    + pose proof (lookup_middle (replicate k GFinished) (replicate n GWaiting) GWaiting) as H.
      by rewrite length_replicate in H.
    + pose proof (insert_middle (replicate k GFinished) (replicate n GWaiting) GWaiting GFinished) as H.
      rewrite length_replicate in H. unfold set_g. cbn [gs replicate]. rewrite H.
      replace (replicate k GFinished ++ GFinished :: replicate n GWaiting)
        with (replicate (S k) GFinished ++ replicate n GWaiting); [done|].
      by rewrite replicate_S_end, <- app_assoc.
Qed.

Lemma mid_err ps c e rest :
  chunks !! length ps = Some c → f c = Err e →
  ∃ s, rtc step (fan_upto ps (S rest)) s ∧ all_finished s ∧ firstErr s = Some e.
Proof.
  intros Hc Hf.
  destruct (skip_rest e 0 (out (fan_mid 0 GFinished None None ps rest)) (S (length ps)) rest) as (s & Hs & Hrest).
  exists s. split; [|done]. etrans; [apply mid_start|].
  eapply rtc_l; [eapply (fan_fail _ _ _ _ (length ps) c e); [apply mid_lookup|done|by rewrite Hf]|].
  unfold set_g, record_error. cbn [gs out firstErr fan_mid].
  change (replicate (length ps) GFinished ++ GRunning :: replicate rest GWaiting) with (gs (fan_mid 1 GRunning None None ps rest)).
  rewrite mid_set.
  eapply rtc_l; [apply (fan_release _ _ _ (fan_mid 1 GReleasing None (Some e) ps rest) (length ps)); apply mid_lookup|].
  unfold set_g, set_tokens. cbn [gs tokens]. rewrite mid_set. unfold fan_mid. cbn.
  replace (replicate (length ps) GFinished ++ GFinished :: replicate rest GWaiting)
    with (replicate (S (length ps)) GFinished ++ replicate rest GWaiting); [done|].
  by rewrite replicate_S_end, <- app_assoc.
Qed.

Lemma in_order_run ps rest :
  chunks = ps.*1 ++ rest →
  ∃ s, rtc step (fan_upto ps (length rest)) s ∧ all_finished s ∧
    match render_in_order f rest with
    | Ok qs => fan_result s = Ok (Some <$> ps ++ qs)
    | Err e => fan_result s = Err e
    end.
Proof.
  revert ps. induction rest as [|c rest IH]; intros ps Hchunks.
  - eexists. split; [apply rtc_refl|]. split.
    + unfold all_finished, fan_upto. simpl. rewrite app_nil_r. by apply Forall_replicate.
    + unfold fan_result. simpl. by rewrite !app_nil_r.
  - assert (chunks !! length ps = Some c) as Hc.
    { rewrite Hchunks, <- (length_fmap fst ps). apply lookup_middle. }
    simpl. destruct (f c) as [p|e] eqn:Hf; simpl.
    + destruct (IH (ps ++ [(c, p)])) as (s & Hs & Hfin & Hres).
      { rewrite Hchunks, fmap_app, <- app_assoc. done. }
      exists s. split; [etrans; [by apply mid_ok|exact Hs]|]. split; [done|].
      destruct (render_in_order f rest); simpl; [|done]. by rewrite Hres, <- app_assoc.
    + destruct (mid_err ps c e (length rest) Hc Hf) as (s & Hs & Hfin & Hres).
      exists s. split_and!; [done|done|]. unfold fan_result. by rewrite Hres.
Qed.

Lemma forall2_in_order paths :
  Forall2 (λ c p, Ok p = f c) chunks paths → render_in_order f chunks = Ok (zip chunks paths).
Proof. induction 1 as [|c p cs ps Hp _ IH]; simpl; [done|]. rewrite <- Hp. simpl. by rewrite IH. Qed.

(** C24: rendering the chunks one after the other, stopping at the first error, is
    one of the schedules of [renderAll]; and when that succeeds every schedule
    that is not cancelled ends with the same list, while when it fails every
    such schedule ends with some chunk's error. *)
Theorem in_order_equivalent :
  (∃ s, rtc step (start_fan chunks) s ∧ all_finished s ∧
    fan_result s = match render_in_order f chunks with Ok ps => Ok (Some <$> ps) | Err e => Err e end) ∧
  (∀ s, rtc step (start_fan chunks) s → all_finished s → parent_done s = false →
    match render_in_order f chunks with
    | Ok ps => fan_result s = Ok (Some <$> ps)
    | Err _ => ∃ i c e, fan_result s = Err e ∧ chunks !! i = Some c ∧ f c = Err e
    end).
Proof.
  split.
  - destruct (in_order_run [] chunks eq_refl) as (s & Hs & Hfin & Hres). exists s. split_and!; [done|done|].
    by destruct (render_in_order f chunks).
  - intros s Hs Hfin Hp. pose proof (fan_finished _ _ _ s Hs Hfin) as Hres.
    destruct (fan_result s) as [o|e].
    + destruct Hres as [_ Hall]. destruct (Hall Hp) as (paths & -> & H2). by rewrite (forall2_in_order paths).
    + destruct Hres as (i & c & Hc & He). destruct (render_in_order f chunks) as [ps|e'] eqn:Hr; [|by exists i, c, e].
      exfalso. clear -Hc He Hr. revert i ps Hc Hr. induction chunks as [|d ds IH]; intros [|i] ps Hc Hr; try done; simpl in *.
      * simplify_eq. by rewrite <- He in Hr.
      * destruct (f d); [|done]. simpl in Hr. destruct (render_in_order f ds) as [qs|] eqn:Hq; [|done].
        by eapply IH.
Qed.
End in_order.

(** A request that is cancelled before anything rendered comes back without an
    error and with an empty entry in place of the chunk's path. *)
Lemma cancelled_fan_succeeds c parallel returns :
  ∃ s, rtc (fan_step [c] parallel returns) (start_fan [c]) s ∧ all_finished s ∧ fan_result s = Ok [None].
Proof.
  eexists. split; [|split].
  - eapply rtc_l; [by apply fan_parent|]. eapply rtc_l; [by apply (fan_skip _ _ _ _ 0)|]. apply rtc_refl.
  - by repeat constructor.
  - done.
Qed.

(** ** Concrete runs *)

Definition two_chunks : list Chunk := [mkChunk (GoFloat.f64_of_Z 0) 1 5 false; mkChunk (GoFloat.f64_of_Z 1) 6 9 false].
Definition any_path (c : Chunk) (r : result error string) : Prop := r = Ok "/s/chunk.pdf".

Example fan_bounded_and_fails_fast_witness :
  rtc (fan_step two_chunks 1 any_path) (start_fan two_chunks) (start_fan two_chunks) ∧
  (Z.of_nat (sum_list_with running (gs (start_fan two_chunks))) <= Z.max 1 1)%Z.
Proof.
  split; [apply rtc_refl|].
  exact (proj1 (fan_bounded_and_fails_fast two_chunks 1 any_path _ (rtc_refl _ _))).
Defined.

Example fan_result_ordered_witness :
  ∃ s, rtc (fan_step two_chunks 1 (λ c r, r = Ok "/s/chunk.pdf")) (start_fan two_chunks) s ∧ all_finished s ∧
    match fan_result s with Ok out => length out = 2 | Err _ => True end.
Proof.
  destruct (in_order_run two_chunks 1 (λ _, Ok "/s/chunk.pdf") [] two_chunks eq_refl) as (s & Hs & Hfin & _).
  exists s. split; [exact Hs|]. split; [exact Hfin|].
  pose proof (fan_result_ordered two_chunks 1 _ s Hs Hfin) as H.
  destruct (fan_result s) as [out|e]; [exact (proj1 H)|exact I].
Defined.

Example fan_terminates_witness :
  (∀ c, c ∈ two_chunks → ∃ r, any_path c r) ∧
  ∃ f', fan_step two_chunks 1 any_path (start_fan two_chunks) f'.
Proof.
  assert (∀ c, c ∈ two_chunks → ∃ r, any_path c r) as Htotal by (intros c _; eexists; reflexivity).
  split; [exact Htotal|].
  destruct (fan_terminates two_chunks 1 any_path (start_fan two_chunks) Htotal) as [_ H].
  destruct (H (rtc_refl _ _)) as (f' & Hs & _); [|by exists f'].
  intros Hfin. inversion Hfin. discriminate.
Defined.
