(* ===== verification/Orchestrator.v ===== *)
(** * The conversion pipeline ([internal/orchestrator/orchestrator.go])

    Cache lookup, probe, plan, rendering with subdivision, merge.  The pipeline
    is a state-passing program over the files and the response of [FS.v], the
    conversion's counters, the progress store and the clock.  Chunks are rendered
    in order here; [FanOut.v] shows that this is one of the schedules of
    [renderAll] and what holds of all of them.  The probe, the worker processes,
    the pools behind Go's [Pool] interface, [qpdf], the hash and the clock are
    arguments. *)
From Stdlib Require Import ZArith Lia Bool SpecFloat Ascii String.
From stdpp Require Import base tactics list gmap strings.
From S2P Require Import Prelude GoFloat GoString GoFmt GoTime Types OErrors Config FS Qpdf.
From S2P Require Cache Planner Probe Progress Worker Pool.
From stdpp Require Import list.
Local Open Scope Z_scope.

Record counters : Type := mkCounters { rendered : Z; subs : Z; cacheHit : Z }.

(** The state of a conversion; [tick] counts the clock readings and random
    numbers drawn so far. *)
Record St : Type := mkSt {
  world : World;
  cnt : counters;
  progress : Progress.JobProgressStore;
  tick : nat
}.

(** A step of the pipeline returns or is stuck waiting for a process. *)
Definition M (A : Type) : Type := St → ended A * St.
#[export] Instance m_ret : MRet M := λ A a st, (Returned a, st).
#[export] Instance m_bind : MBind M := λ A B f m st,
  match m st with
  | (Returned a, st) => f a st
  | (Stuck, st) => (Stuck, st)
  end.

Definition io {A} (m : IO A) : M A := λ st,
  let '(a, w) := m (world st) in (Returned a, mkSt w (cnt st) (progress st) (tick st)).
Definition io_ended {A} (m : IO (ended A)) : M A := λ st,
  let '(a, w) := m (world st) in (a, mkSt w (cnt st) (progress st) (tick st)).
Definition count (f : counters → counters) : M unit := λ st,
  (Returned (), mkSt (world st) (f (cnt st)) (progress st) (tick st)).

Definition addRendered : M unit := count (λ c, mkCounters (rendered c +! 1)%go (subs c) (cacheHit c)).
Definition addSubdivision : M unit := count (λ c, mkCounters (rendered c) (subs c +! 1)%go (cacheHit c)).
Definition addCacheHit : M unit := count (λ c, mkCounters (rendered c) (subs c) (cacheHit c +! 1)%go).
Definition snapshot : M (Z * Z * Z) := λ st, (Returned (rendered (cnt st), subs (cnt st), cacheHit (cnt st)), st).

Definition minInt (a b : Z) : Z := if a <? b then a else b.
Definition maxInt (a b : Z) : Z := if b <? a then a else b.

(** [planStrategy]; the label of a log line. *)
Definition planStrategy (plan : ChunkPlan) : string :=
  if Nat.eqb (length (Chunks plan)) 1 then "single_chunk"
  else if existsb NaturalSeam (Chunks plan) then "natural_seams" else "page_range_split".

(** Go's [Pool] interface. *)
Record PoolOps : Type := mkPoolOps {
  pool_render : Chunk → string → IO (result error string);
  pool_pages : Z * bool;
  pool_close : IO unit
}.

(** What a conversion uses: the services of [Deps], the request, and the outside. *)
Record Conversion : Type := mkConversion {
  settings : Settings;
  cache : Cache.Manager;
  requestID : string;
  inputPath : string;
  reqFormat : FormatName;
  options : ConversionOptions;
  scratchDir : string;
  dst : Sink;
  environ : gmap string string;
  new_pool : bool → FormatName → Z → IO (result error PoolOps);
  qpdf : Qpdf;
  sha256_hex : string → string;
  open_error : string → string;
  process_id : Z;
  random : nat → string;
  copy_blocks : string → list string;
  now : nat → Time
}.

Section conversion.
Context `{FloatFormat} `{GoArch} `{Worker.Workers} `{UnicodeTables} `{Probe.Readers} (cv : Conversion).
#[local] Abbreviation s := (settings cv).

(** The cache's environment for the next write: a fresh random suffix. *)
Definition cache_env (st : St) : Cache.Env := Cache.mkEnv (process_id cv) (random cv (tick st)) (copy_blocks cv).
Definition next_tick : M Cache.Env := λ st,
  (Returned (cache_env st), mkSt (world st) (cnt st) (progress st) (S (tick st))).

Definition read_clock : M Time := λ st,
  (Returned (now cv (tick st)), mkSt (world st) (cnt st) (progress st) (S (tick st))).

Definition update_progress (u : Progress.ProgressUpdate) : M unit := λ st,
  (Returned (), mkSt (world st) (cnt st)
     (Progress.Update (now cv (tick st)) (now cv (S (tick st))) (requestID cv) u (progress st))
     (S (S (tick st)))).

Definition phase_update (phase : string) : Progress.ProgressUpdate :=
  Progress.mkUpdate None (Some phase) None None 0.
Definition chunk_done : Progress.ProgressUpdate := Progress.mkUpdate None None None None 1.
Definition rendering_update : Progress.ProgressUpdate :=
  Progress.mkUpdate None (Some "rendering") (Some f1) None 0.

(** [renderAll], in order; stops at the first error. *)
Fixpoint render_all (render : Chunk → M (result error string)) (chunks : list Chunk)
    : M (result error (list (Chunk * string))) :=
  match chunks with
  | [] => mret (Ok [])
  | c :: cs =>
      r ← render c;
      match r with
      | Err e => mret (Err e)
      | Ok p =>
          r ← render_all render cs;
          mret (match r with Ok ps => Ok ((c, p) :: ps) | Err e => Err e end)
      end
  end.

Definition chunk_key (chunk : Chunk) (sourceSHA : string) (format : FormatName) : string :=
  Planner.ChunkSHA256 (sha256_hex cv) chunk sourceSHA format.

Definition put_chunk (key path : string) : M bool :=
  env ← next_tick; io (Cache.PutChunk env (cache cv) key path).

(** A rendered chunk is counted, reported and, with the cache on, stored. *)
Definition chunk_rendered (store : option string) (path : string) : M (result error string) :=
  addRendered;;
  update_progress chunk_done;;
  match store with Some key => put_chunk key path;; mret (Ok path) | None => mret (Ok path) end.

Definition cached_chunk (cacheActive : bool) (key : string) : M string :=
  if cacheActive then io (Cache.GetChunk (cache cv) key) else mret "".

Definition merged_path (chunk : Chunk) : string :=
  scratchDir cv +:+ "/chunk-" +:+ Worker.formatIndex (Index chunk) +:+ "-merged.pdf".

(** [renderWithRetry]; the fuel bounds the depth of the subdivision
    ([retry_fuel]: a chunk of at most [2^k] pages never needs more than [k + 1]). *)
Fixpoint renderWithRetry (fuel : nat) (format : FormatName) (sourceSHA : string) (cacheActive : bool)
    (depth : Z) (chunk : Chunk) : M (result error string) :=
  match fuel with
  | O => λ st, (Stuck, st)
  | S fuel =>
      let key := chunk_key chunk sourceSHA format in
      cached ← cached_chunk cacheActive key;
      if negb (String.eqb cached "") then addCacheHit;; mret (Ok cached)
      else
        r ← io (Worker.RenderChunkOneShot s chunk (inputPath cv) format (scratchDir cv));
        match r with
        | Ok path => chunk_rendered (if cacheActive then Some key else None) path
        | Err e =>
            if OOM e then
              addSubdivision;;
              match Planner.Subdivide chunk with
              | [] => mret (Err (EConv (NewSubdivisionFloor chunk (depth +! 1)%go)))
              | parts =>
                  r ← render_all (renderWithRetry fuel format sourceSHA cacheActive (depth +! 1)%go) parts;
                  match r with
                  | Err e => mret (Err e)
                  | Ok ps =>
                      r ← io_ended (ConcatToFile (qpdf cv) ps.*2 (merged_path chunk));
                      mret (match r with None => Ok (merged_path chunk) | Some e => Err (EConv e) end)
                  end
              end
            else mret (Err (EConv e))
        end
  end.

(** Enough for any page count that fits in 64 bits. *)
Definition retry_depth : nat := 65.

Definition dispatchOneShot (format : FormatName) (plan : ChunkPlan) (sourceSHA : string) (cacheActive : bool)
    : M (result error (list (Chunk * string))) :=
  update_progress rendering_update;;
  render_all (renderWithRetry retry_depth format sourceSHA cacheActive 0) (Chunks plan).

Definition pool_size (format : FormatName) (plan : ChunkPlan) : Z :=
  let n := minInt (Parallel s) (Z.of_nat (length (Chunks plan))) in
  if String.eqb format FormatXLSX && negb (Pool.ForkAfterLoadEnabled s format)
  then minInt n (XLSXMaxPoolSize s) else n.

(** The closure [dispatchPool] renders a chunk with. *)
Definition pool_chunk (pool : PoolOps) (format : FormatName) (sourceSHA : string) (cacheActive : bool)
    (chunk : Chunk) : M (result error string) :=
  let key := chunk_key chunk sourceSHA format in
  cached ← cached_chunk cacheActive key;
  if negb (String.eqb cached "") then addCacheHit;; update_progress chunk_done;; mret (Ok cached)
  else
    r ← io (pool_render pool chunk (scratchDir cv));
    match r with
    | Err e => mret (Err e)
    | Ok path =>
        addRendered;;
        (if cacheActive then put_chunk key path;; mret () else mret ());;
        update_progress chunk_done;;
        mret (Ok path)
    end.

(** The plan for the page count the pool reports. *)
Definition replan (pool : PoolOps) (pr : ProbeResult) (effMaxPages : Z) (plan : ChunkPlan) : option ChunkPlan :=
  let '(actual, ok) := pool_pages pool in
  if ok && negb (actual =? TotalPages plan)
  then Some (Planner.PlanChunks (mkProbe actual (Format pr) [] (SizeBytes pr)) effMaxPages (MaxMBPerChunk s))
  else None.

Definition dispatchPool (format : FormatName) (plan : ChunkPlan) (effMaxPages : Z) (pr : ProbeResult)
    (sourceSHA : string) (cacheActive : bool) : M (result error (list (Chunk * string)) * ChunkPlan) :=
  let forked := Pool.ForkAfterLoadEnabled s format in
  r ← io (new_pool cv forked format (pool_size format plan));
  match r with
  | Err e => mret (Err e, plan)
  | Ok pool =>
      update_progress rendering_update;;
      plan ← match replan pool pr effMaxPages plan with
             | Some plan' =>
                 update_progress (Progress.mkUpdate (Some (Z.of_nat (length (Chunks plan')))) None None None 0);;
                 mret plan'
             | None => mret plan
             end;
      r ← render_all (pool_chunk pool format sourceSHA cacheActive) (Chunks plan);
      io (pool_close pool);;
      mret (r, plan)
  end.

(** [sort.Slice] by chunk index. *)
Fixpoint insert_by_index (x : Chunk * string) (l : list (Chunk * string)) : list (Chunk * string) :=
  match l with
  | [] => [x]
  | y :: l' => if flt (Index x.1) (Index y.1) then x :: l else y :: insert_by_index x l'
  end.
Definition sort_by_index (l : list (Chunk * string)) : list (Chunk * string) := foldl (λ acc x, insert_by_index x acc) [] l.

Definition fileSHA256 (path : string) : IO (result string string) :=
  c ← os_open path;
  mret (match c with Some c => Ok (sha256_hex cv c) | None => Err (open_error cv path) end).

(** [streamFile]: the file in blocks onto the writer; an error leaves what was
    written. *)
Definition streamFile (path : string) : IO (option error) :=
  c ← os_open path;
  match c with
  | None => mret (Some (EOther (open_error cv path)))
  | Some c =>
      unread ← copy_out (tee_write (dst cv) "") (copy_blocks cv c);
      mret (match unread with None => None | Some _ => Some (EOther "write failed") end)
  end.

Definition effective_max_pages (pr : ProbeResult) : Z :=
  let n := minInt (Planner.AdaptiveMaxPages pr (WorkerRAMBytes s) (Parallel s) (Planner.mkAdaptive 0 0)) (MaxPagesPerChunk s) in
  if String.eqb (Format pr) FormatXLSX then maxInt n (XLSXMinPagesPerChunk s)
  else if String.eqb (Format pr) FormatPPTX then maxInt n (PPTXMinPagesPerChunk s)
  else n.

(** The file the merged bytes are teed to; an error of the cache is ignored. *)
Definition open_cache_temp (sourceSHA : string) (cacheActive : bool) : M string :=
  if cacheActive then
    env ← next_tick;
    t ← io (Cache.FinalTempPath env (cache cv) sourceSHA);
    mret (default "" t)
  else mret "".

Definition abandon_merge (cacheTemp : string) (e : Error) : M (result error ConversionResult) :=
  (if String.eqb cacheTemp "" then mret false else io (os_remove cacheTemp));;
  mret (Err (EConv e)).

Definition finish_conversion (sourceSHA cacheTemp : string) (started : nat) : M (result error ConversionResult) :=
  update_progress (Progress.mkUpdate None (Some "complete") None (Some f1) 0);;
  (if String.eqb cacheTemp "" then mret false else io (Cache.FinalizeFinal (cache cv) sourceSHA cacheTemp));;
  '(r, sub, ch) ← snapshot;
  ended ← read_clock;
  mret (Ok (mkResult r sub ch (dur_seconds (time_sub ended (now cv started))))).

(** Everything from the merge on. *)
Definition merge_and_finish (rendered : list (Chunk * string)) (sourceSHA : string) (cacheActive : bool)
    (started : nat) : M (result error ConversionResult) :=
  cacheTemp ← open_cache_temp sourceSHA cacheActive;
  update_progress (phase_update "merging");;
  r ← io_ended (ConcatStreaming (qpdf cv) (sort_by_index rendered).*2 (dst cv) cacheTemp);
  match r with
  | Some e => abandon_merge cacheTemp e
  | None => finish_conversion sourceSHA cacheTemp started
  end.

(** The pipeline after a cache miss. *)
Definition convert_document (sourceSHA : string) (cacheActive : bool) (started : nat)
    : M (result error ConversionResult) :=
  r ← io (Probe.Probe s (inputPath cv) (reqFormat cv));
  match r with
  | Err e => mret (Err (EConv e))
  | Ok pr =>
      let format := Format pr in
      let effMaxPages := effective_max_pages pr in
      let plan := Planner.PlanChunks pr effMaxPages (MaxMBPerChunk s) in
      update_progress (Progress.mkUpdate (Some (Z.of_nat (length (Chunks plan)))) (Some "loading") None None 0);;
      rendered ← (if Pool.PoolModeAvailable (environ cv) && (PoolMinChunks s <=? Z.of_nat (length (Chunks plan)))
        then '(r, _) ← dispatchPool format plan effMaxPages pr sourceSHA cacheActive; mret r
        else dispatchOneShot format plan sourceSHA cacheActive);
      match rendered with
      | Err e => mret (Err e)
      | Ok rendered => merge_and_finish rendered sourceSHA cacheActive started
      end
  end.

(** The final-cache hit. *)
Definition serve_cached (final : string) (started : nat) : M (result error ConversionResult) :=
  update_progress (Progress.mkUpdate (Some 1) (Some "complete") (Some f1) (Some f1) 0);;
  r ← io (streamFile final);
  ended ← read_clock;
  mret (match r with
        | Some e => Err e
        | None => Ok (mkResult 0 0 1 (dur_seconds (time_sub ended (now cv started))))
        end).

Definition convert_hashed (sourceSHA : string) (cacheActive : bool) (started : nat)
    : M (result error ConversionResult) :=
  final ← (if cacheActive then io (Cache.GetFinal (cache cv) sourceSHA) else mret "");
  if negb (String.eqb final "") then serve_cached final started
  else convert_document sourceSHA cacheActive started.

Definition ConvertJob : M (result error ConversionResult) := λ st,
  let started := tick st in
  let cacheActive := Types.Cache (options cv) && Cache.Enabled (cache cv) in
  (hash ← (if cacheActive then io (fileSHA256 (inputPath cv)) else mret (Ok ""));
   match hash with
   | Err e => mret (Err (EConv (NewInputUnprocessable ("hash failed: " +:+ e))))
   | Ok sourceSHA => convert_hashed sourceSHA cacheActive started
   end) (mkSt (world st) (mkCounters 0 0 0) (progress st) (S (tick st))).
End conversion.

(** ** What leaves the response alone *)

Section quiet_steps.
Context `{FloatFormat} `{GoArch} `{Worker.Workers} (cv : Conversion).

Lemma quiet_copy_blocks dst bs : quiet (Cache.copy_blocks dst bs).
Proof. induction bs as [|b bs IH]; simpl; quiet. Qed.

Lemma quiet_atomic_write env target source : quiet (Cache.AtomicWrite env target source).
Proof.
  unfold Cache.AtomicWrite, Cache.copyFile. pose proof quiet_copy_blocks. quiet.
Qed.

Lemma quiet_put_chunk env m sha p : quiet (Cache.PutChunk env m sha p).
Proof. unfold Cache.PutChunk. pose proof quiet_atomic_write. quiet. Qed.

Lemma quiet_copy_out write bs : (∀ b, quiet (write b)) → quiet (copy_out write bs).
Proof. intros Hw. induction bs as [|b bs IH]; simpl; quiet. Qed.

Lemma quiet_tee_file p tee b : quiet (tee_write (file_sink p) tee b).
Proof. unfold tee_write. simpl. quiet. Qed.

Lemma quiet_concat_to_file q paths out : quiet (ConcatToFile q paths out).
Proof.
  unfold ConcatToFile, ConcatStreaming, finish_concat, open_tee, discard_tee. pose proof quiet_copy_out.
  pose proof quiet_tee_file. quiet.
Qed.

(** A pipeline step that leaves the response alone. *)
Definition mquiet {A} (m : M A) : Prop := ∀ st,
  sent (world (m st).2) = sent (world st) ∧ answered (world (m st).2) = answered (world st).

Lemma mquiet_bind {A B} (m : M A) (f : A → M B) : mquiet m → (∀ a, mquiet (f a)) → mquiet (m ≫= f).
Proof.
  intros Hm Hf st. unfold mbind, m_bind. specialize (Hm st). destruct (m st) as [[a|] st1]; [|done].
  destruct Hm as [Hs Ha]. destruct (Hf a st1) as [Hs' Ha']. by rewrite Hs', Ha'.
Qed.

Lemma mquiet_ret {A} (a : A) : mquiet (mret a).
Proof. done. Qed.

Lemma mquiet_io {A} (m : IO A) : quiet m → mquiet (io m).
Proof. intros Hm st. unfold io. specialize (Hm (world st)). by destruct (m (world st)). Qed.

Lemma mquiet_io_dep {A B} (m : IO A) (f : A → M B) :
  quiet m → (∀ w a w', m w = (a, w') → mquiet (f a)) → mquiet (io m ≫= f).
Proof.
  intros Hm Hf st. unfold mbind, m_bind, io. specialize (Hm (world st)). destruct (m (world st)) as [a w'] eqn:Hrun.
  destruct Hm as [Hs Ha]. destruct (Hf _ _ _ Hrun (mkSt w' (cnt st) (progress st) (tick st))) as [Hs' Ha'].
  by rewrite Hs', Ha'.
Qed.

Lemma mquiet_io_ended {A} (m : IO (ended A)) : quiet m → mquiet (io_ended m).
Proof. intros Hm st. unfold io_ended. specialize (Hm (world st)). by destruct (m (world st)). Qed.

Lemma mquiet_render_all render chunks : (∀ c, mquiet (render c)) → mquiet (render_all render chunks).
Proof.
  intros Hr. induction chunks as [|c cs IH]; simpl; [done|]. apply mquiet_bind; [done|]. intros [p|e]; [|done].
  apply mquiet_bind; [done|]. by intros [].
Qed.
End quiet_steps.

#[export] Hint Resolve quiet_copy_blocks quiet_atomic_write quiet_put_chunk quiet_concat_to_file : quiet.
#[export] Hint Resolve mquiet_ret mquiet_io mquiet_io_ended : quiet.

Ltac mquiet :=
  repeat match goal with
  | |- mquiet (_ ≫= _) => apply mquiet_bind; [|intros ?]
  | |- mquiet (match ?x with _ => _ end) => destruct x
  end; eauto with quiet.

(** Nothing outside writes on the response. *)
Record outside_quiet `{Worker.Workers} (cv : Conversion) : Prop := {
  oq_exec : ∀ argv limit, quiet (Worker.exec argv limit);
  oq_new_pool : ∀ forked format n, quiet (new_pool cv forked format n);
  oq_pool : ∀ forked format n w pool w', new_pool cv forked format n w = (Ok pool, w') →
    (∀ c dir, quiet (pool_render pool c dir)) ∧ quiet (pool_close pool)
}.

(** The writer writes on the response, and on no file of the cache. *)
Record to_client (cv : Conversion) : Prop := {
  tc_sent : ∀ w, sink_content (dst cv) w = sent w;
  tc_final : ∀ sha, ¬ sink_owns (dst cv) (Cache.finalPath (cache cv) sha);
  tc_temp : ∀ env sha, ¬ sink_owns (dst cv) (Cache.tempName env (Cache.finalPath (cache cv) sha))
}.

Lemma response_to_client cv : dst cv = response → to_client cv.
Proof. intros Hd. split; rewrite Hd; [done|by intros ? []|by intros ?? []]. Qed.

Section pipeline.
Context `{FloatFormat} `{GoArch} `{Worker.Workers} `{UnicodeTables} `{Probe.Readers} (cv : Conversion).

Section quiet_pipeline.
Context (Hquiet : outside_quiet cv).

Lemma mquiet_put_chunk key path : mquiet (put_chunk cv key path).
Proof. unfold put_chunk. apply mquiet_bind; [done|]. intros env. eauto with quiet. Qed.

Lemma mquiet_cached_chunk active key : mquiet (cached_chunk cv active key).
Proof. unfold cached_chunk, Cache.GetChunk, Cache.get. destruct active; [|done]. apply mquiet_io. quiet. Qed.

Lemma mquiet_chunk_rendered store path : mquiet (chunk_rendered cv store path).
Proof.
  unfold chunk_rendered. pose proof mquiet_put_chunk. mquiet; done.
Qed.

Lemma quiet_render_one_shot st chunk input format dir : quiet (Worker.RenderChunkOneShot st chunk input format dir).
Proof.
  unfold Worker.RenderChunkOneShot, Worker.RunWorker, Worker.runWorkerBin. pose proof (oq_exec _ Hquiet). quiet.
Qed.

Lemma quiet_probe : quiet (Probe.Probe (settings cv) (inputPath cv) (reqFormat cv)).
Proof.
  pose proof (oq_exec _ Hquiet). unfold Probe.Probe, Probe.ProbeLite, Probe.lite_docx, Probe.lite_pptx, Probe.ooxmlCount,
    Probe.pptxSlideCountFromZip, Probe.qpdfPageCount, Probe.os_size, Probe.zip_open, Probe.probe_retry, Probe.run_probe,
    Worker.RunWorker, Worker.runWorkerBin. quiet.
Qed.

Lemma mquiet_retry fuel format sha active depth chunk :
  mquiet (renderWithRetry cv fuel format sha active depth chunk).
Proof.
  revert depth chunk. induction fuel as [|fuel IH]; intros depth chunk; [done|]. cbn [renderWithRetry].
  apply mquiet_bind; [apply mquiet_cached_chunk|]. intros cached. destruct (negb _); [by apply mquiet_bind|].
  apply mquiet_bind; [apply mquiet_io, quiet_render_one_shot|]. intros [path|e]; [apply mquiet_chunk_rendered|].
  destruct (OOM e); [|done]. apply mquiet_bind; [done|]. intros _.
  destruct (Planner.Subdivide chunk) as [|c cs]; [done|]. apply mquiet_bind; [by apply mquiet_render_all|].
  intros [ps|e']; [|done]. apply mquiet_bind; [eauto with quiet|]. done.
Qed.

Lemma mquiet_one_shot format plan sha active : mquiet (dispatchOneShot cv format plan sha active).
Proof. apply mquiet_bind; [done|]. intros _. apply mquiet_render_all. intros c. apply mquiet_retry. Qed.

Lemma mquiet_pool_chunk pool format sha active c :
  (∀ c dir, quiet (pool_render pool c dir)) → mquiet (pool_chunk cv pool format sha active c).
Proof.
  intros Hp. unfold pool_chunk. apply mquiet_bind; [apply mquiet_cached_chunk|]. intros cached.
  destruct (negb _); [by repeat (apply mquiet_bind; [done|intros _])|].
  apply mquiet_bind; [by apply mquiet_io|]. intros [path|e]; [|done].
  apply mquiet_bind; [done|]. intros _. apply mquiet_bind.
  - destruct active; [|done]. apply mquiet_bind; [apply mquiet_put_chunk|done].
  - intros _. by apply mquiet_bind.
Qed.

Lemma mquiet_pool format plan n pr sha active : mquiet (dispatchPool cv format plan n pr sha active).
Proof.
  unfold dispatchPool. apply mquiet_io_dep; [apply Hquiet|]. intros w [pool|e] w1 Hnew; [|done].
  destruct (oq_pool _ Hquiet _ _ _ _ _ _ Hnew) as [Hr Hc].
  apply mquiet_bind; [done|]. intros _. apply mquiet_bind; [by destruct (replan cv pool pr n plan)|]. intros plan'.
  apply mquiet_bind; [apply mquiet_render_all; intros c; by apply mquiet_pool_chunk|]. intros r.
  apply mquiet_bind; [by apply mquiet_io|]. done.
Qed.
End quiet_pipeline.

(** ** The merge *)

Lemma os_open_spec p w :
  let '(c, w') := os_open p w in
  files w' = files w ∧ sent w' = sent w ∧ (c = None ∨ c = files w !! p).
Proof.
  unfold os_open, mbind, io_bind, mret, io_ret, get_files, faulty.
  destruct (faults w) as [|[] f]; simpl; auto.
Qed.

Lemma os_rename_spec old new w :
  let '(ok, w') := os_rename old new w in
  sent w' = sent w ∧
  (files w' = files w ∨ ∃ c, files w !! old = Some c ∧ files w' = <[new := c]> (delete old (files w))).
Proof.
  unfold os_rename, mbind, io_bind, mret, io_ret, get_files, set_files, faulty.
  destruct (faults w) as [|[] f]; simpl; destruct (files w !! old) eqn:Ho; simpl; eauto.
Qed.

Lemma os_mkdir_spec p w :
  let '(ok, w') := os_mkdir_all p w in files w' = files w ∧ sent w' = sent w.
Proof. unfold os_mkdir_all, faulty. by destruct (faults w) as [|[] f]. Qed.

Context (Hdst : to_client cv).

(** Where [ConvertJob] tees the merged bytes to: nowhere, or a temporary name of
    the final entry. *)
Definition tee_of (sha tee : string) : Prop :=
  tee = "" ∨ (Cache.Enabled (cache cv) = true ∧ tee ≠ Cache.finalPath (cache cv) sha ∧ ¬ sink_owns (dst cv) tee).

Lemma final_temp_spec env sha w :
  let '(t, w') := Cache.FinalTempPath env (cache cv) sha w in
  files w' = files w ∧ sent w' = sent w ∧ tee_of sha (default "" t).
Proof.
  unfold Cache.FinalTempPath. destruct (Cache.Enabled (cache cv)) eqn:He; [|by split_and!; [..|left]].
  unfold mbind, io_bind, mret, io_ret.
  pose proof (os_mkdir_spec (Cache.dirname (Cache.finalPath (cache cv) sha)) w) as Hm.
  destruct (os_mkdir_all _ w) as [[] w']; destruct Hm as [Hf Hs]; simpl; split_and!; try done; [|by left].
  right. split_and!; [done|apply Cache.temp_name_ne|by apply tc_temp].
Qed.

Lemma finalize_spec sha tee w body :
  tee_of sha tee → tee ≠ "" → files w !! tee = Some body →
  let '(_, w') := Cache.FinalizeFinal (cache cv) sha tee w in
  sent w' = sent w ∧
  (files w' !! Cache.finalPath (cache cv) sha = Some body ∨
   files w' !! Cache.finalPath (cache cv) sha = files w !! Cache.finalPath (cache cv) sha).
Proof.
  intros [->|(He & Hne & _)] Ht Hbody; [done|]. unfold Cache.FinalizeFinal. rewrite He.
  unfold mbind, io_bind. pose proof (os_open_spec tee w) as Ho. destruct (os_open tee w) as [c w1].
  destruct Ho as (Hf1 & Hs1 & _). pose proof (os_rename_spec tee (Cache.finalPath (cache cv) sha) w1) as Hr.
  destruct (os_rename tee _ w1) as [ok w2]. destruct Hr as (Hs2 & Hf2). split; [by rewrite Hs2|].
  destruct Hf2 as [->|(c' & Hc' & ->)]; [right; by rewrite Hf1|left].
  rewrite lookup_insert_eq. by rewrite Hf1, Hbody in Hc'.
Qed.

Lemma open_cache_temp_spec sha active st :
  ∃ tee st', open_cache_temp cv sha active st = (Returned tee, st') ∧ tee_of sha tee ∧
    files (world st') = files (world st) ∧ sent (world st') = sent (world st) ∧ cnt st' = cnt st.
Proof.
  unfold open_cache_temp. destruct active; [|eexists "", st; by split_and!; [|left|..]].
  unfold mbind, m_bind, next_tick, io, mret, m_ret. cbn [world].
  pose proof (final_temp_spec (cache_env cv st) sha (world st)) as Hf.
  destruct (Cache.FinalTempPath _ _ _ _) as [t w']. destruct Hf as (Hfs & Hs & Ht).
  by eexists _, _; split_and!.
Qed.

Lemma abandon_merge_spec tee e st :
  ∃ st', abandon_merge tee e st = (Returned (Err (EConv e)), st') ∧ sent (world st') = sent (world st) ∧
    (∀ p, p ≠ tee ∨ tee = "" → files (world st') !! p = files (world st) !! p).
Proof.
  unfold abandon_merge. destruct (String.eqb_spec tee "") as [->|Hne]; [by exists st|].
  unfold mbind, m_bind, io, mret, m_ret. pose proof (os_remove_spec tee (world st)) as Hr.
  destruct (os_remove tee (world st)) as [ok w']. destruct Hr as (Hf & Hs & _). eexists. split_and!; [done|done|].
  intros p [Hp|?]; [|done]. simpl. rewrite Hf. by destruct ok; rewrite ?lookup_delete_ne by done.
Qed.

Lemma finish_conversion_spec sha tee started st body :
  tee_of sha tee → (tee ≠ "" → files (world st) !! tee = Some body) →
  ∃ res st', finish_conversion cv sha tee started st = (Returned (Ok res), st') ∧
    (ChunksRendered res, SubdivisionRetries res, CacheHits res) = (rendered (cnt st), subs (cnt st), cacheHit (cnt st)) ∧
    sent (world st') = sent (world st) ∧
    (files (world st') !! Cache.finalPath (cache cv) sha = Some body ∨
     files (world st') !! Cache.finalPath (cache cv) sha = files (world st) !! Cache.finalPath (cache cv) sha).
Proof.
  intros Htee Hbody. unfold finish_conversion, mbind, m_bind, update_progress. cbn [world].
  destruct (String.eqb_spec tee "") as [->|Hne].
  - cbn. eexists _, _. split_and!; [done|done|done|by right].
  - unfold io. cbn [world]. pose proof (finalize_spec sha tee (world st) body Htee Hne (Hbody Hne)) as Hf.
    destruct (Cache.FinalizeFinal _ _ _ _) as [ok w']. destruct Hf as [Hs Hf].
    cbn. eexists _, _. by split_and!.
Qed.

(** The merge sends exactly what [qpdf] prints, and the final entry of the cache
    is either left alone or holds exactly that. *)
Lemma merge_and_finish_spec rds sha active started st :
  qpdf_ok (qpdf cv) →
  let paths := (sort_by_index rds).*2 in
  let '(r, st') := merge_and_finish cv rds sha active started st in
  ∃ body, sent (world st') = sent (world st) +:+ body ∧
  let final := Cache.finalPath (cache cv) sha in
  match r with
  | Returned (Ok res) =>
      paths ≠ [] ∧ (∃ err, qpdf_run (qpdf cv) (concat_argv paths) (files (world st)) = (body, err, 0)) ∧
      (ChunksRendered res, SubdivisionRetries res, CacheHits res) = (rendered (cnt st), subs (cnt st), cacheHit (cnt st)) ∧
      (files (world st') !! final = Some body ∨ files (world st') !! final = files (world st) !! final)
  | Returned (Err e) => (∃ ce, e = EConv ce ∧ EFailureClass ce = MergeFailed) ∧
      files (world st') !! final = files (world st) !! final
  | Stuck => files (world st') !! final = files (world st) !! final
  end.
Proof.
  intros Hq paths. unfold merge_and_finish, mbind, m_bind at 1.
  destruct (open_cache_temp_spec sha active st) as (tee & st1 & -> & Htee & Hf1 & Hs1 & Hc1).
  unfold m_bind at 1, update_progress. unfold m_bind, io_ended. cbn [world].
  fold paths. rewrite <- Hf1, <- Hs1.
  pose proof (concat_streaming_spec (qpdf cv) paths (dst cv) tee (world st1) Hq) as Hm.
  destruct (qpdf_run (qpdf cv) (concat_argv paths) (files (world st1))) as [[out err] rc].
  destruct (ConcatStreaming (qpdf cv) paths (dst cv) tee (world st1)) as [r w2].
  destruct Hm as ((Hf & d & Hd & Hs & Hr) & Hne & _); [by destruct Htee as [->|(_ & _ & Ht)]|].
  rewrite !(tc_sent _ Hdst) in Hs.
  assert (Cache.finalPath (cache cv) sha ≠ tee ∨ tee = "") as Hft.
  { destruct Htee as [->|(_ & Ht & _)]; [by right|left; by apply not_eq_sym]. }
  assert (files w2 !! Cache.finalPath (cache cv) sha = files (world st1) !! Cache.finalPath (cache cv) sha) as Hfinal.
  { apply Hf; [by apply tc_final|done]. }
  destruct r as [[e|]|].
  - match goal with |- context [abandon_merge tee e ?x] =>
      destruct (abandon_merge_spec tee e x) as (st' & -> & Hs' & Hf') end.
    exists d. split; [by rewrite Hs'|]. split; [by exists e; split; [|apply Hr]|].
    by rewrite Hf'.
  - destruct Hr as (-> & -> & Ht).
    match goal with |- context [finish_conversion cv sha tee started ?x] =>
      destruct (finish_conversion_spec sha tee started x out Htee Ht) as (res & st' & -> & Hres & Hs' & Hf') end.
    exists out. split; [by rewrite Hs'|]. split_and!; [by apply Hne|by exists err|by rewrite Hres, Hc1|].
    cbn [world] in Hf'. by rewrite Hfinal in Hf'.
  - exists d. by split.
Qed.

(** ** The whole job *)

Lemma stream_file_spec p w :
  (∀ c, foldr String.append "" (copy_blocks cv c) = c) →
  let '(r, w') := streamFile cv p w in
  ∃ body, sent w' = sent w +:+ body ∧
  match r with
  | None => files w !! p = Some body
  | Some e => ∃ msg, e = EOther msg
  end.
Proof.
  intros Hb. unfold streamFile, mbind, io_bind, mret, io_ret.
  pose proof (os_open_spec p w) as Ho. destruct (os_open p w) as [[c|] w1]; destruct Ho as (Hf & Hs & Hc).
  2:{ exists "". rewrite string_app_empty_r. by split; [|eexists]. }
  destruct Hc as [|Hc]; [done|].
  pose proof (copy_out_spec (dst cv) "" (copy_blocks cv c) w1 (λ F, False_ind _ (F eq_refl)) (λ F, False_ind _ (F eq_refl))) as Hco.
  destruct (copy_out (tee_write (dst cv) "") (copy_blocks cv c) w1) as [unread w2].
  destruct Hco as ((d & _ & [Hd _] & _ & Hall) & _). rewrite !(tc_sent _ Hdst) in Hd. exists d. rewrite Hd, Hs. split; [done|].
  destruct unread; [by eexists|]. destruct (Hall eq_refl) as [-> _]. by rewrite Hb.
Qed.

(** What a run of the pipeline after a cache miss sends. *)
Lemma convert_document_spec sha active started st :
  outside_quiet cv → qpdf_ok (qpdf cv) →
  let '(r, st') := convert_document cv sha active started st in
  ∃ body, sent (world st') = sent (world st) +:+ body ∧
  match r with
  | Returned (Ok res) => ∃ paths fs err,
      paths ≠ [] ∧ qpdf_run (qpdf cv) (concat_argv paths) fs = (body, err, 0)
  | Returned (Err e) => body = "" ∨ ∃ ce, e = EConv ce ∧ EFailureClass ce = MergeFailed
  | Stuck => True
  end.
Proof.
  intros Ho Hq. unfold convert_document, mbind at 1, m_bind at 1.
  pose proof (mquiet_io _ (quiet_probe Ho) st) as Hp. destruct (io (Probe.Probe _ _ _) st) as [[[pr|e]|] st1];
    cbn [snd] in Hp; destruct Hp as [Hp _]; [|by exists ""; rewrite string_app_empty_r; split; [|left]|by exists ""; rewrite string_app_empty_r].
  rewrite <- Hp. unfold mbind at 1, m_bind at 1, update_progress at 1.
  match goal with |- context [(?m ≫= ?k) ?x] => set (st2 := x); change (sent (world st1)) with (sent (world st2));
    assert (mquiet m) as Hm; [|unfold mbind at 1, m_bind at 1; specialize (Hm st2); destruct (m st2) as [[[rds|e]|] st3]] end.
  - destruct (_ && _); [|by apply mquiet_one_shot]. apply mquiet_bind; [by apply mquiet_pool|]. by intros [r p].
  - cbn [snd] in Hm. destruct Hm as [<- _].
    pose proof (merge_and_finish_spec rds sha active started st3 Hq) as Hmf. cbv zeta in Hmf.
    destruct (merge_and_finish cv rds sha active started st3) as [r st4].
    destruct Hmf as (body & Hs & Hr). exists body. split; [done|].
    destruct r as [[res|e]|]; [|by right; apply Hr|done].
    destruct Hr as (Hne & (err & Hrun) & _). by eexists _, _, err.
  - cbn [snd] in Hm. exists "". rewrite string_app_empty_r. by split; [apply Hm|left].
  - cbn [snd] in Hm. exists "". rewrite string_app_empty_r. by split; [apply Hm|].
Qed.

(** [job_post fs sent0 r st']: what [ConvertJob] leaves, from files [fs] and
    [sent0] on the response. *)
Definition job_post (fs : gmap string string) (sent0 : string) (r : ended (result error ConversionResult)) (st' : St)
    : Prop :=
  ∃ body, sent (world st') = sent0 +:+ body ∧
  match r with
  | Returned (Ok res) =>
      (∃ sha, (ChunksRendered res, SubdivisionRetries res, CacheHits res) = (0, 0, 1) ∧
         Types.Cache (options cv) = true ∧ fs !! Cache.finalPath (cache cv) sha = Some body) ∨
      (∃ paths fs err, paths ≠ [] ∧ qpdf_run (qpdf cv) (concat_argv paths) fs = (body, err, 0))
  | Returned (Err e) => body = "" ∨ (∃ ce, e = EConv ce ∧ EFailureClass ce = MergeFailed) ∨ ∃ msg, e = EOther msg
  | Stuck => True
  end.

Lemma serve_cached_spec sha started st :
  (∀ c, foldr String.append "" (copy_blocks cv c) = c) → Types.Cache (options cv) = true →
  let '(r, st') := serve_cached cv (Cache.finalPath (cache cv) sha) started st in
  job_post (files (world st)) (sent (world st)) r st'.
Proof.
  intros Hb Hopt. unfold serve_cached, mbind, m_bind, update_progress, io. cbn [world].
  pose proof (stream_file_spec (Cache.finalPath (cache cv) sha) (world st) Hb) as Hs.
  destruct (streamFile cv _ (world st)) as [r w']. destruct Hs as (body & Hs & Hr).
  cbn. exists body. split; [done|]. destruct r as [e|]; [by right; right|]. left. exists sha. by split_and!.
Qed.

Lemma convert_hashed_spec sha active started st :
  outside_quiet cv → qpdf_ok (qpdf cv) → (∀ c, foldr String.append "" (copy_blocks cv c) = c) →
  (active = true → Types.Cache (options cv) = true) →
  let '(r, st') := convert_hashed cv sha active started st in
  job_post (files (world st)) (sent (world st)) r st'.
Proof.
  intros Ho Hq Hb Hopt.
  assert (let '(r, st') := convert_document cv sha active started st in
    job_post (files (world st)) (sent (world st)) r st') as Hmiss.
  { pose proof (convert_document_spec sha active started st Ho Hq) as Hd.
    destruct (convert_document cv sha active started st) as [r st']. destruct Hd as (body & Hs & Hr).
    exists body. split; [done|]. destruct r as [[res|e]|]; [by right| |done].
    destruct Hr as [?|?]; [by left|by right; left]. }
  unfold convert_hashed, mbind at 1, m_bind at 1. destruct active; [|done].
  unfold io, Cache.GetFinal, Cache.get. destruct (Cache.Enabled (cache cv)).
  2:{ cbn. by destruct st. }
  unfold mbind, io_bind, os_exists, mret, io_ret, get_files, mbind. cbn.
  destruct (bool_decide (is_Some (files (world st) !! Cache.finalPath (cache cv) sha))); cbn.
  - destruct (String.eqb_spec (Cache.finalPath (cache cv) sha) "") as [He|Hne]; cbn; [by destruct st|].
    pose proof (serve_cached_spec sha started (mkSt (world st) (cnt st) (progress st) (tick st)) Hb (Hopt eq_refl)) as Hs.
    exact Hs.
  - by destruct st.
Qed.

End pipeline.

(** ** What the whole job keeps *)

Definition mkeeps (P : World → Prop) {A} (m : M A) : Prop := ∀ st, P (world st) → P (world (m st).2).

Section kept.
Context `{FloatFormat} `{GoArch} `{Worker.Workers} `{UnicodeTables} `{Probe.Readers} (cv : Conversion).
Context (P : World → Prop) (HP : response_only P) (Hquiet : outside_quiet cv).
Context (Hwrite : ∀ b, keeps P (sink_write (dst cv) b)).

Lemma mkeeps_bind {A B} (m : M A) (f : A → M B) : mkeeps P m → (∀ a, mkeeps P (f a)) → mkeeps P (m ≫= f).
Proof.
  intros Hm Hf st Hst. unfold mbind, m_bind. specialize (Hm st Hst). destruct (m st) as [[a|] st1]; [|done]. by apply Hf.
Qed.
Lemma mkeeps_quiet {A} (m : M A) : mquiet m → mkeeps P m.
Proof. intros Hm st Hst. destruct (Hm st) as [Hs Ha]. by eapply HP. Qed.
Lemma mkeeps_io {A} (m : IO A) : keeps P m → mkeeps P (io m).
Proof. intros Hm st Hst. unfold io. specialize (Hm (world st) Hst). by destruct (m (world st)). Qed.
Lemma mkeeps_io_ended {A} (m : IO (ended A)) : keeps P m → mkeeps P (io_ended m).
Proof. intros Hm st Hst. unfold io_ended. specialize (Hm (world st) Hst). by destruct (m (world st)). Qed.

Lemma keeps_copy_out tee bs : keeps P (copy_out (tee_write (dst cv) tee) bs).
Proof.
  induction bs as [|b bs IH]; [by intros w|]. cbn [copy_out]. apply keeps_bind.
  - unfold tee_write. apply keeps_bind; [apply Hwrite|]. intros ok. destruct (_ || _); [by intros w|].
    apply keeps_quiet; [done|apply quiet_os_append].
  - intros []; [done|by intros w].
Qed.

Lemma keeps_concat paths tee : keeps P (ConcatStreaming (qpdf cv) paths (dst cv) tee).
Proof.
  unfold ConcatStreaming. destruct paths as [|p ps]; [by intros w|]. cbv zeta.
  destruct (stdout_pipe_error (qpdf cv)); [by intros w|]. destruct (stderr_pipe_error (qpdf cv)); [by intros w|].
  destruct (start_error (qpdf cv) _); [by intros w|]. apply keeps_bind; [by intros w|]. intros fs. apply keeps_bind.
  { apply keeps_quiet; [done|]. unfold open_tee. quiet. }
  intros []; [|by intros w]. unfold finish_concat. destruct (qpdf_run _ _ _) as [[out err] rc].
  apply keeps_bind; [apply keeps_copy_out|]. intros unread. apply keeps_quiet; [done|]. unfold discard_tee. quiet.
Qed.

Lemma mkeeps_merge rds sha active started : mkeeps P (merge_and_finish cv rds sha active started).
Proof.
  unfold merge_and_finish. apply mkeeps_bind.
  { apply mkeeps_quiet. unfold open_cache_temp, Cache.FinalTempPath. destruct active; [|done].
    apply mquiet_bind; [done|]. intros env. apply mquiet_bind; [|done]. apply mquiet_io. quiet. }
  intros tee. apply mkeeps_bind; [by apply mkeeps_quiet|]. intros _.
  apply mkeeps_bind; [apply mkeeps_io_ended, keeps_concat|]. intros [e|]; apply mkeeps_quiet.
  - unfold abandon_merge. apply mquiet_bind; [|done]. destruct (String.eqb tee ""); [done|]. apply mquiet_io. quiet.
  - unfold finish_conversion, Cache.FinalizeFinal. apply mquiet_bind; [done|]. intros _. apply mquiet_bind.
    + destruct (String.eqb tee ""); [done|]. apply mquiet_io. quiet.
    + intros _. apply mquiet_bind; [done|]. intros [[a b] c]. by apply mquiet_bind.
Qed.

Lemma mkeeps_document sha active started : mkeeps P (convert_document cv sha active started).
Proof.
  unfold convert_document. apply mkeeps_bind; [by apply mkeeps_quiet, mquiet_io, quiet_probe|]. intros [pr|e]; [|by intros st].
  cbv zeta. apply mkeeps_bind; [by apply mkeeps_quiet|]. intros _. apply mkeeps_bind.
  - apply mkeeps_quiet. destruct (_ && _); [|by apply mquiet_one_shot]. apply mquiet_bind; [by apply mquiet_pool|]. by intros [r p].
  - intros [rds|e]; [apply mkeeps_merge|by intros st].
Qed.

Lemma convert_job_keeps : mkeeps P (ConvertJob cv).
Proof.
  unfold ConvertJob. intros st Hst.
  match goal with |- P (world (?m ?st0).2) => assert (mkeeps P m) as Hm; [|by apply (Hm st0)] end.
  apply mkeeps_bind.
  { apply mkeeps_quiet. destruct (_ && _); [|done]. apply mquiet_io. unfold fileSHA256. quiet. }
  intros [sha|e]; [|by intros st']. unfold convert_hashed. apply mkeeps_bind.
  { apply mkeeps_quiet. destruct (_ && _); [|done]. apply mquiet_io. unfold Cache.GetFinal, Cache.get. quiet. }
  intros final. destruct (negb _); [|apply mkeeps_document]. unfold serve_cached.
  apply mkeeps_bind; [by apply mkeeps_quiet|]. intros _. apply mkeeps_bind.
  - apply mkeeps_io. unfold streamFile. apply keeps_bind; [apply keeps_quiet; [done|quiet]|]. intros [c|]; [|by intros w].
    apply keeps_bind; [apply keeps_copy_out|]. by intros u w.
  - intros e. apply mkeeps_bind; [by apply mkeeps_quiet|]. by intros t st'.
Qed.
End kept.

(** ** Subdivision *)

Section subdivision.
Context `{FloatFormat} `{GoArch} `{Worker.Workers} (cv : Conversion).

Lemma render_all_ext render render' chunks st :
  Forall (λ c, ∀ st, render c st = render' c st) chunks → render_all render chunks st = render_all render' chunks st.
Proof.
  intros Hall. revert st. induction Hall as [|c cs Hc _ IH]; intros st; [done|].
  simpl. unfold mbind, m_bind. rewrite Hc. destruct (render' c st) as [[[p|e]|] st1]; [|done|done].
  by rewrite IH.
Qed.

(** A chunk of at most [2^k] pages. *)
Definition spans (k : nat) (c : Chunk) : Prop :=
  1 <= PageStart c <= PageEnd c ∧ PageEnd c < 2 ^ 62 ∧ PageEnd c - PageStart c + 1 <= 2 ^ Z.of_nat k.

Lemma spans_parts k c : spans (S k) c → Forall (spans k) (Planner.Subdivide c).
Proof.
  intros (Hs & He & Hk). rewrite Nat2Z.inj_succ, Z.pow_succ_r in Hk by lia.
  destruct (Planner.subdivide_cases c Hs He) as [[_ ->]|(Hlt & mid & -> & Hm)]; [done|].
  repeat constructor; simpl; lia.
Qed.

Lemma spans_0 c : spans 0 c → Planner.Subdivide c = [].
Proof.
  intros (Hs & He & Hk). simpl in Hk. destruct (Planner.subdivide_cases c Hs He) as [[_ ->]|(Hlt & _)]; [done|lia].
Qed.

Lemma retry_fuel k : ∀ f g format sha active depth c st,
  spans k c → (k < f)%nat → (k < g)%nat →
  renderWithRetry cv f format sha active depth c st = renderWithRetry cv g format sha active depth c st.
Proof.
  induction k as [|k IH]; intros [|f] [|g] format sha active depth c st Hc Hf Hg; try lia; cbn [renderWithRetry];
    unfold mbind, m_bind; destruct (cached_chunk cv active _ st) as [[cached|] st1]; try done;
    destruct (negb _); try done;
    destruct (io _ st1) as [[[path|e]|] st2]; try done; destruct (OOM e); try done;
    destruct (addSubdivision st2) as [[[]|] st3]; try done.
  - by rewrite spans_0.
  - pose proof (spans_parts k c Hc) as Hparts. destruct (Planner.Subdivide c) as [|p ps]; [done|].
    erewrite render_all_ext; [done|]. eapply Forall_impl; [exact Hparts|]. intros d Hd st'. apply IH; [done|lia|lia].
Qed.

(** C25: the subdivision needs no more depth than the page count has binary
    digits: for a chunk of at most [2^k] pages any two recursion bounds above
    [k] give the same run, so the bound of 65 levels is never met. *)
Theorem subdivision_terminates k f format sha active depth c st :
  spans k c → (k < f)%nat → (k < 65)%nat →
  renderWithRetry cv f format sha active depth c st = renderWithRetry cv retry_depth format sha active depth c st.
Proof. intros Hc Hf Hk. apply (retry_fuel k); [done|done|unfold retry_depth; lia]. Qed.

(** What the pipeline relies on from the worker's command line: where the document
    [doc] lies at the input path, a render of pages [a..b] either writes exactly
    them to the output and exits with 0, or runs out of memory, depending on the
    pages only. *)
Definition worker_renders (doc : string) (text : Z → Z → string) (fits : Z → Z → bool) : Prop :=
  ∀ st format out a b argv limit w, 1 <= a <= b → b < 2 ^ 62 → files w !! inputPath cv = Some doc →
    Worker.worker_argv st "render" (inputPath cv) (Worker.workerBinary st format) format out (Some (a, b)) = Some argv →
    Worker.exec argv limit w =
      if fits a b then (Worker.Exited 0 "" "", (set_files (<[out := text a b]> (files w)) w).2)
      else (Worker.Exited 137 "" "", w).

(** ... and from [qpdf]: non-empty inputs are concatenated. *)
Definition qpdf_concatenates : Prop :=
  stdout_pipe_error (qpdf cv) = None ∧ stderr_pipe_error (qpdf cv) = None ∧
  (∀ argv, start_error (qpdf cv) argv = None ∧ wait_error (qpdf cv) argv = false) ∧
  ∀ paths contents (fs : gmap string string), Forall2 (λ p c, fs !! p = Some c ∧ c ≠ "") paths contents →
    qpdf_run (qpdf cv) (concat_argv paths) fs = (foldr String.append "" contents, "", 0).

(** Texts of adjacent ranges concatenate, and none is empty. *)
Definition page_texts (text : Z → Z → string) : Prop :=
  (∀ a m b, a <= m → m < b → text a b = text a m +:+ text (m + 1) b) ∧ (∀ a b, a <= b → text a b ≠ "").

Context (doc : string) (text : Z → Z → string) (fits : Z → Z → bool).

Lemma render_one_shot_spec format c st :
  worker_renders doc text fits → 1 <= PageStart c <= PageEnd c → PageEnd c < 2 ^ 62 →
  files (world st) !! inputPath cv = Some doc →
  io (Worker.RenderChunkOneShot (settings cv) c (inputPath cv) format (scratchDir cv)) st =
    let out := Worker.chunk_path (scratchDir cv) c in
    if fits (PageStart c) (PageEnd c)
    then (Returned (Ok out), mkSt (set_files (<[out := text (PageStart c) (PageEnd c)]> (files (world st))) (world st)).2
            (cnt st) (progress st) (tick st))
    else (Returned (Err (NewOOM c)), mkSt (world st) (cnt st) (progress st) (tick st)).
Proof.
  intros Hw Hs He Hdoc. unfold io, Worker.RenderChunkOneShot, Worker.RunWorker, Worker.runWorkerBin.
  destruct (Worker.worker_argv _ _ _ _ _ _ _) as [argv|] eqn:Hargv; [|done].
  unfold mbind, io_bind, mret, io_ret. rewrite (Hw _ _ _ _ _ _ _ _ Hs He Hdoc Hargv).
  destruct (fits _ _); done.
Qed.

(** A chunk that fits is rendered to its own file. *)
Lemma retry_fits fuel format sha depth c st :
  worker_renders doc text fits → 1 <= PageStart c <= PageEnd c → PageEnd c < 2 ^ 62 →
  files (world st) !! inputPath cv = Some doc →
  fits (PageStart c) (PageEnd c) = true → faults (world st) = [] →
  ∃ st', renderWithRetry cv (S fuel) format sha false depth c st =
      (Returned (Ok (Worker.chunk_path (scratchDir cv) c)), st') ∧
    files (world st') = <[Worker.chunk_path (scratchDir cv) c := text (PageStart c) (PageEnd c)]> (files (world st)) ∧
    sent (world st') = sent (world st) ∧ faults (world st') = [] ∧
    cnt st' = mkCounters (rendered (cnt st) +! 1)%go (subs (cnt st)) (cacheHit (cnt st)).
Proof.
  intros Hw Hs He Hdoc Hfit Hnil. pose proof (render_one_shot_spec format c st Hw Hs He Hdoc) as Hr. cbv zeta in Hr.
  rewrite Hfit in Hr. cbn [renderWithRetry]. unfold cached_chunk, mbind, m_bind, mret, m_ret. cbv iota beta.
  change (negb (String.eqb "" "")) with false. cbv iota beta. rewrite Hr. eexists. by split_and!.
Qed.

(** What follows an out-of-memory exit. *)
Lemma retry_splits fuel format sha depth c st l r :
  worker_renders doc text fits → 1 <= PageStart c <= PageEnd c → PageEnd c < 2 ^ 62 →
  files (world st) !! inputPath cv = Some doc →
  fits (PageStart c) (PageEnd c) = false → Planner.Subdivide c = [l; r] →
  renderWithRetry cv (S fuel) format sha false depth c st =
    (addSubdivision;;
     res ← render_all (renderWithRetry cv fuel format sha false (depth +! 1)%go) [l; r];
     match res with
     | Err e => mret (Err e)
     | Ok ps =>
         m ← io_ended (ConcatToFile (qpdf cv) ps.*2 (merged_path cv c));
         mret (match m with None => Ok (merged_path cv c) | Some e => Err (EConv e) end)
     end) st.
Proof.
  intros Hw Hs He Hdoc Hfit Hsub. pose proof (render_one_shot_spec format c st Hw Hs He Hdoc) as Hr. cbv zeta in Hr.
  rewrite Hfit in Hr. transitivity (match io (Worker.RenderChunkOneShot (settings cv) c (inputPath cv) format (scratchDir cv)) st with
    | (Returned (Err e), st1) =>
        (if OOM e then
          addSubdivision;;
          match Planner.Subdivide c with
          | [] => mret (Err (EConv (NewSubdivisionFloor c (depth +! 1)%go)))
          | parts =>
              res ← render_all (renderWithRetry cv fuel format sha false (depth +! 1)%go) parts;
              match res with
              | Err e => mret (Err e)
              | Ok ps =>
                  m ← io_ended (ConcatToFile (qpdf cv) ps.*2 (merged_path cv c));
                  mret (match m with None => Ok (merged_path cv c) | Some e => Err (EConv e) end)
              end
          end
         else mret (Err (EConv e))) st1
    | (Returned (Ok path), st1) => chunk_rendered cv None path st1
    | (Stuck, st1) => (Stuck, st1)
    end).
  - cbn [renderWithRetry]. unfold cached_chunk, mbind, m_bind, mret, m_ret. cbv iota beta.
    change (negb (String.eqb "" "")) with false. cbv iota beta.
    by destruct (io _ st) as [[[path|e]|] st1].
  - rewrite Hr, Hsub. by destruct st.
Qed.

(** A chunk that runs out of memory and whose halves fit and get files of their
    own: the halves are rendered one after the other and merged. *)
Lemma retry_halves fuel format sha depth c l r st :
  worker_renders doc text fits → page_texts text → qpdf_ok (qpdf cv) → qpdf_concatenates → faults (world st) = [] →
  files (world st) !! inputPath cv = Some doc → inputPath cv ≠ Worker.chunk_path (scratchDir cv) l →
  1 <= PageStart c <= PageEnd c → PageEnd c < 2 ^ 62 → Planner.Subdivide c = [l; r] →
  NoDup [Worker.chunk_path (scratchDir cv) l; Worker.chunk_path (scratchDir cv) r; merged_path cv c] →
  fits (PageStart c) (PageEnd c) = false →
  fits (PageStart l) (PageEnd l) = true → fits (PageStart r) (PageEnd r) = true →
  ∃ st', renderWithRetry cv (S (S fuel)) format sha false depth c st = (Returned (Ok (merged_path cv c)), st') ∧
    default "" (files (world st') !! merged_path cv c) = text (PageStart c) (PageEnd c) ∧
    (∀ p, p ∉ [Worker.chunk_path (scratchDir cv) l; Worker.chunk_path (scratchDir cv) r; merged_path cv c] →
       files (world st') !! p = files (world st) !! p) ∧
    sent (world st') = sent (world st) ∧ faults (world st') = [] ∧
    cnt st' = mkCounters (rendered (cnt st) +! 1 +! 1)%go (subs (cnt st) +! 1)%go (cacheHit (cnt st)).
Proof.
  intros Hw [Htext Hne] Hq (Hp1 & Hp2 & Hp3 & Hcat) Hnil Hdoc Hpl Hs He Hsub Hnd Hfit Hfl Hfr.
  rewrite (retry_splits _ _ _ _ _ _ l r) by done.
  apply NoDup_cons in Hnd as [Hl Hnd]. apply NoDup_cons in Hnd as [Hr _].
  apply not_elem_of_cons in Hl as [Hlr Hl]. apply not_elem_of_cons in Hl as [Hlm _].
  apply not_elem_of_cons in Hr as [Hrm _].
  destruct (Planner.subdivide_cases c Hs He) as [[_ Hx]|(Hlt & mid & Hx & Hmid)]; rewrite Hsub in Hx; simplify_eq.
  assert (PageStart c <= mid < PageEnd c) as Hin by lia.
  unfold mbind at 1, m_bind at 1. cbn [addSubdivision count].
  match goal with |- context [render_all _ [?l; ?r]] => set (lc := l) in *; set (rc := r) in * end.
  match goal with |- context [(_ ≫= _) ?x] => set (st1 := x) end.
  destruct (retry_fits fuel format sha (depth +! 1)%go lc st1 Hw) as (st2 & Hr1 & Hf2 & Hs2 & Hnil2 & Hc2);
    [simpl; lia..|done|done|done|].
  destruct (retry_fits fuel format sha (depth +! 1)%go rc st2 Hw) as (st3 & Hr2 & Hf3 & Hs3 & Hnil3 & Hc3);
    [simpl; lia..|by rewrite Hf2, lookup_insert_ne|done|done|].
  assert (render_all (renderWithRetry cv (S fuel) format sha false (depth +! 1)%go) [lc; rc] st1 =
    (Returned (Ok [(lc, Worker.chunk_path (scratchDir cv) lc); (rc, Worker.chunk_path (scratchDir cv) rc)]), st3)) as Hall.
  { cbn [render_all]. unfold mbind, m_bind. by rewrite Hr1, Hr2. }
  unfold mbind at 1, m_bind at 1. rewrite Hall. cbn [fmap list_fmap snd].
  set (ps := [Worker.chunk_path (scratchDir cv) lc; Worker.chunk_path (scratchDir cv) rc]).
  pose proof (quiet_concat_to_file (qpdf cv) ps (merged_path cv c) (world st3)) as Hquiet.
  destruct (merge_to_file_ok (qpdf cv) ps (merged_path cv c) (world st3) (text (PageStart c) (PageEnd c)) "")
    as (w' & Hm & Hout & Hframe & Hnil4); try done; try apply Hp3.
  - rewrite (Hcat _ [text (PageStart c) mid; text (mid + 1) (PageEnd c)]).
    + simpl. by rewrite string_app_empty_r, <- Htext by lia.
    + repeat constructor; rewrite ?lookup_insert_ne by done; rewrite ?Hf3; try (apply Hne; simpl; lia).
      * rewrite lookup_insert_ne by done. by rewrite Hf2, lookup_insert_eq.
      * by rewrite lookup_insert_eq.
  - rewrite Hm in Hquiet. destruct Hquiet as [Hquiet _]. unfold mbind, m_bind, io_ended. rewrite Hm. eexists.
    split_and!; [done|done| |by etrans; [exact Hquiet|]; rewrite Hs3, Hs2|done|by cbn; rewrite Hc3, Hc2].
    intros p Hp. apply not_elem_of_cons in Hp as [Hpl' Hp]. apply not_elem_of_cons in Hp as [Hpr Hp].
    apply not_elem_of_cons in Hp as [Hpm _]. cbn. by rewrite Hframe, Hf3, lookup_insert_ne, Hf2, lookup_insert_ne.
Qed.

End subdivision.

(** ** A concrete pipeline *)

(** Pages are letters.  The worker renders at most [limit] pages and runs out of
    memory on more. *)
Definition page_letter (p : Z) : string := of_bytes [96 + p].
Definition page_text (a b : Z) : string :=
  foldr String.append "" (page_letter <$> ((λ k, a + Z.of_nat k) <$> seq 0 (Z.to_nat (b - a + 1)))).

Definition sample_worker (limit : Z) : Worker.Workers := {|
  Worker.exec := λ argv _, 
    let out := default "" (argv !! 13%nat) in
    let '(a, b) := cut (default "" (argv !! 15%nat)) "-"%char in
    match parse_int a, parse_int b with
    | Some a, Some b =>
        if limit <? b - a + 1 then mret (Worker.Exited 137 "" "")
        else fs ← get_files; set_files (<[out := page_text a b]> fs);; mret (Worker.Exited 0 "" "")
    | _, _ => mret (Worker.Exited 3 "" "")
    end |}.

(** A document whose metadata give the number of its pages. *)
Definition sample_readers (pages : Z) : Probe.Readers := {|
  Probe.open_zip := λ c, if has_prefix c "PK" then Some [("docProps/app.xml", Some "")] else None;
  Probe.app_props := λ _, Some (Some pages, None);
  Probe.show_npages := λ _ _, None;
  Probe.json_error := λ _, "" |}.

Definition sample_settings : Settings :=
  match Load (H := Build_PrintTable (λ _, true)) (H0 := Build_UnicodeTables (λ r, r)) ∅ with
  | Ok s => s
  | Err _ => mkSettings 1 1 "" "" "" "" "" "" "" 1 1 1 "" 1 1 1 1 1 1 false false 1 1 1 false "" 1 1 false "" "" "" "" "" 1 ""
  end.

(** A conversion without a cache, one worker process per chunk. *)
Definition sample_conversion : Conversion := {|
  settings := sample_settings;
  cache := Cache.mkManager "" "25.1";
  requestID := "r1";
  inputPath := "/s/in.docx";
  reqFormat := FormatDOCX;
  options := mkOptions true "";
  scratchDir := "/s";
  dst := response;
  environ := {[ "OFFICE_CONVERT_POOL_MODE" := "0" ]};
  new_pool := λ _ _ _, mret (Err (EOther "no pool"));
  qpdf := sample_qpdf;
  sha256_hex := λ x, x;
  open_error := λ _, "open failed";
  process_id := 7;
  random := λ _, "00";
  copy_blocks := λ c, [c];
  now := λ k, mkTime (1700000000 * Second + Z.of_nat k) (Some (Z.of_nat k))
|}.

Definition sample_state : St :=
  mkSt (mkWorld {[ "/s/in.docx" := "PK" ]} ∅ [] [] None "") (mkCounters 0 0 0) Progress.NewJobProgressStore 0.

#[local] Instance plain_floats : FloatFormat := {| shortest_g := λ _, "NaN" |}.
#[local] Instance limit_one : Worker.Workers := sample_worker 1.
#[local] Instance sample_tables : UnicodeTables := {| unicode_to_lower := λ r, r |}.
