(* ===== verification/EndToEnd.v ===== *)
(** * A conversion from the request to the document

    What the pipeline of [Orchestrator.v] sends when the tools it starts do their
    job: with the plan of [Planner.v], the files of [Worker.v] and the merge of
    [Qpdf.v] put together, the response is the whole document, in order. *)
From Stdlib Require Import ZArith Lia Bool SpecFloat Ascii String.
From stdpp Require Import base tactics list gmap strings.
From S2P Require Import Prelude GoFloat GoString GoFmt GoTime Types OErrors Config FS Qpdf Orchestrator.
From S2P Require Cache Planner Probe Progress Worker Pool.
From stdpp Require Import list.
Local Open Scope Z_scope.

(** ** The files of a chunk *)

(** The chunk numbered [i] writes [chunk-i.0.pdf], and when it is halved also
    [chunk-i.5.pdf] and [chunk-i.0-merged.pdf]. *)
Definition output_name (dir : string) (i : Z) (tail : string) : string :=
  dir +:+ "/chunk-" +:+ itoa i +:+ String "." tail.
Definition output_tails : list string := ["0.pdf"; "5.pdf"; "0-merged.pdf"].
Definition outputs (dir : string) (i : Z) : list string := output_name dir i <$> output_tails.

Lemma output_name_inj dir i j t u :
  0 <= i < 2 ^ 62 → 0 <= j < 2 ^ 62 → output_name dir i t = output_name dir j u → i = j ∧ t = u.
Proof.
  intros Hi Hj He. unfold output_name in He. apply (f_equal bytes) in He. rewrite !bytes_app in He.
  apply app_inv_head in He. apply app_inv_head in He. rewrite <- !bytes_app in He. apply bytes_inj in He.
  apply sep_unique in He as [Hit ->]; [|apply itoa_no_byte; [lia|change (byte_of ".") with 46; lia]..].
  apply itoa_inj in Hit; [done|unfold in_i64; lia..].
Qed.

Lemma outputs_disjoint dir i j p :
  0 <= i < 2 ^ 62 → 0 <= j < 2 ^ 62 → p ∈ outputs dir i → p ∈ outputs dir j → i = j.
Proof.
  intros Hi Hj (t & -> & _)%list_elem_of_fmap (u & He & _)%list_elem_of_fmap.
  by apply output_name_inj in He as [-> _].
Qed.

Lemma outputs_NoDup dir i : 0 <= i < 2 ^ 62 → NoDup (outputs dir i).
Proof.
  intros Hi. apply NoDup_fmap_2_strong; [|by apply (bool_decide_unpack (NoDup _)); vm_compute].
  intros t u _ _ He. by apply output_name_inj in He as [_ ->].
Qed.

(** Halved once, an index below [2^12] prints with [.5]. *)
Lemma half_units_half i : 0 <= i < 4096 → half_units (fadd (f64_of_Z i) Planner.half_f) = Some (2 * i + 1).
Proof.
  intros Hi.
  assert (forallb (λ k, bool_decide (half_units (fadd (f64_of_Z (Z.of_nat k)) Planner.half_f) = Some (2 * Z.of_nat k + 1)))
    (seq 0 4096) = true) as Hall by (vm_compute; reflexivity).
  rewrite forallb_forall in Hall. specialize (Hall (Z.to_nat i)). rewrite Z2Nat.id in Hall by lia.
  apply (bool_decide_unpack _). apply Is_true_true, Hall, in_seq. lia.
Qed.

Section names.
Context `{FloatFormat}.

Lemma format_index_half i : 0 <= i < 4096 → Worker.formatIndex (fadd (f64_of_Z i) Planner.half_f) = itoa i +:+ ".5".
Proof.
  intros Hi. unfold Worker.formatIndex, format_g. rewrite half_units_half by done. unfold format_halves.
  rewrite (Z.add_comm (2 * i)), (Z.mul_comm 2), Z.div_add by lia. change (1 / 2) with 0. rewrite Z.add_0_l.
  rewrite (proj2 (Z.ltb_lt _ _)) by lia. rewrite Z.odd_add, Z.odd_mul, andb_false_r. simpl.
  unfold has_point_or_exp. rewrite bytes_app, existsb_app. by rewrite orb_true_r.
Qed.

Lemma chunk_path_whole dir c i :
  Index c = f64_of_Z i → 0 <= i < 4096 → Worker.chunk_path dir c = output_name dir i "0.pdf".
Proof.
  intros Hc Hi. unfold Worker.chunk_path, output_name. rewrite Hc, Worker.format_index_int by lia.
  by rewrite (string_app_assoc (itoa i)).
Qed.

Lemma chunk_path_half dir c i :
  Index c = fadd (f64_of_Z i) Planner.half_f → 0 <= i < 4096 → Worker.chunk_path dir c = output_name dir i "5.pdf".
Proof.
  intros Hc Hi. unfold Worker.chunk_path, output_name. rewrite Hc, format_index_half by lia.
  by rewrite (string_app_assoc (itoa i)).
Qed.

Lemma merged_path_whole cv c i :
  Index c = f64_of_Z i → 0 <= i < 4096 → merged_path cv c = output_name (scratchDir cv) i "0-merged.pdf".
Proof.
  intros Hc Hi. unfold merged_path, output_name. rewrite Hc, Worker.format_index_int by lia.
  by rewrite (string_app_assoc (itoa i)).
Qed.
End names.

(** ** Rendering the plan *)

Section end_to_end.
Context `{FloatFormat} `{GoArch} `{Worker.Workers} `{UnicodeTables} `{Probe.Readers} (cv : Conversion).
Context (doc : string) (text : Z → Z → string) (fits : Z → Z → bool).
Context (Hworker : worker_renders cv doc text fits) (Htext : page_texts text).
Context (Hqpdf : qpdf_ok (qpdf cv)) (Hconcat : qpdf_concatenates cv).
Context (Hdst : ∀ w, sink_content (dst cv) w = sent w).
Context (Hinput : ∀ i, inputPath cv ∉ outputs (scratchDir cv) i).

(** The document lies at the input path, which is none of the files written. *)
Definition has_doc (st : St) : Prop := files (world st) !! inputPath cv = Some doc.

Definition whole (c : Chunk) : bool := fits (PageStart c) (PageEnd c).

(** The chunk can be rendered, whole or in two halves. *)
Definition renderable (c : Chunk) : Prop :=
  whole c = true ∨ Forall (λ h, whole h = true) (Planner.Subdivide c) ∧ Planner.Subdivide c ≠ [].

Definition chunk_text (c : Chunk) : string := text (PageStart c) (PageEnd c).

(** The chunks the conversion plans. *)
Definition planned (pr : ProbeResult) : list Chunk :=
  Chunks (Planner.PlanChunks pr (effective_max_pages cv pr) (MaxMBPerChunk (settings cv))).

(** What the conversion's counters become. *)
Definition counted (c : Chunk) (k : counters) : counters :=
  if whole c then mkCounters (rendered k +! 1)%go (subs k) (cacheHit k)
  else mkCounters (rendered k +! 1 +! 1)%go (subs k +! 1)%go (cacheHit k).

(** [left_by cs i st st']: the chunks [cs], numbered from [i], were rendered
    between [st] and [st'], and nothing outside their files changed. *)
Definition left_by (cs : list Chunk) (i : Z) (st st' : St) : Prop :=
  (∀ p, (∀ j, i <= j < i + Z.of_nat (length cs) → p ∉ outputs (scratchDir cv) j) →
     files (world st') !! p = files (world st) !! p) ∧
  sent (world st') = sent (world st) ∧ faults (world st') = [] ∧
  cnt st' = foldl (λ k c, counted c k) (cnt st) cs.

Lemma left_by_doc cs i st st' : left_by cs i st st' → has_doc st → has_doc st'.
Proof. intros [Hf _] Hd. unfold has_doc. by rewrite Hf. Qed.

Lemma render_chunk fuel format sha c i st :
  Index c = f64_of_Z i → 0 <= i < 4096 → 1 <= PageStart c <= PageEnd c → PageEnd c < 2 ^ 62 →
  renderable c → faults (world st) = [] → has_doc st →
  ∃ path st', renderWithRetry cv (S (S fuel)) format sha false 0 c st = (Returned (Ok path), st') ∧
    path ∈ outputs (scratchDir cv) i ∧ default "" (files (world st') !! path) = chunk_text c ∧
    left_by [c] i st st'.
Proof.
  intros Hi Hr Hs He Hren Hnil Hdoc. unfold left_by. pose proof (outputs_NoDup (scratchDir cv) i ltac:(lia)) as Hnd.
  assert (∀ l p, l ⊆ outputs (scratchDir cv) i →
    (∀ j, i <= j < i + Z.of_nat (length [c]) → p ∉ outputs (scratchDir cv) j) → p ∉ l) as Hout.
  { intros l p Hl Hp Hin. apply (Hp i); [simpl; lia|]. by apply Hl. }
  destruct (whole c) eqn:Hfit.
  - destruct (retry_fits cv doc text fits (S fuel) format sha 0 c st) as (st' & Hrun & Hf & Hs' & Hnil' & Hc'); try done.
    exists (Worker.chunk_path (scratchDir cv) c), st'. rewrite Hf.
    assert (Worker.chunk_path (scratchDir cv) c ∈ outputs (scratchDir cv) i) as Hin.
    { rewrite (chunk_path_whole _ c i) by done. apply list_elem_of_fmap_2. constructor. }
    split_and!; [done|done|by rewrite lookup_insert_eq| |done|done|by cbn; rewrite Hc'; unfold counted; rewrite Hfit].
    intros p Hp. rewrite lookup_insert_ne; [done|]. intros <-. apply (Hp i); [simpl; lia|done].
  - destruct Hren as [|[Hall Hne]]; [congruence|].
    destruct (Planner.subdivide_cases c Hs He) as [[_ Hx]|(Hlt & mid & Hsub & Hmid)]; [congruence|].
    rewrite Hsub in Hall. apply Forall_cons in Hall as [Hl Hall]. apply Forall_cons in Hall as [Hrt _].
    match type of Hsub with _ = [?l; ?r] =>
      assert ([Worker.chunk_path (scratchDir cv) l; Worker.chunk_path (scratchDir cv) r; merged_path cv c] =
        outputs (scratchDir cv) i) as Hnames by
        (rewrite (chunk_path_whole _ l i), (chunk_path_half _ r i), (merged_path_whole cv c i) by (simpl; congruence || done);
         reflexivity);
      destruct (retry_halves cv doc text fits fuel format sha 0 c l r st) as (st' & Hrun & Ho & Hframe & Hs' & Hnil' & Hc');
        try done; [intros He'; apply (Hinput i); rewrite He', <- Hnames; constructor|by rewrite Hnames|] end.
    exists (merged_path cv c), st'. rewrite Hnames in Hframe.
    split_and!; [done| |done| |done|done|by cbn; rewrite Hc'; unfold counted; rewrite Hfit].
    + rewrite (merged_path_whole cv c i) by done. apply list_elem_of_fmap_2. do 2 constructor. constructor.
    + intros p Hp. apply Hframe. by eapply Hout.
Qed.

Lemma bind_returned {A B} (m : M A) (f : A → M B) st a st1 : m st = (Returned a, st1) → (m ≫= f) st = f a st1.
Proof. intros Hm. unfold mbind, m_bind. by rewrite Hm. Qed.

(** A half that is halved again is merged under the index of the whole. *)
Lemma render_half fuel format sha depth c i st :
  Index c = f64_of_Z i → 0 <= i < 4096 → 1 <= PageStart c <= PageEnd c → PageEnd c < 2 ^ 62 →
  whole c = false → Forall (λ h, whole h = true) (Planner.Subdivide c) → faults (world st) = [] → has_doc st →
  Planner.Subdivide c ≠ [] →
  ∃ st', renderWithRetry cv (S (S fuel)) format sha false depth c st = (Returned (Ok (merged_path cv c)), st') ∧
    faults (world st') = [] ∧ has_doc st'.
Proof.
  intros Hi Hr Hs He Hfit Hall Hnil Hdoc Hne.
  destruct (Planner.subdivide_cases c Hs He) as [[_ Hx]|(_ & mid & Hsub & Hmid)]; [done|].
  rewrite Hsub in Hall. apply Forall_cons in Hall as [Hl Hall]. apply Forall_cons in Hall as [Hrt _].
  match type of Hsub with _ = [?l; ?r] =>
    assert ([Worker.chunk_path (scratchDir cv) l; Worker.chunk_path (scratchDir cv) r; merged_path cv c] =
      outputs (scratchDir cv) i) as Hnames by
      (rewrite (chunk_path_whole _ l i), (chunk_path_half _ r i), (merged_path_whole cv c i) by (simpl; congruence || done);
       reflexivity);
    pose proof (Hinput i) as Hin; rewrite <- Hnames in Hin;
    destruct (retry_halves cv doc text fits fuel format sha depth c l r st) as (st' & Hrun & _ & Hframe & _ & Hnil' & _);
      try done; [intros He'; apply Hin; rewrite He'; constructor|rewrite Hnames; apply outputs_NoDup; lia|] end.
  exists st'. split_and!; [done|done|]. unfold has_doc. by rewrite Hframe.
Qed.

(** A merge whose output is among its inputs empties it first. *)
Lemma merge_fails_on_own_output paths out w :
  qpdf_ok (qpdf cv) → qpdf_concatenates cv →
  (∀ paths fs p, p ∈ paths → fs !! p = Some "" → (qpdf_run (qpdf cv) (concat_argv paths) fs).2 ≠ 0) →
  out ∈ paths → faults w = [] →
  ∃ e w', ConcatToFile (qpdf cv) paths out w = (Returned (Some e), w') ∧ EFailureClass e = MergeFailed.
Proof.
  intros Hq (Hp1 & Hp2 & Hp3 & _) Hempty Hin Hnil. unfold ConcatToFile, mbind, io_bind.
  pose proof (os_create_spec out w) as Hc. destruct (os_create out w) as [ok w1].
  destruct Hc as (Hf1 & _ & Hnf1). destruct (Hnf1 Hnil) as [-> Hnil1].
  pose proof (concat_streaming_spec (qpdf cv) paths (file_sink out) "" w1 Hq (λ F _, F eq_refl)) as H'.
  specialize (Hempty paths (files w1) out Hin). rewrite Hf1, lookup_insert_eq in Hempty. specialize (Hempty eq_refl).
  rewrite <- Hf1 in Hempty. destruct (qpdf_run (qpdf cv) (concat_argv paths) (files w1)) as [[o err] rc]. cbn in Hempty.
  destruct (ConcatStreaming (qpdf cv) paths (file_sink out) "" w1) as [res w'].
  destruct H' as (_ & _ & _ & Hok). assert (paths ≠ []) as Hne by by intros ->; apply not_elem_of_nil in Hin.
  specialize (Hok Hnil1 Hne Hp1 Hp2 (proj1 (Hp3 _))). rewrite (proj2 (Z.eqb_neq rc 0) Hempty) in Hok. cbn in Hok.
  destruct Hok as [-> _]. by eexists _, _.
Qed.

Definition numbered (i : Z) (cs : list Chunk) : Prop :=
  ∀ k c, cs !! k = Some c → Index c = f64_of_Z (i + Z.of_nat k).
Definition in_range (c : Chunk) : Prop := 1 <= PageStart c <= PageEnd c ∧ PageEnd c < 2 ^ 62.

(** A rendered chunk [cp] stands in one of the files numbered from [i] to [j]. *)
Definition stands_in (st : St) (i j : Z) (cp : Chunk * string) : Prop :=
  default "" (files (world st) !! cp.2) = chunk_text cp.1 ∧
  ∃ k, i <= k < j ∧ cp.2 ∈ outputs (scratchDir cv) k.

Lemma left_by_cons c cs i st st1 st' :
  left_by [c] i st st1 → left_by cs (i + 1) st1 st' → left_by (c :: cs) i st st'.
Proof.
  intros (Hf1 & Hs1 & _ & Hc1) (Hf2 & Hs2 & Hnil & Hc2). split_and!.
  - intros p Hp. rewrite Hf2, Hf1; [done|intros j Hj; apply Hp; simpl in *; lia..].
  - by rewrite Hs2.
  - done.
  - by rewrite Hc2, Hc1.
Qed.

(** A renderer that leaves each chunk in one of its files renders the plan; it may
    rely on a condition [I] that the files of chunks do not touch. *)
Lemma render_each (render : Chunk → M (result error string)) (P : Chunk → Prop) (I : St → Prop) cs :
  (∀ cs i st st', left_by cs i st st' → I st → I st') →
  (∀ c i st, Index c = f64_of_Z i → 0 <= i < 4096 → in_range c → P c → faults (world st) = [] → I st →
     ∃ path st', render c st = (Returned (Ok path), st') ∧ path ∈ outputs (scratchDir cv) i ∧
       default "" (files (world st') !! path) = chunk_text c ∧ left_by [c] i st st') →
  ∀ i st, numbered i cs → 0 <= i → i + Z.of_nat (length cs) <= 4096 →
  Forall in_range cs → Forall P cs → faults (world st) = [] → I st →
  ∃ ps st', render_all render cs st = (Returned (Ok ps), st') ∧
    ps.*1 = cs ∧ Forall (stands_in st' i (i + Z.of_nat (length cs))) ps ∧ left_by cs i st st'.
Proof.
  intros HI Hone. induction cs as [|c cs IH]; intros i st Hnum Hi Hlen Hin Hren Hnil Hdoc.
  { exists [], st. by split_and!. }
  apply Forall_cons in Hin as [Hc Hin]. apply Forall_cons in Hren as [HP Hren]. simpl in Hlen.
  destruct (Hone c i st) as (path & st1 & Hrun & Hpath & Ht & Hleft); try done; [|lia|].
  { by rewrite (Hnum 0%nat c), Z.add_0_r. }
  destruct (IH (i + 1) st1) as (ps & st' & Hrest & Hps & Hall & Hleft'); [|lia|lia|done|done|apply Hleft|by eapply HI|].
  { intros k d Hd. rewrite (Hnum (S k) d Hd). f_equal. lia. }
  exists ((c, path) :: ps), st'. split_and!.
  - cbn [render_all]. unfold mbind, m_bind. by rewrite Hrun, Hrest.
  - cbn. by f_equal.
  - constructor.
    + split; [|exists i; split; [simpl; lia|done]]. destruct Hleft' as [Hf _]. cbn. rewrite Hf; [done|].
      intros j Hj Hp. eapply (outputs_disjoint _ i j) in Hp; [lia|lia|lia|done].
    + eapply Forall_impl; [exact Hall|]. intros cp (Hcp & j & Hj & Hjp). split; [done|]. exists j.
      split; [simpl; lia|done].
  - by eapply left_by_cons.
Qed.

Lemma render_plan fuel format sha cs i st :
  numbered i cs → 0 <= i → i + Z.of_nat (length cs) <= 4096 →
  Forall in_range cs → Forall renderable cs → faults (world st) = [] → has_doc st →
  ∃ ps st', render_all (renderWithRetry cv (S (S fuel)) format sha false 0) cs st = (Returned (Ok ps), st') ∧
    ps.*1 = cs ∧ Forall (stands_in st' i (i + Z.of_nat (length cs))) ps ∧ left_by cs i st st'.
Proof.
  apply render_each; [apply left_by_doc|]. intros c j st0 Hj Hr [Hs He] Hc Hnil Hdoc. by apply render_chunk.
Qed.

(** ** The order of the merge *)

Lemma flt_index i j : 0 <= i <= j → j < 2 ^ 53 → flt (f64_of_Z j) (f64_of_Z i) = false.
Proof.
  intros Hi Hj. destruct (f64_of_Z_exact i ltac:(lia)) as [Hfi Hsi], (f64_of_Z_exact j ltac:(lia)) as [Hfj Hsj].
  rewrite flt_not_ge by by apply ffinite_fnum. apply negb_false_iff, fle_scaled; try done; try apply f64_of_Z_valid.
  rewrite Hsi, Hsj. apply Z.mul_le_mono_nonneg_r; lia.
Qed.

Lemma insert_last x l :
  Forall (λ y, flt (Index x.1) (Index y.1) = false) l → insert_by_index x l = l ++ [x].
Proof. induction 1 as [|y l Hy _ IH]; [done|]. simpl. by rewrite Hy, IH. Qed.

Lemma sort_numbered l : numbered 0 l.*1 → Z.of_nat (length l) < 2 ^ 53 → sort_by_index l = l.
Proof.
  induction l as [|x l IH] using rev_ind; intros Hnum Hlen; [done|].
  rewrite length_app in Hlen. simpl in Hlen.
  unfold sort_by_index. rewrite foldl_app. cbn [foldl]. fold (sort_by_index l). rewrite fmap_app in Hnum.
  rewrite IH; [|intros k c Hk; apply Hnum; by apply lookup_app_l_Some|lia].
  apply insert_last, Forall_lookup. intros k y Hy.
  rewrite (Hnum k y.1), (Hnum (length l) x.1).
  - apply flt_index; apply lookup_lt_Some in Hy; lia.
  - rewrite lookup_app_r by (by rewrite length_fmap). by rewrite length_fmap, Nat.sub_diag.
  - apply lookup_app_l_Some. by rewrite list_lookup_fmap, Hy.
Qed.

(** ** The document *)

Lemma covers_text lo hi cs : covers lo hi cs → lo <= hi → foldr String.append "" (chunk_text <$> cs) = text lo hi.
Proof.
  destruct Htext as [Hadj _]. induction 1 as [|lo hi c cs Hs Hle Hc IH]; intros Hlo; [lia|]. rewrite fmap_cons. cbn [foldr].
  unfold chunk_text at 1. rewrite Hs. inversion Hc as [? ? Hhi|? ? d ds Hd Hdl Hds]; subst.
  - simpl. rewrite string_app_empty_r. f_equal. lia.
  - rewrite IH; [by rewrite <- Hadj by (pose proof (covers_le _ _ _ Hc); pose proof (covers_le _ _ _ Hds); lia)|].
    pose proof (covers_le _ _ _ Hds). lia.
Qed.

Lemma counted_all cs : ∀ r s, 0 <= s <= r → r + 2 * Z.of_nat (length cs) < 2 ^ 62 →
  foldl (λ k c, counted c k) (mkCounters r s 0) cs =
  let n := Z.of_nat (length cs) in let k := Z.of_nat (length (filter (λ c, whole c = false) cs)) in
  mkCounters (r + n + k) (s + k) 0.
Proof.
  induction cs as [|c cs IH]; intros r s Hs Hr; simpl; [f_equal; lia|]. unfold counted at 2. cbn [rendered subs cacheHit].
  simpl in Hr. rewrite filter_cons. destruct (whole c); i64_norm; rewrite IH by lia; cbv zeta;
    case_decide; try done; simpl; f_equal; lia.
Qed.

(** The merge of files that stand succeeds, and sends their texts. *)
Lemma merge_sends ps n st sha started :
  ps ≠ [] → numbered 0 ps.*1 → Z.of_nat (length ps) < 2 ^ 53 → Forall in_range ps.*1 →
  Forall (stands_in st 0 n) ps → faults (world st) = [] →
  ∃ res st', merge_and_finish cv ps sha false started st = (Returned (Ok res), st') ∧
    sent (world st') = sent (world st) +:+ foldr String.append "" (chunk_text <$> ps.*1) ∧
    (ChunksRendered res, SubdivisionRetries res, CacheHits res) = (rendered (cnt st), subs (cnt st), cacheHit (cnt st)) ∧
    faults (world st') = [].
Proof.
  intros Hne Hnum Hlen Hin Hst Hnil. destruct Hconcat as (Hp1 & Hp2 & Hp3 & Hcat), Htext as [_ Htne].
  assert (ps.*2 ≠ []) as Hne2 by by destruct ps.
  unfold merge_and_finish, open_cache_temp, mbind, m_bind, mret, m_ret, update_progress, io_ended. cbn [world].
  rewrite sort_numbered by done.
  pose proof (concat_streaming_spec (qpdf cv) ps.*2 (dst cv) "" (world st) Hqpdf (λ F, False_ind _ (F eq_refl))) as Hm.
  rewrite (Hcat _ (chunk_text <$> ps.*1)) in Hm.
  2:{ clear Hne Hnum Hlen Hne2 Hm. induction ps as [|[c p] ps IH]; [constructor|].
      apply Forall_cons in Hst as [[Hp _] Hst]. apply Forall_cons in Hin as [[? ?] Hin]. cbn in *.
      constructor; [|by apply IH]. assert (chunk_text c ≠ "") as Hc by (apply Htne; lia).
      destruct (files (world st) !! p) as [t|]; simpl in Hp; [by subst t|congruence]. }
  pose proof (steady_concat_streaming (qpdf cv) ps.*2 (dst cv) "" (world st) Hnil) as Hnil'.
  destruct (ConcatStreaming (qpdf cv) ps.*2 (dst cv) "" (world st)) as [r w'].
  destruct Hm as ((_ & d & _ & Hs & Hr) & _ & _ & Hok). rewrite !Hdst in Hs.
  specialize (Hok Hnil Hne2 Hp1 Hp2 (proj1 (Hp3 _))). rewrite (proj2 (Hp3 _)) in Hok. simpl in Hok. subst r.
  destruct Hr as (_ & -> & _). eexists _, _. split; [reflexivity|]. split_and!; [exact Hs|done|exact Hnil'].
Qed.

(** Without a cache and a pool the job is the rendering of the plan and the
    merge. *)
Lemma job_renders_plan pr st :
  Types.Cache (options cv) && Cache.Enabled (cache cv) = false → Probe.Probe (settings cv) (inputPath cv) (reqFormat cv) (world st) = (Ok pr, world st) →
  let cs := Chunks (Planner.PlanChunks pr (effective_max_pages cv pr) (MaxMBPerChunk (settings cv))) in
  Pool.PoolModeAvailable (environ cv) && (PoolMinChunks (settings cv) <=? Z.of_nat (length cs)) = false →
  ∃ st1, world st1 = world st ∧ cnt st1 = mkCounters 0 0 0 ∧
  ∀ ps st2, render_all (renderWithRetry cv retry_depth (Format pr) "" false 0) cs st1 = (Returned (Ok ps), st2) →
    ConvertJob cv st = merge_and_finish cv ps "" false (tick st) st2.
Proof.
  intros Hcache Hprobe cs Hpool. eexists. split; [|split]; [| |intros ps st2 Hrun].
  3:{ unfold ConvertJob. cbv zeta. rewrite Hcache. cbn [andb]. etrans; [by eapply bind_returned|]. cbv beta iota.
      etrans; [by eapply bind_returned|]. cbv beta. change (negb (String.eqb "" "")) with false. cbv iota.
      unfold convert_document. etrans; [eapply bind_returned; unfold io; cbn [world]; by rewrite Hprobe|].
      cbv beta iota zeta. etrans; [by eapply bind_returned|]. cbv beta. fold cs. rewrite Hpool.
      etrans; [eapply bind_returned|].
      { unfold dispatchOneShot. etrans; [by eapply bind_returned|]. exact Hrun. }
      done. }
  all: done.
Qed.

(** A document of [PageCount pr] pages that is converted without a pool, and whose
    planned chunks can each be rendered whole or in two halves. *)
Record one_shot_job (pr : ProbeResult) : Prop := {
  oj_pages : 1 <= PageCount pr < 2 ^ 62;
  oj_seams : NaturalSeams pr = [] ∨ Planner.seams_cover 1 (PageCount pr) (NaturalSeams pr);
  oj_pool : Pool.PoolModeAvailable (environ cv) &&
    (PoolMinChunks (settings cv) <=? Z.of_nat (length (planned pr))) = false;
  oj_names : Z.of_nat (length (planned pr)) <= 4096;
  oj_renderable : Forall renderable (planned pr)
}.

Lemma conversion_outcome pr st :
  Types.Cache (options cv) && Cache.Enabled (cache cv) = false → one_shot_job pr →
  Probe.Probe (settings cv) (inputPath cv) (reqFormat cv) (world st) = (Ok pr, world st) →
  faults (world st) = [] → has_doc st →
  let n := Z.of_nat (length (planned pr)) in let k := Z.of_nat (length (filter (λ c, whole c = false) (planned pr))) in
  ∃ res st', ConvertJob cv st = (Returned (Ok res), st') ∧
    sent (world st') = sent (world st) +:+ text 1 (PageCount pr) ∧
    (ChunksRendered res, SubdivisionRetries res, CacheHits res) = (n + k, k, 0) ∧ faults (world st') = [].
Proof.
  intros Hcache [Hn Hseams Hpool Hlen Hren] Hprobe Hnil Hdoc n k.
  destruct (Planner.plan_covers_indexed pr (effective_max_pages cv pr) (MaxMBPerChunk (settings cv)) Hn Hseams)
    as (Hcov & _ & Hidx). fold (planned pr) in Hcov, Hidx. set (cs := planned pr) in *.
  assert (Forall in_range cs) as Hin.
  { eapply Forall_impl; [exact (covers_in_range _ _ _ Hcov)|]. unfold in_range. simpl. lia. }
  destruct (job_renders_plan pr st Hcache Hprobe Hpool) as (st1 & Hw1 & Hc1 & Hjob). fold cs in Hjob.
  destruct (render_plan 63 (Format pr) "" cs 0 st1) as (ps & st2 & Hrun & Hps & Hst & Hf & Hs & Hnil2 & Hcnt);
    [exact Hidx|lia|lia|done|done|by rewrite Hw1|by unfold has_doc; rewrite Hw1|].
  change (S (S 63)) with retry_depth in Hrun. rewrite (Hjob _ _ Hrun). rewrite <- Hps in Hidx, Hin, Hlen. rewrite length_fmap in Hlen.
  assert (ps ≠ []) as Hne.
  { intros ->. inversion Hcov as [? ? Hhi Hnilcs|? ? ? ? ? ? ? Hcons]; [lia|]. simpl in Hps. congruence. }
  destruct (merge_sends ps _ st2 "" (tick st) Hne Hidx ltac:(lia) Hin Hst Hnil2) as (res & st' & Hmerge & Hsent & Hres & Hnil').
  exists res, st'. split_and!; [exact Hmerge| | |done].
  - rewrite Hsent, Hs, Hw1, Hps. by rewrite (covers_text 1 (PageCount pr)) by (done || lia).
  - rewrite Hres, Hcnt, Hc1. rewrite <- (length_fmap fst ps), Hps in Hlen.
    rewrite counted_all by lia. done.
Qed.

(** C4: when the worker renders what it is given and qpdf concatenates, and no
    cache is in use, a document whose planned chunks can each be rendered whole or in two halves is
    sent complete: the response is exactly the text of pages [1..PageCount] of the
    document at the input path, in order; the result counts one render per chunk
    and one more, with a subdivision, for every chunk that was halved. *)
Theorem conversion_sends_document pr st :
  Types.Cache (options cv) && Cache.Enabled (cache cv) = false → one_shot_job pr →
  Probe.Probe (settings cv) (inputPath cv) (reqFormat cv) (world st) = (Ok pr, world st) →
  faults (world st) = [] → has_doc st →
  let n := Z.of_nat (length (planned pr)) in let k := Z.of_nat (length (filter (λ c, whole c = false) (planned pr))) in
  ∃ res st', ConvertJob cv st = (Returned (Ok res), st') ∧
    sent (world st') = sent (world st) +:+ text 1 (PageCount pr) ∧
    (ChunksRendered res, SubdivisionRetries res, CacheHits res) = (n + k, k, 0).
Proof.
  intros Hcache Hjob Hprobe Hnil Hdoc n k. destruct (conversion_outcome pr st Hcache Hjob Hprobe Hnil Hdoc) as (res & st' & Hr & Hs & Hc & _).
  by exists res, st'.
Qed.

(** C26: what nested halving does: when a chunk and its left half both run out of
    memory, the halves of the left half and the right half fit, and qpdf refuses
    an empty file, the chunk fails with [merge_failed], although every part of
    it could be rendered: the left half keeps the chunk's index, so both merges
    write the same file, and the outer one empties it before qpdf reads it. *)
Theorem nested_subdivision_fails fuel format sha depth c l r i st :
  (∀ paths fs p, p ∈ paths → fs !! p = Some "" → (qpdf_run (qpdf cv) (concat_argv paths) fs).2 ≠ 0) →
  faults (world st) = [] → has_doc st → Index c = f64_of_Z i → 0 <= i < 4096 →
  1 <= PageStart c <= PageEnd c → PageEnd c < 2 ^ 62 → Planner.Subdivide c = [l; r] →
  whole c = false → whole l = false → Planner.Subdivide l ≠ [] →
  Forall (λ h, whole h = true) (Planner.Subdivide l) → whole r = true →
  ∃ e st', renderWithRetry cv (S (S (S fuel))) format sha false depth c st = (Returned (Err (EConv e)), st') ∧
    EFailureClass e = MergeFailed.
Proof.
  intros Hempty Hnil Hdoc Hi Hr Hs He Hsub Hfit Hfl Hlne Hll Hfr.
  destruct (Planner.subdivide_cases c Hs He) as [[_ Hx]|(Hlt & mid & Hx & Hmid)]; rewrite Hsub in Hx; simplify_eq.
  match goal with H : Planner.Subdivide c = [?l; ?r] |- _ => set (lc := l) in *; set (rc := r) in * end.
  unfold whole in Hfit, Hfl, Hfr. rewrite (retry_splits cv doc text fits _ _ _ _ _ _ lc rc) by done.
  unfold mbind at 1, m_bind at 1. cbn [addSubdivision count].
  match goal with |- context [(_ ≫= _) ?x] => set (st1 := x) end.
  destruct (render_half fuel format sha (depth +! 1)%go lc i st1) as (st2 & Hl2 & Hnil2 & Hd2); try done; [simpl; lia..|].
  destruct (retry_fits cv doc text fits (S fuel) format sha (depth +! 1)%go rc st2 Hworker) as (st3 & Hr3 & _ & _ & Hnil3 & _);
    [simpl; lia..|done|done|done|].
  assert (render_all (renderWithRetry cv (S (S fuel)) format sha false (depth +! 1)%go) [lc; rc] st1 =
    (Returned (Ok [(lc, merged_path cv c); (rc, Worker.chunk_path (scratchDir cv) rc)]), st3)) as Hall.
  { cbn [render_all]. unfold mbind, m_bind. by rewrite Hl2, Hr3. }
  rewrite (bind_returned _ _ _ _ _ Hall). cbn [fmap list_fmap snd].
  destruct (merge_fails_on_own_output [merged_path cv c; Worker.chunk_path (scratchDir cv) rc] (merged_path cv c)
    (world st3)) as (e & w' & Hm & Hc); [done|done|done| |done|].
  { constructor. }
  unfold mbind, m_bind, io_ended. rewrite Hm. by eexists _, _.
Qed.
End end_to_end.

(** ** The sample pipeline *)

Lemma sample_worker_renders cv doc limit :
  worker_renders (H1 := sample_worker limit) cv doc page_text (λ a b, b - a + 1 <=? limit).
Proof.
  intros st format out a b argv lim w Ha Hb _ Hargv. injection Hargv as <-.
  cbn [sample_worker Worker.exec Worker.prlimitArgs app]. cbn [lookup list_lookup default]. cbv zeta.
  change (itoa a +:+ "-" +:+ itoa b) with (itoa a +:+ String "-" (itoa b)).
  cbn [from_option]. unfold id. rewrite cut_app by (apply itoa_no_byte; [lia|change (byte_of "-") with 45; lia]).
  rewrite !parse_itoa by (unfold in_i64; lia). rewrite Z.leb_antisym. by destruct (_ <? _).
Qed.

(** An input whose name does not begin like that of a chunk is none of them. *)
Lemma input_apart dir name i : (∀ x, name ≠ "chunk-" +:+ x) → dir +:+ "/" +:+ name ∉ outputs dir i.
Proof.
  intros Hname (t & He & _)%list_elem_of_fmap. unfold output_name in He. apply (f_equal bytes) in He.
  rewrite !(bytes_app dir) in He. apply app_inv_head, bytes_inj in He. injection He as He.
  by apply (Hname (itoa i +:+ String "." t)).
Qed.
Lemma sample_input_apart i : "/s/in.docx" ∉ outputs "/s" i.
Proof. by apply (input_apart "/s" "in.docx"). Qed.

Lemma string_foldr_app l k :
  foldr String.append "" (l ++ k) = foldr String.append "" l +:+ foldr String.append "" k.
Proof. induction l as [|s l IH]; [done|]. simpl. by rewrite IH, string_app_assoc. Qed.

Lemma page_texts_sample : page_texts page_text.
Proof.
  unfold page_text. split.
  - intros a m b Ha Hm. rewrite <- string_foldr_app, <- fmap_app. do 2 f_equal.
    replace (Z.to_nat (b - a + 1)) with (Z.to_nat (m - a + 1) + Z.to_nat (b - (m + 1) + 1))%nat by lia.
    rewrite seq_app, fmap_app. f_equal. apply list_eq. intros k.
    rewrite !list_lookup_fmap. destruct (decide (k < Z.to_nat (b - (m + 1) + 1))%nat).
    + rewrite !lookup_seq_lt by lia. simpl. f_equal. lia.
    + by rewrite !lookup_seq_ge by lia.
  - intros a b Hab. replace (Z.to_nat (b - a + 1)) with (S (Z.to_nat (b - a))) by lia. done.
Qed.

Lemma sample_inputs_concat paths : sample_inputs (concat_argv paths) = paths.
Proof. unfold sample_inputs, concat_argv. rewrite !length_app. apply take_app_length'. simpl. lia. Qed.

Lemma sample_qpdf_concatenates cv : qpdf cv = sample_qpdf → qpdf_concatenates cv.
Proof.
  unfold qpdf_concatenates. intros ->. split_and!; [done|done|done|]. intros paths contents fs Hall.
  change (qpdf_run sample_qpdf) with sample_run. unfold sample_run.
  rewrite sample_inputs_concat.
  assert ((λ p, default "" (fs !! p)) <$> paths = contents ∧ existsb (String.eqb "") contents = false) as [-> ->]; [|done].
  induction Hall as [|p c ps cs [Hp Hc] _ [IH1 IH2]]; [done|]. rewrite fmap_cons, Hp, IH1. cbn [existsb]. split; [done|].
  rewrite IH2, orb_false_r. destruct (String.eqb_spec "" c); [by subst c|done].
Qed.

#[local] Instance plain_floats : FloatFormat := {| shortest_g := λ _, "NaN" |}.
#[local] Instance limit_one : Worker.Workers := sample_worker 1.
#[local] Instance sample_tables : UnicodeTables := {| unicode_to_lower := λ r, r |}.

Example conversion_sends_document_witness :
  let cv := sample_conversion in let _ := sample_readers 2 in
  ∃ res st', ConvertJob cv sample_state = (Returned (Ok res), st') ∧ sent (world st') = "ab" ∧
    (ChunksRendered res, SubdivisionRetries res, CacheHits res) = (2, 1, 0).
Proof.
  intros cv readers. set (pr := mkProbe 2 FormatDOCX [] 2).
  assert (Chunks (Planner.PlanChunks pr (effective_max_pages cv pr) (MaxMBPerChunk (settings cv))) =
    [mkChunk (f64_of_Z 0) 1 2 false]) as Hcs by (vm_compute; reflexivity).
  pose proof (conversion_sends_document cv "PK" page_text (λ a b, b - a + 1 <=? 1) (sample_worker_renders cv "PK" 1)
    page_texts_sample sample_qpdf_ok (sample_qpdf_concatenates cv eq_refl) (λ _, eq_refl) sample_input_apart pr sample_state) as Hsend.
  unfold planned in Hsend. cbv zeta in Hsend. rewrite Hcs in Hsend. apply Hsend; try reflexivity.
  split; unfold planned; rewrite ?Hcs; try reflexivity.
  - cbn. lia.
  - by left.
  - cbn. lia.
  - constructor; [|constructor]. right. split; [|by vm_compute]. repeat constructor.
Defined.

(** A pipeline whose tools do nothing but their job leaves the response alone. *)
Lemma sample_outside_quiet : outside_quiet sample_conversion.
Proof.
  split.
  - intros argv limit. cbn [limit_one sample_worker Worker.exec]. destruct (cut _ _) as [a b].
    destruct (parse_int a), (parse_int b); try done. by destruct (_ <? _).
  - done.
  - by intros forked format n w pool w' Hp.
Qed.


Example subdivision_terminates_witness :
  let c := mkChunk (f64_of_Z 0) 1 2 false in
  spans 1 c ∧
  renderWithRetry sample_conversion 2 FormatDOCX "" false 0 c sample_state =
    renderWithRetry sample_conversion retry_depth FormatDOCX "" false 0 c sample_state.
Proof.
  intros c. assert (spans 1 c) as Hc by (unfold spans; simpl; lia).
  split; [exact Hc|]. apply (subdivision_terminates sample_conversion 1 2); [exact Hc|lia|lia].
Defined.

Example nested_subdivision_fails_witness :
  let cv := sample_conversion in let c := mkChunk (f64_of_Z 0) 1 3 false in
  ∃ e st', renderWithRetry cv 3 FormatDOCX "" false 0 c sample_state = (Returned (Err (EConv e)), st') ∧
    EFailureClass e = MergeFailed.
Proof.
  intros cv c.
  apply (nested_subdivision_fails cv "PK" page_text (λ a b, b - a + 1 <=? 1) (sample_worker_renders cv "PK" 1)
    page_texts_sample sample_qpdf_ok (sample_qpdf_concatenates cv eq_refl) sample_input_apart 0 FormatDOCX "" 0 c
    (mkChunk (f64_of_Z 0) 1 2 false) (mkChunk (fadd (f64_of_Z 0) Planner.half_f) 3 3 false) 0).
  - intros paths fs p Hp Hfs. change (qpdf_run (qpdf cv)) with sample_run. unfold sample_run.
    replace (existsb _ _) with true; [done|]. symmetry. apply existsb_exists. exists "". split; [|done].
    apply list_elem_of_In, list_elem_of_fmap. exists p. rewrite Hfs, sample_inputs_concat. by split.
  - reflexivity.
  - reflexivity.
  - reflexivity.
  - lia.
  - simpl. lia.
  - simpl. lia.
  - vm_compute. reflexivity.
  - reflexivity.
  - reflexivity.
  - by vm_compute.
  - repeat constructor.
  - reflexivity.
Defined.

(** The right half of the right half has the index of the next chunk of the
    plan, and is rendered into its file. *)
Lemma subdivision_shares_next_file dir a b c d e i :
  0 <= i < 4095 → Index c = f64_of_Z i → Planner.Subdivide c = [a; b] → Planner.Subdivide b = [d; e] →
  ∀ next, Index next = f64_of_Z (i + 1) → Worker.chunk_path dir e = Worker.chunk_path dir next.
Proof.
  intros Hi Hc Hab Hde next Hn.
  assert (Index e = fadd (fadd (Index c) Planner.half_f) Planner.half_f) as He.
  { unfold Planner.Subdivide in Hab, Hde. repeat case_match; simplify_eq; done. }
  assert (forallb (λ k, bool_decide (half_units (fadd (fadd (f64_of_Z (Z.of_nat k)) Planner.half_f) Planner.half_f) =
    Some (2 * (Z.of_nat k + 1)))) (seq 0 4096) = true) as Hall by (vm_compute; reflexivity).
  rewrite forallb_forall in Hall. specialize (Hall (Z.to_nat i)). rewrite Z2Nat.id in Hall by lia.
  apply Is_true_true, (bool_decide_unpack _) in Hall; [|apply in_seq; lia].
  unfold Worker.chunk_path, Worker.formatIndex, format_g. rewrite He, Hn, Hc, Hall.
  by rewrite Worker.half_units_int by lia.
Qed.
