(* ===== verification/PoolConversion.v ===== *)
(** * Conversions through a pool of workers

    The interface [PoolOps] of [Orchestrator.v] implemented by the two pools of
    [Pool.v] ([NewPool]), the contract [serves] that a client of the interface
    relies on, the proof that both pools meet it when their workers do their job
    ([new_pool_serves]), and the conversion that uses it: what is sent is the whole
    document as the workers count its pages, whatever the probe estimated. *)
From Stdlib Require Import ZArith Lia Bool SpecFloat Ascii String.
From stdpp Require Import base tactics list gmap strings.
From S2P Require Import Prelude GoFloat GoString GoFmt GoTime Types OErrors Config FS Json Qpdf Orchestrator EndToEnd.
From S2P Require Cache Planner Probe Progress Worker Leader Pool Pooled.
From stdpp Require Import list.
Local Open Scope Z_scope.

(** ** The pools behind the interface *)

(** What the processes do: how worker [i] is started and loads the document; what
    a render of a chunk meets, and what it does to the files; and the same for a
    forked leader. *)
Record Backend : Type := mkBackend {
  worker_spawn : nat → Pooled.spawn_calls;
  worker_load : nat → option string * Pool.received;
  worker_ask : Chunk → string → IO (option string * option string * Pool.received);
  leader_spawn : Pooled.spawn_calls;
  leader_load : Leader.outcome;
  leader_ask : Chunk → string → IO Leader.outcome
}.

Section pools.
Context `{FloatFormat} `{GoArch} (json_error : string → string) (b : Backend).

Definition start_of (i : nat) : Pool.start :=
  match Pooled.spawn_error (worker_spawn b i) with
  | Some e => Pool.SSpawnFailed e
  | None => let '(we, r) := worker_load b i in Pool.SLoad we r
  end.

Definition worker_ops (p : Pool.WorkerPool) : PoolOps := mkPoolOps
  (λ c dir, '(cancelled, we, r) ← worker_ask b c (Worker.chunk_path dir c);
            mret (Pool.RenderChunk json_error cancelled we r c dir))
  (Pool.ActualPageCount p) (mret ()).

Definition forked_ops (p : Pool.ForkedWorkerPool) : PoolOps := mkPoolOps
  (λ c dir, o ← leader_ask b c (Worker.chunk_path dir c); mret (Pool.ForkedRenderChunk o c dir))
  (Pool.ForkedActualPageCount p) (mret ()).

(** The two branches of [dispatchPool] that make the pool. *)
Definition NewPool (forked : bool) (format : FormatName) (poolSize : Z) : IO (result error PoolOps) :=
  mret (if forked then
          match (Pool.NewForkedWorkerPool (Pooled.spawn_error (leader_spawn b)) (leader_load b)).1 with
          | Ok p => Ok (forked_ops p)
          | Err e => Err e
          end
        else
          match (Pool.NewWorkerPool json_error (start_of <$> seq 0 (Z.to_nat poolSize))).1 with
          | Ok p => Ok (worker_ops p)
          | Err e => Err e
          end).

(** ** The contract *)

(** A pool that serves a document of [n] pages: it reports [n], and a render
    writes the pages asked for to the chunk's file and nothing else. *)
Record serves (text : Z → Z → string) (n : Z) (p : PoolOps) : Prop := {
  sv_pages : pool_pages p = (n, true);
  sv_render : ∀ c dir w, 1 <= PageStart c <= PageEnd c → PageEnd c < 2 ^ 62 →
    pool_render p c dir w =
      (Ok (Worker.chunk_path dir c),
       (set_files (<[Worker.chunk_path dir c := text (PageStart c) (PageEnd c)]> (files w)) w).2);
  sv_close : ∀ w, pool_close p w = ((), w)
}.

(** The decoded line of a worker that has rendered. *)
Definition says_ok (line : string) : Prop :=
  ∃ m, Unmarshal line = (m, false) ∧ Pool.status_ok (default ∅ m) = true.

(** Workers and leader do what the protocol asks of them. *)
Record works (text : Z → Z → string) (n : Z) : Prop := {
  wk_load : ∀ i, (Pool.start_worker json_error (start_of i)).1 = Ok n;
  wk_ask : ∀ c out w, 1 <= PageStart c <= PageEnd c → PageEnd c < 2 ^ 62 →
    ∃ line, says_ok line ∧ worker_ask b c out w =
      ((None, None, Pool.RLine line), (set_files (<[out := text (PageStart c) (PageEnd c)]> (files w)) w).2);
  wk_spawn : Pooled.spawn_error (leader_spawn b) = None;
  wk_leader : Leader.LoadDocument (leader_load b) = Ok n;
  wk_leader_ask : ∀ c out w, 1 <= PageStart c <= PageEnd c → PageEnd c < 2 ^ 62 →
    ∃ m, Leader.RenderChunk (Leader.OResponse m) c out = Ok out ∧ leader_ask b c out w =
      (Leader.OResponse m, (set_files (<[out := text (PageStart c) (PageEnd c)]> (files w)) w).2)
}.

(** Every worker loaded the document: the pool starts, with the pages of the
    first. *)
Lemma worker_pool_starts starts n :
  starts ≠ [] → Forall (λ s, (Pool.start_worker json_error s).1 = Ok n) starts →
  ∃ p, (Pool.NewWorkerPool json_error starts).1 = Ok p ∧ Pool.ActualPageCount p = (n, true).
Proof.
  intros Hne Hall. unfold Pool.NewWorkerPool.
  assert ((Pool.start_worker json_error <$> starts).*1 = Ok <$> replicate (length starts) n) as ->.
  { clear Hne. induction Hall as [|s ss Hs _ IH]; [done|]. cbn. by rewrite Hs, IH. }
  rewrite (proj2 (Pool.first_error_none _)); [|intros i e Hi; rewrite list_lookup_fmap in Hi; by destruct (_ !! i)].
  eexists. split; [reflexivity|]. unfold Pool.ActualPageCount. cbn. rewrite Pool.successes_all.
  by destruct starts.
Qed.

(** Both pools keep the contract. *)
Lemma new_pool_serves text n forked format k w :
  works text n → 1 <= k → ∃ p, NewPool forked format k w = (Ok p, w) ∧ serves text n p.
Proof.
  intros [Hload Hask Hsp Hlead Hlask] Hk. unfold NewPool. destruct forked.
  - unfold Pool.NewForkedWorkerPool. rewrite Hsp, Hlead. eexists. split; [reflexivity|]. split; [done| |done].
    intros c dir w' Hs He. destruct (Hlask c (Worker.chunk_path dir c) w' Hs He) as (m & Hm & Ha).
    cbn. unfold mbind, io_bind. rewrite Ha. unfold Pool.ForkedRenderChunk. by rewrite Hm.
  - destruct (worker_pool_starts (start_of <$> seq 0 (Z.to_nat k)) n) as (p & -> & Hp).
    + destruct (Z.to_nat k) eqn:?; [lia|done].
    + apply Forall_fmap, Forall_forall. intros i _. apply Hload.
    + eexists. split; [reflexivity|]. split; [exact Hp| |done].
      intros c dir w' Hs He. destruct (Hask c (Worker.chunk_path dir c) w' Hs He) as (line & (m & Hu & Hok) & Ha).
      cbn. unfold mbind, io_bind. rewrite Ha. unfold Pool.RenderChunk, Pool.render_chunk, Pool.await. rewrite Hu.
      cbn. by rewrite Hok.
Qed.
End pools.

(** ** The conversion *)

Section conversion.
Context `{FloatFormat} `{GoArch} `{Worker.Workers} `{UnicodeTables} `{Probe.Readers} (cv : Conversion).
Context (text : Z → Z → string) (n : Z).
Context (Htext : page_texts text).
Context (Hqpdf : qpdf_ok (qpdf cv)) (Hconcat : qpdf_concatenates cv).
Context (Hdst : ∀ w, sink_content (dst cv) w = sent w).

(** Nothing is halved in a pool. *)
#[local] Abbreviation all_fit := (λ _ _ : Z, true).

Lemma pool_chunk_renders pool format sha c i st :
  serves text n pool → Index c = f64_of_Z i → 0 <= i < 4096 → in_range c → faults (world st) = [] →
  ∃ path st', pool_chunk cv pool format sha false c st = (Returned (Ok path), st') ∧
    path ∈ outputs (scratchDir cv) i ∧ default "" (files (world st') !! path) = chunk_text text c ∧
    left_by cv all_fit [c] i st st'.
Proof.
  intros [_ Hr _] Hi Hr4 [Hs He] Hnil. unfold pool_chunk, cached_chunk, mbind, m_bind, mret, m_ret. cbv iota beta.
  change (negb (String.eqb "" "")) with false. cbv iota beta. unfold io. rewrite Hr by done. cbn.
  assert (Worker.chunk_path (scratchDir cv) c ∈ outputs (scratchDir cv) i) as Hin.
  { rewrite (chunk_path_whole _ c i) by done. apply list_elem_of_fmap_2. constructor. }
  eexists _, _. split; [reflexivity|]. split; [exact Hin|]. cbn. split; [by rewrite lookup_insert_eq|].
  split_and!; [|done|done|done].
  intros p Hp. cbn. rewrite lookup_insert_ne; [done|]. intros <-. apply (Hp i); [cbn; lia|done].
Qed.

(** The plan that is rendered: for the pages the pool reports. *)
Definition pool_plan (pr : ProbeResult) : ChunkPlan :=
  let plan := Planner.PlanChunks pr (effective_max_pages cv pr) (MaxMBPerChunk (settings cv)) in
  if negb (n =? TotalPages plan)
  then Planner.PlanChunks (mkProbe n (Format pr) [] (SizeBytes pr)) (effective_max_pages cv pr) (MaxMBPerChunk (settings cv))
  else plan.

Lemma pool_plan_covers pr :
  1 <= PageCount pr < 2 ^ 62 → 1 <= n < 2 ^ 62 →
  NaturalSeams pr = [] ∨ Planner.seams_cover 1 (PageCount pr) (NaturalSeams pr) →
  covers 1 n (Chunks (pool_plan pr)) ∧ numbered 0 (Chunks (pool_plan pr)).
Proof.
  intros Hpr Hn Hseams. unfold pool_plan.
  destruct (Planner.plan_covers_indexed pr (effective_max_pages cv pr) (MaxMBPerChunk (settings cv)) Hpr Hseams)
    as (Hcov & Htot & Hidx).
  destruct (Z.eqb_spec n (TotalPages (Planner.PlanChunks pr (effective_max_pages cv pr) (MaxMBPerChunk (settings cv))))) as [->|_].
  - rewrite Htot. by split.
  - destruct (Planner.plan_covers_indexed (mkProbe n (Format pr) [] (SizeBytes pr)) (effective_max_pages cv pr)
      (MaxMBPerChunk (settings cv)) Hn (or_introl eq_refl)) as (Hc & _ & Hi). by split.
Qed.

Lemma replan_reported pool pr :
  serves text n pool →
  let plan := Planner.PlanChunks pr (effective_max_pages cv pr) (MaxMBPerChunk (settings cv)) in
  default plan (replan cv pool pr (effective_max_pages cv pr) plan) = pool_plan pr.
Proof. intros [Hp _ _]. unfold replan, pool_plan. rewrite Hp. cbn [andb]. by destruct (negb _). Qed.

(** A dispatched pool: made, planned for, used and closed. *)
Lemma dispatch_pool pool format plan eff pr st :
  new_pool cv (Pool.ForkAfterLoadEnabled (settings cv) format) format (pool_size cv format plan) (world st) = (Ok pool, world st) →
  serves text n pool →
  ∃ st1, world st1 = world st ∧ cnt st1 = cnt st ∧
  ∀ ps st2, render_all (pool_chunk cv pool format "" false) (Chunks (default plan (replan cv pool pr eff plan))) st1 =
      (Returned (Ok ps), st2) →
    dispatchPool cv format plan eff pr "" false st = (Returned (Ok ps, default plan (replan cv pool pr eff plan)), st2).
Proof.
  intros Hnew [_ _ Hclose]. unfold dispatchPool, mbind, m_bind, mret, m_ret, io. rewrite Hnew. cbn [world].
  destruct (replan cv pool pr eff plan) as [plan'|]; cbn [default].
  all: eexists; split; [|split]; [| |intros ps st2 Hrun; cbn; unfold mret, m_ret; rewrite Hrun, Hclose; by destruct st2].
  all: done.
Qed.

(** With a pool and without a cache the job is the rendering of the pool's plan
    and the merge. *)
Lemma job_renders_pool pool pr st :
  Types.Cache (options cv) && Cache.Enabled (cache cv) = false →
  Probe.Probe (settings cv) (inputPath cv) (reqFormat cv) (world st) = (Ok pr, world st) →
  let plan := Planner.PlanChunks pr (effective_max_pages cv pr) (MaxMBPerChunk (settings cv)) in
  Pool.PoolModeAvailable (environ cv) && (PoolMinChunks (settings cv) <=? Z.of_nat (length (Chunks plan))) = true →
  new_pool cv (Pool.ForkAfterLoadEnabled (settings cv) (Format pr)) (Format pr) (pool_size cv (Format pr) plan) (world st) =
    (Ok pool, world st) →
  serves text n pool →
  ∃ st1, world st1 = world st ∧ cnt st1 = mkCounters 0 0 0 ∧
  ∀ ps st2, render_all (pool_chunk cv pool (Format pr) "" false) (Chunks (pool_plan pr)) st1 = (Returned (Ok ps), st2) →
    ConvertJob cv st = merge_and_finish cv ps "" false (tick st) st2.
Proof.
  intros Hcache Hprobe plan Hpool Hnew Hsv.
  assert (∃ st0, world st0 = world st ∧ cnt st0 = mkCounters 0 0 0 ∧ ∀ ps p st2,
    dispatchPool cv (Format pr) plan (effective_max_pages cv pr) pr "" false st0 = (Returned (Ok ps, p), st2) →
    ConvertJob cv st = merge_and_finish cv ps "" false (tick st) st2) as (st0 & Hw0 & Hc0 & Hjob).
  { eexists. split; [|split]; [| |intros ps p st2 Hrun].
    3:{ unfold ConvertJob. cbv zeta. rewrite Hcache. cbn [andb]. etrans; [by eapply bind_returned|]. cbv beta iota.
        etrans; [by eapply bind_returned|]. cbv beta. change (negb (String.eqb "" "")) with false. cbv iota.
        unfold convert_document. etrans; [eapply bind_returned; unfold io; cbn [world]; by rewrite Hprobe|].
        cbv beta iota zeta. etrans; [by eapply bind_returned|]. cbv beta. fold plan. rewrite Hpool.
        etrans; [eapply bind_returned; etrans; [eapply bind_returned; exact Hrun|]; reflexivity|]. done. }
    all: done. }
  rewrite <- Hw0 in Hnew.
  destruct (dispatch_pool pool (Format pr) plan (effective_max_pages cv pr) pr st0 Hnew Hsv) as (st1 & Hw1 & Hc1 & Hdisp).
  pose proof (replan_reported pool pr Hsv) as Hre. cbv zeta in Hre. fold plan in Hre. rewrite Hre in Hdisp.
  exists st1. split; [congruence|]. split; [congruence|]. intros ps st2 Hrun. by eapply Hjob, Hdisp.
Qed.

(** A document that is converted without a cache by a pool that serves its [n]
    pages, where [w] is what there is when the pool is started. *)
Record pool_job (pool : PoolOps) (pr : ProbeResult) (w : World) : Prop := {
  pj_cache : Types.Cache (options cv) && Cache.Enabled (cache cv) = false;
  pj_estimate : 1 <= PageCount pr < 2 ^ 62;
  pj_pages : 1 <= n < 2 ^ 62;
  pj_seams : NaturalSeams pr = [] ∨ Planner.seams_cover 1 (PageCount pr) (NaturalSeams pr);
  pj_pool : Pool.PoolModeAvailable (environ cv) &&
    (PoolMinChunks (settings cv) <=? Z.of_nat (length (planned cv pr))) = true;
  pj_new : new_pool cv (Pool.ForkAfterLoadEnabled (settings cv) (Format pr)) (Format pr)
    (pool_size cv (Format pr) (Planner.PlanChunks pr (effective_max_pages cv pr) (MaxMBPerChunk (settings cv)))) w = (Ok pool, w);
  pj_serves : serves text n pool;
  pj_names : Z.of_nat (length (Chunks (pool_plan pr))) <= 4096
}.

Lemma pool_conversion_outcome pool pr st :
  pool_job pool pr (world st) →
  Probe.Probe (settings cv) (inputPath cv) (reqFormat cv) (world st) = (Ok pr, world st) → faults (world st) = [] →
  ∃ res st', ConvertJob cv st = (Returned (Ok res), st') ∧
    sent (world st') = sent (world st) +:+ text 1 n ∧
    (ChunksRendered res, SubdivisionRetries res, CacheHits res) = (Z.of_nat (length (Chunks (pool_plan pr))), 0, 0) ∧
    faults (world st') = [].
Proof.
  intros [Hcache Hpr Hn Hseams Hpool Hnew Hsv Hk] Hprobe Hnil.
  destruct (pool_plan_covers pr Hpr Hn Hseams) as [Hcov Hidx].
  assert (Forall in_range (Chunks (pool_plan pr))) as Hin.
  { eapply Forall_impl; [exact (covers_in_range _ _ _ Hcov)|]. unfold in_range. simpl. lia. }
  destruct (job_renders_pool pool pr st Hcache Hprobe Hpool Hnew Hsv) as (st1 & Hw1 & Hc1 & Hjob).
  destruct (render_each cv text all_fit (pool_chunk cv pool (Format pr) "" false) (λ _, True) (λ _, True) (Chunks (pool_plan pr)))
    with (i := 0) (st := st1) as (ps & st2 & Hrun & Hps & Hst & Hf & Hs & Hnil2 & Hcnt);
    [done|intros c i st0 Hi Hr Hc _ Hnil0 _; by apply pool_chunk_renders|exact Hidx|lia|lia|done|by apply Forall_true|by rewrite Hw1|done|].
  rewrite (Hjob _ _ Hrun). rewrite <- Hps in Hidx, Hin, Hk |- *. rewrite length_fmap in Hk.
  assert (ps ≠ []) as Hne.
  { intros ->. inversion Hcov as [? ? Hhi Hnilcs|? ? ? ? ? ? ? Hcons]; [lia|]. simpl in Hps. congruence. }
  destruct (merge_sends cv text Htext Hqpdf Hconcat Hdst ps _ st2 "" (tick st) Hne Hidx ltac:(lia) Hin Hst Hnil2)
    as (res & st' & Hmerge & Hsent & Hres & Hnil').
  exists res, st'. split_and!; [exact Hmerge| | |done].
  - rewrite Hsent, Hs, Hw1, Hps. by rewrite (covers_text text Htext 1 n) by (done || lia).
  - rewrite Hres, Hcnt, Hc1, <- Hps. rewrite counted_all by (rewrite ?length_fmap; lia). cbv zeta.
    assert (∀ l, filter (λ c, whole all_fit c = false) l = []) as -> by (induction l; [done|by rewrite filter_cons_False]).
    by rewrite Z.add_0_l, Z.add_0_r.
Qed.

(** C5: when a pool serves the document the response is the whole of it, as many
    pages as the workers count, in order, whatever page count the probe had
    estimated: the plan is made again for the reported pages, each chunk of it is
    rendered once, nothing is halved and nothing comes from a cache. *)
Theorem pool_conversion_sends_document pool pr st :
  pool_job pool pr (world st) →
  Probe.Probe (settings cv) (inputPath cv) (reqFormat cv) (world st) = (Ok pr, world st) → faults (world st) = [] →
  ∃ res st', ConvertJob cv st = (Returned (Ok res), st') ∧
    sent (world st') = sent (world st) +:+ text 1 n ∧
    (ChunksRendered res, SubdivisionRetries res, CacheHits res) = (Z.of_nat (length (Chunks (pool_plan pr))), 0, 0).
Proof.
  intros Hjob Hprobe Hnil. destruct (pool_conversion_outcome pool pr st Hjob Hprobe Hnil) as (res & st' & Hr & Hs & Hc & _).
  by exists res, st'.
Qed.
End conversion.

(** ** A concrete conversion *)

(** Workers that count twelve pages and render them, whatever the probe says. *)
Definition writes (c : Chunk) (out : string) : IO unit :=
  fs ← get_files; set_files (<[out := page_text (PageStart c) (PageEnd c)]> fs).
Definition said_ok : gmap string any := {["status" := AStr "ok"]}.
Definition sample_backend : Backend := {|
  worker_spawn := λ _, Pooled.mkSpawn None None None None;
  worker_load := λ _, (None, Pool.RLine Pooled.loaded_line);
  worker_ask := λ c out, writes c out;; mret (None, None, Pool.RLine Pooled.ok_line);
  leader_spawn := Pooled.mkSpawn None None None None;
  leader_load := Leader.OResponse (<["page_count" := AFloat (f64_of_Z 12)]> said_ok);
  leader_ask := λ c out, writes c out;; mret (Leader.OResponse said_ok)
|}.

Section sample.
#[local] Instance plain_floats : FloatFormat := {| shortest_g := λ _, "NaN" |}.
#[local] Instance limit_one : Worker.Workers := sample_worker 1.
#[local] Instance sample_tables : UnicodeTables := {| unicode_to_lower := λ r, r |}.

Lemma sample_backend_works json_error : works json_error sample_backend page_text 12.
Proof.
  split.
  - intros i. vm_compute. reflexivity.
  - intros c out w _ _. exists Pooled.ok_line. split; [|reflexivity]. exists (Some said_ok).
    split; vm_compute; reflexivity.
  - reflexivity.
  - vm_compute. reflexivity.
  - intros c out w _ _. exists said_ok. split; [|reflexivity]. vm_compute. reflexivity.
Qed.

Definition pooled_conversion : Conversion :=
  let cv := sample_conversion in {|
  settings := sample_settings; cache := cache cv; requestID := "r1"; inputPath := inputPath cv;
  reqFormat := FormatDOCX; options := options cv; scratchDir := "/s"; dst := response; environ := ∅;
  new_pool := NewPool (λ _, "") sample_backend;
  qpdf := sample_qpdf; sha256_hex := sha256_hex cv; open_error := open_error cv; process_id := 7;
  random := random cv; copy_blocks := copy_blocks cv; now := now cv |}.

(** The metadata say 120 pages; the leader counts twelve, and twelve are sent. *)
Example pool_conversion_sends_document_witness :
  let cv := pooled_conversion in let _ := sample_readers 120 in
  ∃ res st', ConvertJob cv sample_state = (Returned (Ok res), st') ∧ sent (world st') = "abcdefghijkl" ∧
    (ChunksRendered res, SubdivisionRetries res, CacheHits res) = (1, 0, 0).
Proof.
  intros cv readers. set (pr := mkProbe 120 FormatDOCX [] 2).
  destruct (new_pool_serves (λ _, "") sample_backend page_text 12 true FormatDOCX
    (pool_size cv FormatDOCX (Planner.PlanChunks pr (effective_max_pages cv pr) (MaxMBPerChunk (settings cv))))
    (world sample_state) (sample_backend_works _)) as (pool & Hnew & Hsv); [vm_compute; discriminate|].
  assert (Z.of_nat (length (Chunks (pool_plan cv 12 pr))) = 1) as Hk by (vm_compute; reflexivity).
  pose proof (pool_conversion_sends_document cv page_text 12 page_texts_sample sample_qpdf_ok
    (sample_qpdf_concatenates cv eq_refl) (λ _, eq_refl) pool pr sample_state) as Hsend.
  rewrite Hk in Hsend. apply Hsend; try reflexivity.
  split; try reflexivity; try (cbn; lia).
  - by left.
  - exact Hnew.
  - exact Hsv.
  - rewrite Hk. lia.
Defined.
End sample.
