(* ===== verification/Repeat.v ===== *)
(** * What the cache is for: the same document again

    With the cache on and no system call failing, a conversion that succeeds
    leaves in the cache exactly what it sent, and from then on a conversion of the
    same bytes, by whatever request, is answered with exactly that from the cache,
    without a probe, a worker or a merge ([repeat_is_served_from_cache]). *)
From Stdlib Require Import ZArith Lia Bool SpecFloat Ascii String.
From stdpp Require Import base tactics list gmap strings.
From S2P Require Import Prelude GoFloat GoString GoFmt GoTime Types OErrors Config FS Qpdf Orchestrator.
From S2P Require Cache Planner Probe Progress Worker Pool EndToEnd PoolConversion.
From stdpp Require Import list.
Local Open Scope Z_scope.

(** ** No failure comes from nowhere *)

(** Nothing outside makes a later system call of the program fail. *)
Record outside_steady `{Worker.Workers} (cv : Conversion) : Prop := {
  os_exec : ∀ argv limit, steady (Worker.exec argv limit);
  os_new_pool : ∀ forked format n, steady (new_pool cv forked format n);
  os_pool : ∀ forked format n w pool w', new_pool cv forked format n w = (Ok pool, w') →
    (∀ c dir, steady (pool_render pool c dir)) ∧ steady (pool_close pool)
}.

Lemma steady_copy_blocks dst bs : steady (Cache.copy_blocks dst bs).
Proof. induction bs as [|b bs IH]; simpl; steady. Qed.

Lemma steady_atomic_write env target source : steady (Cache.AtomicWrite env target source).
Proof. unfold Cache.AtomicWrite, Cache.copyFile. pose proof steady_copy_blocks. steady. Qed.

Lemma steady_put_chunk env m sha p : steady (Cache.PutChunk env m sha p).
Proof. unfold Cache.PutChunk. pose proof steady_atomic_write. steady. Qed.

Lemma steady_concat_to_file q paths out : steady (ConcatToFile q paths out).
Proof. unfold ConcatToFile. pose proof steady_concat_streaming. steady. Qed.

(** A pipeline step that uses up no fault when there is none. *)
Definition msteady {A} (m : M A) : Prop := mkeeps (λ w, faults w = []) m.

Lemma msteady_bind {A B} (m : M A) (f : A → M B) : msteady m → (∀ a, msteady (f a)) → msteady (m ≫= f).
Proof. apply mkeeps_bind. Qed.
Lemma msteady_ret {A} (a : A) : msteady (mret a).
Proof. by intros st. Qed.
Lemma msteady_io {A} (m : IO A) : steady m → msteady (io m).
Proof. apply mkeeps_io. Qed.
Lemma msteady_io_ended {A} (m : IO (ended A)) : steady m → msteady (io_ended m).
Proof. apply mkeeps_io_ended. Qed.

Lemma msteady_render_all render chunks : (∀ c, msteady (render c)) → msteady (render_all render chunks).
Proof.
  intros Hr. induction chunks as [|c cs IH]; simpl; [apply msteady_ret|]. apply msteady_bind; [done|]. intros [p|e]; [|apply msteady_ret].
  apply msteady_bind; [done|]. intros []; apply msteady_ret.
Qed.

Section steady_pipeline.
Context `{FloatFormat} `{GoArch} `{Worker.Workers} `{UnicodeTables} `{Probe.Readers} (cv : Conversion).
Context (Hsteady : outside_steady cv).

#[local] Hint Resolve msteady_ret msteady_io msteady_io_ended steady_put_chunk steady_concat_to_file : steady.

Lemma msteady_count f : msteady (count f).
Proof. by intros st. Qed.
Lemma msteady_update u : msteady (update_progress cv u).
Proof. by intros st. Qed.
Lemma msteady_tick : msteady (next_tick cv).
Proof. by intros st. Qed.
#[local] Hint Resolve msteady_count msteady_update msteady_tick : steady.

Lemma msteady_put key path : msteady (put_chunk cv key path).
Proof. unfold put_chunk. apply msteady_bind; [apply msteady_tick|]. intros env. eauto with steady. Qed.

Lemma msteady_cached active key : msteady (cached_chunk cv active key).
Proof.
  unfold cached_chunk, Cache.GetChunk, Cache.get. destruct active; [|apply msteady_ret]. apply msteady_io. steady.
Qed.

Lemma steady_render_one_shot st chunk input format dir : steady (Worker.RenderChunkOneShot st chunk input format dir).
Proof.
  unfold Worker.RenderChunkOneShot, Worker.RunWorker, Worker.runWorkerBin. pose proof (os_exec _ Hsteady). steady.
Qed.

Lemma steady_probe : steady (Probe.Probe (settings cv) (inputPath cv) (reqFormat cv)).
Proof.
  pose proof (os_exec _ Hsteady). unfold Probe.Probe, Probe.ProbeLite, Probe.lite_docx, Probe.lite_pptx, Probe.ooxmlCount,
    Probe.pptxSlideCountFromZip, Probe.qpdfPageCount, Probe.os_size, Probe.zip_open, Probe.probe_retry, Probe.run_probe,
    Worker.RunWorker, Worker.runWorkerBin. steady.
Qed.

Lemma msteady_rendered store path : msteady (chunk_rendered cv store path).
Proof.
  unfold chunk_rendered. repeat (apply msteady_bind; [|intros ?]); eauto with steady.
  destruct store; [apply msteady_bind; [apply msteady_put|]; intros ?|]; apply msteady_ret.
Qed.
Lemma msteady_retry fuel format sha active : ∀ depth chunk,
  msteady (renderWithRetry cv fuel format sha active depth chunk).
Proof.
  induction fuel as [|fuel IH]; intros depth chunk; [by intros st|]. cbn [renderWithRetry].
  apply msteady_bind; [apply msteady_cached|]. intros cached. destruct (negb _).
  { apply msteady_bind; [apply msteady_count|]. intros _. apply msteady_ret. }
  apply msteady_bind; [apply msteady_io, steady_render_one_shot|]. intros [path|e]; [apply msteady_rendered|].
  destruct (OOM e); [|apply msteady_ret]. apply msteady_bind; [apply msteady_count|]. intros _.
  destruct (Planner.Subdivide chunk) as [|c cs]; [apply msteady_ret|]. apply msteady_bind; [by apply msteady_render_all|].
  intros [ps|e']; [|apply msteady_ret]. apply msteady_bind; [apply msteady_io_ended, steady_concat_to_file|].
  intros r. apply msteady_ret.
Qed.

Lemma msteady_one_shot format plan sha active : msteady (dispatchOneShot cv format plan sha active).
Proof.
  apply msteady_bind; [apply msteady_update|]. intros _. apply msteady_render_all. intros c. apply msteady_retry.
Qed.

Lemma msteady_pool_chunk pool format sha active c :
  (∀ c dir, steady (pool_render pool c dir)) → msteady (pool_chunk cv pool format sha active c).
Proof.
  intros Hp. unfold pool_chunk. apply msteady_bind; [apply msteady_cached|]. intros cached. destruct (negb _).
  { repeat (apply msteady_bind; [eauto with steady|intros _]). apply msteady_ret. }
  apply msteady_bind; [by apply msteady_io|]. intros [path|e]; [|apply msteady_ret].
  apply msteady_bind; [apply msteady_count|]. intros _. apply msteady_bind.
  - destruct active; [|apply msteady_ret]. apply msteady_bind; [apply msteady_put|intros _; apply msteady_ret].
  - intros _. apply msteady_bind; [apply msteady_update|intros _; apply msteady_ret].
Qed.

Lemma msteady_pool format plan n pr sha active : msteady (dispatchPool cv format plan n pr sha active).
Proof.
  intros st Hst. unfold dispatchPool, mbind at 1, m_bind at 1, io at 1.
  pose proof (os_new_pool _ Hsteady (Pool.ForkAfterLoadEnabled (settings cv) format) format (pool_size cv format plan) (world st) Hst) as Hw.
  destruct (new_pool cv _ _ _ (world st)) as [[pool|e] w1] eqn:Hnew; [|done].
  destruct (os_pool _ Hsteady _ _ _ _ _ _ Hnew) as [Hr Hc]. cbn [snd] in Hw.
  match goal with |- context [(?m ≫= ?f) ?x] => apply (msteady_bind m f); [apply msteady_update| |exact Hw] end.
  intros _. apply msteady_bind.
  { destruct (replan cv pool pr n plan); [|apply msteady_ret].
    apply msteady_bind; [apply msteady_update|intros _; apply msteady_ret]. }
  intros plan'. apply msteady_bind; [apply msteady_render_all; intros c; by apply msteady_pool_chunk|]. intros r.
  apply msteady_bind; [by apply msteady_io|]. intros _. apply msteady_ret.
Qed.
End steady_pipeline.

(** ** A conversion fills the cache *)

Section repeat.
Context `{FloatFormat} `{GoArch} `{Worker.Workers} `{UnicodeTables} `{Probe.Readers}.

Lemma steady_rename_ok p q w c :
  faults w = [] → files w !! p = Some c →
  ∃ w', os_rename p q w = (true, w') ∧ files w' = <[q := c]> (delete p (files w)) ∧ sent w' = sent w ∧ faults w' = [].
Proof.
  intros Hnil Hc. unfold os_rename, mbind, io_bind, faulty, get_files, set_files, mret, io_ret. rewrite Hnil. cbn.
  rewrite Hc. eexists. by split_and!.
Qed.

(** The merge of a conversion with the cache on stores what it sends. *)
Lemma merge_stores cv rds sha started st res st' :
  to_client cv → qpdf_ok (qpdf cv) → Cache.Enabled (cache cv) = true → faults (world st) = [] →
  merge_and_finish cv rds sha true started st = (Returned (Ok res), st') →
  ∃ body, sent (world st') = sent (world st) +:+ body ∧
    files (world st') !! Cache.finalPath (cache cv) sha = Some body.
Proof.
  intros Hdst Hq Hen Hnil Hrun. unfold merge_and_finish, open_cache_temp, next_tick in Hrun.
  unfold mbind, m_bind, mret, m_ret, io, update_progress, io_ended in Hrun. cbn [world] in Hrun.
  set (env := cache_env cv st) in Hrun. set (tee := Cache.tempName env (Cache.finalPath (cache cv) sha)).
  assert (∃ w1, Cache.FinalTempPath env (cache cv) sha (world st) = (Some tee, w1) ∧ files w1 = files (world st) ∧
    sent w1 = sent (world st) ∧ faults w1 = []) as (w1 & Ht & Hf1 & Hs1 & Hn1).
  { unfold Cache.FinalTempPath. rewrite Hen. unfold mbind, io_bind, mret, io_ret, os_mkdir_all, faulty. rewrite Hnil.
    eexists. by split_and!. }
  rewrite Ht in Hrun. cbn [default world] in Hrun. change (id tee) with tee in Hrun.
  pose proof (concat_streaming_spec (qpdf cv) (sort_by_index rds).*2 (dst cv) tee w1 Hq (λ _, tc_temp _ Hdst env sha)) as Hm.
  pose proof (steady_concat_streaming (qpdf cv) (sort_by_index rds).*2 (dst cv) tee w1 Hn1) as Hn2.
  destruct (qpdf_run (qpdf cv) (concat_argv _) (files w1)) as [[out err] rc].
  destruct (ConcatStreaming (qpdf cv) _ (dst cv) tee w1) as [[[e|]|] w2]; [| |done].
  { exfalso. unfold abandon_merge, mbind, m_bind, io, mret, m_ret in Hrun.
    destruct (String.eqb tee ""); [done|]. cbn in Hrun. by destruct (os_remove tee w2). }
  destruct Hm as ((_ & d & _ & Hs2 & _ & -> & Htee) & _). rewrite !(tc_sent _ Hdst) in Hs2.
  assert (tee ≠ "") as Hne by (unfold tee, Cache.tempName; by destruct (Cache.finalPath (cache cv) sha)).
  specialize (Htee Hne). exists out.
  unfold finish_conversion, mbind, m_bind, update_progress, snapshot, read_clock, mret, m_ret in Hrun.
  rewrite (proj2 (String.eqb_neq tee "") Hne) in Hrun. unfold io, Cache.FinalizeFinal in Hrun. rewrite Hen in Hrun.
  unfold mbind, io_bind in Hrun. cbn [world] in Hrun.
  pose proof (os_open_spec tee w2) as Ho. pose proof (steady_os_open tee w2 Hn2) as Hn3.
  destruct (os_open tee w2) as [c w3]. cbn [snd] in Hn3. destruct Ho as (Hf3 & Hs3 & _).
  destruct (steady_rename_ok tee (Cache.finalPath (cache cv) sha) w3 out Hn3) as (w4 & Hren & Hf4 & Hs4 & _); [by rewrite Hf3|].
  rewrite Hren in Hrun. cbn in Hrun. injection Hrun as _ <-. cbn. rewrite Hs4, Hs3, Hs2, Hs1. split; [done|].
  by rewrite Hf4, lookup_insert_eq.
Qed.

(** The job after the hash of its input. *)
Lemma job_hashed cv st doc :
  Types.Cache (options cv) = true → Cache.Enabled (cache cv) = true →
  faults (world st) = [] → files (world st) !! inputPath cv = Some doc →
  ∃ st1, world st1 = world st ∧ ConvertJob cv st = convert_hashed cv (sha256_hex cv doc) true (tick st) st1.
Proof.
  intros Ho He Hnil Hdoc. unfold ConvertJob. rewrite Ho, He. cbn [andb].
  assert (fileSHA256 cv (inputPath cv) (world st) = (Ok (sha256_hex cv doc), world st)) as Hh.
  { unfold fileSHA256, os_open, faulty, get_files, mbind, io_bind, mret, io_ret. rewrite Hnil. cbn. by rewrite Hdoc. }
  eexists (mkSt (world st) (mkCounters 0 0 0) (progress st) (S (tick st))). split; [done|].
  etrans; [eapply EndToEnd.bind_returned; unfold io; cbn [world]; rewrite Hh; reflexivity|]. reflexivity.
Qed.

Lemma get_final m sha w :
  Cache.Enabled m = true →
  Cache.GetFinal m sha w = (if bool_decide (is_Some (files w !! Cache.finalPath m sha)) then Cache.finalPath m sha else "", w).
Proof.
  intros He. unfold Cache.GetFinal, Cache.get. rewrite He. unfold os_exists, mbind, io_bind, mret, io_ret, get_files. done.
Qed.

Lemma final_path_ne m sha : Cache.Enabled m = true → Cache.key_ok sha → Cache.finalPath m sha ≠ "".
Proof.
  intros He Hk Hf. rewrite (proj1 (Cache.cache_paths m sha He Hk)) in Hf.
  apply (f_equal String.length) in Hf. rewrite <- !bytes_length, !bytes_app, !length_app in Hf. cbn in Hf. lia.
Qed.

(** Serving an entry sends it and changes no file. *)
Lemma serve_cached_ok cv final started st body :
  to_client cv → (∀ c, foldr String.append "" (copy_blocks cv c) = c) →
  faults (world st) = [] → files (world st) !! final = Some body →
  ∃ res st', serve_cached cv final started st = (Returned (Ok res), st') ∧
    (ChunksRendered res, SubdivisionRetries res, CacheHits res) = (0, 0, 1) ∧
    sent (world st') = sent (world st) +:+ body ∧ faults (world st') = [] ∧
    ∀ p, ¬ sink_owns (dst cv) p → files (world st') !! p = files (world st) !! p.
Proof.
  intros Hdst Hb Hnil Hfinal. unfold serve_cached, mbind, m_bind, update_progress, io, mret, m_ret, read_clock. cbn [world].
  unfold streamFile, os_open, faulty, get_files, mbind, io_bind, mret, io_ret. rewrite Hnil. cbn [world]. rewrite Hfinal.
  pose proof (copy_out_spec (dst cv) "" (copy_blocks cv body) (world st) (λ F, False_ind _ (F eq_refl)) (λ F, False_ind _ (F eq_refl))) as Hco.
  destruct (copy_out (tee_write (dst cv) "") (copy_blocks cv body) (world st)) as [unread w2].
  destruct Hco as ((d & _ & [Hd Hfr] & _ & Hall) & Hnf). destruct (Hnf Hnil) as [-> Hnil2]. destruct (Hall eq_refl) as [-> _].
  rewrite !(tc_sent _ Hdst), Hb in Hd. eexists _, _. split; [reflexivity|]. cbn. split_and!; [done|done|done|].
  intros p Hp. apply Hfr; [done|by right].
Qed.
(** A miss ends in the merge, with nothing sent and nothing failing before. *)
Lemma document_stores cv sha started st res st' :
  to_client cv → qpdf_ok (qpdf cv) → outside_quiet cv → outside_steady cv → Cache.Enabled (cache cv) = true →
  faults (world st) = [] → convert_document cv sha true started st = (Returned (Ok res), st') →
  ∃ body, sent (world st') = sent (world st) +:+ body ∧
    files (world st') !! Cache.finalPath (cache cv) sha = Some body.
Proof.
  intros Hdst Hq Hquiet Hst He Hnil Hrun. unfold convert_document, mbind at 1, m_bind at 1 in Hrun.
  pose proof (mquiet_io _ (quiet_probe cv Hquiet) st) as [Hp _].
  pose proof (msteady_io _ (steady_probe cv Hst) st Hnil) as Hn1.
  destruct (io (Probe.Probe _ _ _) st) as [[[pr|e]|] st1]; [|done|done]. cbn [snd] in Hp, Hn1.
  unfold mbind at 1, m_bind at 1, update_progress at 1 in Hrun.
  match type of Hrun with (?m ≫= ?k) ?x = _ => set (st2 := x) in Hrun;
    change (world st1) with (world st2) in Hp, Hn1;
    assert (mquiet m ∧ msteady m) as [Hm Hms]; [|unfold mbind at 1, m_bind at 1 in Hrun;
      specialize (Hm st2); specialize (Hms st2 Hn1); destruct (m st2) as [[[rds|e]|] st3]; [|done|done]] end.
  - destruct (_ && _); [|split; [by apply mquiet_one_shot|by apply msteady_one_shot]]. split.
    + apply mquiet_bind; [by apply mquiet_pool|]. by intros [r p].
    + apply msteady_bind; [by apply msteady_pool|]. intros [r p]. apply msteady_ret.
  - cbn [snd] in Hm, Hms. destruct Hm as [Hs _].
    destruct (merge_stores cv rds sha started st3 res st' Hdst Hq He Hms Hrun) as (body & Hb & Hf).
    exists body. by rewrite Hb, Hs, Hp.
Qed.

(** A job whose final entry stands serves it. *)
Lemma hit_served cv st doc body :
  Types.Cache (options cv) = true → Cache.Enabled (cache cv) = true → Cache.key_ok (sha256_hex cv doc) →
  to_client cv → (∀ c, foldr String.append "" (copy_blocks cv c) = c) →
  faults (world st) = [] → files (world st) !! inputPath cv = Some doc →
  files (world st) !! Cache.finalPath (cache cv) (sha256_hex cv doc) = Some body →
  ∃ res st', ConvertJob cv st = (Returned (Ok res), st') ∧
    (ChunksRendered res, SubdivisionRetries res, CacheHits res) = (0, 0, 1) ∧
    sent (world st') = sent (world st) +:+ body ∧ faults (world st') = [] ∧
    ∀ p, ¬ sink_owns (dst cv) p → files (world st') !! p = files (world st) !! p.
Proof.
  intros Ho He Hk Hdst Hb Hnil Hdoc Hfinal.
  destruct (job_hashed cv st doc Ho He Hnil Hdoc) as (st1 & Hw & ->).
  unfold convert_hashed, mbind, m_bind, io. rewrite get_final by done. rewrite Hw, Hfinal.
  rewrite bool_decide_eq_true_2 by done. rewrite (proj2 (String.eqb_neq _ _) (final_path_ne _ _ He Hk)). cbn [negb].
  destruct (serve_cached_ok cv (Cache.finalPath (cache cv) (sha256_hex cv doc)) (tick st)
    (mkSt (world st) (cnt st1) (progress st1) (tick st1)) body Hdst Hb Hnil Hfinal) as (res & st' & Hr & Hres).
  by exists res, st'.
Qed.

(** C12: with the cache on, and when no system call fails, a conversion that
    succeeds has stored exactly what it sent; and any later conversion of the same
    bytes, of whatever request, is answered with exactly the same document, from
    the cache and without rendering anything, for as long as the entry stands,
    which such conversions leave in place. *)
Theorem repeat_is_served_from_cache cv st doc res st1 :
  Types.Cache (options cv) = true → Cache.Enabled (cache cv) = true → Cache.key_ok (sha256_hex cv doc) →
  to_client cv → (∀ c, foldr String.append "" (copy_blocks cv c) = c) → qpdf_ok (qpdf cv) →
  outside_quiet cv → outside_steady cv → faults (world st) = [] → files (world st) !! inputPath cv = Some doc →
  ConvertJob cv st = (Returned (Ok res), st1) →
  let entry := Cache.finalPath (cache cv) (sha256_hex cv doc) in
  ∃ body, sent (world st1) = sent (world st) +:+ body ∧ files (world st1) !! entry = Some body ∧
  ∀ cv2 st2,
    cache cv2 = cache cv → sha256_hex cv2 = sha256_hex cv → Types.Cache (options cv2) = true →
    to_client cv2 → (∀ c, foldr String.append "" (copy_blocks cv2 c) = c) →
    faults (world st2) = [] → files (world st2) !! inputPath cv2 = Some doc → files (world st2) !! entry = Some body →
    ∃ res2 st3, ConvertJob cv2 st2 = (Returned (Ok res2), st3) ∧
      (ChunksRendered res2, SubdivisionRetries res2, CacheHits res2) = (0, 0, 1) ∧
      sent (world st3) = sent (world st2) +:+ body ∧ files (world st3) !! entry = Some body.
Proof.
  intros Ho He Hk Hdst Hb Hq Hquiet Hst Hnil Hdoc Hrun entry.
  assert (∃ body, sent (world st1) = sent (world st) +:+ body ∧ files (world st1) !! entry = Some body) as (body & Hs & Hf).
  { destruct (files (world st) !! entry) as [old|] eqn:Hold.
    - destruct (hit_served cv st doc old Ho He Hk Hdst Hb Hnil Hdoc Hold) as (res' & st' & Hr & _ & Hs & _ & Hfr).
      rewrite Hr in Hrun. injection Hrun as _ <-. exists old. split; [done|]. rewrite Hfr; [done|by apply tc_final].
    - destruct (job_hashed cv st doc Ho He Hnil Hdoc) as (st0 & Hw & Hjob). rewrite Hjob in Hrun.
      unfold convert_hashed, mbind, m_bind, io in Hrun. rewrite get_final in Hrun by done. fold entry in Hrun.
      rewrite Hw, Hold in Hrun. rewrite bool_decide_eq_false_2 in Hrun by (by intros [? ?]). cbn [negb String.eqb] in Hrun.
      by apply document_stores in Hrun. }
  exists body. split_and!; [done|done|]. intros cv2 st2 Hc Hh Ho2 Hdst2 Hb2 Hnil2 Hdoc2 Hf2.
  destruct (hit_served cv2 st2 doc body) as (res2 & st3 & Hr & Hres & Hs2 & _ & Hfr); rewrite ?Hc, ?Hh; try done.
  exists res2, st3. split_and!; [done|done|done|]. rewrite Hfr; [done|]. unfold entry. rewrite <- Hc. by apply tc_final.
Qed.
End repeat.

(** ** A concrete repeat *)

Section sample.
#[local] Instance plain_floats : FloatFormat := {| shortest_g := λ _, "NaN" |}.
#[local] Instance limit_one : Worker.Workers := sample_worker 1.
#[local] Instance sample_tables : UnicodeTables := {| unicode_to_lower := λ r, r |}.

(** The sample conversion with a cache; and another request for the same file. *)
Definition cached_conversion (rid dir : string) : Conversion :=
  let cv := sample_conversion in {|
  settings := sample_settings; cache := Cache.mkManager "/c" "25.1"; requestID := rid; inputPath := inputPath cv;
  reqFormat := FormatDOCX; options := options cv; scratchDir := dir; dst := response; environ := environ cv;
  new_pool := new_pool cv; qpdf := sample_qpdf; sha256_hex := sha256_hex cv; open_error := open_error cv; process_id := 7;
  random := random cv; copy_blocks := copy_blocks cv; now := now cv |}.

Lemma sample_steady rid dir : outside_steady (cached_conversion rid dir).
Proof.
  split.
  - intros argv limit. cbn [limit_one sample_worker Worker.exec]. destruct (cut _ _) as [a b].
    destruct (parse_int a), (parse_int b); try apply steady_ret. destruct (_ <? _); steady.
  - intros forked format n w Hw. exact Hw.
  - by intros forked format n w pool w' Hp.
Qed.

Lemma sample_quiet rid dir : outside_quiet (cached_conversion rid dir).
Proof.
  split.
  - intros argv limit. cbn [limit_one sample_worker Worker.exec]. destruct (cut _ _) as [a b].
    destruct (parse_int a), (parse_int b); try done. by destruct (_ <? _).
  - done.
  - by intros forked format n w pool w' Hp.
Qed.

Lemma repeat_is_served_from_cache_witness :
  let _ := sample_readers 2 in
  ∃ res2 st3,
    ConvertJob (cached_conversion "r2" "/t") (ConvertJob (cached_conversion "r1" "/s") sample_state).2 = (Returned (Ok res2), st3) ∧
    (ChunksRendered res2, SubdivisionRetries res2, CacheHits res2) = (0, 0, 1) ∧ sent (world st3) = "abab".
Proof.
  intros readers. set (cv := cached_conversion "r1" "/s").
  assert (sent (world (ConvertJob cv sample_state).2) = "ab") as Hsent by (vm_compute; reflexivity).
  assert (faults (world (ConvertJob cv sample_state).2) = []) as Hnil by (vm_compute; reflexivity).
  assert (files (world (ConvertJob cv sample_state).2) !! "/s/in.docx" = Some "PK") as Hdoc by (vm_compute; reflexivity).
  destruct (ConvertJob cv sample_state) as [r st1] eqn:Hrun. cbn [snd] in *.
  assert (∃ res, r = Returned (Ok res)) as [res ->].
  { assert (match (ConvertJob cv sample_state).1 with Returned (Ok _) => true | _ => false end = true) as Hok
      by (vm_compute; reflexivity).
    rewrite Hrun in Hok. cbn in Hok. destruct r as [[res|e]|]; [exists res; reflexivity|discriminate|discriminate]. }
  destruct (repeat_is_served_from_cache cv sample_state "PK" res st1) as (body & Hs & Hf & Hrep);
    try reflexivity; try exact Hrun.
  - apply response_to_client. reflexivity.
  - intros c. apply string_app_empty_r.
  - exact sample_qpdf_ok.
  - apply sample_quiet.
  - apply sample_steady.
  - destruct (Hrep (cached_conversion "r2" "/t") st1) as (res2 & st3 & Hr2 & Hres2 & Hs3 & _); try reflexivity; try assumption.
    + apply response_to_client. reflexivity.
    + intros c. apply string_app_empty_r.
    + exists res2, st3. split; [exact Hr2|]. split; [exact Hres2|]. rewrite Hs3. rewrite Hsent in Hs |- *. cbn in Hs.
      rewrite <- Hs. reflexivity.
Defined.
End sample.
