(* ===== verification/Transparent.v ===== *)
(** * The cache does not show

    A cache is honest when every entry holds what rendering would give: the chunk
    entries the pages of their key, the final entries whole documents.  Whichever
    entries it has, a conversion over an honest cache sends exactly the document,
    and leaves the cache honest, for this document and all others, with the
    document in it ([honest_cache_is_transparent]). *)
From Stdlib Require Import ZArith Lia Bool SpecFloat Ascii String.
From stdpp Require Import base tactics list gmap strings.
From S2P Require Import Prelude GoFloat GoString GoFmt GoTime Types OErrors Config FS Qpdf Orchestrator EndToEnd.
From S2P Require Cache Planner Probe Progress Worker Pool Repeat.
From stdpp Require Import list.
Local Open Scope Z_scope.

(** ** Honest caches *)

Section honest.
Context (m : Cache.Manager) (hash : string → string) (text : string → Z → Z → string) (count : string → Z).

(** Digests are hexadecimal and do not collide. *)
Record digests : Prop := {
  dg_slash : ∀ x, Cache.key_ok (hash x);
  dg_colon : ∀ x, no_byte ":"%char (hash x);
  dg_inj : ∀ x y, hash x = hash y → x = y
}.
Context (Hhash : digests) (Hon : Cache.Enabled m = true).

(** The entries of the chunk [c] of the document [d], and of the whole of it. *)
Definition entry (d fmt : string) (c : Chunk) : string := Cache.chunkPath m (Planner.ChunkSHA256 hash c (hash d) fmt).
Definition final (d : string) : string := Cache.finalPath m (hash d).

Definition honest (fs : gmap string string) : Prop :=
  (∀ d fmt c t, in_range c → fs !! entry d fmt c = Some t → t = text d (PageStart c) (PageEnd c)) ∧
  (∀ d t, fs !! final d = Some t → t = text d 1 (count d)).

(** The paths below the cache's directory. *)
Definition in_cache (p : string) : Prop := ∃ t, p = below (Cache.version_root m) +:+ t.

Lemma entry_path d fmt c :
  entry d fmt c = below (Cache.version_root m) +:+ "chunks/" +:+ Planner.ChunkSHA256 hash c (hash d) fmt +:+ ".pdf".
Proof. apply Cache.cache_paths; [done|apply Hhash]. Qed.
Lemma final_path d : final d = below (Cache.version_root m) +:+ "final/" +:+ hash d +:+ ".pdf".
Proof. apply Cache.cache_paths; [done|apply Hhash]. Qed.
Lemma entry_in_cache d fmt c : in_cache (entry d fmt c).
Proof. eexists. apply entry_path. Qed.
Lemma final_in_cache d : in_cache (final d).
Proof. eexists. apply final_path. Qed.
Lemma temp_in_cache env p : in_cache p → in_cache (Cache.tempName env p).
Proof. intros [t ->]. unfold Cache.tempName. rewrite string_app_assoc. by eexists. Qed.

(** Entries of the same name are of the same pages of the same document. *)
Lemma same_entry d fmt c d' fmt' c' :
  in_range c → in_range c' → entry d fmt c = entry d' fmt' c' →
  d = d' ∧ PageStart c = PageStart c' ∧ PageEnd c = PageEnd c'.
Proof.
  intros [Hc He] [Hc' He'] Heq. rewrite !entry_path in Heq. apply (f_equal bytes) in Heq. rewrite !bytes_app in Heq.
  apply app_inv_head, app_inv_head in Heq. apply app_inv_tail in Heq. apply bytes_inj, (dg_inj Hhash) in Heq.
  apply Planner.chunk_key_input_injective in Heq as (Hd & Hs & Hp & _); try apply Hhash; try lia.
  by apply (dg_inj Hhash) in Hd.
Qed.
Lemma same_final d d' : final d = final d' → d = d'.
Proof.
  intros Heq. rewrite !final_path in Heq. apply (f_equal bytes) in Heq. rewrite !bytes_app in Heq.
  apply app_inv_head, app_inv_head in Heq. apply app_inv_tail in Heq. by apply bytes_inj, (dg_inj Hhash) in Heq.
Qed.
Lemma entry_not_final d fmt c d' : entry d fmt c ≠ final d'.
Proof.
  intros Heq. rewrite entry_path, final_path in Heq. apply (f_equal bytes) in Heq. rewrite !bytes_app in Heq.
  apply app_inv_head in Heq. discriminate Heq.
Qed.

(** A temporary name ends in random digits, an entry in [.pdf]. *)
Lemma temp_not_entry env p x :
  no_byte "."%char (Cache.random_hex env) → Cache.random_hex env ≠ "pdf" → Cache.tempName env p ≠ x +:+ ".pdf".
Proof.
  intros Hr Hne Heq. unfold Cache.tempName in Heq. rewrite <- !(string_app_assoc p), <- (string_app_assoc (p +:+ ".tmp.")) in Heq.
  change ("." +:+ Cache.random_hex env) with (String "."%char (Cache.random_hex env)) in Heq.
  change (x +:+ ".pdf") with (x +:+ String "."%char "pdf") in Heq.
  by apply last_sep_unique in Heq as [_ Hx].
Qed.
End honest.

(** ** Rendering over an honest cache *)

Section pipeline.
Context `{FloatFormat} `{GoArch} `{Worker.Workers} `{UnicodeTables} `{Probe.Readers} (cv : Conversion).
Context (text : string → Z → Z → string) (count : string → Z) (doc : string) (fits : Z → Z → bool).
#[local] Abbreviation m := (cache cv).
#[local] Abbreviation hash := (sha256_hex cv).
#[local] Abbreviation dir := (scratchDir cv).
#[local] Abbreviation pages d c := (text d (PageStart c) (PageEnd c)).
#[local] Abbreviation honest_now st := (honest m hash text count (files (world st))).

(** The cache is on; the random digits of its temporary names are digits; and its
    directory is apart from the scratch directory, which is apart from the input. *)
Record cache_in_use : Prop := {
  cu_on : Types.Cache (options cv) && Cache.Enabled m = true;
  cu_digests : digests hash;
  cu_random : ∀ k, no_byte "."%char (random cv k) ∧ random cv k ≠ "pdf";
  cu_blocks : ∀ c, foldr String.append "" (copy_blocks cv c) = c;
  cu_apart : ∀ p, in_cache m p → p ≠ inputPath cv ∧ ∀ i, p ∉ outputs dir i;
  cu_input : ∀ i, inputPath cv ∉ outputs dir i;
  cu_owns : ∀ p, in_cache m p → ¬ sink_owns (dst cv) p
}.
Context (Huse : cache_in_use).
Context (Hworker : worker_renders cv doc (text doc) fits) (Htext : page_texts (text doc)).
Context (Hqpdf : qpdf_ok (qpdf cv)) (Hconcat : qpdf_concatenates cv) (Hdst : to_client cv).

Lemma cache_on : Cache.Enabled m = true.
Proof. by destruct (andb_prop _ _ (cu_on Huse)). Qed.
#[local] Hint Resolve cache_on : core.

(** Nothing fails, the document lies at its path, the cache is honest. *)
Definition ready (st : St) : Prop :=
  faults (world st) = [] ∧ files (world st) !! inputPath cv = Some doc ∧ honest_now st.

(** From [st] to [st']: of the files outside the cache only those in [W] change,
    the right entries stay, and the cache stays honest. *)
Definition moves (W : string → Prop) (st st' : St) : Prop :=
  (∀ p, ¬ in_cache m p → ¬ W p → files (world st') !! p = files (world st) !! p) ∧
  (∀ fmt c, in_range c → files (world st) !! entry m hash doc fmt c = Some (pages doc c) →
     files (world st') !! entry m hash doc fmt c = Some (pages doc c)) ∧
  sent (world st') = sent (world st) ∧ faults (world st') = [] ∧ honest_now st'.

Lemma moves_same (W : string → Prop) st st' : ready st → world st' = world st → moves W st st'.
Proof. intros (Hn & _ & Hh) Hw. unfold moves. rewrite Hw. by split_and!. Qed.

Lemma moves_weaken (W W' : string → Prop) st st' : (∀ p, W p → W' p) → moves W st st' → moves W' st st'.
Proof. intros HW (Hf & Hr). split; [|done]. intros p Hp Hw. apply Hf; auto. Qed.

Lemma moves_trans W st st1 st' : moves W st st1 → moves W st1 st' → moves W st st'.
Proof.
  intros (Hf1 & He1 & Hs1 & _) (Hf2 & He2 & Hs2 & Hn & Hh). split_and!; [|by auto|congruence|done|done].
  intros p Hp Hw. by rewrite Hf2, Hf1.
Qed.

Lemma input_outside : ¬ in_cache m (inputPath cv).
Proof. intros Hin. by destruct (cu_apart Huse _ Hin). Qed.
Lemma output_outside p i : p ∈ outputs dir i → ¬ in_cache m p.
Proof. intros Hp Hin. by destruct (cu_apart Huse _ Hin) as [_ Hno]; apply (Hno i). Qed.

Lemma moves_ready W st st' : ¬ W (inputPath cv) → moves W st st' → ready st → ready st'.
Proof.
  intros HW (Hf & _ & _ & Hn & Hh) (_ & Hd & _). split_and!; [done| |done]. rewrite Hf; [done|apply input_outside|done].
Qed.
Lemma input_not_output i : inputPath cv ∉ outputs dir i.
Proof. apply (cu_input Huse). Qed.

(** Files outside the cache may be written at will. *)
Lemma writes_outside st st' p :
  ready st → ¬ in_cache m p → (∀ q, q ≠ p → files (world st') !! q = files (world st) !! q) →
  sent (world st') = sent (world st) → faults (world st') = [] → moves (λ q, q = p) st st'.
Proof.
  intros (_ & _ & Hh1 & Hh2) Hp Hf Hs Hn.
  assert (∀ q, in_cache m q → files (world st') !! q = files (world st) !! q) as Hin.
  { intros q Hq. apply Hf. by intros ->. }
  pose proof (entry_in_cache m hash (cu_digests Huse) cache_on) as Hec. pose proof (final_in_cache m hash (cu_digests Huse) cache_on) as Hfc.
  split_and!; [|intros fmt c Hc; by rewrite Hin|done|done|].
  - intros q _ Hq. by apply Hf.
  - split; [intros d fmt c t' Hc|intros d t']; rewrite Hin by done; [by apply Hh1|apply Hh2].
Qed.

(** What a write of the right pages to an entry does, whatever becomes of it. *)
Lemma entry_written fmt c st st' tmp :
  ready st → in_range c →
  (∀ d fmt' c', tmp ≠ entry m hash d fmt' c') → (∀ d, tmp ≠ final m hash d) → in_cache m tmp →
  (∀ p, p ≠ entry m hash doc fmt c → p ≠ tmp → files (world st') !! p = files (world st) !! p) →
  (files (world st') !! entry m hash doc fmt c = files (world st) !! entry m hash doc fmt c ∨
   files (world st') !! entry m hash doc fmt c = Some (pages doc c)) →
  sent (world st') = sent (world st) → faults (world st') = [] → moves (λ _, False) st st'.
Proof.
  intros (_ & _ & Hh1 & Hh2) Hc Htmp Htmp2 Htc Hf He Hs Hn. set (e := entry m hash doc fmt c) in *.
  pose proof (entry_in_cache m hash (cu_digests Huse) cache_on doc fmt c) as Hec. fold e in Hec.
  assert (∀ d fmt' c', in_range c' → e = entry m hash d fmt' c' → pages doc c = pages d c') as Hsame.
  { intros d fmt' c' Hc' Heq. by apply (same_entry m hash (cu_digests Huse) cache_on) in Heq as (-> & -> & ->). }
  split_and!; [| |done|done|split].
  - intros p Hp _. apply Hf; intros ->; done.
  - intros fmt' c' Hc' Hold. destruct (decide (e = entry m hash doc fmt' c')) as [Heq|Hne]; [|by rewrite Hf by (done || congruence)].
    rewrite <- Heq in Hold |- *. destruct He as [->| ->]; [done|]. by rewrite (Hsame _ _ _ Hc' Heq).
  - intros d fmt' c' t Hc'. destruct (decide (e = entry m hash d fmt' c')) as [Heq|Hne]; [|rewrite Hf by (done || congruence); by apply Hh1].
    rewrite <- Heq. destruct He as [->| ->]; [rewrite Heq; by apply Hh1|]. intros [= <-]. by eapply Hsame.
  - intros d t. rewrite Hf; [apply Hh2| |by intros Heq; apply (Htmp2 d)].
    intros Heq. by apply (entry_not_final m hash (cu_digests Huse) cache_on doc fmt c d).
Qed.

Lemma env_random st : no_byte "."%char (Cache.random_hex (cache_env cv st)) ∧ Cache.random_hex (cache_env cv st) ≠ "pdf".
Proof. apply (cu_random Huse). Qed.

Lemma temp_not_entries st p :
  (∀ d fmt c, Cache.tempName (cache_env cv st) p ≠ entry m hash d fmt c) ∧ (∀ d, Cache.tempName (cache_env cv st) p ≠ final m hash d).
Proof.
  destruct (env_random st) as [Hr Hne]. split; intros d.
  - intros fmt c. rewrite (entry_path m hash (cu_digests Huse) cache_on). rewrite <- !string_app_assoc. by apply temp_not_entry.
  - rewrite (final_path m hash (cu_digests Huse) cache_on). rewrite <- !string_app_assoc. by apply temp_not_entry.
Qed.

(** Storing a rendered chunk, whatever fails. *)
Lemma put_moves fmt c path st :
  ready st → in_range c → ¬ in_cache m path → files (world st) !! path = Some (pages doc c) →
  ∃ ok st', put_chunk cv (chunk_key cv c (hash doc) fmt) path st = (Returned ok, st') ∧ moves (λ _, False) st st'.
Proof.
  intros Hst Hc Hp Hpath. pose proof Hst as (Hn & _ & _). unfold put_chunk, next_tick, mbind, m_bind, io. cbn [world].
  set (env := cache_env cv st). change (chunk_key cv c (hash doc) fmt) with (Planner.ChunkSHA256 hash c (hash doc) fmt).
  pose proof (temp_not_entries st (entry m hash doc fmt c)) as [Ht1 Ht2]. fold env in Ht1, Ht2.
  set (e := entry m hash doc fmt c) in *. set (tmp := Cache.tempName env e) in *.
  assert (in_cache m tmp) as Htc by apply temp_in_cache, (entry_in_cache m hash (cu_digests Huse) cache_on).
  assert (path ≠ tmp) as Hpt by by intros ->.
  pose proof (quiet_atomic_write env e path (world st)) as [Hs _].
  pose proof (Repeat.steady_atomic_write env e path (world st) Hn) as Hn'.
  pose proof (Cache.atomic_write_triple env (files (world st)) e path (cu_blocks Huse) Hpt (world st) eq_refl) as Hw.
  unfold Cache.PutChunk. rewrite cache_on. change (Cache.chunkPath m _) with e. fold tmp in Hw.
  destruct (Cache.AtomicWrite env e path (world st)) as [ok w']. cbn [snd] in Hs, Hn'. destruct Hw as [Hpost _].
  assert (e ≠ tmp) as Het by exact (λ He, Ht1 doc fmt c (eq_sym He)).
  eexists _, _. split; [reflexivity|]. eapply (entry_written fmt c st _ tmp); cbn [world]; try done.
  - intros q Hqe Hqt. fold e in Hqe. destruct ok; [destruct Hpost as (t & _ & ->)|destruct Hpost as [->|[->|(x & [->| ->])]]]; [|done|..];
      by rewrite ?lookup_insert_ne, ?lookup_delete_ne, ?lookup_insert_ne by congruence.
  - fold e. destruct ok; [destruct Hpost as (t & Ht & ->)|left; destruct Hpost as [->|[->|(x & [->| ->])]]]; [|done|..].
    + right. rewrite lookup_insert_eq. congruence.
    + by rewrite lookup_delete_ne by congruence.
    + by rewrite lookup_insert_ne by congruence.
    + by rewrite lookup_delete_ne, lookup_insert_ne by congruence.
Qed.

(** *** One chunk *)

Definition whole_ (c : Chunk) : bool := whole fits c.

(** A chunk that has its pages in its entry, or in one of the files of [W]. *)
Definition stands (W : string → Prop) (fmt : string) (st : St) (c : Chunk) (p : string) : Prop :=
  files (world st) !! p = Some (pages doc c) ∧ (p = entry m hash doc fmt c ∨ W p).

Lemma stands_moves (W V : string → Prop) fmt st st' c p :
  in_range c → (∀ q, W q → ¬ in_cache m q) → (∀ q, W q → ¬ V q) →
  moves V st st' → stands W fmt st c p → stands W fmt st' c p.
Proof.
  intros Hc Hout Hno (Hf & He & _) [Hp Hw]. split; [|done]. destruct Hw as [->|Hw]; [by apply He|]. rewrite Hf; [done|by apply Hout|by apply Hno].
Qed.

Lemma get_chunk key w :
  Cache.GetChunk m key w = (if bool_decide (is_Some (files w !! Cache.chunkPath m key)) then Cache.chunkPath m key else "", w).
Proof. unfold Cache.GetChunk, Cache.get. rewrite cache_on. unfold os_exists, mbind, io_bind, mret, io_ret, get_files. done. Qed.

Lemma entry_ne fmt c : entry m hash doc fmt c ≠ "".
Proof.
  rewrite (entry_path m hash (cu_digests Huse) cache_on). intros He. apply (f_equal String.length) in He.
  rewrite <- !bytes_length, !bytes_app, !length_app in He. cbn in He. lia.
Qed.

(** The entry of a chunk, when there is one, is taken. *)
Lemma cached_hit fuel fmt depth c st t :
  in_range c → ready st → files (world st) !! entry m hash doc fmt c = Some t →
  ∃ st', renderWithRetry cv (S fuel) fmt (hash doc) true depth c st = (Returned (Ok (entry m hash doc fmt c)), st') ∧
    world st' = world st ∧ stands (λ _, False) fmt st' c (entry m hash doc fmt c).
Proof.
  intros Hc (_ & _ & Hh & _) Ht. pose proof (Hh _ _ _ _ Hc Ht) as ->. cbn [renderWithRetry]. unfold cached_chunk, mbind, m_bind, mret, m_ret, io.
  rewrite get_chunk. change (Cache.chunkPath m _) with (entry m hash doc fmt c). rewrite Ht, bool_decide_eq_true_2 by done.
  rewrite (proj2 (String.eqb_neq _ _) (entry_ne fmt c)). cbn [negb]. eexists. split; [reflexivity|]. split; [done|]. split; [exact Ht|by left].
Qed.

(** Otherwise the chunk is rendered. *)
Lemma cached_miss fuel fmt depth c st :
  files (world st) !! entry m hash doc fmt c = None →
  ∃ st1, world st1 = world st ∧ renderWithRetry cv (S fuel) fmt (hash doc) true depth c st =
    (r ← io (Worker.RenderChunkOneShot (settings cv) c (inputPath cv) fmt dir);
     match r with
     | Ok path => chunk_rendered cv (Some (chunk_key cv c (hash doc) fmt)) path
     | Err e =>
         if OOM e then
           addSubdivision;;
           match Planner.Subdivide c with
           | [] => mret (Err (EConv (NewSubdivisionFloor c (depth +! 1)%go)))
           | parts =>
               r ← render_all (renderWithRetry cv fuel fmt (hash doc) true (depth +! 1)%go) parts;
               match r with
               | Err e => mret (Err e)
               | Ok ps =>
                   r ← io_ended (ConcatToFile (qpdf cv) ps.*2 (merged_path cv c));
                   mret (match r with None => Ok (merged_path cv c) | Some e => Err (EConv e) end)
               end
           end
         else mret (Err (EConv e))
     end) st1.
Proof.
  intros Ht. eexists. split; [|cbn [renderWithRetry]; etrans; [eapply bind_returned; unfold cached_chunk, io; rewrite get_chunk;
    change (Cache.chunkPath m _) with (entry m hash doc fmt c); rewrite Ht, bool_decide_eq_false_2 by (by intros [? ?]); reflexivity|reflexivity]].
  done.
Qed.

Lemma rendered_stored fmt c path st :
  ready st → in_range c → ¬ in_cache m path → files (world st) !! path = Some (pages doc c) →
  ∃ st', chunk_rendered cv (Some (chunk_key cv c (hash doc) fmt)) path st = (Returned (Ok path), st') ∧
    moves (λ _, False) st st'.
Proof.
  intros Hst Hc Hp Hpath. unfold chunk_rendered. unfold mbind at 1, m_bind at 1, addRendered, Orchestrator.count. unfold mbind at 1, m_bind at 1, update_progress.
  match goal with |- context [(put_chunk cv ?k path ≫= _) ?x] =>
    destruct (put_moves fmt c path x Hst Hc Hp Hpath) as (ok & st' & Hput & Hm) end.
  exists st'. split; [by rewrite (bind_returned _ _ _ _ _ Hput)|exact Hm].
Qed.

(** A chunk that fits stands in its entry or in its file. *)
Lemma leaf fuel fmt depth c i st :
  Worker.chunk_path dir c ∈ outputs dir i → in_range c → fits (PageStart c) (PageEnd c) = true → ready st →
  ∃ p st', renderWithRetry cv (S fuel) fmt (hash doc) true depth c st = (Returned (Ok p), st') ∧
    stands (λ q, q = Worker.chunk_path dir c) fmt st' c p ∧ moves (λ q, q = Worker.chunk_path dir c) st st'.
Proof.
  intros Hout Hc Hfit Hst. pose proof (output_outside _ _ Hout) as Hpath. set (path := Worker.chunk_path dir c) in *.
  destruct (files (world st) !! entry m hash doc fmt c) as [t|] eqn:Ht.
  - destruct (cached_hit fuel fmt depth c st t Hc Hst Ht) as (st' & Hr & Hw & [Hs _]).
    eexists _, st'. split; [exact Hr|]. split; [split; [exact Hs|by left]|by apply moves_same].
  - destruct (cached_miss fuel fmt depth c st Ht) as (st1 & Hw1 & ->).
    assert (ready st1) as Hst1 by (unfold ready; by rewrite Hw1). pose proof Hst1 as (Hn & Hd & Hh).
    pose proof (render_one_shot_spec cv doc (text doc) fits fmt c st1 Hworker (proj1 Hc) (proj2 Hc) Hd) as Hr.
    cbv zeta in Hr. rewrite Hfit in Hr. rewrite (bind_returned _ _ _ _ _ Hr). fold path in Hr |- *.
    match type of Hr with _ = (_, ?x) => set (st2 := x) in * end.
    assert (moves (λ q, q = path) st1 st2) as Hm1
      by (apply writes_outside; [done|done| |done|done]; intros q Hq; cbn; by rewrite lookup_insert_ne by congruence).
    assert (ready st2) as Hst2 by (eapply (moves_ready _ st1); [|done..]; intros He; apply (input_not_output i); by rewrite He).
    destruct (rendered_stored fmt c path st2 Hst2 Hc Hpath) as (st' & Hr' & Hm2); [by cbn; rewrite lookup_insert_eq|].
    exists path, st'. split; [exact Hr'|]. assert (moves (λ q, q = path) st st') as Hm.
    { eapply moves_trans; [|eapply moves_trans; [exact Hm1|eapply moves_weaken; [|exact Hm2]; by intros q []]]. by apply moves_same. }
    split; [|exact Hm]. split; [|by right]. destruct Hm2 as (Hf & _). rewrite (Hf path Hpath (λ F, F)). cbn. by rewrite lookup_insert_eq.
Qed.

(** The halves of a chunk that ran out of memory, merged. *)
Lemma halves_merged c l r pl pr mid i st :
  merged_path cv c ∈ outputs dir i → PageStart c <= mid < PageEnd c →
  (PageStart l, PageEnd l, PageStart r, PageEnd r) = (PageStart c, mid, mid + 1, PageEnd c) →
  pl ≠ merged_path cv c → pr ≠ merged_path cv c →
  files (world st) !! pl = Some (pages doc l) → files (world st) !! pr = Some (pages doc r) → ready st →
  ∃ st', io_ended (ConcatToFile (qpdf cv) [pl; pr] (merged_path cv c)) st = (Returned None, st') ∧
    files (world st') !! merged_path cv c = Some (pages doc c) ∧ moves (λ q, q = merged_path cv c) st st'.
Proof.
  intros Hout Hm [= Hl1 Hl2 Hr1 Hr2] Hnl Hnr Hpl Hpr Hst. pose proof Hst as (Hnil & _ & _).
  pose proof (output_outside _ _ Hout) as Hmo. set (out := merged_path cv c) in *.
  destruct Hconcat as (Hp1 & Hp2 & Hp3 & Hcat), Htext as [Hadj Htne].
  pose proof (quiet_concat_to_file (qpdf cv) [pl; pr] out (world st)) as [Hs _].
  destruct (merge_to_file_ok (qpdf cv) [pl; pr] out (world st) (pages doc c) "") as (w' & Hrun & Ho & Hframe & Hn'); try done; try apply Hp3.
  - rewrite (Hcat _ [pages doc l; pages doc r]).
    + cbn. by rewrite string_app_empty_r, Hl1, Hl2, Hr1, Hr2, <- Hadj by lia.
    + repeat constructor; rewrite ?lookup_insert_ne by done; try done; apply Htne; lia.
  - unfold io_ended. rewrite Hrun in Hs |- *. eexists. split; [reflexivity|]. cbn in Hs. split.
    + cbn. assert (pages doc c ≠ "") as Hne by (apply Htne; lia). destruct (files w' !! out) as [t|]; cbn in Ho; congruence.
    + by apply writes_outside.
Qed.

(** *** The chunks of a plan *)

Definition within (i j : Z) (p : string) : Prop := ∃ k, i <= k < j ∧ p ∈ outputs dir k.

Lemma merged_output c i : Index c = f64_of_Z i → 0 <= i < 4096 → merged_path cv c ∈ outputs dir i.
Proof. intros Hi Hr. rewrite (merged_path_whole cv c i) by done. apply list_elem_of_fmap_2. do 2 constructor. constructor. Qed.

(** What follows when a chunk runs out of memory and its halves fit. *)
Lemma subdivided fuel fmt c i st :
  Index c = f64_of_Z i → 0 <= i < 4096 → in_range c → ready st →
  Forall (λ h, whole fits h = true) (Planner.Subdivide c) → Planner.Subdivide c ≠ [] →
  ∃ st', (addSubdivision;;
     match Planner.Subdivide c with
     | [] => mret (Err (EConv (NewSubdivisionFloor c (0 +! 1)%go)))
     | parts =>
         r ← render_all (renderWithRetry cv (S fuel) fmt (hash doc) true (0 +! 1)%go) parts;
         match r with
         | Err e => mret (Err e)
         | Ok ps =>
             r ← io_ended (ConcatToFile (qpdf cv) ps.*2 (merged_path cv c));
             mret (match r with None => Ok (merged_path cv c) | Some e => Err (EConv e) end)
         end
     end) st = (Returned (Ok (merged_path cv c)), st') ∧
    files (world st') !! merged_path cv c = Some (pages doc c) ∧ moves (λ q, q ∈ outputs dir i) st st'.
Proof.
  intros Hi Hr Hc Hst Hall Hne. pose proof (merged_output c i Hi Hr) as Hmo.
  destruct (Planner.subdivide_cases c (proj1 Hc) (proj2 Hc)) as [[_ Hx]|(Hlt & mid & Hsub & Hmid)]; [congruence|].
  rewrite Hsub in Hall |- *. apply Forall_cons in Hall as [Hl Hall]. apply Forall_cons in Hall as [Hrt _]. destruct Hc as [Hs He].
  match type of Hsub with _ = [?l; ?r] => set (lc := l) in *; set (rc := r) in * end.
  assert ([Worker.chunk_path dir lc; Worker.chunk_path dir rc; merged_path cv c] = outputs dir i) as Hnames
    by (rewrite (chunk_path_whole _ lc i), (chunk_path_half _ rc i), (merged_path_whole cv c i) by (simpl; congruence || done); reflexivity).
  pose proof (outputs_NoDup dir i ltac:(lia)) as Hnd. rewrite <- Hnames in Hnd.
  assert (Worker.chunk_path dir lc ∈ outputs dir i ∧ Worker.chunk_path dir rc ∈ outputs dir i) as [Hlo Hro]
    by (rewrite <- Hnames; split; [constructor|do 2 constructor]).
  set (pathl := Worker.chunk_path dir lc) in *. set (pathr := Worker.chunk_path dir rc) in *.
  apply NoDup_cons in Hnd as [Hn1 Hnd]. apply NoDup_cons in Hnd as [Hn2 _].
  apply not_elem_of_cons in Hn1 as [Hlr Hn1]. apply not_elem_of_cons in Hn1 as [Hlm _]. apply not_elem_of_cons in Hn2 as [Hrm _].
  assert (in_range lc ∧ in_range rc) as [Hlc Hrc] by (unfold in_range; cbn; lia).
  unfold mbind at 1, m_bind at 1, addSubdivision, Orchestrator.count.
  match goal with |- context [(_ ≫= _) ?x] => set (st1 := x) end.
  destruct (leaf fuel fmt (0 +! 1)%go lc i st1 Hlo Hlc Hl Hst) as (pl & st2 & Hrl & Hsl & Hml).
  assert (ready st2) as Hst2 by (eapply (moves_ready _ st1); [|exact Hml|done]; intros Hx; apply (input_not_output i); by rewrite Hx).
  destruct (leaf fuel fmt (0 +! 1)%go rc i st2 Hro Hrc Hrt Hst2) as (pr & st3 & Hrr & Hsr & Hmr).
  assert (ready st3) as Hst3 by (eapply (moves_ready _ st2); [|exact Hmr|done]; intros Hx; apply (input_not_output i); by rewrite Hx).
  assert (stands (λ q, q = pathl) fmt st3 lc pl) as Hsl3.
  { eapply stands_moves; [done| | |exact Hmr|exact Hsl]; [intros q ->; by eapply output_outside|intros q -> Hq; by apply Hlr]. }
  assert (∀ x q, stands x fmt st3 q (merged_path cv c) → x (merged_path cv c)) as Hno.
  { intros x q [_ [Hq|Hq]]; [|done]. exfalso. apply (output_outside _ _ Hmo). rewrite Hq.
    apply (entry_in_cache m hash (cu_digests Huse) cache_on). }
  destruct (halves_merged c lc rc pl pr mid i st3) as (st' & Hrm' & Hp & Hmm); try done; try apply Hsl3; try apply Hsr; [cbn; lia| | |].
  { intros ->. apply Hlm. symmetry. exact (Hno _ _ Hsl3). }
  { intros ->. apply Hrm. symmetry. exact (Hno _ _ Hsr). }
  exists st'. split; [|split; [exact Hp|]].
  - etrans; [eapply (bind_returned _ _ st1 (Ok [(lc, pl); (rc, pr)]) st3); cbn [render_all]; unfold mbind, m_bind; by rewrite Hrl, Hrr|].
    cbn [fmap list_fmap snd]. by rewrite (bind_returned _ _ _ _ _ Hrm').
  - eapply moves_trans; [eapply moves_weaken; [|exact Hml]; by intros q ->|].
    eapply moves_trans; [eapply moves_weaken; [|exact Hmr]; by intros q ->|eapply moves_weaken; [|exact Hmm]; by intros q ->].
Qed.

Lemma chunk_stands fuel fmt c i st :
  Index c = f64_of_Z i → 0 <= i < 4096 → in_range c → renderable fits c → ready st →
  ∃ p st', renderWithRetry cv (S (S fuel)) fmt (hash doc) true 0 c st = (Returned (Ok p), st') ∧
    stands (within i (i + 1)) fmt st' c p ∧ moves (within i (i + 1)) st st'.
Proof.
  intros Hi Hr Hc Hren Hst.
  assert (∀ q, q ∈ outputs dir i → within i (i + 1) q) as Hin by (intros q Hq; exists i; split; [lia|done]).
  assert (Worker.chunk_path dir c ∈ outputs dir i) as Hout.
  { rewrite (chunk_path_whole _ c i) by done. apply list_elem_of_fmap_2. constructor. }
  destruct (whole fits c) eqn:Hfit.
  - destruct (leaf (S fuel) fmt 0 c i st Hout Hc Hfit Hst) as (p & st' & Hrun & [Hp Hw] & Hm).
    exists p, st'. split; [exact Hrun|]. split; [split; [exact Hp|]|].
    + destruct Hw as [?| ->]; [by left|right; by apply Hin].
    + eapply moves_weaken; [|exact Hm]. intros q ->. by apply Hin.
  - destruct Hren as [|[Hall Hne]]; [congruence|].
    destruct (files (world st) !! entry m hash doc fmt c) as [t|] eqn:Ht.
    { destruct (cached_hit (S fuel) fmt 0 c st t Hc Hst Ht) as (st' & Hrun & Hw & [Hp _]).
      eexists _, st'. split; [exact Hrun|]. split; [split; [exact Hp|by left]|by apply moves_same]. }
    destruct (cached_miss (S fuel) fmt 0 c st Ht) as (st1 & Hw1 & ->).
    assert (ready st1) as Hst1 by (unfold ready; by rewrite Hw1). pose proof Hst1 as (Hn & Hd & Hh).
    pose proof (render_one_shot_spec cv doc (text doc) fits fmt c st1 Hworker (proj1 Hc) (proj2 Hc) Hd) as Hrun.
    cbv zeta in Hrun. unfold whole in Hfit. rewrite Hfit in Hrun. rewrite (bind_returned _ _ _ _ _ Hrun). clear Hrun.
    match goal with |- context [mkSt ?a ?b ?x ?y] => set (st2 := mkSt a b x y) end.
    destruct (subdivided fuel fmt c i st2 Hi Hr Hc Hst1 Hall Hne) as (st' & Hrun & Hp & Hm).
    exists (merged_path cv c), st'. split; [exact Hrun|]. split; [split; [exact Hp|right; apply Hin, merged_output, Hr; exact Hi]|].
    eapply moves_trans; [by apply (moves_same _ st st2)|]. eapply moves_weaken; [|exact Hm]. exact Hin.
Qed.

Lemma chunks_stand fuel fmt cs : ∀ i st,
  numbered i cs → 0 <= i → i + Z.of_nat (length cs) <= 4096 → Forall in_range cs → Forall (renderable fits) cs → ready st →
  ∃ ps st', render_all (renderWithRetry cv (S (S fuel)) fmt (hash doc) true 0) cs st = (Returned (Ok ps), st') ∧
    ps.*1 = cs ∧ Forall (λ cp, stands (within i (i + Z.of_nat (length cs))) fmt st' cp.1 cp.2) ps ∧
    moves (within i (i + Z.of_nat (length cs))) st st'.
Proof.
  induction cs as [|c cs IH]; intros i st Hnum Hi Hlen Hin Hren Hst.
  { exists [], st. split_and!; [done..|by apply moves_same]. }
  apply Forall_cons in Hin as [Hc Hin]. apply Forall_cons in Hren as [Hr Hren]. simpl in Hlen.
  assert (∀ j k, ¬ within j k (inputPath cv)) as Hnw by (intros j k (x & _ & Hx); by apply (input_not_output x)).
  destruct (chunk_stands fuel fmt c i st) as (p & st1 & Hrun & Hp & Hm); try done; [by rewrite (Hnum 0%nat c), Z.add_0_r|lia|].
  destruct (IH (i + 1) st1) as (ps & st' & Hrest & Hps & Hall & Hm'); [|lia|lia|done|done|by eapply moves_ready|].
  { intros k d Hd. rewrite (Hnum (S k) d Hd). f_equal. lia. }
  assert (∀ q, within i (i + 1) q ∨ within (i + 1) (i + 1 + Z.of_nat (length cs)) q → within i (i + Z.of_nat (length (c :: cs))) q) as Hsub.
  { intros q [(k & Hk & Hq)|(k & Hk & Hq)]; exists k; cbn [length]; (split; [lia|done]). }
  exists ((c, p) :: ps), st'. split_and!.
  - cbn [render_all]. unfold mbind, m_bind. by rewrite Hrun, Hrest.
  - cbn. by f_equal.
  - constructor.
    + eapply stands_moves in Hp; [|done| | |exact Hm'].
      * destruct Hp as [Hp Hw]. split; [exact Hp|]. destruct Hw as [?|?]; [by left|right; apply Hsub; by left].
      * intros q (k & _ & Hq). by eapply output_outside.
      * intros q (k & Hk & Hq) (k' & Hk' & Hq'). eapply (outputs_disjoint dir k k') in Hq'; [lia|lia|lia|done].
    + eapply Forall_impl; [exact Hall|]. intros cp [Hcp Hw]. split; [exact Hcp|]. destruct Hw as [?|?]; [by left|right; apply Hsub; by right].
  - eapply moves_trans; (eapply moves_weaken; [|eassumption]); auto.
Qed.

(** *** The document *)

(** The temporary file becomes the final entry. *)
Lemma finish_stores tee out started st :
  faults (world st) = [] → tee ≠ "" → files (world st) !! tee = Some out →
  ∃ res st', finish_conversion cv (hash doc) tee started st = (Returned (Ok res), st') ∧
    files (world st') = <[final m hash doc := out]> (delete tee (files (world st))) ∧
    sent (world st') = sent (world st) ∧ faults (world st') = [].
Proof.
  intros Hnil Hne Ht. unfold finish_conversion, mbind, m_bind, update_progress, snapshot, read_clock, mret, m_ret.
  rewrite (proj2 (String.eqb_neq tee "") Hne). unfold io, Cache.FinalizeFinal. rewrite cache_on. unfold mbind, io_bind. cbn [world].
  pose proof (os_open_spec tee (world st)) as Ho. pose proof (steady_os_open tee (world st) Hnil) as Hn1.
  destruct (os_open tee (world st)) as [c w1]. destruct Ho as (Hf1 & Hs1 & _). cbn [snd] in Hn1.
  destruct (Repeat.steady_rename_ok tee (Cache.finalPath m (hash doc)) w1 out Hn1) as (w2 & Hr & Hf2 & Hs2 & Hn2); [by rewrite Hf1|].
  rewrite Hr. eexists _, _. split; [reflexivity|]. cbn. rewrite Hf2, Hf1. split_and!; [done|congruence|done].
Qed.

(** What has been stored is honest. *)
Lemma final_stored fs fs' tee :
  honest m hash text count fs → (∀ d fmt c, tee ≠ entry m hash d fmt c) → (∀ d, tee ≠ final m hash d) →
  (∀ p, in_cache m p → p ≠ tee → fs' !! p = fs !! p) →
  honest m hash text count (<[final m hash doc := text doc 1 (count doc)]> (delete tee fs')).
Proof.
  intros [Hh1 Hh2] Ht1 Ht2 Hf. pose proof (cu_digests Huse) as Hdg. pose proof cache_on as Hon. split.
  - intros d fmt c t Hc. rewrite lookup_insert_ne by by apply not_eq_sym, entry_not_final.
    rewrite lookup_delete_ne by apply Ht1. rewrite Hf; [by apply Hh1|by apply entry_in_cache|by apply not_eq_sym, Ht1].
  - intros d t. destruct (decide (final m hash doc = final m hash d)) as [Heq|Hne].
    + rewrite Heq, lookup_insert_eq. apply (same_final m hash Hdg Hon) in Heq as <-. by intros [= <-].
    + rewrite lookup_insert_ne, lookup_delete_ne, Hf by (done || apply Ht2 || by apply final_in_cache || by apply not_eq_sym, Ht2).
      apply Hh2.
Qed.

Lemma merge_cached (W : string → Prop) fmt ps st started :
  ps ≠ [] → numbered 0 ps.*1 → Z.of_nat (length ps) < 2 ^ 53 → Forall in_range ps.*1 →
  Forall (λ cp, stands W fmt st cp.1 cp.2) ps → ready st →
  foldr String.append "" ((λ c, pages doc c) <$> ps.*1) = text doc 1 (count doc) →
  ∃ res st', merge_and_finish cv ps (hash doc) true started st = (Returned (Ok res), st') ∧
    sent (world st') = sent (world st) +:+ text doc 1 (count doc) ∧ faults (world st') = [] ∧ honest_now st' ∧
    files (world st') !! final m hash doc = Some (text doc 1 (count doc)).
Proof.
  intros Hne Hnum Hlen Hin Hall Hst Htxt. pose proof Hst as (Hnil & _ & Hh). pose proof cache_on as Hon.
  destruct Hconcat as (Hp1 & Hp2 & Hp3 & Hcat), Htext as [_ Htne]. assert (ps.*2 ≠ []) as Hne2 by by destruct ps.
  set (env := cache_env cv st). set (tee := Cache.tempName env (final m hash doc)).
  pose proof (temp_not_entries st (final m hash doc)) as [Ht1 Ht2]. fold env tee in Ht1, Ht2.
  assert (in_cache m tee) as Htc by (apply temp_in_cache, final_in_cache; [apply Huse|done]).
  assert (tee ≠ "") as Htn by (unfold tee, Cache.tempName; by destruct (final m hash doc)).
  assert (∃ st1, open_cache_temp cv (hash doc) true st = (Returned tee, st1) ∧ files (world st1) = files (world st) ∧
    sent (world st1) = sent (world st) ∧ faults (world st1) = []) as (st1 & Hopen & Hf1 & Hs1 & Hn1).
  { unfold open_cache_temp, next_tick, mbind, m_bind, io, mret, m_ret. unfold Cache.FinalTempPath. rewrite Hon.
    unfold mbind, io_bind, mret, io_ret, os_mkdir_all, faulty. cbn [world]. rewrite Hnil. eexists. by split_and!. }
  assert (qpdf_run (qpdf cv) (concat_argv ps.*2) (files (world st1)) = (text doc 1 (count doc), "", 0)) as Hqrun.
  { rewrite (Hcat _ ((λ c, pages doc c) <$> ps.*1)), Htxt; [done|]. rewrite Hf1. clear -Hall Hin Htne.
    induction ps as [|[c p] ps IH]; [constructor|]. apply Forall_cons in Hall as [[Hp _] Hall]. apply Forall_cons in Hin as [[? ?] Hin].
    constructor; [|by apply IH]. split; [exact Hp|]. apply Htne. cbn in *. lia. }
  unfold merge_and_finish. rewrite (bind_returned _ _ _ _ _ Hopen). unfold mbind at 1, m_bind at 1, update_progress.
  rewrite sort_numbered by done. match goal with |- context [(_ ≫= _) ?x] => set (st2 := x) end.
  pose proof (concat_streaming_spec (qpdf cv) ps.*2 (dst cv) tee (world st2) Hqpdf (λ _, cu_owns Huse tee Htc)) as Hm.
  pose proof (steady_concat_streaming (qpdf cv) ps.*2 (dst cv) tee (world st2) Hn1) as Hn3. cbn [world st2] in Hm. rewrite Hqrun in Hm.
  destruct (ConcatStreaming (qpdf cv) ps.*2 (dst cv) tee (world st1)) as [res w3] eqn:Hcs. cbn [snd world st2] in Hn3. rewrite Hcs in Hn3.
  destruct Hm as ((Hf3 & d & _ & Hs3 & Hr3) & _ & _ & Hok). rewrite !(tc_sent _ Hdst) in Hs3.
  specialize (Hok Hn1 Hne2 Hp1 Hp2 (proj1 (Hp3 _))). rewrite (proj2 (Hp3 _)) in Hok. cbn in Hok. subst res.
  destruct Hr3 as (_ & -> & Htee). specialize (Htee Htn).
  rewrite (bind_returned _ _ st2 None (mkSt w3 (cnt st2) (progress st2) (tick st2))) by (unfold io_ended; cbn [world st2]; by rewrite Hcs).
  destruct (finish_stores tee (text doc 1 (count doc)) started (mkSt w3 (cnt st2) (progress st2) (tick st2)) Hn3 Htn Htee)
    as (res & st' & Hrun & Hf & Hs & Hn).
  exists res, st'. split; [exact Hrun|]. split_and!; [rewrite Hs; cbn; congruence|done| |by rewrite Hf, lookup_insert_eq].
  unfold honest. rewrite Hf. eapply final_stored; [exact Hh|done|done|]. intros p Hp Hpt. cbn. rewrite Hf3; [by rewrite Hf1|by apply Huse|by left].
Qed.

(** A miss renders the plan, and merges. *)
Lemma miss_renders_plan pr started st :
  one_shot_job cv fits pr → Probe.Probe (settings cv) (inputPath cv) (reqFormat cv) (world st) = (Ok pr, world st) →
  ∃ st1, world st1 = world st ∧ ∀ ps st2,
    render_all (renderWithRetry cv retry_depth (Format pr) (hash doc) true 0) (planned cv pr) st1 = (Returned (Ok ps), st2) →
    convert_document cv (hash doc) true started st = merge_and_finish cv ps (hash doc) true started st2.
Proof.
  intros [_ _ Hpool _ _] Hprobe. eexists. split; [|intros ps st2 Hrun].
  2:{ unfold convert_document. etrans; [eapply bind_returned; unfold io; by rewrite Hprobe|]. cbv beta iota zeta.
      etrans; [by eapply bind_returned|]. cbv beta. fold (planned cv pr). rewrite Hpool.
      etrans; [eapply bind_returned; unfold dispatchOneShot; etrans; [by eapply bind_returned|]; exact Hrun|]. done. }
  done.
Qed.

(** Over an honest cache, whichever of the document's chunks it holds and whether
    it holds the document, a conversion sends exactly the document and leaves the
    cache honest, for all documents, with this document stored. *)
Lemma honest_cache_is_transparent pr st :
  one_shot_job cv fits pr → PageCount pr = count doc → ready st →
  Probe.Probe (settings cv) (inputPath cv) (reqFormat cv) (world st) = (Ok pr, world st) →
  ∃ res st', ConvertJob cv st = (Returned (Ok res), st') ∧
    sent (world st') = sent (world st) +:+ text doc 1 (count doc) ∧ faults (world st') = [] ∧
    honest_now st' ∧ files (world st') !! final m hash doc = Some (text doc 1 (count doc)).
Proof.
  intros Hjob Hcount Hst Hprobe. pose proof Hst as (Hnil & Hdoc & Hh). pose proof cache_on as Hon.
  pose proof (proj1 (andb_prop _ _ (cu_on Huse))) as Ho. pose proof (dg_slash _ (cu_digests Huse) doc) as Hk.
  destruct (files (world st) !! final m hash doc) as [t|] eqn:Hfinal.
  - destruct (Repeat.hit_served cv st doc t Ho Hon Hk Hdst (cu_blocks Huse) Hnil Hdoc Hfinal) as (res & st' & Hrun & _ & Hs & Hn & Hfr).
    pose proof (proj2 Hh _ _ Hfinal) as ->. exists res, st'.
    assert (∀ p, in_cache m p → files (world st') !! p = files (world st) !! p) as Hsame by (intros p Hp; by apply Hfr, Huse).
    pose proof (entry_in_cache m hash (cu_digests Huse) Hon) as Hec. pose proof (final_in_cache m hash (cu_digests Huse) Hon) as Hfc.
    split_and!; [done|done|done| |by rewrite Hsame]. split; [intros d fmt c x|intros d x]; rewrite Hsame by done; apply Hh.
  - destruct (Repeat.job_hashed cv st doc Ho Hon Hnil Hdoc) as (st0 & Hw0 & ->). unfold convert_hashed.
    assert (ready st0) as Hst0 by (unfold ready; by rewrite Hw0).
    destruct (miss_renders_plan pr (tick st) st0 Hjob) as (st1 & Hw1 & Hplan); [by rewrite Hw0|].
    assert (ready st1) as Hst1 by (unfold ready; by rewrite Hw1).
    destruct Hjob as [Hpages Hseams _ Hlen Hren].
    destruct (Planner.plan_covers_indexed pr (effective_max_pages cv pr) (MaxMBPerChunk (settings cv)) Hpages Hseams) as (Hcov & _ & Hidx).
    fold (planned cv pr) in Hcov, Hidx. set (cs := planned cv pr) in *.
    assert (Forall in_range cs) as Hin.
    { eapply Forall_impl; [exact (covers_in_range _ _ _ Hcov)|]. unfold in_range. simpl. lia. }
    destruct (chunks_stand 63 (Format pr) cs 0 st1 Hidx ltac:(lia) ltac:(lia) Hin Hren Hst1) as (ps & st2 & Hrun & Hps & Hall & Hm).
    change (S (S 63)) with retry_depth in Hrun. specialize (Hplan _ _ Hrun). rewrite <- Hps in Hidx, Hin, Hlen. rewrite length_fmap in Hlen.
    assert (ps ≠ []) as Hne.
    { intros ->. inversion Hcov as [? ? Hhi Hnilcs|? ? ? ? ? ? ? Hcons]; [lia|]. simpl in Hps. congruence. }
    destruct (merge_cached _ _ ps st2 (tick st) Hne Hidx ltac:(lia) Hin Hall) as (res & st' & Hmerge & Hs & Hn & Hh' & Hf').
    { eapply (moves_ready _ st1); [|exact Hm|done]. intros (k & _ & Hx). by apply (input_not_output k). }
    { rewrite Hps, <- Hcount. apply (covers_text (text doc) Htext 1 (PageCount pr)); [exact Hcov|lia]. }
    exists res, st'. split_and!; [|rewrite Hs; destruct Hm as (_ & _ & -> & _); by rewrite Hw1, Hw0|done|done|done].
    etrans; [eapply bind_returned; unfold io; rewrite Repeat.get_final by done; rewrite Hw0;
      change (Cache.finalPath m (hash doc)) with (final m hash doc); rewrite Hfinal, bool_decide_eq_false_2 by (by intros [? ?]); reflexivity|].
    change (negb (String.eqb "" "")) with false. cbv iota.
    transitivity (convert_document cv (hash doc) true (tick st) st0); [by destruct st0; cbn in Hw0; subst|]. by rewrite Hplan.
Qed.
End pipeline.

(** ** A concrete cache *)

(** A digest of letters: one per half of a byte. *)
Definition letters (b : Z) : list Z := [97 + b / 16; 97 + b mod 16].
Definition sample_hash (s : string) : string := of_bytes (flat_map letters (bytes s)).

Lemma letters_range l : Forall (λ b, 0 <= b < 256) l → Forall (λ x, 97 <= x < 113) (flat_map letters l).
Proof.
  induction 1 as [|b l Hb _ IH]; [constructor|]. cbn [flat_map letters app].
  pose proof (Z.div_lt_upper_bound b 16 16). pose proof (Z.div_pos b 16). pose proof (Z.mod_pos_bound b 16).
  repeat constructor; try lia. exact IH.
Qed.

Lemma letters_inj l k : flat_map letters l = flat_map letters k → l = k.
Proof.
  revert k. induction l as [|a l IH]; intros [|b k] He; [done|discriminate..|]. cbn in He. injection He as Hd Hm Hl.
  f_equal; [|by apply IH]. rewrite (Z.div_mod a 16), (Z.div_mod b 16) by lia. lia.
Qed.

Lemma sample_digests : digests sample_hash.
Proof.
  assert (∀ s c, ¬ 97 <= byte_of c < 113 → no_byte c (sample_hash s)) as Hno.
  { intros s c Hc. apply no_byte_of_bytes. eapply Forall_impl; [apply letters_range, bytes_range|]. cbn. lia. }
  split; [intros x; apply Hno; by intros [? ?]..|].
  intros x y He. apply bytes_inj, letters_inj. unfold sample_hash in He. apply (f_equal bytes) in He.
  rewrite !bytes_of_bytes in He; [done|eapply Forall_impl; [apply letters_range, bytes_range|]; cbn; lia..].
Qed.

Definition sample_cache : Cache.Manager := Cache.mkManager "/c" "25.1".
Definition first_page (doc : string) : string := entry sample_cache sample_hash doc FormatDOCX (mkChunk (f64_of_Z 0) 1 1 false).

(** Every document has the two pages [a] and [b]; a cache with the first of them. *)
Lemma first_page_honest doc : honest sample_cache sample_hash (λ _, page_text) (λ _, 2) {[ first_page doc := "a" ]}.
Proof.
  pose proof sample_digests as Hdg. assert (Cache.Enabled sample_cache = true) as Hon by done. split.
  - intros d fmt c t Hc [He <-]%lookup_singleton_Some. unfold first_page in He.
    apply (same_entry sample_cache _ Hdg Hon) in He as (_ & <- & <-); [reflexivity|unfold in_range; cbn; lia|done].
  - intros d t [He _]%lookup_singleton_Some. by destruct (entry_not_final sample_cache _ Hdg Hon _ _ _ _ He).
Qed.

Section sample.
#[local] Instance plain_floats : FloatFormat := {| shortest_g := λ _, "NaN" |}.
#[local] Instance limit_one : Worker.Workers := sample_worker 1.
#[local] Instance sample_tables : UnicodeTables := {| unicode_to_lower := λ r, r |}.
#[local] Instance two_pages : Probe.Readers := sample_readers 2.

(** The sample conversion with a cache that has the first page already. *)
Definition cached_conversion : Conversion :=
  let cv := sample_conversion in {|
  settings := sample_settings; cache := sample_cache; requestID := "r1"; inputPath := inputPath cv;
  reqFormat := FormatDOCX; options := options cv; scratchDir := "/s"; dst := response; environ := environ cv;
  new_pool := new_pool cv; qpdf := sample_qpdf; sha256_hex := sample_hash; open_error := open_error cv; process_id := 7;
  random := random cv; copy_blocks := copy_blocks cv; now := now cv |}.
Definition cached_state : St :=
  mkSt (mkWorld (<["/s/in.docx" := "PK"]> {[ first_page "PK" := "a" ]}) ∅ [] [] None "") (mkCounters 0 0 0) Progress.NewJobProgressStore 0.

Lemma sample_cache_in_use : cache_in_use cached_conversion.
Proof.
  split; try done.
  - exact sample_digests.
  - intros c. apply string_app_empty_r.
  - intros p [t ->]. split; [by vm_compute|]. intros i (u & He & _)%list_elem_of_fmap. discriminate He.
  - exact sample_input_apart.
  - by intros p _ [].
Qed.

Lemma sample_ready : ready cached_conversion (λ _, page_text) (λ _, 2) "PK" cached_state.
Proof.
  pose proof sample_digests as Hdg. assert (Cache.Enabled sample_cache = true) as Hon by done.
  assert (∀ p, in_cache sample_cache p → "/s/in.docx" ≠ p) as Hin by (intros p [t ->]; discriminate).
  destruct (first_page_honest "PK") as [Hh1 Hh2]. split_and!; [done|reflexivity|split].
  - intros d fmt c t Hc. unfold cached_state. cbn [files world]. rewrite lookup_insert_ne by by apply Hin, entry_in_cache. by apply Hh1.
  - intros d t. cbn [files world cached_state]. rewrite lookup_insert_ne by by apply Hin, final_in_cache. apply Hh2.
Qed.

(** One page is taken from the cache, and one is rendered. *)
Example page_from_cache :
  ∃ res st', ConvertJob cached_conversion cached_state = (Returned (Ok res), st') ∧ sent (world st') = "ab" ∧
    (ChunksRendered res, SubdivisionRetries res, CacheHits res) = (1, 1, 1).
Proof.
  set (cv := cached_conversion). set (pr := mkProbe 2 FormatDOCX [] 2).
  assert (planned cv pr = [mkChunk (f64_of_Z 0) 1 2 false]) as Hcs by (vm_compute; reflexivity).
  destruct (honest_cache_is_transparent cv (λ _, page_text) (λ _, 2) "PK" (λ a b, b - a + 1 <=? 1) sample_cache_in_use
    (sample_worker_renders cv "PK" 1) page_texts_sample sample_qpdf_ok (sample_qpdf_concatenates cv eq_refl)
    (response_to_client cv eq_refl) pr cached_state) as (res & st' & Hrun & Hs & _); [|reflexivity|exact sample_ready|reflexivity|].
  - split; rewrite ?Hcs; try reflexivity.
    + cbn. lia.
    + by left.
    + cbn. lia.
    + constructor; [|constructor]. right. split; [|by vm_compute]. repeat constructor.
  - exists res, st'. split; [exact Hrun|]. split; [exact Hs|].
    assert ((λ o, match o with Returned (Ok x) => Some (ChunksRendered x, SubdivisionRetries x, CacheHits x) | _ => None end)
      (ConvertJob cv cached_state).1 = Some (1, 1, 1)) as Hc by (vm_compute; reflexivity).
    change (sample_worker 1) with limit_one in Hrun. rewrite Hrun in Hc; cbn [fst] in Hc. cbv beta iota in Hc. clear -Hc. congruence.
Qed.
End sample.
