(* ===== verification/Server.v ===== *)
(** * What the handlers share ([internal/server/server.go], [convert.go])

    The state of the server and of one request on it, as a state-passing program
    with panics: the rate limiter, the slots of the semaphore, the license, the
    recent conversions, the files and the response.  What is outside (clock,
    license file, S3, processes) is an argument.  One request at a time; the
    slots that other requests hold are part of the state. *)
From Stdlib Require Import ZArith Lia Bool SpecFloat Ascii String.
From stdpp Require Import base tactics list gmap strings.
From S2P Require Import Prelude GoFloat GoString GoFmt GoTime Types OErrors Config FS Qpdf Http.
From S2P Require Cache License Progress RateLimit Recent S3 Worker.
From stdpp Require Import list.
Local Open Scope Z_scope.

Definition version : string := "0.1.0".

(** ** Requests *)

(** An uploaded file: the blocks it is read in, and the error that ends it before
    its end. *)
Record Upload : Type := mkUpload {
  Filename : string;
  UploadSize : Z;
  upload_blocks : list string;
  upload_error : option string
}.

(** A request after the middleware: the id it is bound to, the parts of it the
    rate limiter reads, its form and its file. *)
Record Request : Type := mkRequest {
  rid : string;
  client : RateLimit.Request;
  form : gmap string string;
  file : option Upload
}.
(** An upload without a name and without bytes is none. *)
Definition has_file (r : Request) : option Upload :=
  u ← file r;
  if negb (String.eqb (Filename u) "") || (0 <? UploadSize u) then Some u else None.
Definition FormValue (r : Request) (name : string) : string := default "" (form r !! name).

(** [requestIDMiddleware]: the id of the header, or a fresh one. *)
Definition request_id (header fresh : string) : string := if String.eqb header "" then fresh else header.
Definition base_headers (r : Request) : headers := {[ "X-Request-ID" := rid r ]}.

(** ** State *)

Record Server : Type := mkServer {
  wd : World;
  limiter : option RateLimit.Limiter;
  slots : Z;
  activeJobs : Z;
  licenseMgr : License.Manager;
  recent : Recent.RecentStore;
  jobs : Progress.JobProgressStore;
  s3_calls : list S3.call;
  ticks : nat
}.

(** The outside; [now] is the clock, reading by reading, [license_file] the
    license file at each of these moments, [temp_name] a fresh file name. *)
Record Env : Type := mkEnv {
  conf : Settings;
  cache : Cache.Manager;
  environ : gmap string string;
  now : nat → Time;
  license_file : nat → License.File;
  s3 : S3.World;
  temp_name : nat → string
}.

(** A step of a handler ends, waits for ever, or panics. *)
Inductive outcome (A : Type) : Type := Done (a : A) | Hung | Panicked.
Arguments Done {A} a.
Arguments Hung {A}.
Arguments Panicked {A}.

Definition Handler (A : Type) : Type := Server → outcome A * Server.
#[export] Instance h_ret : MRet Handler := λ A a sv, (Done a, sv).
#[export] Instance h_bind : MBind Handler := λ A B f m sv,
  match m sv with
  | (Done a, sv) => f a sv
  | (Hung, sv) => (Hung, sv)
  | (Panicked, sv) => (Panicked, sv)
  end.

Definition set_wd (w : World) (sv : Server) : Server :=
  mkServer w (limiter sv) (slots sv) (activeJobs sv) (licenseMgr sv) (recent sv) (jobs sv) (s3_calls sv) (ticks sv).
Definition set_limiter (l : option RateLimit.Limiter) (sv : Server) : Server :=
  mkServer (wd sv) l (slots sv) (activeJobs sv) (licenseMgr sv) (recent sv) (jobs sv) (s3_calls sv) (ticks sv).
Definition set_slots (n a : Z) (sv : Server) : Server :=
  mkServer (wd sv) (limiter sv) n a (licenseMgr sv) (recent sv) (jobs sv) (s3_calls sv) (ticks sv).
Definition set_license (m : License.Manager) (sv : Server) : Server :=
  mkServer (wd sv) (limiter sv) (slots sv) (activeJobs sv) m (recent sv) (jobs sv) (s3_calls sv) (ticks sv).
Definition set_recent (r : Recent.RecentStore) (sv : Server) : Server :=
  mkServer (wd sv) (limiter sv) (slots sv) (activeJobs sv) (licenseMgr sv) r (jobs sv) (s3_calls sv) (ticks sv).
Definition set_ticks (n : nat) (sv : Server) : Server :=
  mkServer (wd sv) (limiter sv) (slots sv) (activeJobs sv) (licenseMgr sv) (recent sv) (jobs sv) (s3_calls sv) n.
Definition log_calls (cs : list S3.call) (sv : Server) : Server :=
  mkServer (wd sv) (limiter sv) (slots sv) (activeJobs sv) (licenseMgr sv) (recent sv) (jobs sv) (s3_calls sv ++ cs) (ticks sv).

(** A file system step of a handler. *)
Definition lift {A} (m : IO A) : Handler A := λ sv, let '(a, w) := m (wd sv) in (Done a, set_wd w sv).
Definition get {A} (f : Server → A) : Handler A := λ sv, (Done (f sv), sv).
Definition modify (f : Server → Server) : Handler unit := λ sv, (Done (), f sv).
Definition panic {A} : Handler A := λ sv, (Panicked, sv).

Section server.
Context `{GoArch} `{PrintTable} `{JSONFloats} `{OSErrors} (env : Env).
#[local] Abbreviation s := (conf env).

Definition clock : Handler Time := λ sv, (Done (now env (ticks sv)), set_ticks (S (ticks sv)) sv).

(** The error response; the clock reading is the one a [rate_limited] error needs. *)
Definition respond (r : Request) (e : error) : Handler unit := t ← clock; lift (writeError t (base_headers r) (rid r) e).
Definition reject (r : Request) (e : Error) : Handler unit := respond r (EConv e).

(** ** The slot of a request *)

(** The headers that tell a client its rate; [None] when the request was answered
    with [rate_limited]. *)
Definition rate_headers (dec : RateLimit.Decision) : headers :=
  <["X-RateLimit-Limit" := itoa (RateLimit.Limit dec)]>
  (<["X-RateLimit-Remaining" := itoa (RateLimit.Remaining dec)]>
    {[ "X-RateLimit-Reset" := itoa (RateLimit.ResetEpochSeconds dec) ]}).
Definition check_rate (r : Request) : Handler (option headers) :=
  l ← get limiter;
  match l with
  | None => mret (Some ∅)
  | Some l =>
      t ← clock; t2 ← clock;
      match RateLimit.Check t t2 (RateLimit.ClientIDFor (client r) (RateLimitTrustXFF s)) l with
      | None => panic
      | Some (dec, l) =>
          modify (set_limiter (Some l));;
          if RateLimit.Allowed dec then mret (Some (rate_headers dec))
          else
            reject r (NewRateLimited (RateLimit.RetryAfterSeconds dec) (RateLimit.Limit dec));;
            mret None
      end
  end.

(** A handler that needs a slot: refused at once when there is none left; the
    slot is given back however the handler ends. *)
Definition acquire (sv : Server) : Server := set_slots (slots sv + 1) (activeJobs sv + 1) sv.
Definition release (sv : Server) : Server := set_slots (slots sv - 1) (activeJobs sv - 1) sv.
Definition with_slot (r : Request) (handler : Handler unit) : Handler unit := λ sv,
  if slots sv <? MaxJobs s then
    match handler (acquire sv) with
    | (Hung, sv) => (Hung, sv)
    | (o, sv) => (o, release sv)
    end
  else reject r (NewBusy 60) sv.

(** ** The license *)

Definition license_now : Handler (Time * License.File) := λ sv,
  (Done (now env (ticks sv), license_file env (ticks sv)), set_ticks (S (ticks sv)) sv).
Definition is_expired : Handler (result License.license_error bool) :=
  '(t, f) ← license_now;
  m ← get licenseMgr;
  let '(r, m) := License.IsExpired t f m in
  modify (set_license m);;
  mret r.
(** The expiry date as it is shown, or nothing. *)
Definition expired_on : Handler string :=
  '(t, f) ← license_now;
  m ← get licenseMgr;
  let '(r, m) := License.ExpiryDate f m in
  modify (set_license m);;
  mret (match r with Ok (Some d) => format_date d | _ => "" end).

(** ** The record of a conversion *)

Record dispatchInfo : Type := mkInfo {
  t0 : Time;
  source : string;
  inputFilename : string;
  format : string;
  engine : string;
  s3Out : option (string * string)
}.

Definition conversion_record (r : Request) (di : dispatchInfo) (t1 t2 : Time) (status errorCode : string) (outSize : Z)
    : Recent.ConversionRecord :=
  Recent.mkConversion (rid r) (epoch_seconds t1) (source di)
    (if String.eqb (inputFilename di) "" then None else Some (inputFilename di))
    (format di) None (Z.quot (time_sub t2 (t0 di)) 1000000) status
    (if String.eqb errorCode "" then None else Some errorCode)
    ((λ '(b, k), "s3://" +:+ b +:+ "/" +:+ k) <$> s3Out di)
    (if String.eqb status "success" then Some outSize else None)
    (engine di).
Definition recordConversion (r : Request) (di : dispatchInfo) (status errorCode : string) (outSize : Z) : Handler unit :=
  t1 ← clock; t2 ← clock;
  st ← get recent;
  match Recent.Record_ (conversion_record r di t1 t2 status errorCode outSize) st with
  | None => panic
  | Some st => modify (set_recent st)
  end.

Definition errCode (e : error) : string :=
  match e with EConv e => failure_string (EFailureClass e) | EOther _ => "render_failed" end.

(** ** Files *)

Definition basename (p : string) : string := after_last p "/"%char.
Definition fileSize (p : string) : IO Z := fs ← get_files; mret (match fs !! p with Some c => str_len c | None => 0 end).
Definition joinScratch (base rid : string) : string := FilepathJoin [base; rid].
Definition minI64 (a b : Z) : Z := if a <? b then a else b.
Definition render_error (msg : string) : Error := NewRender None (-1) msg.

(** [streamUploadToFile]: the blocks of an upload; it stops at the first block
    beyond the limit. *)
Fixpoint copy_upload (dest : string) (maxBytes : Z) (err : option string) (total : Z) (blocks : list string)
    : IO (result Error Z) :=
  match blocks with
  | [] => mret (match err with None => Ok total | Some e => Err (render_error ("read upload: " +:+ e)) end)
  | b :: blocks =>
      let total := (total +! str_len b)%go in
      if maxBytes <? total then mret (Err (NewInputTooLarge total maxBytes))
      else
        ok ← os_append dest b;
        if ok : bool then copy_upload dest maxBytes err total blocks
        else mret (Err (render_error ("write input tmp: " +:+ os_error "write" dest)))
  end.
Definition streamUploadToFile (u : Upload) (dest : string) (maxBytes : Z) : IO (result Error Z) :=
  ok ← os_create dest;
  if ok : bool then copy_upload dest maxBytes (upload_error u) 0 (upload_blocks u)
  else mret (Err (render_error ("open input tmp: " +:+ os_error "create" dest))).

(** [readHead]: the first [n] bytes, nothing when the file cannot be read. *)
Definition readHead (p : string) (n : Z) : IO (option (list Z)) :=
  c ← os_open p;
  mret ((λ c, if n <=? 0 then [] else take (Z.to_nat n) (bytes c)) <$> c).

(** [copyPDF]: a file onto a writer, in blocks. *)
Definition copyPDF (blocks : string → list string) (path : string) (dst : Sink) : IO (option error) :=
  c ← os_open path;
  match c with
  | None => mret (Some (EConv (render_error ("open pdf: " +:+ os_error "open" path))))
  | Some c =>
      unread ← copy_out (sink_write dst) (blocks c);
      mret (match unread with None => None | Some _ => Some (EOther (os_error "write" "")) end)
  end.

(** ** Streaming a result *)

Definition stream_headers (r : Request) (rate : headers) (di : dispatchInfo) : headers :=
  let hs := rate ∪ {[ "Content-Type" := "application/pdf" ]} in
  let hs := match s3Out di with
    | Some (bucket, key) => <["X-S3-Output-Bucket" := bucket]> (<["X-S3-Output-Key" := key]> hs)
    | None => hs
    end in
  hs ∪ base_headers r.

(** The copy for S3, when it can be created. *)
Definition open_s3_copy (di : dispatchInfo) : Handler (option string) :=
  match s3Out di with
  | None => mret None
  | Some _ =>
      k ← get ticks; modify (set_ticks (S k));;
      let tmp := temp_name env k in
      ok ← lift (os_create tmp);
      mret (if ok : bool then Some tmp else None)
  end.

(** The files the S3 client opens are those there are. *)
Definition s3_world (fs : gmap string string) : S3.World :=
  S3.mkWorld (S3.load_config (s3 env)) (S3.get_object (s3 env)) (S3.upload (s3 env)) (S3.presign (s3 env))
    (S3.create_dest (s3 env)) (S3.copy_body (s3 env))
    (λ p, match fs !! p with Some c => Ok c | None => Err (os_error "open" p) end) (S3.sha256_hex (s3 env)).

Definition upload_copy (di : dispatchInfo) (tmp : option string) : Handler unit :=
  match tmp, s3Out di with
  | Some tmp, Some (bucket, key) =>
      w ← get wd;
      let '(_, calls) := S3.UploadFile (environ env) (s3_world (files w)) tmp bucket key s in
      modify (log_calls calls);;
      lift (os_remove tmp);;
      mret ()
  | _, _ => mret ()
  end.
Definition drop_copy (tmp : option string) : Handler unit :=
  match tmp with Some tmp => lift (os_remove tmp);; mret () | None => mret () end.

(** [finishStream]; [sent0] is what the response held before. *)
Definition finishStream (r : Request) (di : dispatchInfo) (hs : headers) (scratchDir : string)
    (produce : Sink → Handler (option error)) : Handler unit :=
  sent0 ← get (λ sv, str_len (sent (wd sv)));
  tmp ← open_s3_copy di;
  err ← produce (match tmp with Some tmp => multi_sink hs tmp | None => stream_sink hs end);
  match err with
  | Some e =>
      drop_copy tmp;;
      w ← get wd;
      match answered w with
      | None => recordConversion r di "failed" (errCode e) 0;; respond r e
      | Some _ => recordConversion r di "failed" (errCode e) (str_len (sent w) - sent0)
      end
  | None =>
      upload_copy di tmp;;
      w ← get wd;
      recordConversion r di "success" "" (str_len (sent w) - sent0)
  end;;
  lift (os_remove_all scratchDir).
End server.

Lemma quiet_upload `{OSErrors} u dest n : quiet (streamUploadToFile u dest n).
Proof.
  unfold streamUploadToFile. quiet. generalize 0 as total. induction (upload_blocks u) as [|b bs IH]; intros total; cbn [copy_upload].
  - quiet.
  - destruct (_ <? _); [quiet|]. apply quiet_bind; [quiet|]. intros []; [apply IH|quiet].
Qed.
Lemma quiet_read_head p n : quiet (readHead p n).
Proof. unfold readHead. quiet. Qed.
#[export] Hint Resolve quiet_upload quiet_read_head : quiet.

(** ** What a step of a handler keeps *)

(** A step relates every state to the state it leaves. *)
Definition hrel (R : Server → Server → Prop) {A} (m : Handler A) : Prop := ∀ sv, R sv (m sv).2.

Section relations.
Context (R : Server → Server → Prop) `{!PreOrder R}.

Lemma hrel_bind {A B} (m : Handler A) (f : A → Handler B) : hrel R m → (∀ a, hrel R (f a)) → hrel R (m ≫= f).
Proof.
  intros Hm Hf sv. unfold mbind, h_bind. specialize (Hm sv). destruct (m sv) as [[a| |] sv']; [|done..].
  etrans; [exact Hm|apply Hf].
Qed.
Lemma hrel_ret {A} (a : A) : hrel R (mret a).
Proof. by intros sv. Qed.
Lemma hrel_get {A} (f : Server → A) : hrel R (get f).
Proof. by intros sv. Qed.
Lemma hrel_panic {A} : hrel R (panic (A := A)).
Proof. by intros sv. Qed.
Lemma hrel_modify f : (∀ sv, R sv (f sv)) → hrel R (modify f).
Proof. by intros Hf sv. Qed.
End relations.

(** Only the slot of the request and the jobs in it matter. *)
Definition same_slots (sv sv' : Server) : Prop := slots sv' = slots sv ∧ activeJobs sv' = activeJobs sv.
#[export] Instance same_slots_preorder : PreOrder same_slots.
Proof. split; [done|]. intros a b c [H1 H2] [H3 H4]. split; congruence. Qed.

(** Nothing is written on the response, and nothing is recorded. *)
Definition same_response (sv sv' : Server) : Prop :=
  sent (wd sv') = sent (wd sv) ∧ answered (wd sv') = answered (wd sv) ∧ recent sv' = recent sv.
#[export] Instance same_response_preorder : PreOrder same_response.
Proof. split; [done|]. intros a b c (H1 & H2 & H3) (H4 & H5 & H6). split_and!; congruence. Qed.

Lemma slots_lift {A} (m : IO A) : hrel same_slots (lift m).
Proof. intros sv. unfold lift. by destruct (m (wd sv)). Qed.
Lemma response_lift {A} (m : IO A) : quiet m → hrel same_response (lift m).
Proof. intros Hm sv. unfold lift. destruct (Hm (wd sv)). by destruct (m (wd sv)). Qed.
Lemma slots_modify f : (∀ sv, same_slots sv (f sv)) → hrel same_slots (modify f).
Proof. apply hrel_modify. Qed.
Lemma response_modify f : (∀ sv, same_response sv (f sv)) → hrel same_response (modify f).
Proof. apply hrel_modify. Qed.

Create HintDb handler.
#[export] Hint Resolve hrel_ret hrel_get hrel_panic slots_lift response_lift slots_modify response_modify : handler.
#[export] Hint Extern 1 (PreOrder _) => apply _ : handler.
#[export] Hint Extern 1 (∀ sv, same_slots sv _) => done : handler.
#[export] Hint Extern 1 (∀ sv, same_response sv _) => done : handler.

(** Follows a handler, one bind and one case at a time. *)
Ltac handler :=
  repeat match goal with
  | |- hrel _ (_ ≫= _) => apply hrel_bind; [apply _| |intros ?]
  | |- hrel _ (match ?x with _ => _ end) => destruct x
  end; eauto with handler quiet.

Lemma slots_drop_copy tmp : hrel same_slots (drop_copy tmp).
Proof. unfold drop_copy. handler. Qed.
Lemma response_drop_copy tmp : hrel same_response (drop_copy tmp).
Proof. unfold drop_copy. handler. Qed.

Section kept.
Context `{GoArch} `{PrintTable} `{JSONFloats} `{OSErrors} (env : Env).

Lemma slots_clock : hrel same_slots (clock env).
Proof. done. Qed.
Lemma response_clock : hrel same_response (clock env).
Proof. done. Qed.
Lemma slots_license_now : hrel same_slots (license_now env).
Proof. done. Qed.
Lemma response_license_now : hrel same_response (license_now env).
Proof. done. Qed.
#[local] Hint Resolve slots_clock response_clock slots_license_now response_license_now : handler.

Lemma slots_respond r e : hrel same_slots (respond env r e).
Proof. unfold respond. handler. Qed.
#[local] Hint Resolve slots_respond : handler.
Lemma slots_check_rate r : hrel same_slots (check_rate env r).
Proof. unfold check_rate, reject. handler. Qed.
Lemma slots_is_expired : hrel same_slots (is_expired env).
Proof. unfold is_expired. handler. Qed.
Lemma response_is_expired : hrel same_response (is_expired env).
Proof. unfold is_expired. handler. Qed.
Lemma slots_expired_on : hrel same_slots (expired_on env).
Proof. unfold expired_on. handler. Qed.
Lemma response_expired_on : hrel same_response (expired_on env).
Proof. unfold expired_on. handler. Qed.
Lemma slots_record r di st c n : hrel same_slots (recordConversion env r di st c n).
Proof. unfold recordConversion. handler. Qed.
Lemma slots_open_copy di : hrel same_slots (open_s3_copy env di).
Proof. unfold open_s3_copy. handler. Qed.
Lemma response_open_copy di : hrel same_response (open_s3_copy env di).
Proof. unfold open_s3_copy. handler. Qed.
Lemma slots_upload_copy di tmp : hrel same_slots (upload_copy env di tmp).
Proof. unfold upload_copy. handler. Qed.
Lemma response_upload_copy di tmp : hrel same_response (upload_copy env di tmp).
Proof. unfold upload_copy. handler. Qed.
#[local] Hint Resolve slots_record slots_open_copy slots_upload_copy slots_drop_copy : handler.

Lemma slots_finish r di hs dir produce :
  (∀ dst, hrel same_slots (produce dst)) → hrel same_slots (finishStream env r di hs dir produce).
Proof. intros Hp. unfold finishStream. handler. Qed.
End kept.
#[export] Hint Resolve slots_clock response_clock slots_license_now response_license_now slots_respond slots_check_rate
  slots_is_expired response_is_expired slots_expired_on response_expired_on slots_record
  slots_open_copy response_open_copy slots_upload_copy response_upload_copy slots_drop_copy response_drop_copy
  slots_finish : handler.

(** A handler that ends gives its slot back. *)
Definition balanced (env : Env) (m : Handler unit) : Prop :=
  ∀ sv, slots sv <= MaxJobs (conf env) →
    let '(o, sv') := m sv in
    match o with
    | Hung => slots sv' <= MaxJobs (conf env) ∧ slots sv <= slots sv' <= slots sv + 1 ∧
              activeJobs sv' - activeJobs sv = slots sv' - slots sv
    | _ => slots sv' = slots sv ∧ activeJobs sv' = activeJobs sv
    end.

Lemma with_slot_balanced `{JSONFloats} env r handler :
  hrel same_slots handler → balanced env (with_slot env r handler).
Proof.
  intros Hh sv Hle. unfold with_slot. destruct (Z.ltb_spec (slots sv) (MaxJobs (conf env))).
  - specialize (Hh (acquire sv)). destruct (handler (acquire sv)) as [[a| |] sv']; destruct Hh as [Hs1 Hs2];
      cbn in Hs1, Hs2; rewrite ?Hs1, ?Hs2; cbn; try (split_and!; lia); rewrite Hs1, Hs2; lia.
  - pose proof (slots_respond env r (EConv (NewBusy 60)) sv) as [Hs1 Hs2]. unfold reject.
    destruct (respond env r _ sv) as [[u| |] sv']; cbn in *; lia.
Qed.

Lemma balanced_after {A} env (m : Handler A) (k : A → Handler unit) :
  hrel same_slots m → (∀ a, balanced env (k a)) → balanced env (m ≫= k).
Proof.
  intros Hm Hk sv Hle. unfold mbind, h_bind. destruct (Hm sv) as [Hs1 Hs2]. destruct (m sv) as [[a| |] sv1]; cbn in *; [|lia..].
  specialize (Hk a sv1 ltac:(lia)). destruct (k a sv1) as [[u| |] sv2]; lia.
Qed.

(** ** What a handler answers *)

(** From a state with [P] a step that ends gives a result with [Q]. *)
Definition hpost (P : Server → Prop) {A} (m : Handler A) (Q : A → Server → Prop) : Prop :=
  ∀ sv, P sv → match m sv with (Done a, sv') => Q a sv' | _ => True end.

Lemma hpost_bind P {A B} (m : Handler A) (f : A → Handler B) Q S :
  hpost P m Q → (∀ a, hpost (Q a) (f a) S) → hpost P (m ≫= f) S.
Proof.
  intros Hm Hf sv Hsv. unfold mbind, h_bind. specialize (Hm sv Hsv). destruct (m sv) as [[a| |] sv1]; [|done..]. by apply Hf.
Qed.
Lemma hpost_ret (P : Server → Prop) {A} (a : A) Q : (∀ sv, P sv → Q a sv) → hpost P (mret a) Q.
Proof. intros HQ sv Hsv. by apply HQ. Qed.
Lemma hpost_get (P : Server → Prop) {A} (f : Server → A) : hpost P (get f) (λ a sv, P sv ∧ a = f sv).
Proof. by intros sv Hsv. Qed.

Lemma hpost_pure (P : Server → Prop) (φ : Prop) {A} (m : Handler A) Q : (φ → hpost P m Q) → hpost (λ sv, P sv ∧ φ) m Q.
Proof. intros Hm sv [Hsv Hφ]. by apply Hm. Qed.

(** The fresh response of a request, before the records [recs]. *)
Definition unanswered (recs : Recent.RecentStore) (sv : Server) : Prop :=
  answered (wd sv) = None ∧ sent (wd sv) = "" ∧ recent sv = recs.

Lemma hpost_unanswered recs {A} (m : Handler A) : hrel same_response m → hpost (unanswered recs) m (λ _, unanswered recs).
Proof.
  intros Hm sv (H1 & H2 & H3). destruct (Hm sv) as (H4 & H5 & H6). destruct (m sv) as [[a| |] sv']; [|done..].
  cbn in *. unfold unanswered. by rewrite H4, H5, H6.
Qed.

(** A stream that has not begun, or has begun with its status and headers. *)
Definition began (hs : headers) (w : World) : Prop :=
  (answered w = None ∧ sent w = "") ∨ answered w = Some (200, hs).

Lemma began_response hs : response_only (began hs).
Proof. intros w w' Hs Ha. unfold began. by rewrite Hs, Ha. Qed.

Lemma began_stream hs b : keeps (began hs) (stream_write hs b).
Proof.
  intros w Hw. right. unfold stream_write, mbind, io_bind, send.
  assert (answered (write_header 200 hs w).2 = Some (200, hs)) as Ha.
  { unfold write_header. destruct Hw as [[-> _]|Ha]; [done|]. rewrite Ha. exact Ha. }
  destruct (write_header 200 hs w) as [u w1]. cbn [snd] in Ha. pose proof (quiet_faulty w1) as [_ Hq].
  destruct (faulty w1) as [[] w2]; cbn in *; congruence.
Qed.

Lemma began_multi hs tmp b : keeps (began hs) (multi_write hs tmp b).
Proof.
  unfold multi_write. apply keeps_bind; [apply began_stream|]. intros []; [|by intros w].
  apply keeps_quiet; [apply began_response|quiet].
Qed.

Lemma began_sink hs dst b :
  dst = stream_sink hs ∨ (∃ tmp, dst = multi_sink hs tmp) → keeps (began hs) (sink_write dst b).
Proof. intros [->|[tmp ->]]; [apply began_stream|apply began_multi]. Qed.

Lemma copy_out_keeps (P : World → Prop) write blocks : (∀ b, keeps P (write b)) → keeps P (copy_out write blocks).
Proof.
  intros Hw. induction blocks as [|b bs IH]; [by intros w|]. cbn [copy_out]. apply keeps_bind; [apply Hw|].
  intros []; [apply IH|by intros w].
Qed.

Lemma began_copyPDF `{OSErrors} hs dst blocks path :
  dst = stream_sink hs ∨ (∃ tmp, dst = multi_sink hs tmp) → keeps (began hs) (copyPDF blocks path dst).
Proof.
  intros Hdst. unfold copyPDF. apply keeps_bind; [apply keeps_quiet; [apply began_response|quiet]|].
  intros [c|]; [|by intros w]. apply keeps_bind; [apply copy_out_keeps; intros b; by apply began_sink|]. by intros [x|] w.
Qed.

Section answers.
Context `{GoArch} `{PrintTable} `{JSONFloats} `{OSErrors} (env : Env) (r : Request) (recs : Recent.RecentStore).

(** Refused: the status and the diagnostic of an error, as far as the connection
    takes it. *)
Definition refused (e : Error) (sv : Server) : Prop :=
  ∃ hs, answered (wd sv) = Some (HTTPStatus e, hs) ∧ hs !! "Content-Type" = Some "application/json" ∧
    hs !! "X-Request-ID" = Some (rid r) ∧
    (sent (wd sv) = "" ∨ sent (wd sv) = json_body (diagnostic (rid r) e)).

(** Streamed: a PDF, unless there was nothing to send. *)
Definition pdf_headers (hs : headers) : Prop :=
  hs !! "Content-Type" = Some "application/pdf" ∧ hs !! "X-Request-ID" = Some (rid r).
Definition streamed (sv : Server) : Prop :=
  (answered (wd sv) = None ∧ sent (wd sv) = "") ∨ ∃ hs, answered (wd sv) = Some (200, hs) ∧ pdf_headers hs.

(** One record more than before. *)
Definition recorded (status : string) (code : option string) (size : option Z) (sv : Server) : Prop :=
  ∃ rec, Recent.Record_ rec recs = Some (recent sv) ∧ Recent.RequestID rec = rid r ∧
    Recent.Status rec = status ∧ Recent.ErrorCode rec = code ∧ Recent.OutputSizeBytes rec = size.

(** The three ways a conversion is answered: an error, recorded as such or not at
    all; a PDF, recorded with its size; a PDF that ends early, recorded as failed. *)
Inductive answer_of (sv : Server) : Prop :=
| Refused (e : Error) : refused e sv →
    recent sv = recs ∨ recorded "failed" (Some (failure_string (EFailureClass e))) None sv → answer_of sv
| Delivered : streamed sv → recorded "success" None (Some (str_len (sent (wd sv)))) sv → answer_of sv
| CutShort (hs : headers) (code : string) : answered (wd sv) = Some (200, hs) → pdf_headers hs →
    recorded "failed" (Some code) None sv → answer_of sv.

Lemma error_headers_keep now e hs k :
  k ≠ "Retry-After" → k ≠ "X-RateLimit-Limit" → k ≠ "X-RateLimit-Remaining" → k ≠ "X-RateLimit-Reset" →
  error_headers now e hs !! k = hs !! k.
Proof.
  intros Hk1 Hk2 Hk3 Hk4. unfold error_headers. destruct (EFailureClass e); try done.
  - destruct (detail_field e "retry_after_seconds"); [|done]. by rewrite lookup_insert_ne.
  - by rewrite !lookup_insert_ne.
Qed.

Lemma respond_refuses e sv :
  answered (wd sv) = None → sent (wd sv) = "" →
  let '(o, sv') := respond env r e sv in o = Done () ∧ refused (as_conversion_error e) sv' ∧ recent sv' = recent sv.
Proof.
  intros Ha Hs. unfold respond, mbind, h_bind, clock, lift. cbn [wd set_ticks].
  unfold writeError, writeJSON, write_body, mbind, io_bind, mret, io_ret, write_header. rewrite Ha.
  set (oe := as_conversion_error e).
  match goal with |- context [send _ ?w] => pose proof (quiet_faulty w) as Hq; unfold send end. revert Hq.
  match goal with |- context [faulty ?w] => destruct (faulty w) as [bad w1] end. cbn. intros [Hq1 Hq2].
  unfold refused. destruct bad; cbn; (split; [done|]); (split; [|done]); eexists; rewrite Hq2; (split; [done|]);
    (split; [by rewrite lookup_insert_eq|]);
    (split; [rewrite lookup_insert_ne by done; rewrite error_headers_keep by done; unfold base_headers; by rewrite lookup_singleton_eq|]).
  - left. by rewrite Hq1.
  - right. by rewrite Hq1, Hs.
Qed.

Lemma refuse_unanswered e : hpost (unanswered recs) (respond env r e) (λ _, answer_of).
Proof.
  intros sv (Ha & Hs & Hr). pose proof (respond_refuses e sv Ha Hs) as Hresp. destruct (respond env r e sv) as [o sv'].
  destruct Hresp as (-> & Href & Hrec). eapply Refused; [exact Href|]. left. by rewrite Hrec.
Qed.

Lemma recorded_mono status code size sv sv' :
  same_response sv sv' → recorded status code size sv → recorded status code size sv'.
Proof. intros (_ & _ & Hr) (rec & H1' & H2' & H3' & H4'). exists rec. by rewrite Hr. Qed.

Lemma answer_mono sv sv' : same_response sv sv' → answer_of sv → answer_of sv'.
Proof.
  intros Hsv Hans. pose proof Hsv as (Hs & Ha & Hr). destruct Hans as [e (hs & Hr1 & Hr2 & Hr3 & Hr4) Hrec|Hst Hrec|hs code Hh Hp Hrec].
  - eapply (Refused _ e); [exists hs; by rewrite Ha, Hs|].
    destruct Hrec as [Hrec|Hrec]; [left; congruence|right; by eapply recorded_mono].
  - apply Delivered; [|rewrite Hs; by eapply recorded_mono]. destruct Hst as [[Hn He]|(hs & Hh & Hp)].
    + left. by rewrite Ha, Hs.
    + right. exists hs. by rewrite Ha.
  - eapply CutShort; [by rewrite Ha|done|by eapply recorded_mono].
Qed.

(** The record adds itself and changes nothing else. *)
Lemma record_post di status code n sv :
  recent sv = recs →
  match recordConversion env r di status code n sv with
  | (Done _, sv') => sent (wd sv') = sent (wd sv) ∧ answered (wd sv') = answered (wd sv) ∧
      recorded status (if String.eqb code "" then None else Some code) (if String.eqb status "success" then Some n else None) sv'
  | _ => True
  end.
Proof.
  intros Hr. unfold recordConversion, mbind, h_bind, clock, get, modify. cbn [set_ticks recent wd]. rewrite Hr.
  match goal with |- context [Recent.Record_ ?rec recs] => destruct (Recent.Record_ rec recs) as [st|] eqn:Hrec; [|done];
    split_and!; [done|done|]; exists rec end.
  by rewrite Hrec.
Qed.

Lemma error_code e :
  errCode e = failure_string (EFailureClass (as_conversion_error e)) ∧ String.eqb (errCode e) "" = false.
Proof. destruct e as [e|msg]; [|done]. split; [done|]. by destruct e as [[] ? ? ? ? ?]. Qed.

(** What the writer of the stream leaves. *)
Definition streaming (hs : headers) (sv : Server) : Prop := began hs (wd sv) ∧ recent sv = recs.

Lemma streaming_mono hs sv sv' : same_response sv sv' → streaming hs sv → streaming hs sv'.
Proof. intros (Hs & Ha & Hr) [Hst Hrec]. unfold streaming, began. by rewrite Hs, Ha, Hr. Qed.

Lemma hpost_same (P : Server → Prop) {A} (m : Handler A) :
  hrel same_response m → (∀ sv sv', same_response sv sv' → P sv → P sv') → hpost P m (λ _, P).
Proof. intros Hm HP sv Hsv. specialize (Hm sv). destruct (m sv) as [[a| |] sv']; [|done..]. by eapply HP. Qed.

Lemma record_success_answers di hs sv :
  pdf_headers hs → streaming hs sv →
  match recordConversion env r di "success" "" (str_len (sent (wd sv)) - 0) sv with (Done _, sv') => answer_of sv' | _ => True end.
Proof.
  intros Hp [Hst Hrec]. pose proof (record_post di "success" "" (str_len (sent (wd sv)) - 0) sv Hrec) as Hpost.
  destruct (recordConversion env r di "success" "" _ sv) as [[u| |] sv']; [|done..]. destruct Hpost as (Hs & Ha & Hr).
  apply Delivered; [|by rewrite Hs, <- (Z.sub_0_r (str_len (sent (wd sv))))].
  destruct Hst as [[Hn He]|Hh]; [left; by rewrite Ha, Hs|right; exists hs; by rewrite Ha].
Qed.

Lemma record_failure_answers di hs e sv :
  pdf_headers hs → streaming hs sv →
  match (match answered (wd sv) with
         | None => recordConversion env r di "failed" (errCode e) 0;; respond env r e
         | Some _ => recordConversion env r di "failed" (errCode e) (str_len (sent (wd sv)) - 0)
         end) sv with (Done _, sv') => answer_of sv' | _ => True end.
Proof.
  intros Hp [Hst Hrec]. destruct (error_code e) as [Hcode Hne].
  destruct Hst as [[Hn He]|Hh]; [rewrite Hn; unfold mbind, h_bind|rewrite Hh];
    (match goal with |- context [recordConversion env r di "failed" (errCode e) ?n sv] =>
       pose proof (record_post di "failed" (errCode e) n sv Hrec) as Hpost;
       destruct (recordConversion env r di "failed" (errCode e) n sv) as [[u| |] sv1]; [|done..] end);
    destruct Hpost as (Hs & Ha & Hr); rewrite Hne in Hr; cbn in Hr.
  - pose proof (respond_refuses e sv1) as Href. destruct (respond env r e sv1) as [o sv2].
    destruct Href as (-> & Href & Hrec2); [congruence|congruence|]. eapply Refused; [exact Href|]. right.
    rewrite <- Hcode. destruct Hr as (rec & Hr). exists rec. by rewrite Hrec2.
  - eapply CutShort; [by rewrite Ha|done|exact Hr].
Qed.

Lemma finish_answers di hs dir produce :
  pdf_headers hs →
  (∀ dst, dst = stream_sink hs ∨ (∃ tmp, dst = multi_sink hs tmp) → hpost (unanswered recs) (produce dst) (λ _, streaming hs)) →
  hpost (unanswered recs) (finishStream env r di hs dir produce) (λ _, answer_of).
Proof.
  intros Hp Hprod. unfold finishStream.
  eapply (hpost_bind _ _ _ (λ n sv, unanswered recs sv ∧ n = 0)).
  { intros sv (Ha & Hs & Hr). cbn. by rewrite Hs. }
  intros sent0. apply hpost_pure. intros ->.
  eapply hpost_bind; [apply hpost_unanswered, response_open_copy|]. intros tmp.
  eapply hpost_bind; [apply Hprod; destruct tmp as [tmp|]; [right; by exists tmp|by left]|]. intros err.
  eapply (hpost_bind _ _ _ (λ _, answer_of)).
  - destruct err as [e|].
    + eapply hpost_bind; [apply (hpost_same (streaming hs)); [apply response_drop_copy|apply streaming_mono]|]. intros u; cbn beta.
      eapply hpost_bind; [apply hpost_get|]. intros w sv [Hst ->]. by apply (record_failure_answers di hs e).
    + eapply hpost_bind; [apply (hpost_same (streaming hs)); [apply response_upload_copy|apply streaming_mono]|]. intros u; cbn beta.
      eapply hpost_bind; [apply hpost_get|]. intros w sv [Hst ->]. by apply (record_success_answers di hs).
  - intros u. apply hpost_same; [apply response_lift, quiet_os_remove_all|apply answer_mono].
Qed.

(** A producer that writes only on the stream it is given. *)
Lemma produced_by hs {A} (m : IO A) : keeps (began hs) m → hpost (unanswered recs) (lift m) (λ _, streaming hs).
Proof.
  intros Hm sv (Ha & Hs & Hr). unfold lift. pose proof (Hm (wd sv) (or_introl (conj Ha Hs))) as Hk.
  destruct (m (wd sv)) as [a w]. by split.
Qed.

(** The headers of the rate do not get in the way of those of the stream. *)
Definition plain_headers (rate : headers) : Prop := rate !! "Content-Type" = None ∧ rate !! "X-Request-ID" = None.

(** A post-condition that every refusal has. *)
Section post.
Context (Q : Server → Prop) (Hrefuse : ∀ e, hpost (unanswered recs) (respond env r e) (λ _, Q)).
Context (Hmono : ∀ sv sv', same_response sv sv' → Q sv → Q sv').

Lemma check_rate_post :
  hpost (unanswered recs) (check_rate env r)
    (λ o sv, match o with Some rate => unanswered recs sv ∧ plain_headers rate | None => Q sv end).
Proof.
  unfold check_rate. eapply hpost_bind; [apply hpost_get|]. intros [l|] sv [Hsv _]; [|done]. revert sv Hsv.
  match goal with |- ∀ sv, unanswered recs sv → match ?m sv with _ => _ end => change (hpost (unanswered recs) m
    (λ o sv, match o with Some rate => unanswered recs sv ∧ plain_headers rate | None => Q sv end)) end.
  eapply hpost_bind; [apply hpost_unanswered, response_clock|]. intros t. eapply hpost_bind; [apply hpost_unanswered, response_clock|]. intros t2.
  destruct (RateLimit.Check _ _ _ _) as [[dec l']|]; [|done].
  eapply hpost_bind; [apply hpost_unanswered, response_modify; by intros sv|]. intros u. destruct (RateLimit.Allowed dec).
  - by intros sv Hsv.
  - eapply hpost_bind; [apply Hrefuse|]. by intros v sv Hsv.
Qed.

Lemma with_slot_post handler :
  hpost (unanswered recs) handler (λ _, Q) → hpost (unanswered recs) (with_slot env r handler) (λ _, Q).
Proof.
  intros Hh sv Hsv. unfold with_slot. destruct (slots sv <? _); [|by apply Hrefuse].
  specialize (Hh (acquire sv) Hsv). destruct (handler (acquire sv)) as [[u| |] sv']; [|done..]. by apply (Hmono sv').
Qed.
End post.

Lemma stream_headers_pdf rate di : plain_headers rate → pdf_headers (stream_headers r rate di).
Proof.
  intros [H1' H2']. unfold stream_headers, base_headers.
  assert ((rate ∪ {[ "Content-Type" := "application/pdf" ]}) !! "X-Request-ID" = None) as Hid.
  { rewrite lookup_union_r by done. by rewrite lookup_singleton_ne. }
  destruct (s3Out di) as [[bucket key]|]; split.
  - apply lookup_union_Some_l. rewrite !lookup_insert_ne by done. rewrite lookup_union_r by done. apply lookup_singleton_eq.
  - rewrite lookup_union_r by (by rewrite !lookup_insert_ne). apply lookup_singleton_eq.
  - apply lookup_union_Some_l. rewrite lookup_union_r by done. apply lookup_singleton_eq.
  - rewrite lookup_union_r by done. apply lookup_singleton_eq.
Qed.

End answers.

(** ** The copy for S3 *)

Definition same_calls (sv sv' : Server) : Prop := s3_calls sv' = s3_calls sv.
#[export] Instance same_calls_preorder : PreOrder same_calls.
Proof. split; [done|]. intros a b c H1 H2. unfold same_calls in *. congruence. Qed.
Definition same_output (sv sv' : Server) : Prop := same_calls sv sv' ∧ sent (wd sv') = sent (wd sv).
#[export] Instance same_output_preorder : PreOrder same_output.
Proof. split; [done|]. intros a b c [H1 H2] [H3 H4]. split; [by etrans|congruence]. Qed.

Lemma calls_lift {A} (m : IO A) : hrel same_calls (lift m).
Proof. intros sv. unfold lift. by destruct (m (wd sv)). Qed.
Lemma output_lift {A} (m : IO A) : quiet m → hrel same_output (lift m).
Proof. intros Hm sv. unfold lift. destruct (Hm (wd sv)). by destruct (m (wd sv)). Qed.
Lemma calls_modify f : (∀ sv, same_calls sv (f sv)) → hrel same_calls (modify f).
Proof. apply hrel_modify. Qed.
Lemma output_modify f : (∀ sv, same_output sv (f sv)) → hrel same_output (modify f).
Proof. apply hrel_modify. Qed.
#[local] Hint Resolve calls_lift output_lift calls_modify output_modify : handler.
#[local] Hint Extern 1 (∀ sv, same_calls sv _) => done : handler.
#[local] Hint Extern 1 (∀ sv, same_output sv _) => done : handler.

(** What has gone to the client is in the file too. *)
Lemma multi_write_tees hs tmp b w :
  files w !! tmp = Some (sent w) →
  let '(ok, w') := multi_write hs tmp b w in
  ok = true → files w' !! tmp = Some (sent w') ∧ sent w' = sent w +:+ b.
Proof.
  intros Hf. unfold multi_write, mbind, io_bind. pose proof (stream_write_spec hs b w) as Hs.
  destruct (stream_write hs b w) as [[] w1]; [|done]. destruct Hs as ((d & _ & Hs & Hd) & Hf1 & _). specialize (Hd eq_refl). subst d.
  pose proof (os_append_spec tmp b w1) as Ha. destruct (os_append tmp b w1) as [[] w2]; [|done]. destruct Ha as (Hf2 & Hs2 & _).
  intros _. rewrite Hf2, Hs2, Hf1, Hf, Hs. by rewrite lookup_insert_eq.
Qed.

Lemma copy_out_tees hs tmp bs w :
  files w !! tmp = Some (sent w) →
  let '(unread, w') := copy_out (multi_write hs tmp) bs w in
  unread = None → files w' !! tmp = Some (sent w') ∧ sent w' = sent w +:+ foldr String.append "" bs.
Proof.
  revert w. induction bs as [|b bs IH]; intros w Hf; [by rewrite string_app_empty_r|]. cbn [copy_out]. unfold mbind, io_bind.
  pose proof (multi_write_tees hs tmp b w Hf) as Hw. destruct (multi_write hs tmp b w) as [[] w1]; [|done].
  destruct (Hw eq_refl) as [Hf1 Hs1]. specialize (IH w1 Hf1). destruct (copy_out _ bs w1) as [unread w2]. intros Hu.
  destruct (IH Hu) as [Hf2 Hs2]. split; [done|]. by rewrite Hs2, Hs1, string_app_assoc.
Qed.

Section s3_copy.
Context `{GoArch} `{PrintTable} `{JSONFloats} `{OSErrors} (env : Env).

Lemma output_record r di st c n : hrel same_output (recordConversion env r di st c n).
Proof.
  unfold recordConversion. apply hrel_bind; [apply _|done|]. intros t1. apply hrel_bind; [apply _|done|]. intros t2. handler.
Qed.
Lemma calls_record r di st c n : hrel same_calls (recordConversion env r di st c n).
Proof. intros sv. apply output_record. Qed.
Lemma calls_respond r e : hrel same_calls (respond env r e).
Proof. unfold respond. apply hrel_bind; [apply _|done|]. handler. Qed.
Lemma calls_drop_copy tmp : hrel same_calls (drop_copy tmp).
Proof. unfold drop_copy. handler. Qed.

(** At most one upload, of the local file. *)
Lemma upload_file_calls en w path bucket key st :
  (S3.UploadFile en w path bucket key st).2 = [] ∨
  ∃ opts body, S3.open_local w path = Ok body ∧ (S3.UploadFile en w path bucket key st).2 = [S3.CUpload opts bucket key body].
Proof.
  unfold S3.UploadFile. destruct (negb _); [by left|]. destruct (S3.load_config w); [by left|].
  destruct (S3.open_local w path) as [body|e]; [|by left]. right. exists (S3.loadClientOptions en st), body.
  by destruct (S3.upload _ _ _ _ _).
Qed.

Lemma upload_copy_calls di tmp bucket key c sv :
  s3Out di = Some (bucket, key) → files (wd sv) !! tmp = Some c →
  let '(o, sv') := upload_copy env di (Some tmp) sv in
  o = Done () ∧ sent (wd sv') = sent (wd sv) ∧
  (s3_calls sv' = s3_calls sv ∨ ∃ opts, s3_calls sv' = s3_calls sv ++ [S3.CUpload opts bucket key c]).
Proof.
  intros Hdi Hc. unfold upload_copy. rewrite Hdi. unfold mbind, h_bind, get.
  pose proof (upload_file_calls (environ env) (s3_world env (files (wd sv))) tmp bucket key (conf env)) as Hup.
  destruct (S3.UploadFile _ _ _ _ _ _) as [e calls]. cbn [snd] in Hup. unfold modify, lift.
  pose proof (quiet_os_remove tmp (wd (log_calls calls sv))) as [Hs _]. destruct (os_remove tmp _) as [b w]. cbn in *.
  split_and!; [done|done|]. destruct Hup as [->|(opts & body & Hopen & ->)]; [left; apply app_nil_r|].
  right. exists opts. rewrite Hc in Hopen. by simplify_eq.
Qed.

(** Either no S3 call, or one upload of [c], which is what the client got too. *)
Definition copied_to_s3 (bucket key c : string) (sv sv' : Server) : Prop :=
  s3_calls sv' = s3_calls sv ∨
  sent (wd sv') = c ∧ ∃ opts, s3_calls sv' = s3_calls sv ++ [S3.CUpload opts bucket key c].

Lemma copied_mono bucket key c sv sv1 sv2 :
  same_output sv1 sv2 → copied_to_s3 bucket key c sv sv1 → copied_to_s3 bucket key c sv sv2.
Proof. intros [Hc Hs]. unfold copied_to_s3. unfold same_calls in Hc. by rewrite Hc, Hs. Qed.

Lemma os_open_content p w :
  files (os_open p w).2 = files w ∧ ∀ c, (os_open p w).1 = Some c → files w !! p = Some c.
Proof.
  unfold os_open, mbind, io_bind, mret, io_ret, get_files, faulty. by destruct (faults w) as [|[] f].
Qed.

Lemma hpost_rel {A} (m : Handler A) sv bucket key c :
  hrel same_calls m → hpost (same_calls sv) m (λ _, copied_to_s3 bucket key c sv).
Proof. intros Hm sv1 Hsv1. specialize (Hm sv1). destruct (m sv1) as [[a| |] sv2]; [|done..]. left. by etrans. Qed.

(** The copy while the PDF goes out: nothing uploaded yet, what was sent is in the file. *)
Definition copying (sv0 : Server) (path c : string) (tmp : option string) (sv : Server) : Prop :=
  same_calls sv0 sv ∧
  match tmp with Some t => files (wd sv) !! t = Some (sent (wd sv)) ∧ sent (wd sv) = "" ∧ files (wd sv) !! path = Some c | None => True end.
Definition copy_done (sv0 : Server) (c : string) (tmp : option string) (err : option error) (sv : Server) : Prop :=
  same_calls sv0 sv ∧
  match tmp, err with Some t, None => files (wd sv) !! t = Some c ∧ sent (wd sv) = c | _, _ => True end.

Lemma open_copy_copies di path c sv bucket key :
  s3Out di = Some (bucket, key) → sent (wd sv) = "" → files (wd sv) !! path = Some c → path ≠ temp_name env (ticks sv) →
  hpost (eq sv) (open_s3_copy env di) (λ tmp, copying sv path c tmp).
Proof.
  intros Hdi Hs Hc Hne sv1 <-. unfold open_s3_copy. rewrite Hdi. unfold mbind, h_bind, get, modify, lift.
  set (t := temp_name env (ticks sv)). pose proof (os_create_spec t (wd (set_ticks (S (ticks sv)) sv))) as Hcr.
  destruct (os_create t _) as [ok w]. destruct Hcr as (Hf & Hsent & _). cbn in Hf, Hsent. destruct ok; [|done].
  split; [done|]. cbn. rewrite Hf, Hsent, Hs. rewrite lookup_insert_eq. by rewrite lookup_insert_ne by (unfold t; congruence).
Qed.

Lemma copyPDF_copies hs tmp sv path c blocks :
  (∀ c, foldr String.append "" (blocks c) = c) →
  hpost (copying sv path c tmp)
    (lift (copyPDF blocks path (match tmp with Some tmp => multi_sink hs tmp | None => stream_sink hs end)))
    (λ err, copy_done sv c tmp err).
Proof.
  intros Hb sv1 [Hcalls Hcopy]. unfold lift. destruct (copyPDF _ _ _ (wd sv1)) as [err w] eqn:Hcp. split; [done|].
  destruct tmp as [t|]; [|done]. destruct err; [done|]. destruct Hcopy as (Hf & Hs & Hc). cbn [wd set_wd].
  revert Hcp. unfold copyPDF, mbind, io_bind, mret, io_ret.
  pose proof (quiet_os_open path (wd sv1)) as [Hos _]. pose proof (os_open_content path (wd sv1)) as [Hof Hoc].
  destruct (os_open path (wd sv1)) as [[c'|] w1]; [|done]. cbn [fst snd] in *.
  specialize (Hoc c' eq_refl). rewrite Hc in Hoc. injection Hoc as <-.
  pose proof (copy_out_tees hs t (blocks c) w1) as Ht. cbn [sink_write multi_sink].
  rewrite Hof, Hos in Ht. specialize (Ht Hf).
  destruct (copy_out (multi_write hs t) (blocks c) w1) as [[u|] w2]; [done|]. intros [= <-].
  destruct (Ht eq_refl) as [Hf2 Hs2]. rewrite Hb, Hs in Hs2. by rewrite Hf2, Hs2.
Qed.

End s3_copy.

(** ** Panics *)

(** The state the constructors make and the handlers keep: at most [mx] recent
    conversions, and a consistent table of the limiter. *)
Definition sound (mx : Z) (sv : Server) : Prop :=
  (0 <= mx ∧ Recent.maxlen (recent sv) = mx ∧ Z.of_nat (length (Recent.buf (recent sv))) <= mx) ∧
  match limiter sv with None => True | Some l => (∃ a, RateLimit.represents l a) ∧ 1 <= RateLimit.maxKeys l end.

(** A step does not panic, and leaves a sound state. *)
Definition safe {A} (m : Handler A) : Prop :=
  ∀ mx sv, sound mx sv → match m sv with (Panicked, _) => False | (_, sv') => sound mx sv' end.

Lemma safe_bind {A B} (m : Handler A) (f : A → Handler B) : safe m → (∀ a, safe (f a)) → safe (m ≫= f).
Proof.
  intros Hm Hf mx sv Hsv. unfold mbind, h_bind. specialize (Hm mx sv Hsv). destruct (m sv) as [[a| |] sv']; [|done..]. by apply Hf.
Qed.
Lemma safe_ret {A} (a : A) : safe (mret a).
Proof. by intros mx sv. Qed.
Lemma safe_get {A} (f : Server → A) : safe (get f).
Proof. by intros mx sv. Qed.
Lemma safe_lift {A} (m : IO A) : safe (lift m).
Proof. intros mx sv Hsv. unfold lift. by destruct (m (wd sv)). Qed.
Lemma safe_modify f : (∀ sv, recent (f sv) = recent sv ∧ limiter (f sv) = limiter sv) → safe (modify f).
Proof. intros Hf mx sv Hsv. unfold sound, modify. destruct (Hf sv) as [-> ->]. exact Hsv. Qed.

Create HintDb safe.
#[export] Hint Resolve safe_ret safe_get safe_lift safe_modify : safe.
#[export] Hint Extern 1 (∀ sv : Server, _ ∧ _) => done : safe.

Ltac safe :=
  repeat match goal with
  | |- safe (_ ≫= _) => apply safe_bind; [|intros ?]
  | |- safe (match ?x with _ => _ end) => destruct x
  end; eauto with safe.

Section safety.
Context `{GoArch} `{PrintTable} `{JSONFloats} `{OSErrors} (env : Env).

Lemma safe_clock : safe (clock env).
Proof. by intros mx sv. Qed.
Lemma safe_license_now : safe (license_now env).
Proof. by intros mx sv. Qed.
#[local] Hint Resolve safe_clock safe_license_now : safe.

Lemma safe_respond r e : safe (respond env r e).
Proof. unfold respond. safe. Qed.
Lemma safe_is_expired : safe (is_expired env).
Proof. unfold is_expired. safe. Qed.
Lemma safe_expired_on : safe (expired_on env).
Proof. unfold expired_on. safe. Qed.
#[local] Hint Resolve safe_respond : safe.

Lemma safe_check_rate r : safe (check_rate env r).
Proof.
  intros mx sv Hsv. unfold check_rate, mbind, h_bind, get, clock. destruct (limiter sv) as [l|] eqn:Hl; [|done].
  pose proof Hsv as [Hrec Hlim]. rewrite Hl in Hlim. destruct Hlim as [[a Ha] Hmax].
  set (t := now env _). set (t2 := now env _). set (c := RateLimit.ClientIDFor _ _).
  pose proof (RateLimit.check_spec t t2 c l a Ha Hmax) as Hc.
  destruct (RateLimit.spec_check l t c a) as [[allowed bk] a']. destruct Hc as (l' & -> & (_ & _ & Hm & _) & Ha').
  unfold modify. set (sv1 := set_limiter _ _).
  assert (sound mx sv1) as Hsv1 by (split; [exact Hrec|]; split; [by exists a'|by rewrite <- Hm]).
  destruct (RateLimit.Allowed _); [exact Hsv1|]. unfold reject.
  match goal with |- context [respond env r ?e sv1] => pose proof (safe_respond r e mx sv1 Hsv1); destruct (respond env r e sv1) as [[u| |] sv2] end; done.
Qed.

Lemma safe_record r di st c n : safe (recordConversion env r di st c n).
Proof.
  unfold recordConversion. apply safe_bind; [apply safe_clock|]. intros t1. apply safe_bind; [apply safe_clock|]. intros t2 mx sv Hsv.
  unfold mbind, h_bind, get. destruct Hsv as [(Hmx & Hrec & Hlen) Hlim]. rewrite Recent.record_spec by lia.
  split; [|done]. cbn [modify set_recent recent Recent.maxlen Recent.buf]. rewrite length_take. lia.
Qed.
Lemma safe_open_copy di : safe (open_s3_copy env di).
Proof. unfold open_s3_copy. safe. Qed.
Lemma safe_upload_copy di tmp : safe (upload_copy env di tmp).
Proof. unfold upload_copy. safe. Qed.
Lemma safe_drop_copy tmp : safe (drop_copy tmp).
Proof. unfold drop_copy. safe. Qed.
#[local] Hint Resolve safe_record safe_open_copy safe_upload_copy safe_drop_copy : safe.

Lemma safe_finish r di hs dir produce : (∀ dst, safe (produce dst)) → safe (finishStream env r di hs dir produce).
Proof. intros Hp. unfold finishStream. safe. Qed.

Lemma safe_with_slot r handler : safe handler → safe (with_slot env r handler).
Proof.
  intros Hh mx sv Hsv. unfold with_slot. destruct (_ <? _); [|by apply safe_respond].
  specialize (Hh mx (acquire sv) Hsv). by destruct (handler (acquire sv)) as [[u| |] sv'].
Qed.
End safety.
#[export] Hint Resolve safe_clock safe_license_now safe_respond safe_is_expired safe_expired_on safe_check_rate safe_record
  safe_open_copy safe_upload_copy safe_drop_copy safe_finish safe_with_slot : safe.

(** ** Scratch directories *)

Lemma join_scratch_below base rid : base ≠ "" → normal rid → joinScratch base rid = below base +:+ rid.
Proof.
  intros Hb Hr. pose proof Hr as (Hne & _). unfold joinScratch, FilepathJoin. cbn [List.filter].
  rewrite !(proj2 (String.eqb_neq _ _)) by done. cbn [negb]. by apply clean_below.
Qed.

(** The part of a path below a prefix that names a directory. *)
Lemma under_component pre a p :
  normal a → under (pre +:+ a) p = true →
  ∃ rest, p = pre +:+ rest ∧ head (split_on rest "/"%char) = Some a.
Proof.
  intros (Hne & _ & _ & Hslash). unfold under. rewrite orb_true_iff.
  assert (pre +:+ a ≠ "/") as Hroot.
  { intros He. destruct pre as [|c pre]; cbn in He; [subst a|injection He as _ He; by destruct pre, a].
    pose proof (split_on_none "/" "/"%char Hslash) as Hs. discriminate Hs. }
  rewrite (proj2 (String.eqb_neq _ _) Hroot). intros [->%String.eqb_eq|[t ->]%has_prefix_spec].
  - exists a. by rewrite split_on_none.
  - exists (a +:+ "/" +:+ t). rewrite !string_app_assoc. split; [done|].
    change ("/" +:+ t) with (String "/"%char t). by rewrite split_on_app, split_on_none.
Qed.

(** C35: requests with different ids that are path components have disjoint scratch
    directories, so the clean-up of one never removes a file of another. *)
Theorem scratch_disjoint `{OSErrors} base a b w :
  base ≠ "" → normal a → normal b → a ≠ b →
  ∀ p, under (joinScratch base b) p = true →
    files (os_remove_all (joinScratch base a) w).2 !! p = files w !! p.
Proof.
  intros Hbase Ha Hb Hab p Hp.
  assert (under (joinScratch base a) p = false) as Hnot.
  { destruct (under (joinScratch base a) p) eqn:Hp'; [|done]. exfalso. rewrite join_scratch_below in Hp, Hp' by done.
    apply under_component in Hp as (r1 & -> & H1); [|done]. apply under_component in Hp' as (r2 & He & H2); [|done].
    apply (f_equal bytes) in He. rewrite !bytes_app in He. apply app_inj_1 in He as [_ ->%bytes_inj]; [|done]. congruence. }
  unfold os_remove_all, mbind, io_bind, mret, io_ret, get_files, set_files, faulty.
  destruct (faults w) as [|[] f]; cbn; try done; rewrite map_lookup_filter; destruct (files w !! p); cbn; try done;
    by rewrite option_guard_True.
Qed.
