(* ===== verification/Convert.v ===== *)
(** * [POST /v1/convert] ([internal/server/convert.go])

    The whole handler: rate limit, slot, license, choice of the input, download
    or upload, CSV, detection, and the producer of the PDF that is streamed. *)
From Stdlib Require Import ZArith Lia Bool SpecFloat Ascii String.
From stdpp Require Import base tactics list gmap strings.
From S2P Require Import Prelude GoFloat GoString GoFmt GoTime Types OErrors Config FS Qpdf Json Http Server.
From S2P Require Cache License Progress RateLimit Recent S3 Worker Probe CSVInput LibreOffice Email Orchestrator.
From stdpp Require Import list.
Local Open Scope Z_scope.

Definition libreofficeFormats : list DispatchFormat :=
  [DispatchODG; DispatchPNG; DispatchJPG; DispatchTIFF; DispatchGIF; DispatchBMP; DispatchWEBP; DispatchSVG].

(** The formats whose extension the loader goes by. *)
Definition extHintFormats : list string :=
  ["odt"; "ods"; "odp"; "odg"; "rtf"; "jpg"; "jpeg"; "tif"; "tiff"; "html"; "htm"].

(** ** Options *)

Definition truthy (v : any) : bool :=
  match v with
  | ANil => false
  | ABool b => b
  | AFloat x => negb (feq x f0)
  | AStr s => negb (String.eqb s "")
  | _ => true
  end.

(** Malformed options are the default ones. *)
Definition parseOptions (raw : string) : ConversionOptions :=
  match Unmarshal raw with
  | (Some data, false) =>
      mkOptions (match data !! "cache" with Some v => truthy v | None => true end)
        (match data !! "log_level" with Some (AStr v) => v | _ => "" end)
  | _ => mkOptions true ""
  end.

(** What a job uses besides the environment of the server. *)
Record Tools : Type := mkTools {
  new_pool : bool → FormatName → Z → IO (result error Orchestrator.PoolOps);
  qpdf : Qpdf;
  sha256_hex : string → string;
  open_error : string → string;
  process_id : Z;
  random : nat → string;
  blocks : string → list string
}.

Section convert.
Context `{FloatFormat} `{GoArch} `{PrintTable} `{UnicodeTables} `{JSONFloats} `{OSErrors}.
Context `{Worker.Workers} `{Probe.Readers} `{CSVInput.ZipWriter} `{LibreOffice.Soffice} (env : Env) (tools : Tools).
#[local] Abbreviation s := (conf env).

(** The extension of a name, in lower case. *)
Definition extOf (name : string) : string :=
  match last_index_byte name "."%char with Some i => to_lower (str_drop (S i) name) | None => "" end.

(** ** The input *)

(** Where the input comes from. *)
Inductive input_source : Type := FromS3 (url : string) | FromUpload (u : Upload).

Definition select_input (r : Request) (s3in s3out : string) : result Error input_source :=
  if (negb (String.eqb s3in "") || negb (String.eqb s3out "")) && negb (S3Enabled s) then Err NewS3Disabled
  else
    match has_file r, String.eqb s3in "" with
    | Some _, false => Err NewInputSourceConflict
    | None, true => Err (NewMissingFile "provide exactly one input source: 'file' or 's3_input'")
    | None, false => Ok (FromS3 s3in)
    | Some u, true => Ok (FromUpload u)
    end.

Definition select_output (r : Request) (s3out : string) : result Error (option (string * string)) :=
  if String.eqb s3out "" then Ok None
  else
    match S3.ResolveOutputTarget s3out (rid r) s with
    | Err e => Err e
    | Ok (bucket, key) =>
        if S3.IsOutputBucketAllowed bucket s then Ok (Some (bucket, key)) else Err (NewS3OutputForbidden bucket)
    end.

(** A download leaves its file behind also when it fails on the way. *)
Definition download (url dest : string) : Handler (option error) :=
  w ← get wd;
  let '(r, calls, written) := S3.DownloadToPath (environ env) (s3_world env (files w)) url dest s in
  modify (log_calls calls);;
  match written with Some (p, c) => lift (set_files (<[p := c]> (files w))) | None => mret () end;;
  mret (match r with Ok _ => None | Err e => Some e end).

(** The input in the scratch directory: its size and its name. *)
Definition acquire_input (src : input_source) (inputTmp : string) : Handler (result error (Z * string)) :=
  match src with
  | FromS3 url =>
      e ← download url inputTmp;
      match e with
      | Some e => mret (Err e)
      | None =>
          size ← lift (fileSize inputTmp);
          if MaxInputBytes s <? size then mret (Err (EConv (NewInputTooLarge size (MaxInputBytes s))))
          else mret (Ok (size, match S3.ParseURL url with Ok (_, key) => basename key | Err _ => "" end))
      end
  | FromUpload u =>
      n ← lift (streamUploadToFile u inputTmp (MaxInputBytes s));
      mret (match n with Ok n => Ok (n, Filename u) | Err e => Err (EConv e) end)
  end.

(** A CSV file becomes a spreadsheet; when that fails it stays what it is. *)
Definition normalize_csv (inputTmp name : string) (size : Z) : IO (result Error Z) :=
  if CSVInput.IsCSVFilename name then
    c ← os_open inputTmp;
    match c with
    | None => mret (Ok size)
    | Some csv =>
        match CSVInput.CSVBytesToXLSXBytes (bytes csv) with
        | Err _ => mret (Ok size)
        | Ok xlsx =>
            if MaxInputBytes s <? str_len xlsx then mret (Err (NewInputTooLarge (str_len xlsx) (MaxInputBytes s)))
            else os_write_file inputTmp xlsx;; mret (Ok (str_len xlsx))
        end
    end
  else mret (Ok size).

(** The file the loaders see: named after the format, or after the extension of
    the upload where the loader goes by it. *)
Definition input_suffix (fmtName : DispatchFormat) (name : string) : string :=
  if existsb (String.eqb (extOf name)) extHintFormats && contains name "." then extOf name else fmtName.

(** Size check, CSV, detection: the format. *)
Definition detect_input (inputTmp name : string) (size : Z) : IO (result Error DispatchFormat) :=
  if size =? 0 then mret (Err (NewMissingFile "file is empty"))
  else
    n ← normalize_csv inputTmp name size;
    match n with
    | Err e => mret (Err e)
    | Ok size =>
        head ← readHead inputTmp (minI64 size 512);
        Probe.DetectFormat (default [] head) inputTmp name
    end.

(** ** The producers *)

(** One conversion of the pipeline. *)
Definition run_job (r : Request) (inputPath : string) (format : FormatName) (opts : ConversionOptions) (scratchDir : string)
    (dst : Sink) : Handler (option error) := λ sv,
  let cv := Orchestrator.mkConversion s (cache env) (rid r) inputPath format opts scratchDir dst (environ env)
    (new_pool tools) (qpdf tools) (sha256_hex tools) (open_error tools) (process_id tools) (random tools)
    (blocks tools) (now env) in
  let '(res, st) := Orchestrator.ConvertJob cv
    (Orchestrator.mkSt (wd sv) (Orchestrator.mkCounters 0 0 0) (jobs sv) (ticks sv)) in
  let sv := mkServer (Orchestrator.world st) (limiter sv) (slots sv) (activeJobs sv) (licenseMgr sv) (recent sv)
    (Orchestrator.progress st) (s3_calls sv) (Orchestrator.tick st) in
  match res with
  | Returned (Ok _) => (Done None, sv)
  | Returned (Err e) => (Done (Some e), sv)
  | Stuck => (Hung, sv)
  end.

(** A conversion that has its PDF in a file before anything is sent. *)
Definition stream_file (r : Request) (rate : headers) (di : dispatchInfo) (scratchDir : string) (pdf : result Error string)
    : Handler unit :=
  match pdf with
  | Err e =>
      lift (os_remove_all scratchDir);;
      recordConversion env r di "failed" (errCode (EConv e)) 0;;
      reject env r e
  | Ok path => finishStream env r di (stream_headers r rate di) scratchDir (λ dst, lift (copyPDF (blocks tools) path dst))
  end.

Definition html_refused : Error :=
  NewUnsupportedFormat "html" Probe.AcceptedUploadFormats
    "use /v1/convert/html/gotenberg or /v1/convert/html/aspose for HTML inputs".

Definition dispatch (r : Request) (rate : headers) (di : dispatchInfo) (opts : ConversionOptions)
    (inputPath scratchDir : string) (fmtName : DispatchFormat) : Handler unit :=
  if existsb (String.eqb fmtName) libreofficeFormats then
    pdf ← lift (LibreOffice.ConvertToPDF inputPath (scratchDir +:+ "/lo_out") (ChunkTimeoutSeconds s));
    stream_file r rate di scratchDir pdf
  else if String.eqb fmtName DispatchEML then
    pdf ← lift (Email.ConvertToPDF s inputPath (scratchDir +:+ "/email_out"));
    stream_file r rate di scratchDir pdf
  else if String.eqb fmtName DispatchHTML then
    stream_file r rate di scratchDir (Err html_refused)
  else
    finishStream env r di (stream_headers r rate di) scratchDir (run_job r inputPath fmtName opts scratchDir).

(** ** The handler *)

(** An error after the scratch directory was made. *)
Definition clean_up (r : Request) (scratchDir : string) (e : error) : Handler unit :=
  lift (os_remove_all scratchDir);; respond env r e.

Definition with_input (r : Request) (rate : headers) (di : dispatchInfo) (opts : ConversionOptions)
    (src : input_source) (scratchDir : string) : Handler unit :=
  let inputTmp := scratchDir +:+ "/input.tmp" in
  input ← acquire_input src inputTmp;
  match input with
  | Err e => clean_up r scratchDir e
  | Ok (size, name) =>
      fmtName ← lift (detect_input inputTmp name size);
      match fmtName with
      | Err e => clean_up r scratchDir (EConv e)
      | Ok fmtName =>
          let di := mkInfo (t0 di) (source di) name fmtName "" (s3Out di) in
          let inputPath := scratchDir +:+ "/input." +:+ input_suffix fmtName name in
          ok ← lift (os_rename inputTmp inputPath);
          if ok : bool then dispatch r rate di opts inputPath scratchDir fmtName
          else clean_up r scratchDir (EConv (render_error ("rename input: " +:+ os_error "rename" inputTmp)))
      end
  end.

(** License, input and output; then the scratch directory and what follows. *)
Definition convert_in_slot (r : Request) (rate : headers) (started : Time) : Handler unit :=
  let s3in := trim_space (FormValue r "s3_input") in
  let s3out := trim_space (FormValue r "s3_output") in
  let optionsStr := if String.eqb (FormValue r "options") "" then "{}" else FormValue r "options" in
  expired ← is_expired env;
  match expired with
  | Err _ => reject env r (NewLicenseExpired "")
  | Ok true => exp ← expired_on env; reject env r (NewLicenseExpired exp)
  | Ok false =>
      match select_input r s3in s3out with
      | Err e => reject env r e
      | Ok src =>
          match select_output r s3out with
          | Err e => reject env r e
          | Ok out =>
              let scratchDir := joinScratch (ScratchDir s) (rid r) in
              ok ← lift (os_mkdir_all scratchDir);
              if ok : bool then
                with_input r rate
                  (mkInfo started (if String.eqb s3in "" then "ui" else "cross") "" "" "" out)
                  (parseOptions optionsStr) src scratchDir
              else reject env r (render_error ("scratch mkdir: " +:+ os_error "mkdir" scratchDir))
          end
      end
  end.

Definition convert (r : Request) : Handler unit :=
  started ← clock env;
  rate ← check_rate env r;
  match rate with
  | None => mret ()
  | Some rate => with_slot env r (convert_in_slot r rate started)
  end.
End convert.

(** ** Theorems: the slot *)

Section slots.
Context `{FloatFormat} `{GoArch} `{PrintTable} `{UnicodeTables} `{JSONFloats} `{OSErrors}.
Context `{Worker.Workers} `{Probe.Readers} `{CSVInput.ZipWriter} `{LibreOffice.Soffice} (env : Env) (tools : Tools).

Lemma slots_run_job r input format opts dir dst : hrel same_slots (run_job env tools r input format opts dir dst).
Proof.
  intros sv. unfold run_job. destruct (Orchestrator.ConvertJob _ _) as [[[res|e]|] st]; done.
Qed.
Lemma slots_stream_file r rate di dir pdf : hrel same_slots (stream_file env tools r rate di dir pdf).
Proof. unfold stream_file, reject. handler. Qed.
#[local] Hint Resolve slots_run_job slots_stream_file : handler.

Lemma slots_dispatch r rate di opts input dir fmtName : hrel same_slots (dispatch env tools r rate di opts input dir fmtName).
Proof. unfold dispatch. handler. Qed.
Lemma slots_acquire_input src tmp : hrel same_slots (acquire_input env src tmp).
Proof. unfold acquire_input, download. handler. Qed.
Lemma slots_clean_up r dir e : hrel same_slots (clean_up env r dir e).
Proof. unfold clean_up. handler. Qed.
#[local] Hint Resolve slots_dispatch slots_acquire_input slots_clean_up : handler.

Lemma slots_with_input r rate di opts src dir : hrel same_slots (with_input env tools r rate di opts src dir).
Proof. unfold with_input. handler. Qed.
#[local] Hint Resolve slots_with_input : handler.

Lemma slots_in_slot r rate t : hrel same_slots (convert_in_slot env tools r rate t).
Proof. unfold convert_in_slot, reject. handler. Qed.

Lemma balanced_convert r : balanced env (convert env tools r).
Proof.
  unfold convert. apply balanced_after; [apply slots_clock|]. intros started.
  apply balanced_after; [apply slots_check_rate|]. intros [rate|].
  - apply with_slot_balanced, slots_in_slot.
  - intros sv Hle. by split.
Qed.

(** A conversion takes a slot only when there is one and gives it back however
    it ends, by an answer, an error or a panic; only one that waits for ever
    keeps its slot. *)
Theorem convert_balanced r : balanced env (convert env tools r).
Proof. apply balanced_convert. Qed.
End slots.

(** ** Theorems: the answer *)

Section answers.
Context `{FloatFormat} `{GoArch} `{PrintTable} `{UnicodeTables} `{JSONFloats} `{OSErrors}.
Context `{Worker.Workers} `{Probe.Readers} `{CSVInput.ZipWriter} `{LibreOffice.Soffice} (env : Env) (tools : Tools).

(** The response belongs to the handler: no process and no pool writes on it. *)
Record others_quiet : Prop := {
  oq_workers : ∀ argv limit, quiet (Worker.exec argv limit);
  oq_soffice : ∀ argv limit, quiet (LibreOffice.run_soffice argv limit);
  oq_new_pool : ∀ forked format n, quiet (new_pool tools forked format n);
  oq_pool : ∀ forked format n w pool w', new_pool tools forked format n w = (Ok pool, w') →
    (∀ c dir, quiet (Orchestrator.pool_render pool c dir)) ∧ quiet (Orchestrator.pool_close pool)
}.
Context (Hquiet : others_quiet) (r : Request) (recs : Recent.RecentStore).

Lemma quiet_detect m path name : quiet (Probe.DetectFormat m path name).
Proof. unfold Probe.DetectFormat, Probe.inspectOOXMLPath, Probe.zip_open, Probe.classifyOLE2. quiet. Qed.
Lemma quiet_detect_input tmp name size : quiet (detect_input env tmp name size).
Proof. pose proof quiet_detect. unfold detect_input, normalize_csv, readHead. quiet. Qed.
Lemma quiet_libreoffice input dir t : quiet (LibreOffice.ConvertToPDF input dir t).
Proof.
  pose proof (oq_soffice Hquiet). unfold LibreOffice.ConvertToPDF, LibreOffice.run_and_find, LibreOffice.runWithTimeout,
    LibreOffice.find_pdf. quiet.
Qed.
Lemma quiet_email st input dir : quiet (Email.ConvertToPDF st input dir).
Proof.
  pose proof (oq_workers Hquiet). unfold Email.ConvertToPDF, Email.count_and_render, Email.render_pages, Email.runWorker,
    Worker.RunWorker, Worker.runWorkerBin. quiet.
Qed.
#[local] Hint Resolve quiet_detect_input quiet_libreoffice quiet_email : quiet.

Lemma response_acquire_input src tmp : hrel same_response (acquire_input env src tmp).
Proof. unfold acquire_input, download, fileSize. handler. Qed.

Lemma run_job_streams input format opts dir hs dst :
  dst = stream_sink hs ∨ (∃ tmp, dst = multi_sink hs tmp) →
  hpost (unanswered recs) (run_job env tools r input format opts dir dst) (λ _, streaming recs hs).
Proof.
  intros Hdst sv (Ha & Hs & Hr). unfold run_job.
  match goal with |- context [Orchestrator.ConvertJob ?cv ?st] =>
    assert (began hs (Orchestrator.world (Orchestrator.ConvertJob cv st).2)) as Hb end.
  { apply (Orchestrator.convert_job_keeps _ (began hs)).
    - apply began_response.
    - split; [apply oq_workers, Hquiet|apply oq_new_pool, Hquiet|apply oq_pool, Hquiet].
    - intros b. by apply began_sink.
    - by left. }
  destruct (Orchestrator.ConvertJob _ _) as [[[res|e]|] st]; done.
Qed.

Lemma clean_up_answers dir e : hpost (unanswered recs) (clean_up env r dir e) (λ _, answer_of r recs).
Proof. unfold clean_up. eapply hpost_bind; [apply hpost_unanswered; handler|]. intros u. apply refuse_unanswered. Qed.

Lemma stream_file_answers rate di dir pdf :
  plain_headers rate → hpost (unanswered recs) (stream_file env tools r rate di dir pdf) (λ _, answer_of r recs).
Proof.
  intros Hrate. unfold stream_file. destruct pdf as [path|e].
  - apply finish_answers; [by apply stream_headers_pdf|]. intros dst Hdst. by apply produced_by, began_copyPDF.
  - eapply hpost_bind; [apply hpost_unanswered; handler|]. intros u sv (Ha & Hs & Hr).
    pose proof (record_failure_answers env r recs di (stream_headers r rate di) (EConv e) sv) as Hrec. rewrite Ha in Hrec.
    apply Hrec; [by apply stream_headers_pdf|]. split; [by left|done].
Qed.

Lemma dispatch_answers rate di opts input dir fmtName :
  plain_headers rate →
  hpost (unanswered recs) (dispatch env tools r rate di opts input dir fmtName) (λ _, answer_of r recs).
Proof.
  intros Hrate. unfold dispatch. pose proof stream_file_answers as Hstream.
  destruct (existsb _ _); [|destruct (String.eqb _ _); [|destruct (String.eqb _ _)]].
  - eapply hpost_bind; [apply hpost_unanswered; handler|]. intros pdf. by apply Hstream.
  - eapply hpost_bind; [apply hpost_unanswered; handler|]. intros pdf. by apply Hstream.
  - by apply Hstream.
  - apply finish_answers; [by apply stream_headers_pdf|]. intros dst Hdst. by apply run_job_streams.
Qed.

Lemma with_input_answers rate di opts src dir :
  plain_headers rate →
  hpost (unanswered recs) (with_input env tools r rate di opts src dir) (λ _, answer_of r recs).
Proof.
  intros Hrate. unfold with_input. eapply hpost_bind; [apply hpost_unanswered, response_acquire_input|].
  intros [[size name]|e]; [|apply clean_up_answers].
  eapply hpost_bind; [apply hpost_unanswered; handler|]. intros [fmtName|e]; [|apply clean_up_answers]. cbv zeta.
  eapply hpost_bind; [apply hpost_unanswered; handler|]. intros []; [by apply dispatch_answers|apply clean_up_answers].
Qed.

Lemma in_slot_answers rate t :
  plain_headers rate → hpost (unanswered recs) (convert_in_slot env tools r rate t) (λ _, answer_of r recs).
Proof.
  intros Hrate. unfold convert_in_slot, reject. pose proof (refuse_unanswered env r recs) as Hrefuse. cbv zeta.
  eapply hpost_bind; [apply hpost_unanswered; handler|]. intros [[]|e]; [| |apply Hrefuse].
  - eapply hpost_bind; [apply hpost_unanswered; handler|]. intros exp. apply Hrefuse.
  - destruct (select_input env r _ _) as [src|e]; [|apply Hrefuse]. destruct (select_output env r _) as [out|e]; [|apply Hrefuse].
    eapply hpost_bind; [apply hpost_unanswered; handler|]. intros []; [by apply with_input_answers|apply Hrefuse].
Qed.
End answers.


(** ** Theorems: panics *)

Section safety.
Context `{FloatFormat} `{GoArch} `{PrintTable} `{UnicodeTables} `{JSONFloats} `{OSErrors}.
Context `{Worker.Workers} `{Probe.Readers} `{CSVInput.ZipWriter} `{LibreOffice.Soffice} (env : Env) (tools : Tools).

Lemma safe_run_job r input format opts dir dst : safe (run_job env tools r input format opts dir dst).
Proof. intros sv Hsv. unfold run_job. by destruct (Orchestrator.ConvertJob _ _) as [[[res|e]|] st]. Qed.
Lemma safe_stream_file r rate di dir pdf : safe (stream_file env tools r rate di dir pdf).
Proof. unfold stream_file, reject. safe. Qed.
#[local] Hint Resolve safe_run_job safe_stream_file : safe.

Lemma safe_dispatch r rate di opts input dir fmtName : safe (dispatch env tools r rate di opts input dir fmtName).
Proof. unfold dispatch. safe. Qed.
Lemma safe_acquire_input src tmp : safe (acquire_input env src tmp).
Proof. unfold acquire_input, download. safe. Qed.
Lemma safe_clean_up r dir e : safe (clean_up env r dir e).
Proof. unfold clean_up. safe. Qed.
#[local] Hint Resolve safe_dispatch safe_acquire_input safe_clean_up : safe.

Lemma safe_with_input r rate di opts src dir : safe (with_input env tools r rate di opts src dir).
Proof. unfold with_input. safe. Qed.
#[local] Hint Resolve safe_with_input : safe.
Lemma safe_in_slot r rate t : safe (convert_in_slot env tools r rate t).
Proof. unfold convert_in_slot, reject. safe. Qed.
#[local] Hint Resolve safe_in_slot : safe.

Lemma safe_convert r : safe (convert env tools r).
Proof. unfold convert. safe. Qed.

(** A conversion never panics: the table of the limiter and the buffer of the
    recent conversions stay consistent whatever it does, so neither a lookup nor
    a slice goes out of range. *)
Theorem convert_never_panics r mx sv :
  sound mx sv → match convert env tools r sv with (Panicked, _) => False | (_, sv') => sound mx sv' end.
Proof. revert mx sv. exact (safe_convert r). Qed.
End safety.

(** ** A concrete conversion *)

(** A [soffice] that leaves a one-line PDF named after its input. *)
Definition sample_soffice : LibreOffice.Soffice := {|
  LibreOffice.soffice_found := true;
  LibreOffice.run_soffice := λ argv _,
    let outputDir := default "" (argv !! 9%nat) in
    fs ← get_files;
    set_files (<[FilepathJoin [outputDir; "input.pdf"] := "%PDF-1.7"]> fs);;
    mret (LibreOffice.ChildExited 0 "" "")
|}.

Definition sample_tools : Tools := {|
  new_pool := λ _ _ _, mret (Err (EOther "no pool"));
  qpdf := sample_qpdf;
  sha256_hex := λ x, x;
  open_error := λ _, "open failed";
  process_id := 7;
  random := λ _, "00";
  blocks := λ c, [c]
|}.

(** Uploads to the bucket "out", which is allowed, succeed. *)
Definition sample_settings : Settings :=
  match Load (H := Build_PrintTable (λ _, true)) (H0 := Build_UnicodeTables (λ r, r))
    {[ "OFFICE_CONVERT_S3_ENABLED" := "true"; "OFFICE_CONVERT_S3_OUTPUT_BUCKETS_ALLOWLIST" := "out" ]} with
  | Ok s => s
  | Err _ => Orchestrator.sample_settings
  end.
Definition sample_s3 : S3.World := {|
  S3.load_config := None;
  S3.get_object := λ _ _ _, Err ("NoSuchKey", "no such key");
  S3.upload := λ _ _ _ _, None;
  S3.presign := λ _ _ _ _, Err "no presign";
  S3.create_dest := λ _, None;
  S3.copy_body := λ _, None;
  S3.open_local := λ _, Err "no file";
  S3.sha256_hex := λ x, x
|}.
Definition sample_env : Env := {|
  conf := sample_settings;
  cache := Cache.mkManager "" "25.1";
  environ := ∅;
  now := λ k, mkTime (1700000000 * Second + Z.of_nat k) (Some (Z.of_nat k));
  license_file := λ _, License.sample_file 7;
  s3 := sample_s3;
  temp_name := λ _, "/tmp/s3out-1.pdf"
|}.

Definition png_upload : Upload := mkUpload "a.png" 8 [of_bytes Probe.pngMagic] None.
Definition sample_request (form : gmap string string) (file : option Upload) : Request :=
  mkRequest "r1" (RateLimit.mkRequest "" "10.0.0.1:555") form file.
Definition sample_server : Server :=
  mkServer (mkWorld ∅ ∅ [] [] None "") None 0 0 License.NewManager (Recent.NewRecentStore 5)
    Progress.NewJobProgressStore [] 0.

Section sample.
#[local] Instance plain_floats : FloatFormat := {| shortest_g := λ _, "NaN" |}.
#[local] Instance limit_one : Worker.Workers := Orchestrator.sample_worker 1.
#[local] Instance sample_tables : UnicodeTables := {| unicode_to_lower := λ r, r |}.
#[local] Instance sample_print : PrintTable := {| is_print_wide := λ _, true |}.
#[local] Instance sample_json_floats : JSONFloats := {| json_float := λ _, "0" |}.
#[local] Instance sample_errors : OSErrors := {| os_error := λ op path, op +:+ " " +:+ path |}.
#[local] Instance two_pages : Probe.Readers := Orchestrator.sample_readers 2.
#[local] Instance no_zip : CSVInput.ZipWriter := {| CSVInput.write_zip := λ _, Err "no zip" |}.
#[local] Existing Instance sample_soffice.

Lemma sample_others_quiet : others_quiet sample_tools.
Proof.
  split.
  - intros argv limit. cbn [limit_one Orchestrator.sample_worker Worker.exec]. destruct (cut _ _) as [a b].
    destruct (parse_int a), (parse_int b); try done. by destruct (_ <? _).
  - done.
  - done.
  - by intros forked format n w pool w' Hp.
Qed.


(** The id of a request comes from its header unchecked: with "../cache" in it the
    scratch directory is "/tmp/cache", and the clean-up empties that. *)
Lemma request_id_escapes_scratch :
  let r := mkRequest (request_id "../cache" "fresh") (RateLimit.mkRequest "" "10.0.0.1:555") ∅ (Some png_upload) in
  let sv := set_wd (mkWorld {["/tmp/cache/other.pdf" := "kept"]} ∅ [] [] None "") sample_server in
  joinScratch (ScratchDir (conf sample_env)) (rid r) = "/tmp/cache" ∧
  fst (convert sample_env sample_tools r sv) = Done () ∧ files (wd (snd (convert sample_env sample_tools r sv))) = ∅.
Proof. vm_compute. done. Qed.

Lemma scratch_disjoint_witness :
  let w := mkWorld {["/tmp/s/r1/input.pdf" := "a"; "/tmp/s/r2/input.pdf" := "b"]} ∅ [] [] None "" in
  files (os_remove_all (joinScratch "/tmp/s" "r1") w).2 !! "/tmp/s/r2/input.pdf" = Some "b".
Proof.
  intros w.
  rewrite (scratch_disjoint "/tmp/s" "r1" "r2" w); [reflexivity|done|split_and!; done|split_and!; done|done|reflexivity].
Defined.

Lemma convert_never_panics_witness :
  let sv := set_limiter (Some RateLimit.sample) sample_server in
  sound 5 sv ∧ let run := convert sample_env sample_tools (sample_request ∅ None) sv in fst run = Done () ∧ sound 5 (snd run).
Proof.
  intros sv. assert (sound 5 sv) as Hsv.
  { split; [done|]. destruct (RateLimit.new_represents 30 2 2 RateLimit.sample) as [Hr Hm]; [vm_compute; reflexivity|].
    split; [by exists []|done]. }
  split; [exact Hsv|].
  pose proof (convert_never_panics sample_env sample_tools (sample_request ∅ None) 5 sv Hsv) as Hsafe.
  set (run := convert _ _ _ _) in *.
  assert (fst run = Done ()) as Ho by (vm_compute; reflexivity). rewrite (surjective_pairing run), Ho in Hsafe.
  split; [exact Ho|exact Hsafe].
Defined.

End sample.
