(* ===== verification/Delivery.v ===== *)
(** * What a request that is served has in common

    Both endpoints that convert take a token and a slot, store an upload, stream a
    PDF, record it and remove the scratch directory.  When nothing fails these
    steps end ([yields]), and the request is [delivered]: the rules here are those
    of [Posted.v] and [PostedHTML.v]. *)
From Stdlib Require Import ZArith Lia Bool SpecFloat Ascii String.
From stdpp Require Import base tactics list gmap strings.
From S2P Require Import Prelude GoFloat GoString GoFmt GoTime Types OErrors Config FS Qpdf Http Server.
From S2P Require License RateLimit Recent Repeat.
From stdpp Require Import list.
Local Open Scope Z_scope.

(** ** Steps that end *)

(** From a state with [P] the step ends, with a result and a state in [Q]. *)
Definition yields (P : Server → Prop) {A} (m : Handler A) (Q : A → Server → Prop) : Prop :=
  ∀ sv, P sv → ∃ a sv', m sv = (Done a, sv') ∧ Q a sv'.

Lemma yields_bind P {A B} (m : Handler A) (f : A → Handler B) Q S :
  yields P m Q → (∀ a, yields (Q a) (f a) S) → yields P (m ≫= f) S.
Proof.
  intros Hm Hf sv Hsv. destruct (Hm sv Hsv) as (a & sv1 & Hr & HQ). destruct (Hf a sv1 HQ) as (b & sv2 & Hr2 & HS).
  exists b, sv2. split; [|done]. unfold mbind, h_bind. by rewrite Hr.
Qed.
Lemma yields_ret (P : Server → Prop) {A} (a : A) : yields P (mret a) (λ x sv, P sv ∧ x = a).
Proof. intros sv Hsv. by exists a, sv. Qed.
Lemma yields_pure P (φ : Prop) {A} (m : Handler A) Q : (φ → yields P m Q) → yields (λ sv, P sv ∧ φ) m Q.
Proof. intros Hm sv [Hsv Hφ]. by apply Hm. Qed.

(** The response is fresh, nothing fails, and the files are as [F] says. *)
Definition calm (recs : Recent.RecentStore) (F : gmap string string → Prop) (sv : Server) : Prop :=
  unanswered recs sv ∧ faults (wd sv) = [] ∧ F (files (wd sv)).

Section steps.
Context (recs : Recent.RecentStore).

(** A step on the files. *)
Lemma yields_lift {A} (m : IO A) F (Q : A → gmap string string → Prop) :
  quiet m → (∀ w, faults w = [] → F (files w) → Q (m w).1 (files (m w).2) ∧ faults (m w).2 = []) →
  yields (calm recs F) (lift m) (λ a, calm recs (Q a)).
Proof.
  intros Hq Hm sv ((Ha & Hs & Hr) & Hnil & HF). unfold lift. destruct (Hq (wd sv)) as [Hs2 Ha2]. destruct (Hm (wd sv) Hnil HF) as [HQ Hn2].
  destruct (m (wd sv)) as [a w]. cbn in *. exists a, (set_wd w sv). split; [done|]. unfold calm, unanswered. cbn.
  split_and!; congruence || done.
Qed.

End steps.

(** ** An upload that arrives *)

Section upload.
Context `{OSErrors}.

Lemma copy_upload_lands dest maxBytes bs : ∀ total pre w,
  faults w = [] → files w !! dest = Some pre → 0 <= total →
  total + str_len (foldr String.append "" bs) <= maxBytes → maxBytes < 2 ^ 62 →
  let '(r, w') := copy_upload dest maxBytes None total bs w in
  r = Ok (total + str_len (foldr String.append "" bs)) ∧ faults w' = [] ∧
  files w' !! dest = Some (pre +:+ foldr String.append "" bs) ∧ ∀ p, p ≠ dest → files w' !! p = files w !! p.
Proof.
  induction bs as [|b bs IH]; intros total pre w Hnil Hpre Ht Hsize Hmax; cbn [foldr copy_upload].
  { rewrite string_app_empty_r, Z.add_0_r. by split_and!. }
  cbn [foldr] in Hsize. rewrite str_len_app in *. cbv zeta. pose proof (Zle_0_nat (String.length b)) as Hb. fold (str_len b) in Hb.
  pose proof (Zle_0_nat (String.length (foldr String.append "" bs))) as Hbs. fold (str_len (foldr String.append "" bs)) in Hbs.
  rewrite i64_id by (unfold in_i64; lia). rewrite (proj2 (Z.ltb_ge _ _)) by lia. unfold mbind, io_bind.
  pose proof (os_append_spec dest b w) as Ha. destruct (os_append dest b w) as [ok w1]. destruct Ha as (Hf & _ & Hok).
  destruct (Hok Hnil) as [-> Hn1]. specialize (IH (total + str_len b) (pre +:+ b) w1 Hn1).
  rewrite Hf, Hpre, lookup_insert_eq in IH. specialize (IH eq_refl ltac:(lia) ltac:(lia) Hmax).
  destruct (copy_upload dest maxBytes None (total + str_len b) bs w1) as [r w']. rewrite Z.add_assoc, <- string_app_assoc.
  destruct IH as (-> & Hn & Hd & Hp). split_and!; [done..|]. intros p Hne. by rewrite Hp, lookup_insert_ne by done.
Qed.

Lemma upload_lands u dest maxBytes doc w :
  upload_error u = None → foldr String.append "" (upload_blocks u) = doc → str_len doc <= maxBytes → maxBytes < 2 ^ 62 →
  faults w = [] →
  let '(r, w') := streamUploadToFile u dest maxBytes w in
  r = Ok (str_len doc) ∧ faults w' = [] ∧ files w' !! dest = Some doc ∧ ∀ p, p ≠ dest → files w' !! p = files w !! p.
Proof.
  intros He Hdoc Hle Hmax Hnil. unfold streamUploadToFile, mbind, io_bind. rewrite He.
  pose proof (os_create_spec dest w) as Hc. destruct (os_create dest w) as [ok w1]. destruct Hc as (Hf & _ & Hok).
  destruct (Hok Hnil) as [-> Hn1].
  pose proof (copy_upload_lands dest maxBytes (upload_blocks u) 0 "" w1 Hn1) as Hl. rewrite Hf, lookup_insert_eq, Hdoc in Hl.
  specialize (Hl eq_refl ltac:(lia) ltac:(lia) Hmax). destruct (copy_upload dest maxBytes None 0 (upload_blocks u) w1) as [r w'].
  destruct Hl as (-> & Hn & Hd & Hp). split_and!; [done..|]. intros p Hne. by rewrite Hp, lookup_insert_ne by done.
Qed.
End upload.

(** ** The way in and the way out *)

Section request.
Context `{GoArch} `{PrintTable} `{JSONFloats} `{OSErrors} (env : Env) (r : Request) (recs : Recent.RecentStore).
#[local] Abbreviation s := (conf env).

(** The reading of the clock at which the license is looked at: the first one is
    the start of the request, and the rate limiter takes two. *)
Definition license_reading (sv : Server) : nat :=
  match limiter sv with None => S (ticks sv) | Some _ => S (S (S (ticks sv))) end.

(** The client has a token left, and a slot is free. *)
Record has_slot (sv : Server) : Prop := {
  hs_rate : ∀ l, limiter sv = Some l → ∃ dec l',
    RateLimit.Check (now env (S (ticks sv))) (now env (S (S (ticks sv)))) (RateLimit.ClientIDFor (client r) (RateLimitTrustXFF s)) l =
      Some (dec, l') ∧ RateLimit.Allowed dec = true;
  hs_free : slots sv < MaxJobs s
}.

Definition scratch_of : string := joinScratch (ScratchDir s) (rid r).
Lemma under_scratch name : under (scratch_of) (scratch_of +:+ "/" +:+ name) = true.
Proof.
  unfold under. apply orb_true_iff. right. destruct (String.eqb_spec (scratch_of) "/") as [->|]; [done|].
  apply has_prefix_spec. exists name. by rewrite string_app_assoc.
Qed.

(** The answer: the PDF with its headers, recorded as a success; nothing left of
    the request on the disk. *)
Definition delivered (body : string) (sv : Server) : Prop :=
  sent (wd sv) = body ∧ (∃ hs, answered (wd sv) = Some (200, hs) ∧ pdf_headers r hs) ∧
  recorded r recs "success" None (Some (str_len body)) sv ∧
  ∀ p, under (scratch_of) p = true → files (wd sv) !! p = None.

Context (E : gmap string string → Prop) (Hrecs : 0 <= Recent.maxlen recs).

(** What [E] says is not of the scratch directory. *)
Context (HE : ∀ fs fs', (∀ p, under scratch_of p = false → fs' !! p = fs !! p) → E fs → E fs').

(** The record is made, and nothing else changes. *)
Lemma record_made di w :
  yields (λ sv, wd sv = w ∧ recent sv = recs) (recordConversion env r di "success" "" (str_len (sent w) - 0))
    (λ _ sv, wd sv = w ∧ recorded r recs "success" None (Some (str_len (sent w))) sv).
Proof.
  rewrite Z.sub_0_r. intros sv [Hw Hr]. pose proof (record_post env r recs di "success" "" (str_len (sent w)) sv Hr) as Hpost. revert Hpost.
  unfold recordConversion, mbind, h_bind, clock, get, modify. cbn [set_ticks recent wd]. rewrite Hr, Recent.record_spec by done.
  intros (_ & _ & Hrec). eexists _, _. split; [reflexivity|]. split; [exact Hw|exact Hrec].
Qed.

Lemma cleaned_up w :
  faults w = [] → E (files w) →
  yields (λ sv, wd sv = w ∧ recorded r recs "success" None (Some (str_len (sent w))) sv) (lift (os_remove_all (scratch_of)))
    (λ _ sv, sent (wd sv) = sent w ∧ answered (wd sv) = answered w ∧
      recorded r recs "success" None (Some (str_len (sent w))) sv ∧
      (∀ p, under (scratch_of) p = true → files (wd sv) !! p = None) ∧ E (files (wd sv))).
Proof.
  intros Hn HEw sv [Hw Hrec]. unfold lift, os_remove_all, faulty, get_files, set_files, mbind, io_bind, mret, io_ret. rewrite Hw, Hn.
  eexists _, _. split; [reflexivity|]. split_and!; [done|done|exact Hrec| |].
  - intros p Hp. cbn. apply map_lookup_filter_None. right. intros c _ Hu. cbn in Hu. congruence.
  - cbn. eapply HE; [|exact HEw]. intros p Hp. rewrite map_lookup_filter. destruct (files w !! p); cbn; [|done].
    by rewrite option_guard_True.
Qed.

(** What a producer does that sends all of [body]. *)
Definition streams (F : gmap string string → Prop) (body : string) (hs : headers) (produce : Sink → Handler (option error)) : Prop :=
  yields (calm recs F) (produce (stream_sink hs)) (λ e sv,
    e = None ∧ sent (wd sv) = body ∧ answered (wd sv) = Some (200, hs) ∧ recent sv = recs ∧ faults (wd sv) = [] ∧ E (files (wd sv))).

Lemma stream_finished F body rate di produce :
  plain_headers rate → s3Out di = None → streams F body (stream_headers r rate di) produce →
  yields (calm recs F) (finishStream env r di (stream_headers r rate di) scratch_of produce)
    (λ _ sv, delivered body sv ∧ E (files (wd sv))).
Proof.
  intros Hrate Hs3 Hproduce. unfold finishStream, open_s3_copy, upload_copy. rewrite Hs3.
  eapply (yields_bind _ _ _ (λ n sv, calm recs F sv ∧ n = 0)).
  { intros sv Hsv. exists 0, sv. split; [|done]. unfold get. by rewrite (proj1 (proj2 (proj1 Hsv))). }
  intros sent0. apply yields_pure. intros ->.
  eapply yields_bind; [apply yields_ret|]. intros tmp. apply yields_pure. intros ->.
  eapply yields_bind; [exact Hproduce|]. intros e sv (-> & Hs & Ha & Hr & Hn & HEw).
  assert (pdf_headers r (stream_headers r rate di)) as Hhs by by apply stream_headers_pdf.
  cbn beta iota.
  destruct (yields_bind _ _ _ _ _ (record_made di (wd sv)) (λ _, cleaned_up (wd sv) Hn HEw) sv (conj eq_refl Hr))
    as (a & sv' & Hrun & Hs' & Ha' & Hrec & Hclean & HE').
  exists a, sv'. split; [exact Hrun|]. rewrite Hs in Hs', Hrec. split; [|exact HE']. split_and!; [done|eexists; split; [by rewrite Ha'|done]|exact Hrec|done].
Qed.

(** The token is taken, and what the limiter says goes into the headers. *)
Lemma token_taken sv :
  has_slot sv → calm recs E sv →
  ∃ rate sv1, check_rate env r (set_ticks (S (ticks sv)) sv) = (Done (Some rate), sv1) ∧ plain_headers rate ∧
    calm recs E sv1 ∧ ticks sv1 = license_reading sv ∧ licenseMgr sv1 = licenseMgr sv ∧ slots sv1 = slots sv.
Proof.
  intros [Hrate _] Hsv. unfold license_reading, check_rate, mbind, h_bind, get. cbn [set_ticks limiter].
  destruct (limiter sv) as [l|] eqn:Hl; [|eexists _, _; split; [reflexivity|]; by split_and!].
  destruct (Hrate l eq_refl) as (dec & l' & Hc & Hal). unfold clock. cbn [set_ticks ticks]. rewrite Hc. unfold modify. rewrite Hal.
  eexists _, _. split; [reflexivity|]. by split_and!.
Qed.

(** The license is looked at. *)
Lemma license_valid k m :
  (License.IsExpired (now env k) (license_file env k) m).1 = Ok false →
  yields (λ sv, calm recs E sv ∧ ticks sv = k ∧ licenseMgr sv = m) (is_expired env) (λ x sv, calm recs E sv ∧ x = Ok false).
Proof.
  intros Hlic sv (Hsv & <- & <-). unfold is_expired, license_now, mbind, h_bind, get, modify, mret, h_ret. cbn [set_ticks licenseMgr].
  destruct (License.IsExpired _ _ _) as [x m']. cbn in Hlic. subst x. by eexists _, _.
Qed.

(** What both endpoints do first; the slot is given back. *)
Lemma admitted sv (inner : headers → Time → Handler unit) (Q : Server → Prop) :
  has_slot sv → calm recs E sv →
  (∀ rate started, plain_headers rate →
     yields (λ sv1, calm recs E sv1 ∧ ticks sv1 = license_reading sv ∧ licenseMgr sv1 = licenseMgr sv) (inner rate started) (λ _, Q)) →
  ∃ sv', (started ← clock env; rate ← check_rate env r;
          match rate with None => mret () | Some rate => with_slot env r (inner rate started) end) sv = (Done (), release sv') ∧ Q sv'.
Proof.
  intros Hslot Hsv Hinner. destruct (token_taken sv Hslot Hsv) as (rate & sv1 & Hcheck & Hplain & Hsv1 & Ht1 & Hm1 & Hs1).
  destruct (Hinner rate (now env (ticks sv)) Hplain (acquire sv1) (conj Hsv1 (conj Ht1 Hm1))) as ([] & sv2 & Hr & HQ).
  exists sv2. split; [|exact HQ]. unfold mbind, h_bind, clock. rewrite Hcheck. unfold with_slot.
  rewrite Hs1, (proj2 (Z.ltb_lt _ _)) by apply Hslot. by rewrite Hr.
Qed.
End request.
