(* ===== verification/Posted.v ===== *)
(** * A posted document comes back as its PDF

    [Convert.convert] with the conversion inside it: a document that is uploaded to
    [POST /v1/convert], accepted and detected as one of the four office formats is
    answered with status 200 and exactly the document's PDF, recorded as a success
    of that size; its slot is free again and its scratch directory empty
    ([posted_document_comes_back]).  The PDF is what the workers render, one
    process per chunk; through a pool it is the same ([pooled_document_comes_back]). *)
From Stdlib Require Import ZArith Lia Bool SpecFloat Ascii String.
From stdpp Require Import base tactics list gmap strings.
From S2P Require Import Prelude GoFloat GoString GoFmt GoTime Types OErrors Config FS Qpdf Http Server Convert Delivery.
From S2P Require Cache License Progress RateLimit Recent Worker Probe CSVInput LibreOffice Orchestrator EndToEnd PoolConversion Repeat Transparent.
From stdpp Require Import list.
Local Open Scope Z_scope.

(** ** The request *)

Section posted.
Context `{FloatFormat} `{GoArch} `{PrintTable} `{UnicodeTables} `{JSONFloats} `{OSErrors}.
Context `{Worker.Workers} `{Probe.Readers} `{CSVInput.ZipWriter} `{LibreOffice.Soffice} (env : Env) (tools : Tools).
Context (Hothers : others_quiet tools).
#[local] Abbreviation s := (conf env).

(** The request uploads [doc], whole, within the size limit and without S3; its
    name is not that of a CSV file. *)
Record uploads (r : Request) (u : Upload) (doc : string) : Prop := {
  up_file : has_file r = Some u;
  up_s3in : trim_space (FormValue r "s3_input") = "";
  up_s3out : trim_space (FormValue r "s3_output") = "";
  up_whole : upload_error u = None;
  up_doc : foldr String.append "" (upload_blocks u) = doc;
  up_size : 0 < str_len doc <= MaxInputBytes s;
  up_limit : MaxInputBytes s < 2 ^ 62;
  up_name : CSVInput.IsCSVFilename (Filename u) = false
}.

(** The server lets the request in, and the license has not expired. *)
Record lets_in (r : Request) (sv : Server) : Prop := {
  li_slot : has_slot env r sv;
  li_license : (License.IsExpired (now env (license_reading sv)) (license_file env (license_reading sv)) (licenseMgr sv)).1 = Ok false
}.

Definition upload_path (r : Request) : string := scratch_of env r +:+ "/input.tmp".
Definition posted_path (r : Request) (u : Upload) (fmt : DispatchFormat) : string :=
  scratch_of env r +:+ "/input." +:+ input_suffix fmt (Filename u).
Definition posted_options (r : Request) : ConversionOptions :=
  parseOptions (if String.eqb (FormValue r "options") "" then "{}" else FormValue r "options").

(** The formats of the pipeline. *)
Definition office (fmt : DispatchFormat) : Prop := fmt ∈ [DispatchDOCX; DispatchPPTX; DispatchXLSX; DispatchPDF].

(** [doc] is detected as [fmt] by its first bytes, its files and its name. *)
Definition detected (r : Request) (u : Upload) (doc : string) (fmt : DispatchFormat) : Prop :=
  ∀ w, faults w = [] → files w !! upload_path r = Some doc →
    Probe.DetectFormat (take (Z.to_nat (minI64 (str_len doc) 512)) (bytes doc)) (upload_path r) (Filename u) w = (Ok fmt, w).

(** The conversion the handler runs. *)
Definition posted_job (r : Request) (u : Upload) (fmt : DispatchFormat) (dst : Sink) : Orchestrator.Conversion :=
  Orchestrator.mkConversion s (cache env) (rid r) (posted_path r u fmt) fmt (posted_options r) (scratch_of env r) dst (environ env)
    (new_pool tools) (qpdf tools) (sha256_hex tools) (open_error tools) (process_id tools) (random tools) (blocks tools) (now env).

(** The job sends [body] for the document at its input path, relying on [E] of the
    files and keeping it. *)
Definition produces (job : Sink → Orchestrator.Conversion) (doc : string) (E : gmap string string → Prop) (body : string) : Prop :=
  ∀ hs st, faults (Orchestrator.world st) = [] → sent (Orchestrator.world st) = "" →
    files (Orchestrator.world st) !! Orchestrator.inputPath (job (stream_sink hs)) = Some doc → E (files (Orchestrator.world st)) →
    ∃ res st', Orchestrator.ConvertJob (job (stream_sink hs)) st = (Returned (Ok res), st') ∧
      sent (Orchestrator.world st') = body ∧ faults (Orchestrator.world st') = [] ∧ E (files (Orchestrator.world st')).

Section request.
Context (r : Request) (u : Upload) (doc body : string) (fmt : DispatchFormat) (recs : Recent.RecentStore).
Context (Hup : uploads r u doc) (Hfmt : office fmt) (Hdet : detected r u doc fmt).
Context (E : gmap string string → Prop).
Context (Hjob : produces (posted_job r u fmt) doc E body) (Hbody : body ≠ "") (Hrecs : 0 <= Recent.maxlen recs).

(** What the job relies on is not in the scratch directory. *)
Context (HE : ∀ fs fs', (∀ p, under (scratch_of env r) p = false → fs' !! p = fs !! p) → E fs → E fs').

Definition lies_at (p : string) (fs : gmap string string) : Prop := fs !! p = Some doc ∧ E fs.

Lemma upload_under : under (scratch_of env r) (upload_path r) = true.
Proof. exact (under_scratch env r "input.tmp"). Qed.
Lemma posted_under : under (scratch_of env r) (posted_path r u fmt) = true.
Proof. exact (under_scratch env r ("input." +:+ input_suffix fmt (Filename u))). Qed.

Lemma input_acquired :
  yields (calm recs E) (acquire_input env (FromUpload u) (upload_path r))
    (λ x sv, calm recs (lies_at (upload_path r)) sv ∧ x = Ok (str_len doc, Filename u)).
Proof.
  destruct Hup as [_ _ _ Hw Hd Hsize Hlimit _]. unfold acquire_input.
  eapply (yields_bind _ _ _ (λ n sv, calm recs (λ fs, lies_at (upload_path r) fs ∧ n = Ok (str_len doc)) sv)).
  - apply (yields_lift recs _ _ (λ n fs, lies_at (upload_path r) fs ∧ n = Ok (str_len doc))); [apply quiet_upload|].
    intros w Hnil HEw. pose proof (upload_lands u (upload_path r) (MaxInputBytes s) doc w Hw Hd ltac:(lia) Hlimit Hnil) as Hl.
    destruct (streamUploadToFile u _ _ w) as [n w']. destruct Hl as (-> & Hn & Hf & Hp). split; [split; [split; [exact Hf|]|done]|exact Hn].
    eapply HE; [|exact HEw]. intros p Hup'. apply Hp. intros ->. by rewrite upload_under in Hup'.
  - intros n sv (Hun & Hnil & Hf & ->). exists (Ok (str_len doc, Filename u)), sv. by split_and!.
Qed.

Lemma input_detected :
  yields (calm recs (lies_at (upload_path r))) (lift (detect_input env (upload_path r) (Filename u) (str_len doc)))
    (λ x, calm recs (λ fs, lies_at (upload_path r) fs ∧ x = Ok fmt)).
Proof.
  destruct Hup as [_ _ _ _ _ Hsize _ Hname].
  apply (yields_lift recs _ _ (λ x fs, lies_at (upload_path r) fs ∧ x = Ok fmt)); [apply quiet_detect_input|].
  intros w Hnil [Hf HEw]. unfold detect_input. rewrite (proj2 (Z.eqb_neq _ _)) by lia. unfold normalize_csv. rewrite Hname.
  unfold readHead, os_open, faulty, get_files, mbind, io_bind, mret, io_ret. rewrite Hnil. cbn. rewrite Hf. cbn.
  rewrite (proj2 (Z.leb_gt _ _)) by (unfold minI64; destruct (_ <? _); lia). by rewrite Hdet.
Qed.

Lemma input_renamed :
  yields (calm recs (lies_at (upload_path r))) (lift (os_rename (upload_path r) (posted_path r u fmt)))
    (λ ok, calm recs (λ fs, lies_at (posted_path r u fmt) fs ∧ ok = true)).
Proof.
  apply (yields_lift recs _ _ (λ ok fs, lies_at (posted_path r u fmt) fs ∧ ok = true)); [apply quiet_os_rename|]. intros w Hnil [Hf HEw].
  destruct (Repeat.steady_rename_ok (upload_path r) (posted_path r u fmt) w doc Hnil Hf) as (w' & -> & Hf' & _ & Hn). cbn.
  split; [|done]. split; [|done]. split; [by rewrite Hf', lookup_insert_eq|]. eapply HE; [|exact HEw]. intros p Hp.
  rewrite Hf', lookup_insert_ne, lookup_delete_ne; [done|intros <-; by rewrite ?upload_under, ?posted_under in Hp..].
Qed.

(** The stream is the body, and then the record and the clean-up. *)
Lemma job_streamed hs :
  streams recs E (lies_at (posted_path r u fmt)) body hs (run_job env tools r (posted_path r u fmt) fmt (posted_options r) (scratch_of env r)).
Proof.
  intros sv (Hun & Hnil & Hf & HEw).
  pose proof (run_job_streams env tools Hothers r recs (posted_path r u fmt) fmt (posted_options r) (scratch_of env r) hs
    (stream_sink hs) (or_introl eq_refl) sv Hun) as Hst. revert Hst. unfold run_job.
  destruct (Hjob hs (Orchestrator.mkSt (wd sv) (Orchestrator.mkCounters 0 0 0) (jobs sv) (ticks sv)) Hnil (proj1 (proj2 Hun)) Hf HEw)
    as (res & st' & Hr & Hs & Hn & HE'). unfold posted_job in Hr. rewrite Hr. intros [[[_ He]|Ha] Hrec].
  - cbn in He. congruence.
  - eexists _, _. split; [reflexivity|]. by split_and!.
Qed.

Lemma office_dispatch rate di opts input dir :
  dispatch env tools r rate di opts input dir fmt =
    finishStream env r di (stream_headers r rate di) dir (run_job env tools r input fmt opts dir).
Proof. unfold dispatch. revert Hfmt. unfold office. rewrite !elem_of_cons. by intros [->|[->|[->|[->|[]%not_elem_of_nil]]]]. Qed.

Lemma input_served rate di :
  plain_headers rate → s3Out di = None →
  yields (calm recs E) (with_input env tools r rate di (posted_options r) (FromUpload u) (scratch_of env r))
    (λ _ sv, delivered env r recs body sv ∧ E (files (wd sv))).
Proof.
  intros Hrate Hs3. unfold with_input. eapply yields_bind; [apply input_acquired|]. intros x. apply yields_pure. intros ->.
  eapply yields_bind; [apply input_detected|]. intros x sv (Hun & Hnil & Hf & ->). revert sv Hun Hnil Hf.
  enough (yields (calm recs (lies_at (upload_path r)))
    (ok ← lift (os_rename (upload_path r) (posted_path r u fmt));
     (if ok : bool then dispatch env tools r rate (mkInfo (t0 di) (source di) (Filename u) fmt "" (s3Out di)) (posted_options r)
        (posted_path r u fmt) (scratch_of env r) fmt
      else clean_up env r (scratch_of env r) (EConv (render_error ("rename input: " +:+ os_error "rename" (upload_path r))))))
    (λ _ sv, delivered env r recs body sv ∧ E (files (wd sv)))) as Hrest by (intros sv Hun Hnil Hf; apply (Hrest sv); by split_and!).
  eapply yields_bind; [apply input_renamed|]. intros ok sv (Hun & Hnil & Hf & ->). rewrite office_dispatch.
  apply (stream_finished _ _ _ E Hrecs HE (lies_at (posted_path r u fmt))); [done..|apply job_streamed|by split_and!].
Qed.

Lemma slot_served rate started k m :
  plain_headers rate → (License.IsExpired (now env k) (license_file env k) m).1 = Ok false →
  yields (λ sv, calm recs E sv ∧ ticks sv = k ∧ licenseMgr sv = m) (convert_in_slot env tools r rate started) (λ _ sv, delivered env r recs body sv ∧ E (files (wd sv))).
Proof.
  intros Hrate Hlic. unfold convert_in_slot. destruct Hup as [Hfile Hin Hout _ _ _ _ _]. rewrite Hin, Hout. cbv zeta.
  eapply (yields_bind _ _ _ (λ x sv, calm recs E sv ∧ x = Ok false)); [by apply license_valid|].
  intros x. apply yields_pure. intros ->. unfold select_input, select_output. rewrite Hfile. cbn [String.eqb negb orb andb].
  eapply (yields_bind _ _ _ (λ ok, calm recs (λ fs, E fs ∧ ok = true))).
  { apply (yields_lift recs _ _ (λ ok fs, E fs ∧ ok = true)); [apply quiet_os_mkdir_all|]. intros w Hnil HEw. unfold os_mkdir_all, faulty.
    by rewrite Hnil. }
  intros ok sv (Hun & Hnil & HEw & ->). by apply input_served; [| |split_and!].
Qed.

(** The slot is taken, and given back. *)
Lemma convert_delivers sv :
  lets_in r sv → calm recs E sv →
  ∃ sv', convert env tools r sv = (Done (), sv') ∧ delivered env r recs body sv' ∧ E (files (wd sv')) ∧
    slots sv' = slots sv ∧ activeJobs sv' = activeJobs sv.
Proof.
  intros [Hslot Hlic] Hsv. pose proof (balanced_convert env tools r sv ltac:(destruct Hslot; lia)) as Hbal.
  destruct (admitted env r recs E sv (convert_in_slot env tools r) (λ sv', delivered env r recs body sv' ∧ E (files (wd sv'))) Hslot Hsv)
    as (sv' & Hrun & Hdel & HE').
  - intros rate started Hplain. by apply slot_served.
  - change (convert env tools r sv = (Done (), release sv')) in Hrun. rewrite Hrun in Hbal. exists (release sv').
    split_and!; [exact Hrun|exact Hdel|exact HE'|apply Hbal..].
Qed.

End request.

(** ** What the jobs produce *)

Section jobs.
Context (r : Request) (u : Upload) (doc : string) (fmt : DispatchFormat) (text : Z → Z → string).
#[local] Abbreviation job := (posted_job r u fmt).

(** The probe of the document, where it lies at the path the handler gave it. *)
Definition probed (pr : ProbeResult) : Prop :=
  ∀ w, faults w = [] → files w !! posted_path r u fmt = Some doc → Probe.Probe s (posted_path r u fmt) fmt w = (Ok pr, w).

Lemma posted_path_apart i : posted_path r u fmt ∉ EndToEnd.outputs (scratch_of env r) i.
Proof. apply (EndToEnd.input_apart (scratch_of env r) ("input." +:+ input_suffix fmt (Filename u))). by intros x. Qed.

(** One process per chunk. *)
Lemma one_shot_produces fits pr :
  Types.Cache (posted_options r) && Cache.Enabled (cache env) = false →
  Orchestrator.worker_renders (job response) doc text fits → Orchestrator.page_texts text → qpdf_ok (qpdf tools) →
  Orchestrator.qpdf_concatenates (job response) → EndToEnd.one_shot_job (job response) fits pr → probed pr →
  produces job doc (λ _, True) (text 1 (PageCount pr)).
Proof.
  intros Hcache Hw Htext Hq Hcat Hjob Hprobe hs st Hnil Hsent Hdoc _.
  assert (EndToEnd.one_shot_job (job (stream_sink hs)) fits pr) as Hjob2 by (destruct Hjob; by split).
  destruct (EndToEnd.conversion_outcome (job (stream_sink hs)) doc text fits Hw Htext Hq Hcat (λ _, eq_refl) posted_path_apart pr st
    Hcache Hjob2 (Hprobe _ Hnil Hdoc) Hnil Hdoc) as (res & st' & Hr & Hs & _ & Hn).
  exists res, st'. split; [done|]. split; [by rewrite Hs, Hsent|done].
Qed.

(** A pool. *)
Lemma pool_produces n pr :
  Orchestrator.page_texts text → qpdf_ok (qpdf tools) → Orchestrator.qpdf_concatenates (job response) →
  (∀ w, ∃ pool, PoolConversion.pool_job (job response) text n pool pr w) → probed pr →
  produces job doc (λ _, True) (text 1 n).
Proof.
  intros Htext Hq Hcat Hpool Hprobe hs st Hnil Hsent Hdoc _. destruct (Hpool (Orchestrator.world st)) as [pool Hjob].
  assert (PoolConversion.pool_job (job (stream_sink hs)) text n pool pr (Orchestrator.world st)) as Hjob2 by (destruct Hjob; by split).
  destruct (PoolConversion.pool_conversion_outcome (job (stream_sink hs)) text n Htext Hq Hcat (λ _, eq_refl) pool pr st
    Hjob2 (Hprobe _ Hnil Hdoc) Hnil) as (res & st' & Hr & Hs & _ & Hn).
  exists res, st'. split; [done|]. split; [by rewrite Hs, Hsent|done].
Qed.
End jobs.

(** A document arrives: it is uploaded, let in, detected as an office format and
    probed; the response is fresh and no system call fails. *)
Record arrives (r : Request) (u : Upload) (doc : string) (fmt : DispatchFormat) (pr : ProbeResult) (sv : Server) : Prop := {
  ar_uploads : uploads r u doc;
  ar_office : office fmt;
  ar_detected : detected r u doc fmt;
  ar_probed : probed r u doc fmt pr;
  ar_let_in : lets_in r sv;
  ar_fresh : unanswered (recent sv) sv;
  ar_steady : faults (wd sv) = [];
  ar_records : 0 <= Recent.maxlen (recent sv)
}.

(** C1: a document that is uploaded whole, accepted by the server and detected as
    one of the four office formats comes back as its PDF: the handler ends, the
    client has status 200 with the headers of a PDF and exactly the text of the
    pages of the document it sent, in order; the conversion is recorded as a
    success of that size, the slot is free again and nothing of the request is
    left on the disk. *)
Theorem posted_document_comes_back r u doc fmt text fits pr sv :
  arrives r u doc fmt pr sv →
  Orchestrator.worker_renders (posted_job r u fmt response) doc text fits → Orchestrator.page_texts text →
  qpdf_ok (qpdf tools) → Orchestrator.qpdf_concatenates (posted_job r u fmt response) →
  Types.Cache (posted_options r) && Cache.Enabled (cache env) = false →
  EndToEnd.one_shot_job (posted_job r u fmt response) fits pr →
  ∃ sv', convert env tools r sv = (Done (), sv') ∧
    delivered env r (recent sv) (text 1 (PageCount pr)) sv' ∧
    slots sv' = slots sv ∧ activeJobs sv' = activeJobs sv.
Proof.
  intros [Hup Hfmt Hdet Hprobe Hin Hun Hnil Hmax] Hw Htext Hq Hcat Hcache Hjob.
  destruct (convert_delivers r u doc (text 1 (PageCount pr)) fmt (recent sv) Hup Hfmt Hdet (λ _, True)) with (sv := sv)
    as (sv' & Hr & Hd & _ & Hs); try done; [by eapply one_shot_produces| |by exists sv'].
  apply Htext. pose proof (EndToEnd.oj_pages _ _ _ Hjob). lia.
Qed.

(** The same through a pool, for the [n] pages that its workers count. *)
Lemma pooled_document_comes_back r u doc fmt text n pr sv :
  arrives r u doc fmt pr sv →
  Orchestrator.page_texts text → qpdf_ok (qpdf tools) → Orchestrator.qpdf_concatenates (posted_job r u fmt response) →
  (∀ w, ∃ pool, PoolConversion.pool_job (posted_job r u fmt response) text n pool pr w) →
  ∃ sv', convert env tools r sv = (Done (), sv') ∧ delivered env r (recent sv) (text 1 n) sv' ∧
    slots sv' = slots sv ∧ activeJobs sv' = activeJobs sv.
Proof.
  intros [Hup Hfmt Hdet Hprobe Hin Hun Hnil Hmax] Htext Hq Hcat Hpool.
  destruct (convert_delivers r u doc (text 1 n) fmt (recent sv) Hup Hfmt Hdet (λ _, True)) with (sv := sv)
    as (sv' & Hr & Hd & _ & Hs); try done; [by eapply pool_produces| |by exists sv'].
  apply Htext. destruct (Hpool (wd sv)) as [pool Hjob]. pose proof (PoolConversion.pj_pages _ _ _ _ _ _ Hjob). lia.
Qed.

(** C2: over an honest cache a posted document comes back as its PDF as well,
    whichever of its chunks the cache holds and whether it holds the document; and
    the cache is honest afterwards, for the requests that follow. *)
Theorem posted_over_honest_cache r u doc fmt text count fits pr sv :
  arrives r u doc fmt pr sv →
  Transparent.cache_in_use (posted_job r u fmt response) → (∀ p, Transparent.in_cache (cache env) p → under (scratch_of env r) p = false) →
  Orchestrator.worker_renders (posted_job r u fmt response) doc (text doc) fits → Orchestrator.page_texts (text doc) →
  qpdf_ok (qpdf tools) → Orchestrator.qpdf_concatenates (posted_job r u fmt response) →
  EndToEnd.one_shot_job (posted_job r u fmt response) fits pr → PageCount pr = count doc →
  let honest fs := Transparent.honest (cache env) (sha256_hex tools) text count fs in honest (files (wd sv)) →
  ∃ sv', convert env tools r sv = (Done (), sv') ∧
    delivered env r (recent sv) (text doc 1 (count doc)) sv' ∧ honest (files (wd sv')) ∧
    slots sv' = slots sv ∧ activeJobs sv' = activeJobs sv.
Proof.
  intros [Hup Hfmt Hdet Hprobe Hin Hun Hnil Hmax] Huse Hapart Hw Htext Hq Hcat Hjob Hcount honest Hh.
  pose proof (Transparent.cache_on _ Huse) as Hon. pose proof (Transparent.cu_digests _ Huse) as Hdg.
  eapply (convert_delivers r u doc (text doc 1 (count doc)) fmt (recent sv) Hup Hfmt Hdet honest); try done.
  - intros hs st Hn Hs Hd Hh'.
    destruct (Transparent.honest_cache_is_transparent (posted_job r u fmt (stream_sink hs)) text count doc fits) with (pr := pr) (st := st)
      as (res & st' & Hr & Hs' & Hn' & Hh2 & _); try done.
    + by destruct Huse; split.
    + by split; [done|intros ? []|intros ? ? []].
    + by destruct Hjob; split.
    + by apply Hprobe.
    + exists res, st'. split; [done|]. split; [by rewrite Hs', Hs|by split].
  - apply Htext. pose proof (EndToEnd.oj_pages _ _ _ Hjob). lia.
  - intros fs fs' Hf [Hh1 Hh2].
    split; [intros d fmt' c t Hc|intros d t]; (rewrite Hf; [by eauto|]); apply Hapart;
      [by apply Transparent.entry_in_cache|by apply Transparent.final_in_cache].
Qed.
End posted.

(** ** A concrete request *)

Section sample.
#[local] Instance plain_floats : FloatFormat := {| shortest_g := λ _, "NaN" |}.
#[local] Instance limit_one : Worker.Workers := Orchestrator.sample_worker 1.
#[local] Instance sample_tables : UnicodeTables := {| unicode_to_lower := λ r, r |}.
#[local] Instance sample_print : PrintTable := {| is_print_wide := λ _, true |}.
#[local] Instance sample_json_floats : JSONFloats := {| json_float := λ _, "0" |}.
#[local] Instance sample_errors : OSErrors := {| os_error := λ op path, op +:+ " " +:+ path |}.
#[local] Instance no_zip : CSVInput.ZipWriter := {| CSVInput.write_zip := λ _, Err "no zip" |}.
#[local] Existing Instance sample_soffice.

#[local] Instance two_pages : Probe.Readers := Orchestrator.sample_readers 2.

(** A Word document of two pages, sent in two blocks. *)
Definition word_document : string := of_bytes Probe.zipMagic.
Definition word_upload : Upload := mkUpload "a.docx" 4 ["PK"; str_drop 2 word_document] None.
Definition word_probe : ProbeResult := mkProbe 2 FormatDOCX [] 4.

(** One process per chunk, with or without a cache. *)
Definition word_env (m : Cache.Manager) : Env := {|
  conf := sample_settings; cache := m; environ := {[ "OFFICE_CONVERT_POOL_MODE" := "0" ]};
  now := now sample_env; license_file := license_file sample_env; s3 := sample_s3; temp_name := temp_name sample_env |}.
Definition no_cache : Cache.Manager := Cache.mkManager "" "25.1".
Definition word_request : Request := sample_request ∅ (Some word_upload).

Lemma word_uploads m : uploads (word_env m) word_request word_upload word_document.
Proof. split; try reflexivity; vm_compute; split; congruence. Qed.
Lemma word_detected m : detected (word_env m) word_request word_upload word_document DispatchDOCX.
Proof.
  intros w Hnil Hf. change (take _ _) with (bytes word_document).
  assert (Probe.DetectFormat (bytes word_document) (upload_path (word_env m) word_request) (Filename word_upload) w =
    Probe.inspectOOXMLPath (upload_path (word_env m) word_request) w) as -> by reflexivity.
  unfold Probe.inspectOOXMLPath, Probe.zip_open, os_open, faulty, get_files, mbind, io_bind, mret, io_ret. rewrite Hnil. cbv iota beta.
  rewrite Hf. reflexivity.
Qed.
Lemma word_probed m : probed (word_env m) word_request word_upload word_document DispatchDOCX word_probe.
Proof.
  intros w Hnil Hf. set (p := posted_path (word_env m) word_request word_upload DispatchDOCX) in *.
  assert (Probe.os_size p w = (Some 4, w)) as Hsize.
  { unfold Probe.os_size, faulty, get_files, mbind, io_bind, mret, io_ret. rewrite Hnil, Hf. reflexivity. }
  assert (Probe.ooxmlCount p false w = (2, w)) as Hcount.
  { unfold Probe.ooxmlCount, Probe.zip_open, os_open, faulty, get_files, mbind, io_bind, mret, io_ret. rewrite Hnil. cbv iota beta.
    rewrite Hf. reflexivity. }
  unfold Probe.Probe, Probe.ProbeLite, Probe.lite_docx, mbind, io_bind, mret, io_ret. rewrite Hsize.
  change (String.eqb DispatchDOCX FormatDOCX) with true. cbv iota beta. rewrite Hcount. reflexivity.
Qed.

Definition word_server (fs : gmap string string) : Server := set_wd (mkWorld fs ∅ [] [] None "") sample_server.
Lemma word_arrives m fs : arrives (word_env m) word_request word_upload word_document DispatchDOCX word_probe (word_server fs).
Proof.
  split; [apply word_uploads| |apply word_detected|apply word_probed| |split; [|split]; reflexivity|reflexivity|vm_compute; discriminate].
  - apply (bool_decide_unpack _). reflexivity.
  - split; [split; [discriminate|reflexivity]|]. vm_compute. reflexivity.
Qed.

(** The two pages are one chunk, of which the worker can render the halves. *)
Lemma word_job m tools :
  EndToEnd.one_shot_job (posted_job (word_env m) tools word_request word_upload DispatchDOCX response) (λ a b, b - a + 1 <=? 1) word_probe.
Proof.
  set (cv := posted_job _ _ _ _ _ _).
  assert (EndToEnd.planned cv word_probe = [mkChunk (f64_of_Z 0) 1 2 false]) as Hcs by (vm_compute; reflexivity).
  split; rewrite ?Hcs; try reflexivity.
  - cbn. lia.
  - by left.
  - cbn. lia.
  - constructor; [|constructor]. right. split; [|by vm_compute]. repeat constructor.
Qed.

Lemma posted_document_comes_back_witness :
  ∃ sv', convert (word_env no_cache) sample_tools word_request (word_server ∅) = (Done (), sv') ∧
    delivered (word_env no_cache) word_request (Recent.NewRecentStore 5) "ab" sv' ∧ slots sv' = 0.
Proof.
  destruct (posted_document_comes_back (word_env no_cache) sample_tools sample_others_quiet word_request word_upload word_document
    DispatchDOCX Orchestrator.page_text (λ a b, b - a + 1 <=? 1) word_probe (word_server ∅)) as (sv' & Hr & Hd & Hs & _).
  - apply word_arrives.
  - apply EndToEnd.sample_worker_renders.
  - exact EndToEnd.page_texts_sample.
  - exact sample_qpdf_ok.
  - apply EndToEnd.sample_qpdf_concatenates. reflexivity.
  - reflexivity.
  - apply word_job.
  - exists sv'. split; [exact Hr|]. split; [exact Hd|exact Hs].
Defined.

(** The same with digests of letters. *)
Definition hashing_tools : Tools := {|
  new_pool := new_pool sample_tools; qpdf := sample_qpdf; sha256_hex := Transparent.sample_hash; open_error := open_error sample_tools;
  process_id := 7; random := random sample_tools; blocks := blocks sample_tools |}.
Lemma hashing_quiet : others_quiet hashing_tools.
Proof. destruct sample_others_quiet. by split. Qed.

Lemma word_cache_in_use :
  Transparent.cache_in_use (posted_job (word_env Transparent.sample_cache) hashing_tools word_request word_upload DispatchDOCX response).
Proof.
  split; try done.
  - exact Transparent.sample_digests.
  - intros c. apply string_app_empty_r.
  - intros p [t ->]. split; [by vm_compute|]. intros i (u & He & _)%list_elem_of_fmap. vm_compute in He. discriminate He.
  - apply posted_path_apart.
  - by intros p _ [].
Qed.

(** The first page comes from the cache, the second from a worker. *)
Lemma posted_over_honest_cache_witness :
  let fs := {[ Transparent.first_page word_document := "a" ]} in
  ∃ sv', convert (word_env Transparent.sample_cache) hashing_tools word_request (word_server fs) = (Done (), sv') ∧
    delivered (word_env Transparent.sample_cache) word_request (Recent.NewRecentStore 5) "ab" sv' ∧ slots sv' = 0.
Proof.
  intros fs.
  destruct (posted_over_honest_cache (word_env Transparent.sample_cache) hashing_tools hashing_quiet word_request word_upload word_document
    DispatchDOCX (λ _, Orchestrator.page_text) (λ _, 2) (λ a b, b - a + 1 <=? 1) word_probe (word_server fs))
    as (sv' & Hr & Hd & _ & Hs & _).
  - apply word_arrives.
  - exact word_cache_in_use.
  - intros p [t ->]. reflexivity.
  - apply EndToEnd.sample_worker_renders.
  - exact EndToEnd.page_texts_sample.
  - exact sample_qpdf_ok.
  - apply EndToEnd.sample_qpdf_concatenates. reflexivity.
  - apply word_job.
  - reflexivity.
  - apply Transparent.first_page_honest.
  - exists sv'. split; [exact Hr|]. split; [exact Hd|exact Hs].
Defined.
End sample.
