(* ===== verification/ConvertHTML.v ===== *)
(** * [POST /v1/convert/html/*] ([internal/server/convert_html.go])

    One upload, one engine: the Chromium service or the worker for documents.
    The slot, the rate limit and the streaming are those of [Server.v]. *)
From Stdlib Require Import ZArith Lia Bool SpecFloat Ascii String.
From stdpp Require Import base tactics list gmap strings.
From S2P Require Import Prelude GoFloat GoString GoFmt GoTime Types OErrors Config FS Qpdf Json Http Server.
From S2P Require Cache Gotenberg License Orchestrator Probe RateLimit Recent Worker Convert.
From stdpp Require Import list.
Local Open Scope Z_scope.

(** ** [time.ParseDuration] *)

(** Digits up to 2^63; what follows them. *)
Fixpoint leading_int (x : Z) (l : list Z) : option (Z * list Z) :=
  match l with
  | b :: l' =>
      if is_digit b then
        if 2 ^ 63 / 10 <? x then None
        else let x := x * 10 + (b - 48) in if 2 ^ 63 <? x then None else leading_int x l'
      else Some (x, l)
  | [] => Some (x, [])
  end.

(** Digits after the point; those that no longer fit are skipped. *)
Fixpoint leading_fraction (x : Z) (scale : f64) (overflow : bool) (l : list Z) : Z * f64 * list Z :=
  match l with
  | b :: l' =>
      if is_digit b then
        if overflow || ((2 ^ 63 - 1) / 10 <? x) then leading_fraction x scale true l'
        else
          let y := x * 10 + (b - 48) in
          if 2 ^ 63 <? y then leading_fraction x scale true l'
          else leading_fraction y (fmul scale (f64_of_Z 10)) false l'
      else (x, scale, l)
  | [] => (x, scale, [])
  end.

Fixpoint span_unit (l : list Z) : list Z * list Z :=
  match l with
  | b :: l' => if is_digit b || (b =? 46) then ([], l) else let '(u, r) := span_unit l' in (b :: u, r)
  | [] => ([], [])
  end.
Definition unit_of (u : list Z) : option Z :=
  if bool_decide (u = bytes "ns") then Some 1
  else if bool_decide (u = bytes "us") || bool_decide (u = [194; 181; 115]) || bool_decide (u = [206; 188; 115]) then Some 1000
  else if bool_decide (u = bytes "ms") then Some 1000000
  else if bool_decide (u = bytes "s") then Some Second
  else if bool_decide (u = bytes "m") then Some Minute
  else if bool_decide (u = bytes "h") then Some Hour
  else None.

(** [v] units and the fraction [f / scale] of one. *)
Definition scaled_amount (v f : Z) (scale : f64) (unit : Z) : option Z :=
  if 2 ^ 63 / unit <? v then None
  else
    let v := v * unit in
    if 0 <? f then
      let v := v + default 0 (ftrunc (fmul (f64_of_Z f) (fdiv (f64_of_Z unit) scale))) in
      if 2 ^ 63 <? v then None else Some v
    else Some v.

(** One number with its unit. *)
Definition duration_part (l : list Z) : option (Z * list Z) :=
  match l with
  | [] => None
  | b :: _ =>
      if is_digit b || (b =? 46) then
        '(v, l1) ← leading_int 0 l;
        let pre := negb (Nat.eqb (length l1) (length l)) in
        let '(f, scale, l2, post) :=
          match l1 with
          | 46 :: l1' => let '(f, scale, l2) := leading_fraction 0 f1 false l1' in
              (f, scale, l2, negb (Nat.eqb (length l2) (length l1')))
          | _ => (0, f1, l1, false)
          end in
        if negb pre && negb post then None
        else
          let '(u, l3) := span_unit l2 in
          unit ← unit_of u;
          n ← scaled_amount v f scale unit;
          Some (n, l3)
      else None
  end.
Fixpoint duration_parts (fuel : nat) (d : Z) (l : list Z) : option Z :=
  match l, fuel with
  | [], _ => Some d
  | _, O => None
  | _, S fuel =>
      '(n, l) ← duration_part l;
      if 2 ^ 63 <? d + n then None else duration_parts fuel (d + n) l
  end.

Definition ParseDuration (s : string) : option Z :=
  let l := bytes s in
  let '(neg, l) := match l with 45 :: l => (true, l) | 43 :: l => (false, l) | _ => (false, l) end in
  if bool_decide (l = [48]) then Some 0
  else
    match l with
    | [] => None
    | _ =>
        d ← duration_parts (length l) 0 l;
        if neg : bool then Some (i64 (- d)) else if max_i64 <? d then None else Some d
    end.

Example parse_durations :
  ParseDuration <$> ["2s"; "1500ms"; "1.5h"; "-3m"; "0"; "2"; ".s"; "1h30m5s"; "100000000000h"; "+.5s"; ""] =
  [Some (2 * Second); Some 1500000000; Some 5400000000000; Some (- (3 * Minute)); Some 0; None; None;
   Some 5405000000000; None; Some 500000000; None].
Proof. vm_compute. reflexivity. Qed.

(** ** The wait controls *)

Definition maxWaitDelay : Z := 30 * Second.
Definition maxWaitExpressionLen : Z := 1024.

Definition parseWaitOptions (r : Request) (engine : string) : result Error Gotenberg.WaitOptions :=
  let delay := trim_space (FormValue r "waitDelay") in
  let expr := trim_space (FormValue r "waitForExpression") in
  if negb (String.eqb engine "gotenberg") then
    if negb (String.eqb delay "") || negb (String.eqb expr "") then
      Err (NewInputUnprocessable "wait controls are not supported by the aspose engine (no JavaScript); use /v1/convert/html/gotenberg")
    else Ok (Gotenberg.mkWait "" "")
  else
    let bad_delay :=
      if String.eqb delay "" then None
      else
        match ParseDuration delay with
        | Some d =>
            if d <=? 0 then Some "waitDelay must be a positive duration (e.g. 2s, 1500ms)"
            else if maxWaitDelay <? d then Some "waitDelay must be <= 30s" else None
        | None => Some "waitDelay must be a positive duration (e.g. 2s, 1500ms)"
        end in
    match bad_delay with
    | Some msg => Err (NewInputUnprocessable msg)
    | None =>
        if maxWaitExpressionLen <? str_len expr then
          Err (NewInputUnprocessable "waitForExpression must be <= 1024 characters")
        else Ok (Gotenberg.mkWait delay expr)
    end.

Section convert_html.
Context `{GoArch} `{PrintTable} `{UnicodeTables} `{JSONFloats} `{OSErrors} `{Worker.Workers} `{Gotenberg.Transport}.
Context (env : Env) (blocks : string → list string).
#[local] Abbreviation s := (conf env).

(** ** The engines *)

Definition validatePDFMagic (path : string) : IO (option Error) :=
  head ← readHead path 5;
  mret (if bool_decide (head = Some (bytes "%PDF-")) then None else Some (NewRender None (-1) "engine produced non-PDF output")).

(** The PDF in a file. *)
Definition render_html (engine : string) (waitOpts : Gotenberg.WaitOptions) (inputPath outPath : string) : IO (option Error) :=
  if String.eqb engine "gotenberg" then
    Gotenberg.ConvertHTML (Gotenberg.New (GotenbergURL s) (GotenbergTimeoutSeconds s)) inputPath waitOpts outPath
  else
    e ← Worker.RenderHTMLOneShot s inputPath outPath;
    match e with Some e => mret (Some e) | None => validatePDFMagic outPath end.

(** The producer of the stream: nothing is sent before the PDF is there. *)
Definition produce_html (engine : string) (waitOpts : Gotenberg.WaitOptions) (inputPath outPath : string) (dst : Sink)
    : IO (option error) :=
  e ← render_html engine waitOpts inputPath outPath;
  match e with Some e => mret (Some (EConv e)) | None => copyPDF blocks outPath dst end.

(** ** The handler *)

Definition html_clean_up (r : Request) (scratchDir : string) (e : Error) : Handler unit :=
  lift (os_remove_all scratchDir);; reject env r e.

Definition html_upload (r : Request) (rate : headers) (di : dispatchInfo) (engine : string)
    (waitOpts : Gotenberg.WaitOptions) (u : Upload) (scratchDir : string) : Handler unit :=
  let inputPath := scratchDir +:+ "/input.html" in
  n ← lift (streamUploadToFile u inputPath (HTMLMaxBytes s));
  match n with
  | Err e => html_clean_up r scratchDir e
  | Ok size =>
      if size =? 0 then html_clean_up r scratchDir (NewMissingFile "file is empty")
      else
        head ← lift (readHead inputPath (minI64 size 1024));
        if negb (Probe.IsHTMLUpload (default [] head) (Filename u)) then
          html_clean_up r scratchDir (NewInputUnprocessable
            "input is not HTML (expected <!doctype html>/<html> content or a .html/.htm file)")
        else
          finishStream env r di (stream_headers r rate di) scratchDir
            (λ dst, lift (produce_html engine waitOpts inputPath (scratchDir +:+ "/output.pdf") dst))
  end.

(** What follows the license. *)
Definition html_licensed (r : Request) (rate : headers) (engine : string) (started : Time)
    (waitOpts : Gotenberg.WaitOptions) : Handler unit :=
  match has_file r with
  | None => reject env r (NewMissingFile "provide an HTML upload in the 'file' field")
  | Some u =>
      let scratchDir := joinScratch (ScratchDir s) (rid r) in
      ok ← lift (os_mkdir_all scratchDir);
      if ok : bool then
        html_upload r rate (mkInfo started "ui" (Filename u) "html" engine None) engine waitOpts u scratchDir
      else reject env r (NewRender None (-1) ("scratch mkdir: " +:+ os_error "mkdir" scratchDir))
  end.

(** Only the worker needs a license. *)
Definition html_in_slot (r : Request) (rate : headers) (engine : string) (started : Time) : Handler unit :=
  match parseWaitOptions r engine with
  | Err e => reject env r e
  | Ok waitOpts =>
      if String.eqb engine "aspose" then
        expired ← is_expired env;
        match expired with
        | Ok false => html_licensed r rate engine started waitOpts
        | _ => exp ← expired_on env; reject env r (NewLicenseExpired exp)
        end
      else html_licensed r rate engine started waitOpts
  end.

Definition convertHTML (engine : string) (r : Request) : Handler unit :=
  started ← clock env;
  rate ← check_rate env r;
  match rate with
  | None => mret ()
  | Some rate => with_slot env r (html_in_slot r rate engine started)
  end.
Definition convertHTMLGotenberg : Request → Handler unit := convertHTML "gotenberg".
Definition convertHTMLAspose : Request → Handler unit := convertHTML "aspose".
End convert_html.

(** ** Theorems: slots and panics *)

Section handler.
Context `{GoArch} `{PrintTable} `{UnicodeTables} `{JSONFloats} `{OSErrors} `{Worker.Workers} `{Gotenberg.Transport}.
Context (env : Env) (blocks : string → list string) (engine : string).

Lemma slots_html_upload r rate di waitOpts u dir : hrel same_slots (html_upload env blocks r rate di engine waitOpts u dir).
Proof. unfold html_upload, html_clean_up, reject. handler. Qed.
#[local] Hint Resolve slots_html_upload : handler.
Lemma slots_html_licensed r rate t waitOpts : hrel same_slots (html_licensed env blocks r rate engine t waitOpts).
Proof. unfold html_licensed, reject. handler. Qed.
#[local] Hint Resolve slots_html_licensed : handler.
Lemma slots_html_in_slot r rate t : hrel same_slots (html_in_slot env blocks r rate engine t).
Proof. unfold html_in_slot, reject. handler. Qed.

Lemma safe_html_upload r rate di waitOpts u dir : safe (html_upload env blocks r rate di engine waitOpts u dir).
Proof. unfold html_upload, html_clean_up, reject. safe. Qed.
#[local] Hint Resolve safe_html_upload : safe.
Lemma safe_html_licensed r rate t waitOpts : safe (html_licensed env blocks r rate engine t waitOpts).
Proof. unfold html_licensed, reject. safe. Qed.
#[local] Hint Resolve safe_html_licensed : safe.
Lemma safe_html_in_slot r rate t : safe (html_in_slot env blocks r rate engine t).
Proof. unfold html_in_slot, reject. safe. Qed.
#[local] Hint Resolve safe_html_in_slot : safe.

(** A conversion of HTML never panics, keeps the limiter and the recent
    conversions consistent, and gives its slot back however it ends. *)
Theorem convert_html_slot_and_state r :
  safe (convertHTML env blocks engine r) ∧ balanced env (convertHTML env blocks engine r).
Proof.
  unfold convertHTML. split; [safe|]. apply balanced_after; [apply slots_clock|]. intros started.
  apply balanced_after; [apply slots_check_rate|]. intros [rate|].
  - apply with_slot_balanced, slots_html_in_slot.
  - intros sv Hle. by split.
Qed.
End handler.

(** ** Theorems: what is sent *)

Section answers.
Context `{GoArch} `{PrintTable} `{UnicodeTables} `{JSONFloats} `{OSErrors} `{Worker.Workers} `{Gotenberg.Transport}.
Context (env : Env) (blocks : string → list string) (Hblocks : ∀ c, foldr String.append "" (blocks c) = c).
Context (Hworkers : ∀ argv limit, quiet (Worker.exec argv limit)).

Lemma quiet_copy_body path bs : quiet (Gotenberg.copy_body path bs).
Proof. induction bs as [|b bs IH]; cbn [Gotenberg.copy_body]; quiet. Qed.
#[local] Hint Resolve quiet_copy_body : quiet.
Lemma quiet_render engine waitOpts input out : quiet (render_html env engine waitOpts input out).
Proof.
  unfold render_html, Gotenberg.ConvertHTML, Gotenberg.buildForm, Gotenberg.classify, Gotenberg.writePDF, validatePDFMagic,
    readHead, Worker.RenderHTMLOneShot, Worker.runWorkerBin. quiet.
Qed.

(** The file an engine leaves when it reports no error. *)
Definition pdf_file (path : string) (w : World) : Prop :=
  ∃ c, files w !! path = Some c ∧ has_prefix c "%PDF-" = true.

Lemma write_pdf_file a path w : (Gotenberg.writePDF a path w).1 = None → pdf_file path (Gotenberg.writePDF a path w).2.
Proof. intros Hn. destruct (Gotenberg.write_pdf_content a path w Hn) as (_ & Hp & Hf). by exists (Gotenberg.body a). Qed.

Lemma validated_file path w : (validatePDFMagic path w).1 = None → pdf_file path (validatePDFMagic path w).2.
Proof.
  unfold validatePDFMagic, readHead, mbind, io_bind, mret, io_ret. pose proof (os_open_content path w) as [Hf Hc].
  destruct (os_open path w) as [[c|] w1]; cbn in *; [|by rewrite bool_decide_false]. case_bool_decide as Hhead; [|done].
  intros _. exists c. rewrite Hf. split; [by apply Hc|]. injection Hhead as Hhead.
  apply has_prefix_spec. exists (of_bytes (drop 5 (bytes c))). apply bytes_inj. rewrite bytes_app, bytes_of_bytes.
  - rewrite <- (take_drop 5 (bytes c)) at 1. f_equal. exact Hhead.
  - apply Forall_drop, bytes_range.
Qed.

Lemma rendered_file engine waitOpts input out w :
  (render_html env engine waitOpts input out w).1 = None → pdf_file out (render_html env engine waitOpts input out w).2.
Proof.
  unfold render_html. destruct (String.eqb engine "gotenberg").
  - unfold Gotenberg.ConvertHTML. destruct (String.eqb _ _); [done|]. unfold mbind, io_bind.
    destruct (Gotenberg.buildForm input waitOpts w) as [[form|e] w1]; [|done].
    destruct (Gotenberg.bad_request _); [done|]. destruct (Gotenberg.http_post _ _ _) as [a|e]; [|done].
    unfold Gotenberg.classify. destruct (_ && _); [apply write_pdf_file|]. by destruct (_ && _).
  - unfold mbind, io_bind. destruct (Worker.RenderHTMLOneShot (conf env) input out w) as [[e|] w1]; [done|]. apply validated_file.
Qed.
(** A response that is a PDF, or the beginning of one. *)
Definition from_pdf (w : World) : Prop :=
  (answered w = None ∧ sent w = "") ∨
  ∃ hs c, answered w = Some (200, hs) ∧ has_prefix c "%PDF-" = true ∧ str_prefix (sent w) c.

Lemma from_pdf_response : response_only from_pdf.
Proof. intros w w' Hs Ha. unfold from_pdf. by rewrite Hs, Ha. Qed.

Lemma copy_out_prefix hs bs w :
  began hs w → let '(unread, w') := copy_out (stream_write hs) bs w in
  began hs w' ∧ ∃ d, str_prefix d (foldr String.append "" bs) ∧ sent w' = sent w +:+ d.
Proof.
  revert w. induction bs as [|b bs IH]; intros w Hw.
  { split; [done|]. exists "". by rewrite string_app_empty_r; split; [exists ""|]. }
  cbn [copy_out]. unfold mbind, io_bind. pose proof (began_stream hs b w Hw) as Hw1. pose proof (stream_write_spec hs b w) as Hs.
  destruct (stream_write hs b w) as [ok w1]. destruct Hs as ((d & [t Hd] & Hs & Hok) & _). destruct ok.
  - specialize (IH w1 Hw1). destruct (copy_out _ bs w1) as [unread w2]. destruct IH as (Hw2 & d' & [t' Hd'] & Hs').
    split; [done|]. exists (b +:+ d'). rewrite Hs', Hs, (Hok eq_refl), string_app_assoc. split; [|done].
    exists t'. cbn [foldr]. by rewrite Hd', string_app_assoc.
  - split; [done|]. exists d. split; [|done]. exists (t +:+ foldr String.append "" bs). cbn [foldr]. by rewrite Hd, string_app_assoc.
Qed.

Lemma copy_pdf_file hs path w :
  answered w = None → sent w = "" → pdf_file path w → from_pdf (copyPDF blocks path (stream_sink hs) w).2.
Proof.
  intros Ha Hs (c & Hc & Hpdf). unfold copyPDF, mbind, io_bind, mret, io_ret.
  pose proof (quiet_os_open path w) as [Hs1 Ha1]. pose proof (os_open_content path w) as [_ Hoc].
  destruct (os_open path w) as [[c'|] w1]; cbn [fst snd] in *; [|left; by rewrite Hs1, Ha1].
  specialize (Hoc c' eq_refl). rewrite Hc in Hoc. injection Hoc as <-.
  pose proof (copy_out_prefix hs (blocks c) w1) as Hp. cbn [sink_write stream_sink].
  destruct (copy_out (stream_write hs) (blocks c) w1) as [unread w2].
  destruct Hp as (Hb & d & Hd & Hs2); [left; by rewrite Ha1, Hs1|]. rewrite Hblocks in Hd. cbn.
  assert (from_pdf w2) by (destruct Hb as [Hb|Hb]; [by left|right; exists hs, c; by rewrite Hs2, Hs1, Hs]).
  by destruct unread.
Qed.

Lemma produce_html_pdf hs engine waitOpts input out w :
  answered w = None → sent w = "" → from_pdf (produce_html env blocks engine waitOpts input out (stream_sink hs) w).2.
Proof.
  intros Ha Hs. unfold produce_html, mbind, io_bind. pose proof (quiet_render engine waitOpts input out w) as [Hs1 Ha1].
  pose proof (rendered_file engine waitOpts input out w) as Hf. destruct (render_html _ _ _ _ _ w) as [[e|] w1]; cbn [fst snd] in *.
  - left. cbn. by rewrite Ha1, Hs1.
  - apply copy_pdf_file; [congruence..|by apply Hf].
Qed.

(** A diagnostic, or a response that is a PDF. *)
Definition only_pdf (sv : Server) : Prop :=
  ∀ code hs, answered (wd sv) = Some (code, hs) → hs !! "Content-Type" = Some "application/pdf" →
    ∃ c, has_prefix c "%PDF-" = true ∧ str_prefix (sent (wd sv)) c.

Lemma only_pdf_mono sv sv' : same_response sv sv' → only_pdf sv → only_pdf sv'.
Proof. intros (Hs & Ha & _). unfold only_pdf. by rewrite Hs, Ha. Qed.

Lemma from_pdf_only sv : from_pdf (wd sv) → only_pdf sv.
Proof.
  intros [[Ha _]|(hs & c & Ha & Hc & Hp)] code hs' Ha' _; [congruence|]. by exists c.
Qed.

Lemma respond_only_pdf r e sv :
  answered (wd sv) = None → sent (wd sv) = "" → only_pdf (respond env r e sv).2.
Proof.
  intros Ha Hs. pose proof (respond_refuses env r e sv Ha Hs) as Href. destruct (respond env r e sv) as [o sv'].
  destruct Href as (_ & (hs & Ha' & Hct & _) & _). intros code hs' Ha2 Hct2. cbn in Ha2. congruence.
Qed.

Lemma record_wd r di st c n sv : wd (recordConversion env r di st c n sv).2 = wd sv.
Proof. unfold recordConversion, mbind, h_bind, clock, get. by destruct (Recent.Record_ _ _). Qed.

Lemma finish_html_only_pdf r recs di hs dir engine waitOpts input out :
  s3Out di = None →
  hpost (unanswered recs) (finishStream env r di hs dir (λ dst, lift (produce_html env blocks engine waitOpts input out dst)))
    (λ _, only_pdf).
Proof.
  intros Hdi. unfold finishStream. eapply (hpost_bind _ _ _ (λ _, unanswered recs)); [by intros sv Hsv|]. intros sent0.
  eapply (hpost_bind _ _ _ (λ tmp sv, unanswered recs sv ∧ tmp = None)).
  { intros sv Hsv. unfold open_s3_copy. by rewrite Hdi. }
  intros tmp. apply hpost_pure. intros ->. eapply (hpost_bind _ _ _ (λ _ sv, from_pdf (wd sv))).
  { intros sv (Ha & Hs & _). unfold lift. pose proof (produce_html_pdf hs engine waitOpts input out (wd sv) Ha Hs) as Hp.
    by destruct (produce_html _ _ _ _ _ _ _ (wd sv)). }
  intros err. eapply (hpost_bind _ _ _ (λ _, only_pdf)); cycle 1.
  { intros u. apply hpost_same; [apply response_lift, quiet_os_remove_all|apply only_pdf_mono]. }
  destruct err as [e|]; intros sv Hsv; unfold mbind, h_bind, drop_copy, upload_copy, mret, h_ret, get.
  - destruct (answered (wd sv)) as [p|] eqn:Ha.
    + match goal with |- context [recordConversion env r di "failed" ?c ?n sv] => pose proof (record_wd r di "failed" c n sv) as Hw;
        destruct (recordConversion env r di "failed" c n sv) as [[u| |] sv'] end; [|done..].
      apply from_pdf_only. cbn in Hw. by rewrite Hw.
    + pose proof (record_wd r di "failed" (errCode e) 0 sv) as Hw. destruct (recordConversion _ _ _ _ _ _ sv) as [[u| |] sv']; [|done..].
      pose proof (respond_only_pdf r e sv') as Hresp. destruct (respond env r e sv') as [[v| |] sv2]; [|done..].
      cbn in Hw. destruct Hsv as [[_ Hs]|(? & ? & Ha' & _)]; [|congruence]. apply Hresp; by rewrite Hw.
  - match goal with |- context [recordConversion env r di "success" ?c ?n sv] => pose proof (record_wd r di "success" c n sv) as Hw;
      destruct (recordConversion env r di "success" c n sv) as [[u| |] sv'] end; [|done..].
    apply from_pdf_only. cbn in Hw. by rewrite Hw.
Qed.

Definition html_post (r : Request) (recs : Recent.RecentStore) (sv : Server) : Prop := answer_of r recs sv ∧ only_pdf sv.

Lemma html_post_mono r recs sv sv' : same_response sv sv' → html_post r recs sv → html_post r recs sv'.
Proof. intros Hsv [H1' H2']. split; [by eapply answer_mono|by eapply only_pdf_mono]. Qed.

Lemma refuse_html_post r recs e : hpost (unanswered recs) (respond env r e) (λ _, html_post r recs).
Proof.
  intros sv Hsv. pose proof (refuse_unanswered env r recs e sv Hsv) as Hans. destruct Hsv as (Ha & Hs & _).
  pose proof (respond_only_pdf r e sv Ha Hs) as Hpdf. by destruct (respond env r e sv) as [[u| |] sv'].
Qed.

Lemma html_clean_up_post r recs dir e : hpost (unanswered recs) (html_clean_up env r dir e) (λ _, html_post r recs).
Proof. unfold html_clean_up. eapply hpost_bind; [apply hpost_unanswered; handler|]. intros u. apply refuse_html_post. Qed.

Lemma html_upload_post r recs rate di engine waitOpts u dir :
  plain_headers rate → s3Out di = None →
  hpost (unanswered recs) (html_upload env blocks r rate di engine waitOpts u dir) (λ _, html_post r recs).
Proof.
  intros Hrate Hdi. unfold html_upload. pose proof (html_clean_up_post r recs dir) as Hclean. cbv zeta.
  eapply hpost_bind; [apply hpost_unanswered; handler|]. intros [size|e]; [|apply Hclean]. destruct (size =? 0); [apply Hclean|].
  eapply hpost_bind; [apply hpost_unanswered; handler|]. intros head. destruct (negb _); [apply Hclean|].
  intros sv Hsv. set (m := finishStream _ _ _ _ _ _).
  assert (hpost (unanswered recs) m (λ _, answer_of r recs)) as H1'.
  { apply finish_answers; [by apply stream_headers_pdf|]. intros dst Hdst. apply produced_by. unfold produce_html.
    apply keeps_bind; [apply keeps_quiet; [apply began_response|apply quiet_render]|]. intros [e|]; [by intros w|by apply began_copyPDF]. }
  assert (hpost (unanswered recs) m (λ _, only_pdf)) as H2' by (by apply finish_html_only_pdf).
  specialize (H1' sv Hsv). specialize (H2' sv Hsv). by destruct (m sv) as [[v| |] sv'].
Qed.

Lemma html_licensed_post r recs rate engine t waitOpts :
  plain_headers rate → hpost (unanswered recs) (html_licensed env blocks r rate engine t waitOpts) (λ _, html_post r recs).
Proof.
  intros Hrate. unfold html_licensed, reject. destruct (has_file r) as [u|]; [|apply refuse_html_post]. cbv zeta.
  eapply hpost_bind; [apply hpost_unanswered; handler|]. intros []; [by apply html_upload_post|apply refuse_html_post].
Qed.

Lemma html_in_slot_post r recs rate engine t :
  plain_headers rate → hpost (unanswered recs) (html_in_slot env blocks r rate engine t) (λ _, html_post r recs).
Proof.
  intros Hrate. unfold html_in_slot, reject. destruct (parseWaitOptions r engine) as [waitOpts|e]; [|apply refuse_html_post].
  destruct (String.eqb engine "aspose"); [|by apply html_licensed_post].
  eapply hpost_bind; [apply hpost_unanswered; handler|]. intros [[]|e]; [|by apply html_licensed_post|];
    (eapply hpost_bind; [apply hpost_unanswered; handler|]; intros exp; apply refuse_html_post).
Qed.
End answers.

(** C10: a conversion of HTML is answered by a diagnostic or by a PDF, and recorded
    as [answer_of] says; whatever an engine made of the input, a response that
    calls itself a PDF is one from its first byte, or the beginning of one. *)
Theorem convert_html_answers `{GoArch, PrintTable, UnicodeTables, JSONFloats, OSErrors, Worker.Workers, Gotenberg.Transport}
    env blocks engine r recs :
  (∀ c, foldr String.append "" (blocks c) = c) →
  (∀ argv limit, quiet (Worker.exec argv limit)) →
  hpost (unanswered recs) (convertHTML env blocks engine r) (λ _ sv, answer_of r recs sv ∧ only_pdf sv).
Proof.
  intros Hblocks Hworkers. unfold convertHTML. eapply hpost_bind; [apply hpost_unanswered, response_clock|]. intros t.
  eapply hpost_bind; [apply (check_rate_post env r recs (html_post r recs)), refuse_html_post|]. intros [rate|]; [|by intros sv Hsv].
  intros sv [Hsv Hrate]. revert sv Hsv. apply (with_slot_post env r recs (html_post r recs)); [apply refuse_html_post|apply html_post_mono|].
  by apply html_in_slot_post.
Qed.

(** Wait controls that are accepted are those of the Chromium engine: a delay,
    when there is one, of more than nothing and at most thirty seconds, and an
    expression of at most 1024 bytes; the other engine accepts none. *)
Theorem wait_options_bounded r engine waitOpts :
  parseWaitOptions r engine = Ok waitOpts →
  (engine ≠ "gotenberg" → waitOpts = Gotenberg.mkWait "" "") ∧
  (Gotenberg.WaitDelay waitOpts = "" ∨ ∃ d, ParseDuration (Gotenberg.WaitDelay waitOpts) = Some d ∧ 0 < d <= 30 * Second) ∧
  str_len (Gotenberg.WaitForExpression waitOpts) <= 1024.
Proof.
  unfold parseWaitOptions. destruct (String.eqb_spec engine "gotenberg") as [->|Hne]; cbn [negb].
  - destruct (String.eqb_spec (trim_space (FormValue r "waitDelay")) "") as [Hd|Hd].
    + destruct (Z.ltb_spec maxWaitExpressionLen (str_len (trim_space (FormValue r "waitForExpression")))); [done|].
      intros [= <-]. split_and!; [done|by left|done].
    + destruct (ParseDuration _) as [d|] eqn:Hp; [|done]. destruct (Z.leb_spec d 0); [done|].
      destruct (Z.ltb_spec maxWaitDelay d); [done|].
      destruct (Z.ltb_spec maxWaitExpressionLen (str_len (trim_space (FormValue r "waitForExpression")))); [done|].
      intros [= <-]. split_and!; [done| |done]. right. exists d. done.
  - destruct (_ || _); [done|]. intros [= <-]. split_and!; [done|by left|done].
Qed.

(** ** A concrete conversion *)

(** A service that answers every page with the same PDF. *)
Definition sample_chromium : Gotenberg.Transport := {|
  Gotenberg.bad_request := λ _, None;
  Gotenberg.http_post := λ _ _ _, Ok (Gotenberg.mkAnswer 200 ["%PDF-1.7 page"] true)
|}.
Definition html_settings : Settings :=
  match Load (H := Build_PrintTable (λ _, true)) (H0 := Build_UnicodeTables (λ r, r))
    {[ "OFFICE_CONVERT_GOTENBERG_URL" := "http://chromium:3000/" ]} with
  | Ok s => s
  | Err _ => Orchestrator.sample_settings
  end.
Definition html_env : Env :=
  mkEnv html_settings (Cache.mkManager "" "25.1") ∅ (λ k, mkTime (1700000000 * Second + Z.of_nat k) (Some (Z.of_nat k)))
    (λ _, License.sample_file 7) Convert.sample_s3 (λ _, "/tmp/s3out-1.pdf").
Definition html_request (fields : gmap string string) : Request :=
  Convert.sample_request fields (Some (mkUpload "a.html" 6 ["<html>"] None)).

Section sample.
#[local] Instance sample_tables : UnicodeTables := {| unicode_to_lower := λ r, r |}.
#[local] Instance sample_print : PrintTable := {| is_print_wide := λ _, true |}.
#[local] Instance sample_json_floats : JSONFloats := {| json_float := λ _, "0" |}.
#[local] Instance sample_errors : OSErrors := {| os_error := λ op path, op +:+ " " +:+ path |}.
#[local] Instance no_worker : Worker.Workers := {| Worker.exec := λ _ _, mret (Worker.Exited 3 "" "") |}.
#[local] Existing Instance sample_chromium.

Lemma convert_html_answers_witness :
  let r := html_request {["waitDelay" := "1.5s"]} in
  let run := convertHTML html_env (λ c, [c]) "gotenberg" r Convert.sample_server in
  fst run = Done () ∧ sent (wd (snd run)) = "%PDF-1.7 page" ∧
  answer_of r (Recent.NewRecentStore 5) (snd run) ∧ only_pdf (snd run).
Proof.
  intros r run.
  pose proof (convert_html_answers html_env (λ c, [c]) "gotenberg" r (Recent.NewRecentStore 5)) as Hpost.
  specialize (Hpost (λ c, string_app_empty_r c) (λ argv limit, quiet_ret _) Convert.sample_server ltac:(done)). fold run in Hpost.
  assert (fst run = Done ()) as Ho by (vm_compute; reflexivity). rewrite (surjective_pairing run), Ho in Hpost.
  split_and!; [exact Ho|vm_compute; reflexivity|apply Hpost..].
Defined.

Lemma wait_options_bounded_witness :
  let waitOpts := Gotenberg.mkWait "1.5s" "" in
  parseWaitOptions (html_request {["waitDelay" := " 1.5s "]}) "gotenberg" = Ok waitOpts ∧ str_len (Gotenberg.WaitForExpression waitOpts) <= 1024.
Proof.
  intros waitOpts. assert (parseWaitOptions (html_request {["waitDelay" := " 1.5s "]}) "gotenberg" = Ok waitOpts) as Hw
    by (vm_compute; reflexivity).
  split; [exact Hw|]. apply (wait_options_bounded _ _ _ Hw).
Defined.
End sample.
