(* ===== verification/PostedHTML.v ===== *)
(** * A posted page comes back as the PDF its engine made

    [ConvertHTML.convertHTML] with the engine inside it: an HTML page that is
    uploaded to [POST /v1/convert/html/gotenberg] and let in is answered with
    status 200 and exactly the PDF the Chromium service answered, whatever the
    license says ([posted_page_comes_back]); the page that is uploaded to
    [POST /v1/convert/html/aspose] with the file its worker left, as long as the
    license is valid ([worker_page_comes_back]). *)
From Stdlib Require Import ZArith Lia Bool SpecFloat Ascii String.
From stdpp Require Import base tactics list gmap strings.
From S2P Require Import Prelude GoFloat GoString GoFmt GoTime Types OErrors Config FS Qpdf Http Server Delivery ConvertHTML.
From S2P Require Cache Gotenberg License Probe RateLimit Recent Worker Convert.
From stdpp Require Import list.
Local Open Scope Z_scope.

Section posted.
Context `{GoArch} `{PrintTable} `{UnicodeTables} `{JSONFloats} `{OSErrors} `{Worker.Workers} `{Gotenberg.Transport}.
Context (env : Env) (blocks : string → list string) (Hblocks : ∀ c, foldr String.append "" (blocks c) = c).
#[local] Abbreviation s := (conf env).

Definition page_path (r : Request) : string := scratch_of env r +:+ "/input.html".
Definition pdf_path (r : Request) : string := scratch_of env r +:+ "/output.pdf".

(** A page arrives: it is uploaded whole, within the limit for HTML, is HTML by its
    beginning or its name, and there is a slot for it; the response is fresh and
    no system call fails. *)
Record page_arrives (r : Request) (u : Upload) (html : string) (sv : Server) : Prop := {
  pa_file : has_file r = Some u;
  pa_whole : upload_error u = None;
  pa_page : foldr String.append "" (upload_blocks u) = html;
  pa_size : 0 < str_len html <= HTMLMaxBytes s;
  pa_limit : HTMLMaxBytes s < 2 ^ 62;
  pa_html : Probe.IsHTMLUpload (take (Z.to_nat (minI64 (str_len html) 1024)) (bytes html)) (Filename u) = true;
  pa_slot : has_slot env r sv;
  pa_fresh : unanswered (recent sv) sv;
  pa_steady : faults (wd sv) = [];
  pa_records : 0 <= Recent.maxlen (recent sv)
}.

(** The engine makes [pdf] of the page that lies at its path, and leaves the
    response alone. *)
Definition makes (engine : string) (waitOpts : Gotenberg.WaitOptions) (r : Request) (html pdf : string) : Prop :=
  ∀ w, faults w = [] → files w !! page_path r = Some html →
    ∃ w', render_html env engine waitOpts (page_path r) (pdf_path r) w = (None, w') ∧
      faults w' = [] ∧ files w' !! pdf_path r = Some pdf ∧ sent w' = sent w ∧ answered w' = answered w.

(** ** What the engines make *)

Definition client : Gotenberg.Client := Gotenberg.New (GotenbergURL s) (GotenbergTimeoutSeconds s).

Lemma quiet_service c path waitOpts out : quiet (Gotenberg.ConvertHTML c path waitOpts out).
Proof.
  pose proof quiet_copy_body. unfold Gotenberg.ConvertHTML, Gotenberg.buildForm, Gotenberg.classify, Gotenberg.writePDF. quiet.
Qed.

Lemma service_makes waitOpts r html a :
  Gotenberg.service_answers client html waitOpts a → makes "gotenberg" waitOpts r html (Gotenberg.body a).
Proof.
  intros Ha w Hnil Hf. destruct (Gotenberg.service_converts client (page_path r) html waitOpts a (pdf_path r) w Ha Hnil Hf) as (w' & Hr & Hn & Ho).
  pose proof (quiet_service client (page_path r) waitOpts (pdf_path r) w) as [Hs Han]. rewrite Hr in Hs, Han. by exists w'.
Qed.

(** A worker that exits with 0 and leaves a PDF. *)
Definition worker_leaves (r : Request) (html pdf : string) : Prop :=
  ∀ argv w, faults w = [] → files w !! page_path r = Some html →
    Worker.worker_argv s "render" (page_path r) (Worker.workerBinary s FormatDOCX) "html" (pdf_path r) (Some (1, 1)) = Some argv →
    ∃ out err w', Worker.exec argv (Worker.timeout_of s) w = (Worker.Exited 0 out err, w') ∧
      faults w' = [] ∧ files w' !! pdf_path r = Some pdf.

Lemma worker_makes waitOpts r html pdf :
  (∀ argv limit, quiet (Worker.exec argv limit)) → worker_leaves r html pdf → has_prefix pdf "%PDF-" = true → makes "aspose" waitOpts r html pdf.
Proof.
  intros Hq Hw [t ->]%has_prefix_spec w Hnil Hf.
  assert (∃ argv, Worker.worker_argv s "render" (page_path r) (Worker.workerBinary s FormatDOCX) "html" (pdf_path r) (Some (1, 1)) =
    Some argv) as [argv Hargv] by (by eexists).
  destruct (Hw argv w Hnil Hf Hargv) as (out & err & w' & Hr & Hn & Ho).
  pose proof (Hq argv (Worker.timeout_of s) w) as [Hs Ha]. rewrite Hr in Hs, Ha.
  assert (Worker.RenderHTMLOneShot s (page_path r) (pdf_path r) w = (None, w')) as Hrun.
  { unfold Worker.RenderHTMLOneShot, Worker.runWorkerBin, mbind, io_bind. rewrite Hargv, Hr. reflexivity. }
  exists w'. split; [|done]. unfold render_html. change (String.eqb "aspose" "gotenberg") with false. cbv iota.
  unfold mbind at 1, io_bind at 1. rewrite Hrun.
  unfold validatePDFMagic, readHead, os_open, faulty, get_files, mbind, io_bind, mret, io_ret. rewrite Hn. cbn. by rewrite Ho.
Qed.

(** ** The stream *)

Lemma copied_whole hs bs w :
  faults w = [] → began hs w →
  ∃ w', copy_out (stream_write hs) bs w = (None, w') ∧ faults w' = [] ∧ began hs w' ∧
    sent w' = sent w +:+ foldr String.append "" bs.
Proof.
  revert w. induction bs as [|b bs IH]; intros w Hnil Hb; cbn [copy_out foldr].
  { exists w. by rewrite string_app_empty_r. }
  unfold mbind, io_bind. pose proof (stream_write_spec hs b w) as Hs. pose proof (began_stream hs b w Hb) as Hb1.
  destruct (stream_write hs b w) as [ok w1]. destruct Hs as ((d & _ & Hd & Hall) & _ & Hok). destruct (Hok Hnil) as [-> Hn1].
  destruct (IH w1 Hn1 Hb1) as (w' & -> & Hn & Hb' & Hs'). exists w'. split_and!; [done..|].
  by rewrite Hs', Hd, (Hall eq_refl), string_app_assoc.
Qed.

Lemma pdf_copied hs path pdf w :
  faults w = [] → answered w = None → sent w = "" → files w !! path = Some pdf → pdf ≠ "" →
  ∃ w', copyPDF blocks path (stream_sink hs) w = (None, w') ∧ sent w' = pdf ∧ answered w' = Some (200, hs) ∧ faults w' = [].
Proof.
  intros Hnil Ha Hs Hf Hne. unfold copyPDF, os_open, faulty, get_files, mbind, io_bind, mret, io_ret. rewrite Hnil. cbv iota beta. rewrite Hf.
  cbn [sink_write stream_sink]. destruct (copied_whole hs (blocks pdf) w Hnil (or_introl (conj Ha Hs))) as (w' & -> & Hn & Hb & Hs').
  rewrite Hblocks, Hs in Hs'. exists w'. split_and!; [done..| |done]. destruct Hb as [[_ He]|Hb]; [|done]. by rewrite Hs' in He.
Qed.

(** ** The request *)

Section page.
Context (engine : string) (waitOpts : Gotenberg.WaitOptions) (r : Request) (u : Upload) (html pdf : string) (sv0 : Server).
Context (Hpage : page_arrives r u html sv0) (Hmakes : makes engine waitOpts r html pdf) (Hpdf : pdf ≠ "").
#[local] Abbreviation recs := (recent sv0).
#[local] Abbreviation anything := (λ _ : gmap string string, True).
#[local] Abbreviation page_there := (λ fs : gmap string string, fs !! page_path r = Some html).

Lemma page_streamed hs :
  streams recs anything page_there pdf hs (λ dst, lift (produce_html env blocks engine waitOpts (page_path r) (pdf_path r) dst)).
Proof.
  intros sv ((Ha & Hs & Hr) & Hnil & Hf). unfold lift, produce_html, mbind, io_bind.
  destruct (Hmakes (wd sv) Hnil Hf) as (w1 & -> & Hn1 & Hf1 & Hs1 & Ha1).
  destruct (pdf_copied hs (pdf_path r) pdf w1 Hn1) as (w2 & -> & Hs2 & Ha2 & Hn2); [congruence..|].
  eexists _, _. split; [reflexivity|]. by split_and!.
Qed.

Lemma page_uploaded :
  yields (calm recs anything) (lift (streamUploadToFile u (page_path r) (HTMLMaxBytes s)))
    (λ n, calm recs (λ fs, page_there fs ∧ n = Ok (str_len html))).
Proof.
  destruct Hpage as [_ Hw Hd Hsize Hlimit _ _ _ _ _].
  apply (yields_lift recs _ _ (λ n fs, page_there fs ∧ n = Ok (str_len html))); [apply quiet_upload|]. intros w Hnil _.
  pose proof (upload_lands u (page_path r) (HTMLMaxBytes s) html w Hw Hd ltac:(lia) Hlimit Hnil) as Hl.
  destruct (streamUploadToFile u _ _ w) as [n w']. by destruct Hl as (-> & Hn & Hf & _).
Qed.

Lemma page_served rate di :
  plain_headers rate → s3Out di = None →
  yields (calm recs anything) (html_upload env blocks r rate di engine waitOpts u (scratch_of env r))
    (λ _ sv, delivered env r recs pdf sv).
Proof.
  intros Hrate Hs3. destruct Hpage as [_ _ _ Hsize _ Hhtml _ _ _ Hrecs]. unfold html_upload. cbv zeta. fold (page_path r) (pdf_path r).
  eapply yields_bind; [apply page_uploaded|]. intros n sv (Hun & Hnil & Hf & ->). revert sv Hun Hnil Hf.
  rewrite (proj2 (Z.eqb_neq _ _)) by lia.
  enough (yields (calm recs page_there)
    (head ← lift (readHead (page_path r) (minI64 (str_len html) 1024));
     if negb (Probe.IsHTMLUpload (default [] head) (Filename u)) then
       html_clean_up env r (scratch_of env r) (NewInputUnprocessable
         "input is not HTML (expected <!doctype html>/<html> content or a .html/.htm file)")
     else finishStream env r di (stream_headers r rate di) (scratch_of env r)
       (λ dst, lift (produce_html env blocks engine waitOpts (page_path r) (pdf_path r) dst)))
    (λ _ sv, delivered env r recs pdf sv)) as Hrest by (intros sv Hun Hnil Hf; apply (Hrest sv); by split_and!).
  eapply (yields_bind _ _ _ (λ head sv, calm recs page_there sv ∧
    head = Some (take (Z.to_nat (minI64 (str_len html) 1024)) (bytes html)))).
  { intros sv (Hun & Hnil & Hf). unfold lift, readHead, os_open, faulty, get_files, mbind, io_bind, mret, io_ret. rewrite Hnil. cbv iota beta.
    rewrite Hf. cbn [fmap option_fmap option_map]. rewrite (proj2 (Z.leb_gt _ _)) by (unfold minI64; destruct (_ <? _); lia).
    eexists _, sv. split; [by destruct sv|]. by split_and!. }
  intros head. apply yields_pure. intros ->. cbn [from_option id]. rewrite Hhtml. cbn [negb].
  intros sv Hsv. destruct (stream_finished env r recs anything Hrecs (λ _ _ _ _, I) page_there pdf rate di _ Hrate Hs3 (page_streamed _) sv Hsv)
    as (x & sv' & Hrun & Hdel & _). by exists x, sv'.
Qed.

Lemma page_licensed rate started :
  plain_headers rate →
  yields (calm recs anything) (html_licensed env blocks r rate engine started waitOpts) (λ _ sv, delivered env r recs pdf sv).
Proof.
  intros Hrate. unfold html_licensed. rewrite (pa_file _ _ _ _ Hpage). cbv zeta.
  eapply (yields_bind _ _ _ (λ ok, calm recs (λ _, ok = true))).
  { apply (yields_lift recs _ _ (λ ok _, ok = true)); [apply quiet_os_mkdir_all|]. intros w Hnil _. unfold os_mkdir_all, faulty. by rewrite Hnil. }
  intros ok sv (Hun & Hnil & ->). by apply page_served; [..|split_and!].
Qed.

(** The slot is taken, and given back. *)
Lemma page_delivered :
  (∀ rate started, plain_headers rate →
     yields (λ sv, calm recs anything sv ∧ ticks sv = license_reading sv0 ∧ licenseMgr sv = licenseMgr sv0)
       (html_in_slot env blocks r rate engine started) (λ _ sv, delivered env r recs pdf sv)) →
  ∃ sv', convertHTML env blocks engine r sv0 = (Done (), sv') ∧ delivered env r recs pdf sv' ∧
    slots sv' = slots sv0 ∧ activeJobs sv' = activeJobs sv0.
Proof.
  intros Hinner. destruct Hpage as [_ _ _ _ _ _ Hslot Hun Hnil _].
  pose proof (proj2 (convert_html_slot_and_state env blocks engine r) sv0 ltac:(destruct Hslot; lia)) as Hbal.
  destruct (admitted env r recs anything sv0 (λ rate, html_in_slot env blocks r rate engine) (delivered env r recs pdf) Hslot)
    as (sv' & Hrun & Hdel); [by split_and!|exact Hinner|].
  change (convertHTML env blocks engine r sv0 = (Done (), release sv')) in Hrun. rewrite Hrun in Hbal. exists (release sv').
  split_and!; [exact Hrun|exact Hdel|apply Hbal..].
Qed.
End page.

(** C3: an HTML page that is uploaded whole to the Chromium endpoint and let in comes
    back as exactly the PDF the service answered to the form with that page and the
    wait controls of the request: the handler ends, the client has status 200 with
    the headers of a PDF, the conversion is recorded as a success of that size, the
    slot is free again and nothing of the request is left on the disk; the license
    does not matter. *)
Theorem posted_page_comes_back waitOpts r u html a sv :
  page_arrives r u html sv → parseWaitOptions r "gotenberg" = Ok waitOpts →
  Gotenberg.service_answers client html waitOpts a →
  ∃ sv', convertHTMLGotenberg env blocks r sv = (Done (), sv') ∧ delivered env r (recent sv) (Gotenberg.body a) sv' ∧
    slots sv' = slots sv ∧ activeJobs sv' = activeJobs sv.
Proof.
  intros Hpage Hopts Ha. pose proof (service_makes waitOpts r html a Ha) as Hmakes.
  apply (page_delivered "gotenberg" r u html (Gotenberg.body a) sv Hpage). intros rate started Hplain sv1 (Hsv1 & _).
  unfold html_in_slot. rewrite Hopts. cbv iota beta. change (String.eqb "gotenberg" "aspose") with false. cbv iota.
  eapply page_licensed; try done. pose proof (Gotenberg.sa_pdf _ _ _ _ Ha) as Hpdf. by intros He; rewrite He in Hpdf.
Qed.

(** The page that goes to the worker comes back as the file the worker left, while
    the license is valid. *)
Lemma worker_page_comes_back waitOpts r u html pdf sv :
  (∀ argv limit, quiet (Worker.exec argv limit)) →
  page_arrives r u html sv → parseWaitOptions r "aspose" = Ok waitOpts →
  (License.IsExpired (now env (license_reading sv)) (license_file env (license_reading sv)) (licenseMgr sv)).1 = Ok false →
  worker_leaves r html pdf → has_prefix pdf "%PDF-" = true →
  ∃ sv', convertHTMLAspose env blocks r sv = (Done (), sv') ∧ delivered env r (recent sv) pdf sv' ∧
    slots sv' = slots sv ∧ activeJobs sv' = activeJobs sv.
Proof.
  intros Hq Hpage Hopts Hlic Hw Hpdf. pose proof (worker_makes waitOpts r html pdf Hq Hw Hpdf) as Hmakes.
  apply (page_delivered "aspose" r u html pdf sv Hpage). intros rate started Hplain.
  unfold html_in_slot. rewrite Hopts. cbv iota beta. change (String.eqb "aspose" "aspose") with true. cbv iota.
  eapply (yields_bind _ _ _ (λ x sv1, calm (recent sv) (λ _, True) sv1 ∧ x = Ok false)); [by apply license_valid|].
  intros x. apply yields_pure. intros ->. eapply page_licensed; try done. by intros ->.
Qed.
End posted.

(** ** A concrete page *)

Section sample.
#[local] Instance sample_tables : UnicodeTables := {| unicode_to_lower := λ r, r |}.
#[local] Instance sample_print : PrintTable := {| is_print_wide := λ _, true |}.
#[local] Instance sample_json_floats : JSONFloats := {| json_float := λ _, "0" |}.
#[local] Instance sample_errors : OSErrors := {| os_error := λ op path, op +:+ " " +:+ path |}.
#[local] Instance no_worker : Worker.Workers := {| Worker.exec := λ _ _, mret (Worker.Exited 3 "" "") |}.
#[local] Existing Instance sample_chromium.

Definition sample_page : Request := html_request {["waitDelay" := "1.5s"]}.
Definition sample_answer : Gotenberg.Answer := Gotenberg.mkAnswer 200 ["%PDF-1.7 page"] true.

Lemma posted_page_comes_back_witness :
  ∃ sv', convertHTMLGotenberg html_env (λ c, [c]) sample_page Convert.sample_server = (Done (), sv') ∧
    delivered html_env sample_page (Recent.NewRecentStore 5) "%PDF-1.7 page" sv' ∧ slots sv' = 0.
Proof.
  destruct (posted_page_comes_back html_env (λ c, [c]) (λ c, string_app_empty_r c) (Gotenberg.mkWait "1.5s" "") sample_page
    (mkUpload "a.html" 6 ["<html>"] None) "<html>" sample_answer Convert.sample_server) as (sv' & Hr & Hd & Hs & _).
  - split; [reflexivity..| | |reflexivity| |by split_and!|reflexivity|].
    + by vm_compute.
    + by vm_compute.
    + split; [discriminate|reflexivity].
    + by vm_compute.
  - vm_compute. reflexivity.
  - by split.
  - exists sv'. split; [exact Hr|]. split; [exact Hd|exact Hs].
Defined.
End sample.
