(* ===== verification/Views.v ===== *)
(** * The read-only endpoints ([internal/server/server.go], [health.go])

    Health, the landing page, the progress of jobs, the recent conversions and
    their statistics, presigned links and the clearing of the cache.  An answer
    is a status and a JSON object. *)
From Stdlib Require Import ZArith Lia Bool SpecFloat Ascii String Sorting.Permutation.
From stdpp Require Import base tactics sorting list gmap strings.
From S2P Require Import Prelude GoFloat GoString GoFmt GoTime Types OErrors Config FS Json Http Server.
From S2P Require Cache License Orchestrator Progress RateLimit Recent Ring S3 Worker.
From stdpp Require Import list.
Local Open Scope Z_scope.

Abbreviation body := (gmap string any).

(** ** Health *)

(** The problems found at the start: a worker binary that is missing, no [qpdf],
    no scratch directory. *)
Definition required_workers : list string := [FormatDOCX; FormatPPTX; FormatXLSX; FormatPDF; "email"].
Fixpoint worker_missing (prefix : string) (names : list string) : IO bool :=
  match names with
  | [] => mret false
  | n :: names => ok ← os_exists (prefix +:+ "-" +:+ n); if ok : bool then worker_missing prefix names else mret true
  end.
Definition NewHealth (s : Settings) (qpdf_found : bool) : IO (list string) :=
  missing ← worker_missing (WorkerBinaryPrefix s) required_workers;
  ok ← os_mkdir_all (ScratchDir s);
  mret ((if missing : bool then ["worker_binary_missing"] else []) ++
        (if qpdf_found then [] else ["qpdf_missing"]) ++
        (if ok : bool then [] else ["scratch_dir_unwritable"])).

Section health.
Context `{GoArch} (is_not_exist : string → bool).

(** The problem with the license, and the days it has left. *)
Definition license_problem (days : result License.license_error (option Z)) : list string * any :=
  match days with
  | Err (License.EOpen msg) => ([if is_not_exist msg then "license_path_missing" else "license_invalid"], ANil)
  | Err _ => (["license_invalid"], ANil)
  | Ok (Some n) => (if n <? 0 then ["license_expired"] else [], AInt n)
  | Ok None => ([], ANil)
  end.
Definition health_problems (static : list string) (days : result License.license_error (option Z)) : list string :=
  static ++ (license_problem days).1.
Definition snapshot (s : Settings) (static : list string) (days : result License.license_error (option Z)) (activeJobs : Z) : body :=
  let problems := health_problems static days in
  list_to_map
    [("ready", ABool (bool_decide (problems = []))); ("license_days_remaining", (license_problem days).2);
     ("active_jobs", AInt activeJobs); ("max_jobs", AInt (MaxJobs s)); ("problems", AStrs problems)].
Definition ready (static : list string) (days : result License.license_error (option Z)) : bool :=
  bool_decide (health_problems static days = []).
End health.

(** [strings.NewReplacer]: at each place the first of the texts that is there. *)
Fixpoint replacement (pairs : list (string * string)) (s : string) : option (string * string) :=
  match pairs with
  | [] => None
  | (old, new) :: pairs => if has_prefix s old then Some (new, str_drop (String.length old) s) else replacement pairs s
  end.
Fixpoint Replacer (fuel : nat) (pairs : list (string * string)) (s : string) : string :=
  match fuel, s with
  | O, _ | _, EmptyString => s
  | S fuel, String c rest =>
      match replacement pairs s with
      | Some (new, rest) => new +:+ Replacer fuel pairs rest
      | None => String c (Replacer fuel pairs rest)
      end
  end.
Definition landing_page (html : string) (ready : bool) : string :=
  let '(label, class) := if ready then ("READY", "ok") else ("NOT READY", "err") in
  Replacer (String.length html)
    [("{{STATUS_LABEL}}", label); ("{{STATUS_CLASS}}", class); ("{{VERSION}}", version)] html.

Example landing_example :
  landing_page "<b class={{STATUS_CLASS}}>{{STATUS_LABEL}}</b> {{VERSION}} {{OTHER}}" true = "<b class=ok>READY</b> 0.1.0 {{OTHER}}".
Proof. vm_compute. reflexivity. Qed.

(** ** Jobs *)

(** A snapshot of a ring buffer; no identifier, no list. *)
Definition events_any (rid : string) (evs : list Ring.Event) : any :=
  if String.eqb rid "" then ANil else AList (obj <$> evs).
Definition getHeartbeats (now : Time) (rid : string) (st : Worker.Stores) : body * Worker.Stores :=
  let '(evs, ring) := Ring.Get now rid (Worker.Heartbeats st) in
  (<["request_id" := AStr rid]> {["heartbeats" := events_any rid evs]},
   Worker.mkStores ring (Worker.Timings st) (Worker.ProgressStore st)).
Definition getTimings (now : Time) (rid : string) (st : Worker.Stores) : body * Worker.Stores :=
  let '(evs, ring) := Ring.Get now rid (Worker.Timings st) in
  (<["request_id" := AStr rid]> {["timings" := events_any rid evs]},
   Worker.mkStores (Worker.Heartbeats st) ring (Worker.ProgressStore st)).

(** [mergeMap]: the second map wins. *)
Definition mergeMap (a b : body) : body := b ∪ a.

Definition unknown_job (rid : string) : body :=
  list_to_map
    [("request_id", AStr rid); ("phase", AStr "unknown"); ("total_chunks", AInt 0); ("chunks_rendered", AInt 0);
     ("load_progress", AFloat f0); ("merge_done", AFloat f0); ("weighted_percent", AFloat f0); ("elapsed_s", AFloat f0)].
Definition getProgress (now now2 : Time) (rid : string) (st : Progress.JobProgressStore) : body * Progress.JobProgressStore :=
  let '(jp, st) := Progress.Get now rid st in
  (match jp with
   | None => unknown_job rid
   | Some jp => mergeMap {["request_id" := AStr rid]} (Progress.ToDict now2 jp)
   end, st).
Definition job_entry (now : Time) (e : string * Progress.JobProgress) : any :=
  obj (mergeMap {["request_id" := AStr e.1]} (Progress.ToDict now e.2)).
Definition listActiveJobs (now now2 : Time) (st : Progress.JobProgressStore) : body * Progress.JobProgressStore :=
  let '(jobs, st) := Progress.Active now st in ({["jobs" := AList (job_entry now2 <$> jobs)]}, st).

(** ** Recent conversions *)

Definition any_str (o : option string) : any := match o with Some s => AStr s | None => ANil end.
Definition any_int (o : option Z) : any := match o with Some z => AInt z | None => ANil end.

Definition recordToDict (r : Recent.ConversionRecord) : body :=
  let d : body := list_to_map
    [("request_id", AStr (Recent.RequestID r)); ("completion_ts", AFloat (Recent.CompletionTS r));
     ("source", AStr (Recent.Source r)); ("input_filename", any_str (Recent.InputFilename r));
     ("format", AStr (Recent.RFormat r)); ("page_count", any_int (Recent.RPageCount r));
     ("duration_ms", AInt (Recent.DurationMS r)); ("status", AStr (Recent.Status r));
     ("error_code", any_str (Recent.ErrorCode r)); ("output_s3_uri", any_str (Recent.OutputS3URI r));
     ("output_size_bytes", any_int (Recent.OutputSizeBytes r))] in
  if String.eqb (Recent.Engine r) "" then d else <["engine" := AStr (Recent.Engine r)]> d.

(** The parameters of a query. *)
Definition query (q : gmap string string) (k : string) : string := default "" (q !! k).
Definition page_limit (q : gmap string string) : Z :=
  let limit := default 20 (parse_int (query q "limit")) in
  if limit <? 1 then 1 else if 100 <? limit then 100 else limit.
Definition page_filter (q : gmap string string) : string :=
  let filter := query q "filter" in
  if existsb (String.eqb filter) ["all"; "ui"; "cross"; "failed"] then filter else "all".
Definition page_cursor `{Recent.CursorCodec} (q : gmap string string) : option Recent.Cursor :=
  if String.eqb (query q "cursor") "" then None else Recent.DecodeCursor (query q "cursor").

(** [None] is an index out of range. *)
Definition conversions_page `{Recent.CursorCodec} (q : gmap string string) (recents : Recent.RecentStore) : option Recent.Page :=
  Recent.Paginate (List.filter (λ r, Recent.Matches r (page_filter q)) (Recent.Snapshot recents))
    (page_cursor q) (page_limit q) (Recent.Size recents).
Definition page_body (p : Recent.Page) : body :=
  list_to_map
    [("entries", AList ((λ r, obj (recordToDict r)) <$> Recent.Entries p)); ("next_cursor", any_str (Recent.NextCursor p));
     ("has_more", ABool (Recent.HasMore p)); ("stale_cursor", ABool (Recent.StaleCursor p));
     ("buffer_size", AInt (Recent.BufferSize p))].
Definition listConversions `{Recent.CursorCodec} (q : gmap string string) (recents : Recent.RecentStore) : option body :=
  page_body <$> conversions_page q recents.

(** ** Statistics *)

(** [math.Ceil] as an integer; [None] for NaN and the infinities. *)
Definition fceil (x : f64) : option Z :=
  match x with
  | S754_zero _ => Some 0
  | S754_finite s m e =>
      Some (if 0 <=? e then cond_Zopp s (Z.pos m * 2 ^ e) else - (- cond_Zopp s (Z.pos m) / 2 ^ (- e)))
  | _ => None
  end.
Definition int_of_ceil `{GoArch} (x : f64) : Z :=
  match fceil x with
  | Some z => if (min_i64 <=? z) && (z <=? max_i64) then z else int_of_f64_oob x
  | None => int_of_f64_oob x
  end.

Record Summary : Type := mkSummary { Count : Z; AvgMS : Z; P95MS : Z }.

Definition p95_index `{GoArch} (n : Z) : Z :=
  let i := (int_of_ceil (fmul (f64_ratio 95 100) (f64_of_Z n)) -! 1)%go in
  let i := if i <? 0 then 0 else i in
  if n - 1 <? i then n - 1 else i.
Definition sum_times (times : list Z) : Z := foldl (λ sum t, (sum +! t)%go) 0 times.
Definition summarizeTimes `{GoArch} (times : list Z) : Summary :=
  let times := merge_sort Z.le times in
  let n := Z.of_nat (length times) in
  mkSummary n (if 0 <? n then Z.quot (sum_times times) n else 0)
    (if 0 <? n then nth (Z.to_nat (p95_index n)) times 0 else 0).
Definition summary_any (s : Summary) : any :=
  AObj [("avg_ms", AInt (AvgMS s)); ("count", AInt (Count s)); ("p95_ms", AInt (P95MS s))].

Record Tally : Type := mkTally {
  count : Z; successes : Z; failures : Z;
  perFmtTimes : gmap string (list Z);
  perEngineTimes : gmap string (list Z)
}.
Definition append_time (k : string) (t : Z) (m : gmap string (list Z)) : gmap string (list Z) :=
  <[k := default [] (m !! k) ++ [t]]> m.
Definition tally (t : Tally) (r : Recent.ConversionRecord) : Tally :=
  if String.eqb (Recent.Status r) "failed" then
    mkTally (count t + 1) (successes t) (failures t + 1) (perFmtTimes t) (perEngineTimes t)
  else if Recent.DurationMS r =? 0 then
    mkTally (count t + 1) (successes t + 1) (failures t) (perFmtTimes t) (perEngineTimes t)
  else
    mkTally (count t + 1) (successes t + 1) (failures t)
      (append_time (Recent.RFormat r) (Recent.DurationMS r) (perFmtTimes t))
      (if String.eqb (Recent.Engine r) "" then perEngineTimes t
       else append_time (Recent.Engine r) (Recent.DurationMS r) (perEngineTimes t)).
Definition tally_all (recs : list Recent.ConversionRecord) : Tally := foldl tally (mkTally 0 0 0 ∅ ∅) recs.

Definition per_group `{GoArch} (m : gmap string (list Z)) : any :=
  obj ((λ times, summary_any (summarizeTimes times)) <$> m).
Definition conversionsStats `{GoArch} (recents : Recent.RecentStore) : body :=
  let t := tally_all (Recent.Snapshot recents) in
  let b : body := <["per_format" := per_group (perFmtTimes t)]>
    {["totals" := AObj [("count", AInt (count t)); ("failures", AInt (failures t)); ("successes", AInt (successes t))]]} in
  if decide (perEngineTimes t = ∅) then b else <["per_engine_html" := per_group (perEngineTimes t)]> b.

(** ** The handlers *)

Section handlers.
Context `{GoArch} `{PrintTable} `{JSONFloats} `{OSErrors} (env : Env) (is_not_exist : string → bool) (static : list string).

Definition reply (r : Request) (code : Z) (b : body) : Handler unit := lift (writeJSON code (base_headers r) b).

(** The license as it is now. *)
Definition days_remaining : Handler (result License.license_error (option Z)) :=
  '(t, f) ← license_now env;
  m ← get licenseMgr;
  let '(d, m) := License.DaysRemaining t f m in
  modify (set_license m);;
  mret d.
Definition health (r : Request) : Handler unit :=
  days ← days_remaining;
  n ← get activeJobs;
  reply r (if ready is_not_exist static days then 200 else 503) (snapshot is_not_exist (conf env) static days n).
Definition landing (html : string) (r : Request) : Handler unit :=
  days ← days_remaining;
  lift (writeHTML (base_headers r) (landing_page html (ready is_not_exist static days))).
Definition dashboard (html : string) (r : Request) : Handler unit := lift (writeHTML (base_headers r) html).

Definition get_conversions `{Recent.CursorCodec} (q : gmap string string) (r : Request) : Handler unit :=
  recents ← get recent;
  match listConversions q recents with Some b => reply r 200 b | None => panic end.
Definition get_stats (r : Request) : Handler unit := recents ← get recent; reply r 200 (conversionsStats recents).

Definition presign_body (bucket key url : string) (now : Time) : body :=
  list_to_map
    [("download_url", AStr url); ("bucket", AStr bucket); ("key", AStr key);
     ("expires_in_seconds", AInt (S3PresignTTLSeconds (conf env)));
     ("expires_at", AStr (format_rfc3339 (time_add now (S3PresignTTLSeconds (conf env) *! Second)%go)))].
Definition presign (q : gmap string string) (r : Request) : Handler unit :=
  if negb (S3Enabled (conf env)) then reject env r NewS3Disabled
  else
    w ← get wd;
    let '(res, calls) := S3.PresignGetURL (s3_world env (files w)) (query q "bucket") (query q "key") (conf env) in
    modify (log_calls calls);;
    match res with
    | Err e => respond env r e
    | Ok url => t ← clock env; reply r 200 (presign_body (query q "bucket") (query q "key") url t)
    end.

(** The result of the clearing: a struct, whose last field is left out when zero. *)
Definition clear_any (c : Cache.ClearResult) : any :=
  AObj ([("enabled", ABool (Cache.REnabled c)); ("files_deleted", AInt (Cache.FilesDeleted c));
         ("bytes_freed", AInt (Cache.BytesFreed c))] ++
        (if Cache.Errors c =? 0 then [] else [("errors", AInt (Cache.Errors c))])).
Definition clearCache (walk : list Cache.entry) (r : Request) : Handler unit :=
  c ← lift (Cache.Clear (cache env) walk);
  lift (write_body 200 (base_headers r) "application/json" (of_bytes (encode (clear_any c) ++ [10]))).
End handlers.

(** ** Theorems: health *)

Lemma writeJSON_answers `{JSONFloats} code hs b w :
  answered w = None → answered (writeJSON code hs b w).2 = Some (code, <["Content-Type" := "application/json"]> hs).
Proof.
  intros Ha. unfold writeJSON, write_body, mbind, io_bind, mret, io_ret, write_header. rewrite Ha. cbn [fst snd].
  set (w1 := mkWorld _ _ _ _ _ _). unfold send. pose proof (quiet_faulty w1) as [_ Hq].
  destruct (faulty w1) as [[] w2]; cbn in *; by rewrite Hq.
Qed.

Lemma ready_spec is_not_exist static days :
  ready is_not_exist static days = true ↔
  static = [] ∧ match days with Ok None => True | Ok (Some n) => 0 <= n | Err _ => False end.
Proof.
  unfold ready, health_problems. rewrite bool_decide_eq_true. destruct static as [|p static]; [cbn|by split; [|intros [? _]]].
  destruct days as [[n|]|[msg| |raw]]; cbn; [|by split|by split; [|intros [_ []]]..].
  destruct (Z.ltb_spec n 0); split; try done; intros [_ ?]; lia.
Qed.

(** C38: the health check always answers, and with 200 exactly when the start found
    no problem and the license can be read and is permanent or not past its last
    day; otherwise with 503. *)
Theorem health_status `{GoArch, JSONFloats} env is_not_exist static r sv :
  answered (wd sv) = None →
  let '(o, sv') := health env is_not_exist static r sv in
  let days := (License.DaysRemaining (now env (ticks sv)) (license_file env (ticks sv)) (licenseMgr sv)).1 in
  o = Done () ∧ ∃ code hs, answered (wd sv') = Some (code, hs) ∧ (code = 200 ∨ code = 503) ∧
    (code = 200 ↔ static = [] ∧ match days with Ok None => True | Ok (Some n) => 0 <= n | Err _ => False end).
Proof.
  intros Ha. unfold health, days_remaining, reply, mbind, h_bind, license_now, get, modify, mret, h_ret, lift. cbn [ticks licenseMgr set_ticks].
  destruct (License.DaysRemaining _ _ _) as [days m]. cbn [fst]. pose proof (ready_spec is_not_exist static days) as Hr.
  match goal with |- context [writeJSON ?c ?hs ?b ?w] => pose proof (writeJSON_answers c hs b w Ha) as Hw;
    destruct (writeJSON c hs b w) as [u w'] end. destruct u.
  split; [done|]. cbn in Hw |- *. destruct (ready is_not_exist static days).
  - eexists _, _. split; [exact Hw|]. split; [by left|]. split; [by intros _; apply Hr|done].
  - eexists _, _. split; [exact Hw|]. split; [by right|]. split; [done|]. intros Hd. by apply Hr in Hd.
Qed.

(** ** Theorems: the list of conversions *)

Lemma page_limit_range q : 1 <= page_limit q <= 100.
Proof. unfold page_limit. repeat case_match; lia. Qed.

Lemma make_page_bounds `{Recent.CursorCodec} items limit bs stale :
  1 <= limit →
  ∃ p, Recent.makePage items limit bs stale = Some p ∧ Z.of_nat (length (Recent.Entries p)) <= limit ∧
    Recent.Entries p `prefix_of` items ∧
    (Recent.HasMore p = bool_decide (limit < Z.of_nat (length items))) ∧
    (Recent.NextCursor p = None ↔ Recent.HasMore p = false) ∧ Recent.BufferSize p = bs.
Proof.
  intros Hl. unfold Recent.makePage. destruct (Z.ltb_spec limit (Z.of_nat (length items))) as [Hlt|Hle].
  - rewrite Recent.slice_to_ok by lia. cbn [mbind option_bind]. eexists. split; [done|]. cbn.
    rewrite length_take. split; [lia|]. split; [exists (drop (Z.to_nat limit) items); by rewrite take_drop|].
    rewrite bool_decide_true by lia. split; [done|]. split; [|done]. split; [|done].
    destruct (Z.to_nat limit) as [|n] eqn:Hn; [lia|]. destruct items as [|x items]; [cbn in Hlt; lia|]. cbn [take].
    rewrite last_cons. by destruct (last _).
  - cbn [mbind option_bind]. eexists. split; [done|]. cbn. rewrite bool_decide_false by lia. done.
Qed.

Lemma bool_filter_sublist {A} (f : A → bool) l : List.filter f l `sublist_of` l.
Proof. induction l as [|x l IH]; cbn; [constructor|]. by destruct (f x); constructor. Qed.
Lemma bool_filter_sound {A} (f : A → bool) l : Forall (λ x, f x = true) (List.filter f l).
Proof. apply list.Forall_forall. intros x Hx%list_elem_of_In. by apply filter_In in Hx as [_ Hx]. Qed.

(** A page of the conversions that match. *)
Definition page_ok (q : gmap string string) (recents : Recent.RecentStore) (p : Recent.Page) : Prop :=
  Z.of_nat (length (Recent.Entries p)) <= page_limit q <= 100 ∧
  Forall (λ r, Recent.Matches r (page_filter q) = true) (Recent.Entries p) ∧
  Recent.Entries p `sublist_of` Recent.buf recents ∧
  Recent.BufferSize p = Z.of_nat (length (Recent.buf recents)) ∧
  (Recent.NextCursor p = None ↔ Recent.HasMore p = false).

Lemma make_page_ok `{Recent.CursorCodec} q recents sub stale :
  sub `sublist_of` List.filter (λ r, Recent.Matches r (page_filter q)) (Recent.buf recents) →
  ∃ p, Recent.makePage sub (page_limit q) (Recent.Size recents) stale = Some p ∧ page_ok q recents p.
Proof.
  intros Hsub. pose proof (page_limit_range q) as Hlim.
  destruct (make_page_bounds sub (page_limit q) (Recent.Size recents) stale) as (p & Hp & Hlen & [rest Hpre] & _ & Hnext & Hbs); [lia|].
  assert (Recent.Entries p `sublist_of` List.filter (λ r, Recent.Matches r (page_filter q)) (Recent.buf recents)) as He.
  { etrans; [|exact Hsub]. rewrite Hpre. by apply sublist_inserts_r. }
  exists p. split; [done|]. split; [lia|]. split; [|split; [etrans; [exact He|apply bool_filter_sublist]|done]].
  apply list.Forall_forall. intros r Hr.
  pose proof (bool_filter_sound (λ r, Recent.Matches r (page_filter q)) (Recent.buf recents)) as Hall.
  rewrite list.Forall_forall in Hall. apply Hall. revert Hr. apply sublist_subseteq in He. apply He.
Qed.

Lemma conversions_page_ok `{Recent.CursorCodec} q recents :
  ∃ p, conversions_page q recents = Some p ∧ page_ok q recents p.
Proof.
  unfold conversions_page, Recent.Paginate, Recent.Snapshot. destruct (page_cursor q) as [c|]; [|by apply make_page_ok].
  destruct (existsb _ _); apply make_page_ok; [apply bool_filter_sublist|done].
Qed.

(** A request for the recent conversions never fails: whatever its limit,
    filter and cursor it gets at most 100 and at most the limit of them, all
    matching the filter, in the order of the buffer, with a next cursor exactly
    when there is more. *)
Theorem list_conversions_page `{Recent.CursorCodec} q recents :
  ∃ p, conversions_page q recents = Some p ∧ page_ok q recents p.
Proof. apply conversions_page_ok. Qed.

(** ** Theorems: the statistics *)

Lemma p95_table :
  forallb (λ k, bool_decide (fceil (fmul (f64_ratio 95 100) (f64_of_Z (Z.of_nat k))) = Some ((19 * Z.of_nat k + 19) / 20)))
    (seq 1 1000) = true.
Proof. vm_compute. reflexivity. Qed.

(** The index of the nearest rank. *)
Lemma p95_index_spec `{GoArch} n : 1 <= n <= 1000 → p95_index n = (19 * n + 19) / 20 - 1.
Proof.
  intros Hn. unfold p95_index, int_of_ceil. pose proof p95_table as Ht. rewrite forallb_forall in Ht.
  specialize (Ht (Z.to_nat n)). rewrite Z2Nat.id in Ht by lia.
  assert (In (Z.to_nat n) (seq 1 1000)) as Hin by (apply in_seq; lia).
  specialize (Ht Hin). apply bool_decide_eq_true in Ht. rewrite Ht.
  set (i := (19 * n + 19) / 20). assert (1 <= i <= n) as Hi.
  { unfold i. split; [apply Z.div_le_lower_bound; lia|]. apply Zlt_succ_le, Z.div_lt_upper_bound; lia. }
  assert ((min_i64 <=? i) && (i <=? max_i64) = true) as ->.
  { rewrite andb_true_iff, !Z.leb_le. unfold min_i64, max_i64. lia. }
  i64_norm.
  destruct (Z.ltb_spec (i - 1) 0); [lia|]. destruct (Z.ltb_spec (n - 1) (i - 1)); lia.
Qed.

(** How many are at most, and how many are below, a value. *)
Definition at_most (v : Z) (l : list Z) : Z := Z.of_nat (length (List.filter (λ t, t <=? v) l)).
Definition below_value (v : Z) (l : list Z) : Z := Z.of_nat (length (List.filter (λ t, t <? v) l)).

Lemma sorted_nth_at_most l i :
  StronglySorted Z.le l → (i < length l)%nat → Z.of_nat i + 1 <= at_most (nth i l 0) l ∧ below_value (nth i l 0) l <= Z.of_nat i.
Proof.
  intros Hs. revert i. induction Hs as [|x l Hs IH Hx]; intros i Hi; [cbn in Hi; lia|].
  unfold at_most, below_value in *. destruct i as [|i]; cbn [nth List.filter].
  - rewrite Z.leb_refl, Z.ltb_irrefl. cbn [length]. split; [lia|].
    replace (List.filter (λ t, t <? x) l) with ([] : list Z); [done|]. symmetry. clear IH Hs Hi.
    induction Hx as [|y l Hy _ IH]; [done|]. cbn. destruct (Z.ltb_spec y x); [lia|exact IH].
  - cbn in Hi. specialize (IH i ltac:(lia)). assert (x <= nth i l 0) as Hle.
    { rewrite list.Forall_forall in Hx. apply Hx, list_elem_of_In, nth_In. lia. }
    destruct (Z.leb_spec x (nth i l 0)); [|lia]. cbn [length]. destruct (x <? nth i l 0); cbn [length]; lia.
Qed.

Lemma filter_perm_length {A} (f : A → bool) l k : l ≡ₚ k → length (List.filter f l) = length (List.filter f k).
Proof.
  intros Hp. induction Hp as [|x l k _ IH|x y l|l k m _ IH1 _ IH2]; cbn; [done| | |congruence].
  - destruct (f x); cbn; congruence.
  - by destruct (f x), (f y).
Qed.

Lemma sum_times_spec times :
  Forall (λ t, 0 <= t < 2 ^ 40) times → Z.of_nat (length times) <= 1000 →
  sum_times times = foldr Z.add 0 times ∧ 0 <= foldr Z.add 0 times.
Proof.
  intros Hall Hlen. unfold sum_times.
  assert (∀ acc, 0 <= acc → acc + 2 ^ 40 * Z.of_nat (length times) < 2 ^ 62 →
    foldl (λ sum t, (sum +! t)%go) acc times = acc + foldr Z.add 0 times ∧ 0 <= foldr Z.add 0 times) as Hgen.
  { clear Hlen. induction Hall as [|t ts Ht _ IH]; intros acc Ha Hb; cbn [foldl foldr length] in *; [lia|].
    rewrite (i64_id (acc + t)) by (unfold in_i64; lia). destruct (IH (acc + t)) as [-> Hn]; [lia..|]. lia. }
  specialize (Hgen 0). lia.
Qed.

Lemma sum_times_perm times times' : times ≡ₚ times' → foldr Z.add 0 times = foldr Z.add 0 times'.
Proof. intros Hp. induction Hp; cbn; lia. Qed.

(** For up to a thousand durations the summary has their number, the whole
    part of their mean, and a 95th percentile that is one of them, with at least
    95 of a hundred at most as long and fewer than that shorter. *)
Theorem summarize_times_spec `{GoArch} times :
  times ≠ [] → Z.of_nat (length times) <= 1000 → Forall (λ t, 0 <= t < 2 ^ 40) times →
  let s := summarizeTimes times in
  let sum := foldr Z.add 0 times in
  Count s = Z.of_nat (length times) ∧
  AvgMS s * Count s <= sum < (AvgMS s + 1) * Count s ∧
  P95MS s ∈ times ∧ 95 * Count s <= 100 * at_most (P95MS s) times ∧ 100 * below_value (P95MS s) times < 95 * Count s.
Proof.
  intros Hne Hlen Hall s sum. unfold s, summarizeTimes. cbv zeta.
  set (sorted := merge_sort Z.le times). assert (sorted ≡ₚ times) as Hp by apply merge_sort_Permutation.
  assert (StronglySorted Z.le sorted) as Hs by (apply Sorted_StronglySorted; [apply _|apply Sorted_merge_sort; apply _]).
  pose proof (Permutation_length Hp) as Hl. set (n := Z.of_nat (length sorted)).
  assert (0 < n) as Hn.
  { unfold n. rewrite Hl. destruct times; [done|cbn [length]; lia]. }
  rewrite (proj2 (Z.ltb_lt 0 n) Hn). cbn [Count AvgMS P95MS].
  assert (sum_times sorted = sum ∧ 0 <= sum) as [-> Hsum].
  { unfold sum. rewrite <- (sum_times_perm sorted times) by done. apply sum_times_spec; [by rewrite Hp|lia]. }
  rewrite p95_index_spec by lia. rewrite Z.quot_div_nonneg by lia.
  set (i := (19 * n + 19) / 20 - 1).
  assert (0 <= i < n) as Hi.
  { unfold i. split; [assert (1 <= (19 * n + 19) / 20) by (apply Z.div_le_lower_bound; lia); lia|].
    assert ((19 * n + 19) / 20 < n + 1) by (apply Z.div_lt_upper_bound; lia). lia. }
  assert (19 * n <= 20 * (i + 1) ∧ 20 * i < 19 * n) as [Hi1 Hi2].
  { pose proof (Z.div_mod (19 * n + 19) 20). pose proof (Z.mod_pos_bound (19 * n + 19) 20). unfold i. lia. }
  destruct (sorted_nth_at_most sorted (Z.to_nat i) Hs ltac:(lia)) as [Ha Hb].
  set (v := nth (Z.to_nat i) sorted 0) in *. rewrite Z2Nat.id in Ha, Hb by lia.
  unfold at_most, below_value in *. rewrite <- !(filter_perm_length _ sorted times) by done.
  split_and!; [lia| | | |lia..].
  - pose proof (Z.div_mod sum n). pose proof (Z.mod_pos_bound sum n). lia.
  - pose proof (Z.div_mod sum n). pose proof (Z.mod_pos_bound sum n). lia.
  - rewrite <- Hp. apply list_elem_of_In, nth_In. lia.
Qed.

(** The durations of the conversions a group is about. *)
Definition counted (r : Recent.ConversionRecord) : bool :=
  negb (String.eqb (Recent.Status r) "failed") && negb (Recent.DurationMS r =? 0).
Definition durations (p : Recent.ConversionRecord → bool) (recs : list Recent.ConversionRecord) : list Z :=
  Recent.DurationMS <$> List.filter (λ r, counted r && p r) recs.
Definition group (l : list Z) : option (list Z) := if decide (l = []) then None else Some l.

Lemma durations_snoc p recs r :
  durations p (recs ++ [r]) = durations p recs ++ (if counted r && p r then [Recent.DurationMS r] else []).
Proof. unfold durations. rewrite List.filter_app, fmap_app. cbn. by destruct (_ && _). Qed.

Lemma group_append k k' t l (m : gmap string (list Z)) :
  m !! k' = group l → append_time k t m !! k' = group (l ++ if String.eqb k k' then [t] else []).
Proof.
  intros Hm. unfold append_time. destruct (String.eqb_spec k k') as [->|Hne].
  - rewrite lookup_insert_eq, Hm. unfold group. destruct (decide (l = [])) as [->|Hl]; [done|]. by rewrite decide_False by (by destruct l).
  - by rewrite lookup_insert_ne, app_nil_r by done.
Qed.

(** The statistics count every conversion once, as a failure or a success, and
    group the durations of the successes that took time by format, and those of
    an HTML engine also by engine, in the order of the buffer. *)
Theorem tally_groups recs :
  let t := tally_all recs in
  count t = Z.of_nat (length recs) ∧
  failures t = Z.of_nat (length (List.filter (λ r, String.eqb (Recent.Status r) "failed") recs)) ∧
  successes t + failures t = count t ∧
  (∀ f, perFmtTimes t !! f = group (durations (λ r, String.eqb (Recent.RFormat r) f) recs)) ∧
  (∀ e, e ≠ "" → perEngineTimes t !! e = group (durations (λ r, String.eqb (Recent.Engine r) e) recs)) ∧
  perEngineTimes t !! "" = None.
Proof.
  induction recs as [|r recs IH] using rev_ind; [by split_and!|]. cbv zeta in *. unfold tally_all in *. rewrite foldl_app. cbn [foldl].
  set (t := foldl tally _ recs) in *. destruct IH as (Hc & Hf & Hs & Hfmt & Heng & Hnone).
  rewrite length_app, List.filter_app, length_app. cbn [List.filter]. unfold tally.
  destruct (String.eqb (Recent.Status r) "failed") eqn:Hstatus; [|destruct (Recent.DurationMS r =? 0) eqn:Hzero]; cbn [count failures successes perFmtTimes perEngineTimes length].
  1,2: split_and!; try lia; try done; intros k; intros; rewrite durations_snoc; unfold counted; rewrite Hstatus, ?Hzero; cbn; rewrite app_nil_r; auto.
  split_and!; try lia.
  - intros f. rewrite durations_snoc. unfold counted. rewrite Hstatus, Hzero. cbn. by apply group_append.
  - intros e He. rewrite durations_snoc. unfold counted. rewrite Hstatus, Hzero. cbn.
    destruct (String.eqb_spec (Recent.Engine r) "") as [Hr|Hr]; [|by apply group_append, Heng].
    rewrite Hr, (proj2 (String.eqb_neq _ _)) by done. rewrite app_nil_r. by apply Heng.
  - destruct (String.eqb_spec (Recent.Engine r) ""); [done|]. unfold append_time. by rewrite lookup_insert_ne.
Qed.

(** ** Witnesses *)

Section sample.
#[local] Instance sample_json_floats : JSONFloats := {| json_float := λ _, "0" |}.

Lemma health_status_witness :
  let sv := mkServer (mkWorld ∅ ∅ [] [] None "") None 0 0 License.NewManager (Recent.NewRecentStore 5) Progress.NewJobProgressStore [] 0 in
  let r := mkRequest "r1" (RateLimit.mkRequest "" "10.0.0.1:555") ∅ None in
  let env := mkEnv Orchestrator.sample_settings (Cache.mkManager "" "25.1") ∅ (λ _, mkTime (1700000000 * Second) None)
    (λ _, License.sample_file 7) (S3.mkWorld None (λ _ _ _, Err ("", "")) (λ _ _ _ _, None) (λ _ _ _ _, Err "") (λ _, None) (λ _, None) (λ _, Err "") (λ x, x))
    (λ _, "") in
  let run := health env (λ _, true) ["qpdf_missing"] r sv in
  fst run = Done () ∧ fst <$> answered (wd (snd run)) = Some 503.
Proof.
  intros sv r env run. pose proof (health_status env (λ _, true) ["qpdf_missing"] r sv eq_refl) as Hh. fold run in Hh.
  rewrite (surjective_pairing run) in Hh. cbv zeta in Hh. destruct Hh as [Ho (code & hs & Ha & Hcode & Hiff)].
  split; [exact Ho|]. rewrite Ha. cbn. f_equal. destruct Hcode as [-> | ->]; [|reflexivity].
  destruct (proj1 Hiff eq_refl) as [Hstatic _]. discriminate Hstatic.
Defined.

Lemma summarize_times_spec_witness :
  let times := [30; 10; 20; 1000] in
  summarizeTimes times = mkSummary 4 265 1000 ∧ 95 * 4 <= 100 * at_most 1000 times.
Proof.
  intros times. split; [vm_compute; reflexivity|].
  pose proof (summarize_times_spec times ltac:(done) ltac:(cbn; lia) ltac:(repeat (constructor; [lia|]); constructor)) as (_ & _ & _ & Hat & _).
  replace (summarizeTimes times) with (mkSummary 4 265 1000) in Hat by (vm_compute; reflexivity). exact Hat.
Defined.
End sample.
