(* ===== verification/App.v ===== *)
(** * The process ([cmd/orchestrator/main.go], [internal/server/server.go], [internal/oclog])

    From the arguments and the environment to a serving process, and from an HTTP
    request to one of the handlers: the wiring of [main] and [server.New], the
    route table, the request-id middleware, the four endpoints that read stores
    of the process, the log levels, and the shutdown.

    The process is a sequence of events ([run]): requests, and whatever workers
    print on their standard error meanwhile.  [process_invariant] is the
    composition of the development: a process that [main] started answers any
    sequence of requests without a panic, never has more conversions under way
    than [MAX_JOBS], and its stores stay within their bounds.

    The router ([mux]) is a library: which route a method and a path select is an
    argument.  The two embedded pages are arguments too. *)
From Stdlib Require Import ZArith Lia Bool SpecFloat Ascii String.
From stdpp Require Import base tactics list gmap strings.
From S2P Require Import Prelude GoFloat GoString GoFmt GoTime Types OErrors Config FS Json Http Server Convert ConvertHTML Views ContainerStats.
From S2P Require Cache License Progress RateLimit Recent Ring S3 Worker Pooled Probe CSVInput LibreOffice Gotenberg.
From stdpp Require Import list.
Local Open Scope Z_scope.

(** ** Logging *)

Definition NoRequestID : string := "-".

(** [RequestID]: the id bound to a context, if any. *)
Definition RequestID (bound : option string) : string :=
  match bound with Some v => if String.eqb v "" then NoRequestID else v | None => NoRequestID end.

(** The levels of [log/slog]. *)
Definition LevelDebug : Z := -4.
Definition LevelInfo : Z := 0.
Definition LevelWarn : Z := 4.
Definition LevelError : Z := 8.
Definition levelMap : gmap string Z :=
  list_to_map [("debug", LevelDebug); ("info", LevelInfo); ("warn", LevelWarn); ("warning", LevelWarn); ("error", LevelError)].

Inductive log_format := TextHandler | JSONHandler.

Section logging.
Context `{UnicodeTables}.

(** [Configure]: the handler that is installed, and its level. *)
Definition Configure (format level : string) : log_format * Z :=
  (if String.eqb format "human" then TextHandler else JSONHandler, default LevelInfo (levelMap !! to_lower level)).

(** The level [EmitEvent] logs an event at, and whether the handler writes it. *)
Definition event_level (level : string) : Z :=
  let l := to_lower level in
  if String.eqb l "debug" then LevelDebug
  else if String.eqb l "warn" || String.eqb l "warning" then LevelWarn
  else if String.eqb l "error" then LevelError else LevelInfo.
Definition EmitEvent (configured : Z) (level : string) : bool := configured <=? event_level level.
End logging.

(** ** The state of the process *)

Record App : Type := mkApp { srv : Server; beats : Ring.RingStore; timings : Ring.RingStore }.

(** [server.New]; [None] is the panic of a channel or a limiter that cannot be
    made. *)
Definition New (s : Settings) (w : World) : option Server :=
  if MaxJobs s <? 0 then None else
  l ← (if RateLimitEnabled s
       then Some <$> RateLimit.New (RateLimitPerIPRPM s) (RateLimitBurst s) (RateLimitMaxKeys s)
       else Some None);
  Some (mkServer w l 0 0 License.NewManager (Recent.NewRecentStore Recent.DefaultMaxRecent)
          Progress.NewJobProgressStore [] 0).

(** ** [main] *)

Definition port_of (environ : gmap string string) : string :=
  let port := default "" (environ !! "OFFICE_CONVERT_PORT") in
  if String.eqb port "" then "8080" else port.
Definition healthcheckURL (environ : gmap string string) : string :=
  "http://localhost:" +:+ port_of environ +:+ "/health".
(** [get] fetches a URL: the status, or nothing on an error. *)
Definition healthcheck (get : string → option Z) (url : string) : Z :=
  match get url with Some code => if code =? 200 then 0 else 1 | None => 1 end.

(** What [main] comes to before it listens. *)
Inductive start :=
| Exit (code : Z)
| Crash
| Listen (addr : string) (s : Settings) (c : Cache.Manager) (static : list string) (a : App).

Definition world_of {A} (f : World → A) : IO A := λ w, (f w, w).

Definition wire (environ : gmap string string) (qpdf_found : bool) (s : Settings) : IO start :=
  c ← Cache.NewManager (CacheDir s) (AsposeVersion s);
  match c with
  | None => mret (Exit 1)
  | Some c =>
      static ← NewHealth s qpdf_found;
      world_of (λ w,
        match New s w with
        | None => Crash
        | Some sv => Listen (":" +:+ port_of environ) s c static (mkApp sv Ring.HeartbeatStore Ring.TimingStore)
        end)
  end.

Definition main `{PrintTable, UnicodeTables} (args : list string) (environ : gmap string string)
    (get : string → option Z) (qpdf_found : bool) : IO start :=
  if match args with _ :: a :: _ => String.eqb a "healthcheck" | _ => false end
  then mret (Exit (healthcheck get (healthcheckURL environ)))
  else
    match Load environ with
    | Err _ => mret (Exit 1)
    | Ok s => wire environ qpdf_found s
    end.

(** ** Requests and routes *)

(** What a client sends. *)
Record Incoming : Type := mkIncoming {
  method : string;
  path : string;
  header_id : string;
  query_args : gmap string string;
  from : RateLimit.Request;
  fields : gmap string string;
  upload : option Upload
}.

Inductive route :=
| RConvert | RGotenberg | RAspose | RHealth | RLanding | RHeartbeats | RTimings | RProgress | RActive
| RStats | RWorkers | RClearCache | RConversions | RConversionStats | RDashboard | RPresign.

(** [Server.Handler]: the methods and patterns of the router. *)
Definition routes : list (string * string * route) := [
  ("POST", "/v1/convert", RConvert);
  ("POST", "/v1/convert/html/gotenberg", RGotenberg);
  ("POST", "/v1/convert/html/aspose", RAspose);
  ("GET", "/health", RHealth);
  ("GET", "/", RLanding);
  ("GET", "/v1/jobs/{request_id}/heartbeats", RHeartbeats);
  ("GET", "/v1/jobs/{request_id}/timings", RTimings);
  ("GET", "/v1/jobs/{request_id}/progress", RProgress);
  ("GET", "/v1/jobs/active", RActive);
  ("GET", "/v1/stats", RStats);
  ("GET", "/v1/workers", RWorkers);
  ("DELETE", "/v1/cache", RClearCache);
  ("GET", "/v1/conversions", RConversions);
  ("GET", "/v1/conversions/stats", RConversionStats);
  ("GET", "/v1/dashboard", RDashboard);
  ("GET", "/v1/downloads/presign", RPresign)].

(** [newRequestID]: sixteen random bytes in hexadecimal. *)
Definition newRequestID (b : list Z) : string := Probe.hex_bytes b.

(** The rest of the outside: what the kernel shows, reading by reading, the files
    of the cache directory, the random bytes of a fresh id, the embedded pages,
    the selection of a route with its parameters, and the answer when there is
    none. *)
Record Outside : Type := mkOutside {
  tools : Tools;
  is_not_exist : string → bool;
  kernel : nat → Kernel;
  cache_walk : nat → list Cache.entry;
  random_id : nat → list Z;
  DashboardHTML : string;
  LandingHTML : string;
  mux : list (string * string) → string → string → option (nat * gmap string string);
  no_route : IO unit
}.

Definition set_jobs (j : Progress.JobProgressStore) (sv : Server) : Server :=
  mkServer (wd sv) (limiter sv) (slots sv) (activeJobs sv) (licenseMgr sv) (recent sv) j (s3_calls sv) (ticks sv).

(** The map of a worker process. *)
Definition worker_any (w : worker) : any :=
  obj (list_to_map
    [("pid", AInt (pid w)); ("cmdline", AStr (cmdline w)); ("cpu_usage_usec", AInt (cpu_usage_usec w));
     ("rss_bytes", AInt (rss_bytes w)); ("etime_sec", AFloat (etime_sec w)); ("sampled_at", AFloat (sampled_at w))]).

Section serve.
Context `{FloatFormat} `{GoArch} `{PrintTable} `{UnicodeTables} `{JSONFloats} `{OSErrors}.
Context `{Worker.Workers} `{Probe.Readers} `{CSVInput.ZipWriter} `{LibreOffice.Soffice} `{Gotenberg.Transport}.
Context `{Recent.CursorCodec} (env : Env) (out : Outside) (static : list string).

Definition get_progress (rid : string) (r : Request) : Handler unit :=
  t ← clock env; t2 ← clock env; js ← get jobs;
  modify (set_jobs (getProgress t t2 rid js).2);;
  reply r 200 (getProgress t t2 rid js).1.
Definition get_active (r : Request) : Handler unit :=
  t ← clock env; t2 ← clock env; js ← get jobs;
  modify (set_jobs (listActiveJobs t t2 js).2);;
  reply r 200 (listActiveJobs t t2 js).1.

Definition containerStats (r : Request) : Handler unit :=
  n ← get ticks; reply r 200 (ReadContainerStats (kernel out n)).
Definition containerWorkers (r : Request) : Handler unit :=
  n ← get ticks;
  match ListWorkers (kernel out n) "office-convert-worker" with
  | Some l => reply r 200 {["workers" := AList (worker_any <$> l)]}
  | None => panic
  end.
Definition clear_cache (r : Request) : Handler unit := n ← get ticks; clearCache env (cache_walk out n) r.

(** The handlers that need nothing of the process but the server. *)
Definition server_handler (rt : route) (params : gmap string string) (q : gmap string string) : option (Request → Handler unit) :=
  match rt with
  | RConvert => Some (convert env (tools out))
  | RGotenberg => Some (convertHTMLGotenberg env (blocks (tools out)))
  | RAspose => Some (convertHTMLAspose env (blocks (tools out)))
  | RHealth => Some (health env (is_not_exist out) static)
  | RLanding => Some (landing env (is_not_exist out) static (LandingHTML out))
  | RDashboard => Some (dashboard (DashboardHTML out))
  | RProgress => Some (get_progress (default "" (params !! "request_id")))
  | RActive => Some get_active
  | RStats => Some containerStats
  | RWorkers => Some containerWorkers
  | RClearCache => Some clear_cache
  | RConversions => Some (get_conversions q)
  | RConversionStats => Some get_stats
  | RPresign => Some (presign env q)
  | RHeartbeats | RTimings => None
  end.

(** The heartbeats and the timings of one request. *)
Definition ring_handler (beat : bool) (rid : string) (r : Request) (a : App) : outcome unit * App :=
  let '(o, sv) := clock env (srv a) in
  let now_ := now env (ticks (srv a)) in
  let st := Worker.mkStores (beats a) (timings a) (jobs (srv a)) in
  let '(b, st) := if beat then getHeartbeats now_ rid st else getTimings now_ rid st in
  let '(o, sv) := reply r 200 b sv in
  (o, mkApp sv (Worker.Heartbeats st) (Worker.Timings st)).

Definition on_server (h : Handler unit) (a : App) : outcome unit * App :=
  let '(o, sv) := h (srv a) in (o, mkApp sv (beats a) (timings a)).

(** One request: the response is new, the middleware binds the id, the router
    selects the handler. *)
Definition fresh_response (sv : Server) : Server :=
  set_wd (mkWorld (files (wd sv)) (dirs (wd sv)) (faults (wd sv)) (trace (wd sv)) None "") sv.
Definition bind_request (q : Incoming) (n : nat) : Request :=
  mkRequest (RequestID (Some (request_id (header_id q) (newRequestID (random_id out n))))) (from q) (fields q) (upload q).
Definition serve (q : Incoming) (a : App) : outcome unit * App :=
  let a := mkApp (fresh_response (srv a)) (beats a) (timings a) in
  let r := bind_request q (ticks (srv a)) in
  match mux out (routes.*1) (method q) (path q) with
  | None => on_server (lift (no_route out)) a
  | Some (i, params) =>
      match routes !! i with
      | None => on_server (lift (no_route out)) a
      | Some (_, _, rt) =>
          match server_handler rt params (query_args q) with
          | Some h => on_server (h r) a
          | None => ring_handler (match rt with RHeartbeats => true | _ => false end)
                      (default "" (params !! "request_id")) r a
          end
      end
  end.

(** ** A life of the process *)

(** A request; or the standard error of a worker, whose line [k] is handled at
    [now_ k]. *)
Inductive event :=
| Serve (q : Incoming)
| Stderr (now_ : nat → Time * Time) (format : FormatName) (pid poolIndex : Z) (rid : string) (useMsgIndex : bool)
    (stream : list Z).

(** [net/http] recovers the panic of a handler; one in a goroutine that reads a
    worker's standard error ends the process, which is [Panicked] here too. *)
Definition step (e : event) (a : App) : outcome unit * App :=
  match e with
  | Serve q => serve q a
  | Stderr now_ format pid i rid own stream =>
      match Pooled.readStderr now_ format pid i rid own (Worker.mkStores (beats a) (timings a) (jobs (srv a))) stream with
      | Some st =>
          (Done (), mkApp (set_jobs (Worker.ProgressStore st) (srv a)) (Worker.Heartbeats st) (Worker.Timings st))
      | None => (Panicked, a)
      end
  end.
Fixpoint run (es : list event) (a : App) : list (outcome unit) * App :=
  match es with
  | [] => ([], a)
  | e :: es => let '(o, a) := step e a in let '(os, a) := run es a in (o :: os, a)
  end.
End serve.

(** ** The read-only handlers keep the server *)

Section views.
Context `{GoArch} `{PrintTable} `{JSONFloats} `{OSErrors} (env : Env) (is_not_exist : string → bool) (static : list string).

Lemma safe_reply r code b : safe (reply r code b).
Proof. apply safe_lift. Qed.
Lemma slots_reply r code b : hrel same_slots (reply r code b).
Proof. apply slots_lift. Qed.
Lemma safe_days : safe (days_remaining env).
Proof. unfold days_remaining. safe. Qed.
Lemma slots_days : hrel same_slots (days_remaining env).
Proof. unfold days_remaining. handler. Qed.
#[local] Hint Resolve safe_reply safe_days : safe.
#[local] Hint Resolve slots_reply slots_days : handler.

Lemma safe_health r : safe (health env is_not_exist static r).
Proof. unfold health. safe. Qed.
Lemma slots_health r : hrel same_slots (health env is_not_exist static r).
Proof. unfold health. handler. Qed.
Lemma safe_landing html r : safe (landing env is_not_exist static html r).
Proof. unfold landing. safe. Qed.
Lemma slots_landing html r : hrel same_slots (landing env is_not_exist static html r).
Proof. unfold landing. handler. Qed.
Lemma safe_dashboard html r : safe (dashboard html r).
Proof. apply safe_lift. Qed.
Lemma slots_dashboard html r : hrel same_slots (dashboard html r).
Proof. apply slots_lift. Qed.

Lemma safe_conversions `{Recent.CursorCodec} q r : safe (get_conversions q r).
Proof.
  unfold get_conversions. apply safe_bind; [apply safe_get|]. intros recents.
  unfold listConversions. destruct (conversions_page_ok q recents) as (p & -> & _). apply safe_reply.
Qed.
Lemma slots_conversions `{Recent.CursorCodec} q r : hrel same_slots (get_conversions q r).
Proof. unfold get_conversions. handler. Qed.
Lemma safe_conversion_stats r : safe (get_stats r).
Proof. unfold get_stats. safe. Qed.
Lemma slots_conversion_stats r : hrel same_slots (get_stats r).
Proof. unfold get_stats. handler. Qed.
Lemma safe_presign q r : safe (presign env q r).
Proof. unfold presign, reject. safe. Qed.
Lemma slots_presign q r : hrel same_slots (presign env q r).
Proof. unfold presign, reject. handler. Qed.
Lemma safe_clear_cache walk r : safe (clearCache env walk r).
Proof. unfold clearCache. safe. Qed.
Lemma slots_clear_cache walk r : hrel same_slots (clearCache env walk r).
Proof. unfold clearCache. handler. Qed.
End views.
#[export] Hint Resolve safe_reply safe_health safe_landing safe_dashboard safe_conversions safe_conversion_stats
  safe_presign safe_clear_cache : safe.
#[export] Hint Resolve slots_reply slots_health slots_landing slots_dashboard slots_conversions slots_conversion_stats
  slots_presign slots_clear_cache : handler.

(** ** One event *)

Section invariant.
Context `{FloatFormat} `{GoArch} `{PrintTable} `{UnicodeTables} `{JSONFloats} `{OSErrors}.
Context `{Worker.Workers} `{Probe.Readers} `{CSVInput.ZipWriter} `{LibreOffice.Soffice} `{Gotenberg.Transport}.
Context `{Recent.CursorCodec} (env : Env) (out : Outside) (static : list string).

(** The kernel's [stat] lines are as it writes them. *)
Definition kernel_ok : Prop := ∀ n names, proc (kernel out n) = Some names → stats_shaped (kernel out n) names.

Lemma balanced_of_slots (h : Handler unit) :
  (∀ sv, (h sv).1 ≠ Hung) → hrel same_slots h → balanced env h.
Proof.
  intros Hh Hs sv Hle. specialize (Hh sv). specialize (Hs sv). destruct (h sv) as [[u| |] sv']; cbn in *; done.
Qed.

(** The handlers that take no slot always end. *)
Definition ends {A} (h : Handler A) : Prop := ∀ sv, (h sv).1 ≠ Hung.
Lemma ends_bind {A B} (m : Handler A) (f : A → Handler B) : ends m → (∀ a, ends (f a)) → ends (m ≫= f).
Proof.
  intros Hm Hf sv. unfold mbind, h_bind. specialize (Hm sv). destruct (m sv) as [[a| |] sv']; cbn in *; [apply Hf|done..].
Qed.
Lemma ends_ret {A} (a : A) : ends (mret a).
Proof. done. Qed.
Lemma ends_get {A} (f : Server → A) : ends (get f).
Proof. done. Qed.
Lemma ends_modify f : ends (modify f).
Proof. done. Qed.
Lemma ends_panic {A} : ends (A := A) panic.
Proof. done. Qed.
Lemma ends_lift {A} (m : IO A) : ends (lift m).
Proof. intros sv. unfold lift. by destruct (m (wd sv)). Qed.
Lemma ends_reply r code b : ends (reply r code b).
Proof. apply ends_lift. Qed.
Lemma ends_clock : ends (clock env).
Proof. done. Qed.
Lemma ends_license_now : ends (license_now env).
Proof. done. Qed.
End invariant.

Create HintDb ends.
#[export] Hint Resolve ends_ret ends_get ends_modify ends_panic ends_lift ends_reply ends_clock ends_license_now : ends.
Ltac ends :=
  repeat match goal with
  | |- ends (_ ≫= _) => apply ends_bind; [|intros ?]
  | |- ends (match ?x with _ => _ end) => destruct x
  end; eauto with ends.

Section invariant.
Context `{FloatFormat} `{GoArch} `{PrintTable} `{UnicodeTables} `{JSONFloats} `{OSErrors}.
Context `{Worker.Workers} `{Probe.Readers} `{CSVInput.ZipWriter} `{LibreOffice.Soffice} `{Gotenberg.Transport}.
Context `{Recent.CursorCodec} (env : Env) (out : Outside) (static : list string).
Hypothesis Hkernel : kernel_ok out.

Lemma safe_worker_list r : safe (containerWorkers out r).
Proof using Hkernel.
  unfold containerWorkers. apply safe_bind; [apply safe_get|]. intros n.
  destruct (proc (kernel out n)) as [names|] eqn:Hp.
  - destruct (list_workers_ok (kernel out n) "office-convert-worker" names Hp) as (l & -> & _); [done|by apply Hkernel|].
    apply safe_reply.
  - unfold ListWorkers. rewrite Hp. cbn. apply safe_reply.
Qed.

(** Every route's handler is safe and gives its slot back. *)
Lemma server_handler_ok rt params q h r :
  server_handler env out static rt params q = Some h → safe (h r) ∧ balanced env (h r).
Proof using Hkernel.
  assert (∀ h : Handler unit, ends h → hrel same_slots h → balanced env h) as Hb.
  { intros h' He Hs. by apply balanced_of_slots. }
  destruct rt; cbn [server_handler]; intros Hh; simplify_eq.
  - split; [intros mx sv; apply safe_convert|apply balanced_convert].
  - apply convert_html_slot_and_state.
  - apply convert_html_slot_and_state.
  - split; [safe|apply Hb; [unfold health, days_remaining; ends|handler]].
  - split; [safe|apply Hb; [unfold landing, days_remaining; ends|handler]].
  - unfold get_progress. split; [safe|apply Hb; [ends|handler]].
  - unfold get_active. split; [safe|apply Hb; [ends|handler]].
  - unfold containerStats. split; [safe|apply Hb; [ends|handler]].
  - split; [apply safe_worker_list|]. unfold containerWorkers. apply Hb; [ends|handler].
  - unfold clear_cache. split; [safe|apply Hb; [unfold clearCache; ends|handler]].
  - split; [safe|apply Hb; [unfold get_conversions; ends|handler]].
  - split; [safe|apply Hb; [unfold get_stats; ends|handler]].
  - split; [safe|apply Hb; [unfold dashboard; ends|handler]].
  - split; [safe|apply Hb; [unfold presign, reject, respond; ends|handler]].
Qed.

(** What every event keeps.  [hung] counts the requests that wait for ever. *)
Definition app_ok (hung : Z) (a : App) : Prop :=
  sound Recent.DefaultMaxRecent (srv a) ∧
  0 <= slots (srv a) <= MaxJobs (conf env) ∧ slots (srv a) <= hung ∧ activeJobs (srv a) = slots (srv a) ∧
  (Ring.ring_inv (beats a) ∧ Ring.max (beats a) = 5000) ∧ (Ring.ring_inv (timings a) ∧ Ring.max (timings a) = 1000).

Definition hangs (o : outcome unit) : Z := match o with Hung => 1 | _ => 0 end.

Lemma on_server_ok (h : Handler unit) hung a :
  safe h → balanced env h → app_ok hung a →
  let '(o, a') := on_server h a in o ≠ Panicked ∧ app_ok (hung + hangs o) a'.
Proof.
  intros Hs Hb (Hsound & Hslots & Hh & Hact & [? ?] & [? ?]). unfold on_server.
  specialize (Hs _ _ Hsound). specialize (Hb (srv a) ltac:(lia)).
  destruct (h (srv a)) as [[[]| |] sv']; [| |done].
  - split; [done|]. unfold app_ok. cbn. split_and!; try done; lia.
  - split; [done|]. unfold app_ok. cbn. split_and!; try done; lia.
Qed.

Lemma ring_handler_ok beat rid r hung a :
  app_ok hung a →
  let '(o, a') := ring_handler env beat rid r a in o ≠ Panicked ∧ app_ok (hung + hangs o) a'.
Proof.
  intros (Hsound & Hslots & Hh & Hact & [Hbeats Hb] & [Htimes Ht]). unfold ring_handler, clock.
  assert (∀ now_ ring m, Ring.ring_inv ring ∧ Ring.max ring = m →
    Ring.ring_inv (Ring.Get now_ rid ring).2 ∧ Ring.max (Ring.Get now_ rid ring).2 = m) as Hget.
  { intros now_ ring m [Hi Hm]. unfold Ring.Get. destruct (String.eqb rid ""); [done|].
    split; [by apply Ring.evict_inv|done]. }
  assert (∀ b, match reply r 200 b (set_ticks (S (ticks (srv a))) (srv a)) with
    | (Done _, sv) => sound Recent.DefaultMaxRecent sv ∧ same_slots (srv a) sv | _ => False end) as Hrep.
  { intros b. set (sv := set_ticks _ _).
    pose proof (safe_reply r 200 b Recent.DefaultMaxRecent sv Hsound) as Hsafe.
    pose proof (slots_reply r 200 b sv) as Hsl. pose proof (ends_reply r 200 b sv) as He.
    destruct (reply r 200 b sv) as [[u| |] sv']; done. }
  destruct beat; unfold getHeartbeats, getTimings; cbn [Worker.Heartbeats Worker.Timings].
  - destruct (Ring.Get _ rid (beats a)) as [evs ring] eqn:Hg.
    pose proof (Hget (now env (ticks (srv a))) (beats a) 5000 (conj Hbeats Hb)) as Hr. rewrite Hg in Hr.
    specialize (Hrep (<["request_id" := AStr rid]> {["heartbeats" := events_any rid evs]})).
    destruct (reply _ _ _ _) as [[u| |] sv']; [|done..]. destruct Hrep as [Hs [E1 E2]].
    split; [done|]. unfold app_ok. cbn. rewrite E1, E2. split_and!; try done; try apply Hr; lia.
  - destruct (Ring.Get _ rid (timings a)) as [evs ring] eqn:Hg.
    pose proof (Hget (now env (ticks (srv a))) (timings a) 1000 (conj Htimes Ht)) as Hr. rewrite Hg in Hr.
    specialize (Hrep (<["request_id" := AStr rid]> {["timings" := events_any rid evs]})).
    destruct (reply _ _ _ _) as [[u| |] sv']; [|done..]. destruct Hrep as [Hs [E1 E2]].
    split; [done|]. unfold app_ok. cbn. rewrite E1, E2. split_and!; try done; try apply Hr; lia.
Qed.

Lemma lift_ok (m : IO unit) hung a :
  app_ok hung a → let '(o, a') := on_server (lift m) a in o ≠ Panicked ∧ app_ok (hung + hangs o) a'.
Proof.
  intros Ha. apply on_server_ok; [apply safe_lift| |done].
  apply balanced_of_slots; [apply ends_lift|apply slots_lift].
Qed.

Lemma serve_ok q hung a :
  app_ok hung a → let '(o, a') := serve env out static q a in o ≠ Panicked ∧ app_ok (hung + hangs o) a'.
Proof using Hkernel.
  intros Ha. unfold serve. set (a0 := mkApp (fresh_response (srv a)) (beats a) (timings a)).
  assert (app_ok hung a0) as Ha0 by exact Ha. clearbody a0. clear Ha a. cbn zeta.
  destruct (mux _ _ _ _) as [[i params]|]; [|by apply lift_ok].
  destruct (routes !! i) as [[[m p] rt]|]; [|by apply lift_ok].
  destruct (server_handler env out static rt params (query_args q)) as [h|] eqn:Hh.
  - destruct (server_handler_ok rt params (query_args q) h (bind_request out q (ticks (srv a0))) Hh).
    by apply on_server_ok.
  - by apply ring_handler_ok.
Qed.

Lemma step_ok e hung a :
  app_ok hung a → let '(o, a') := step env out static e a in o ≠ Panicked ∧ app_ok (hung + hangs o) a'.
Proof using Hkernel.
  destruct e as [q|now_ format pid i rid own stream]; [apply serve_ok|].
  intros (Hsound & Hslots & Hh & Hact & Hbeats & Htimes). cbn [step].
  destruct (Pooled.read_stderr_within 5000 1000 now_ format pid i rid own
    (Worker.mkStores (beats a) (timings a) (jobs (srv a))) stream (conj Hbeats Htimes)) as (st & -> & Hb & Ht).
  split; [done|]. unfold app_ok, Pooled.ring_within in *. cbn. destruct_and?. split_and!; try done; lia.
Qed.

Definition hung_count (os : list (outcome unit)) : Z := foldr (λ o n, hangs o + n) 0 os.

Lemma run_ok es hung a :
  app_ok hung a →
  let '(os, a') := run env out static es a in Forall (λ o, o ≠ Panicked) os ∧ app_ok (hung + hung_count os) a'.
Proof using Hkernel.
  revert hung a. induction es as [|e es IH]; intros hung a Ha; cbn [run].
  { split; [done|]. cbn. by rewrite Z.add_0_r. }
  pose proof (step_ok e hung a Ha) as Hs. destruct (step env out static e a) as [o a1]. destruct Hs as [Ho Ha1].
  specialize (IH _ _ Ha1). destruct (run env out static es a1) as [os a2]. destruct IH as [Hos Ha2].
  split; [by constructor|]. cbn. by rewrite Z.add_assoc.
Qed.
End invariant.

(** ** The start *)

(** Loaded settings make a server. *)
Lemma New_ok s w :
  1 <= MaxJobs s → 1 <= RateLimitPerIPRPM s → 1 <= RateLimitBurst s → 1 <= RateLimitMaxKeys s →
  ∃ sv, New s w = Some sv ∧ sound Recent.DefaultMaxRecent sv ∧ slots sv = 0 ∧ activeJobs sv = 0.
Proof.
  intros Hj Hp Hb Hk. unfold New. destruct (Z.ltb_spec (MaxJobs s) 0); [lia|].
  destruct (RateLimitEnabled s).
  - destruct (RateLimit.New _ _ _) as [l|] eqn:Hl.
    + destruct (RateLimit.new_represents _ _ _ _ Hl) as [Hr Hm]. eexists. split; [reflexivity|].
      split; [|done]. split; [done|]. cbn. split; [by exists []|done].
    + exfalso. unfold RateLimit.New in Hl. destruct (_ || _) eqn:Hc; [|done].
      rewrite !orb_true_iff, !Z.ltb_lt in Hc. lia.
  - eexists. split; [reflexivity|]. by split.
Qed.

Lemma main_listens `{PrintTable, UnicodeTables} args environ get qpdf_found w addr s c static a :
  (main args environ get qpdf_found w).1 = Listen addr s c static a →
  Load environ = Ok s ∧ ∃ w, New s w = Some (srv a) ∧ beats a = Ring.HeartbeatStore ∧ timings a = Ring.TimingStore.
Proof.
  unfold main. destruct (match args with _ :: _ => _ | [] => _ end); [done|].
  destruct (Load environ) as [s'|e]; [|done]. unfold wire, mbind, io_bind.
  destruct (Cache.NewManager _ _ w) as [[c'|] w1]; [|done].
  destruct (NewHealth s' qpdf_found w1) as [st w2]. unfold world_of. cbn [fst].
  destruct (New s' w2) as [sv|] eqn:Hn; [|done]. intros [= <- <- <- <- <-]. split; [done|]. by exists w2.
Qed.

Lemma load_positive `{PrintTable, UnicodeTables} environ s : Load environ = Ok s →
  1 <= MaxJobs s <= 10 ∧ 1 <= RateLimitPerIPRPM s ∧ 1 <= RateLimitBurst s ∧ 1 <= RateLimitMaxKeys s.
Proof.
  intros Hl. destruct (loaded_bounds environ s Hl) as [Hv _]. rewrite list.Forall_forall in Hv.
  assert (∀ n mn mx f d, mkVar n mn mx f d ∈ int_vars → mn <= f s <= mx) as Hf.
  { intros n mn mx f d Hin. apply Hv in Hin as [_ ?]. done. }
  assert (∀ v, List.In v int_vars → v ∈ int_vars) as Hin by (intros; by apply list_elem_of_In).
  pose proof (Hf _ _ _ _ _ (Hin (mkVar "MAX_JOBS" 1 10 MaxJobs 1) ltac:(cbn; tauto))).
  pose proof (Hf _ _ _ _ _ (Hin (mkVar "RATE_LIMIT_PER_IP_RPM" 1 10000 RateLimitPerIPRPM 30) ltac:(cbn; tauto))).
  pose proof (Hf _ _ _ _ _ (Hin (mkVar "RATE_LIMIT_BURST" 1 1000 RateLimitBurst 5) ltac:(cbn; tauto))).
  pose proof (Hf _ _ _ _ _ (Hin (mkVar "RATE_LIMIT_MAX_KEYS" 10 1000000 RateLimitMaxKeys 10000) ltac:(cbn; tauto))).
  lia.
Qed.

(** ** Theorems *)

Section theorems.
Context `{PrintTable} `{UnicodeTables}.

(** The start never crashes: [main] exits with code 1 exactly when the
    configuration or the cache directory is refused, and otherwise listens on the
    configured port with the loaded settings. *)
Theorem main_outcome args environ get qpdf_found w :
  (∀ x a l, args = x :: a :: l → a ≠ "healthcheck") →
  match (main args environ get qpdf_found w).1 with
  | Exit code =>
      code = 1 ∧ ((∃ e, Load environ = Err e) ∨
                  ∃ s, Load environ = Ok s ∧ (Cache.NewManager (CacheDir s) (AsposeVersion s) w).1 = None)
  | Crash => False
  | Listen addr s c static a =>
      Load environ = Ok s ∧ addr = ":" +:+ port_of environ ∧
      (Cache.NewManager (CacheDir s) (AsposeVersion s) w).1 = Some c ∧
      slots (srv a) = 0 ∧ activeJobs (srv a) = 0 ∧ Recent.buf (recent (srv a)) = []
  end.
Proof.
  intros Hargs. unfold main.
  assert (match args with _ :: a :: _ => String.eqb a "healthcheck" | _ => false end = false) as ->.
  { destruct args as [|x [|a l]]; try done. apply String.eqb_neq. by eapply Hargs. }
  destruct (Load environ) as [s|e] eqn:Hl; [|cbn; split; [done|]; left; by eexists].
  unfold wire, mbind, io_bind. destruct (Cache.NewManager (CacheDir s) (AsposeVersion s) w) as [[c|] w1] eqn:Hc.
  - destruct (NewHealth s qpdf_found w1) as [st w2]. unfold world_of. cbn [fst].
    destruct (load_positive environ s Hl) as ([Hj _] & Hp & Hb & Hk).
    destruct (New_ok s w2 Hj Hp Hb Hk) as (sv & Hn & _ & Hs & Ha). rewrite Hn. split_and!; try done; try (by rewrite Hc).
    unfold New in Hn. destruct (MaxJobs s <? 0); [done|]. destruct (if RateLimitEnabled s then _ else _); [|done].
    cbn in Hn. by simplify_eq.
  - cbn. split; [done|]. right. exists s. by rewrite Hc.
Qed.

Context `{FloatFormat} `{GoArch} `{JSONFloats} `{OSErrors}.
Context `{Worker.Workers} `{Probe.Readers} `{CSVInput.ZipWriter} `{LibreOffice.Soffice} `{Gotenberg.Transport}.
Context `{Recent.CursorCodec}.

(** C8: Whatever a process that [main] started is sent, in whatever order, no
    request and no output of a worker makes it panic; at any moment at most [MAX_JOBS]
    conversions hold a slot, and only requests that wait for ever keep one; the
    recent conversions number at most 200, and each job has at most 5000
    heartbeats and 1000 timings. *)
Theorem process_invariant args get qpdf_found w env out addr static a es :
  (main args (environ env) get qpdf_found w).1 = Listen addr (conf env) (cache env) static a →
  kernel_ok out →
  let '(os, a') := run env out static es a in
  Forall (λ o, o ≠ Panicked) os ∧
  0 <= slots (srv a') <= MaxJobs (conf env) ∧ slots (srv a') <= hung_count os ∧
  activeJobs (srv a') = slots (srv a') ∧
  Z.of_nat (length (Recent.buf (recent (srv a')))) <= 200 ∧
  map_Forall (λ _ evs, Z.of_nat (length evs) <= 5000) (Ring.store (beats a')) ∧
  map_Forall (λ _ evs, Z.of_nat (length evs) <= 1000) (Ring.store (timings a')).
Proof.
  intros Hm Hk. apply main_listens in Hm as (Hl & w' & Hn & Hb & Ht).
  destruct (load_positive _ _ Hl) as ([Hj _] & Hp & Hbu & Hkeys).
  destruct (New_ok (conf env) w' Hj Hp Hbu Hkeys) as (sv & Hn' & Hs & Hs0 & Ha0).
  rewrite Hn in Hn'. injection Hn' as Hsv.
  assert (∀ m t, 0 <= m → Ring.ring_inv (Ring.NewRingStore m t)) as Hring.
  { intros m t Hm. split; [done|]. split; [set_solver|apply map_Forall_empty]. }
  assert (app_ok env 0 a) as Ha.
  { unfold app_ok. rewrite Hsv, Hs0, Ha0, Hb, Ht.
    pose proof (Hring 5000 (30 * Minute) ltac:(lia)). pose proof (Hring 1000 (30 * Minute) ltac:(lia)).
    split_and!; try done; lia. }
  pose proof (run_ok env out static Hk es 0 a Ha) as Hrun.
  destruct (run env out static es a) as [os a']. destruct Hrun as [Hos (Hsound & Hslots & Hh & Hact & [Hbi Hbm] & [Hti Htm])].
  destruct Hsound as [(_ & _ & Hlen) _]. destruct Hbi as (_ & _ & Hbi), Hti as (_ & _ & Hti).
  rewrite Hbm in Hbi. rewrite Htm in Hti. rewrite Z.add_0_l in Hh. split_and!; done || lia.
Qed.
End theorems.

(** The id of a request: the client's, or 32 hexadecimal digits. *)
Lemma newRequestID_length b : String.length (newRequestID b) = (2 * length b)%nat.
Proof.
  unfold newRequestID, Probe.hex_bytes. rewrite <- bytes_length.
  assert (∀ l, length (bytes (of_bytes l)) = length l) as Hl by (induction l; cbn; congruence).
  rewrite Hl. induction b as [|x b IH]; [done|].
  change (S (S (length (mjoin ((λ b, [hex_digit (b / 16); hex_digit (b mod 16)]) <$> b)))) = (2 * S (length b))%nat).
  rewrite IH. lia.
Qed.

(** Every request has a proper id, the same in its handler, its log lines and
    its response: the client's if it sent one, otherwise sixteen random bytes in
    hexadecimal; it is never the placeholder for no id, unless the client sends
    that. *)
Theorem request_id_bound out q n :
  length (random_id out n) = 16%nat →
  rid (bind_request out q n) = (if String.eqb (header_id q) "" then newRequestID (random_id out n) else header_id q) ∧
  rid (bind_request out q n) ≠ "" ∧
  base_headers (bind_request out q n) = {["X-Request-ID" := rid (bind_request out q n)]} ∧
  (header_id q = "" → String.length (rid (bind_request out q n)) = 32%nat ∧ rid (bind_request out q n) ≠ NoRequestID).
Proof.
  intros Hn. pose proof (newRequestID_length (random_id out n)) as Hlen. rewrite Hn in Hlen.
  unfold bind_request, request_id, RequestID. cbn [rid].
  assert (newRequestID (random_id out n) ≠ "") as Hne by (intros He; by rewrite He in Hlen).
  destruct (String.eqb_spec (header_id q) "") as [Hh|Hh].
  - rewrite (proj2 (String.eqb_neq _ _) Hne). split_and!; try done. intros _. split; [done|].
    intros He. by rewrite He in Hlen.
  - rewrite (proj2 (String.eqb_neq _ _) Hh). by split_and!.
Qed.

(** No method and pattern occurs twice in the route table, and every route is
    reachable from it. *)
Lemma routes_distinct : NoDup (routes.*1) ∧ ∀ rt, ∃ m p, (m, p, rt) ∈ routes.
Proof.
  split.
  - apply (bool_decide_unpack _). vm_compute. exact I.
  - intros rt. assert (∃ i mp, routes !! i = Some (mp, rt)) as (i & [m p] & Hi).
    { destruct rt; [exists 0%nat|exists 1%nat|exists 2%nat|exists 3%nat|exists 4%nat|exists 5%nat|exists 6%nat|exists 7%nat
        |exists 8%nat|exists 9%nat|exists 10%nat|exists 11%nat|exists 12%nat|exists 13%nat|exists 14%nat|exists 15%nat];
        by eexists. }
    exists m, p. by apply list_elem_of_lookup_2 in Hi.
Qed.

(** The levels a loaded configuration allows are all known, so that an event
    below the configured level is left out and no other. *)
Lemma configured_levels `{PrintTable, UnicodeTables} environ s level :
  Load environ = Ok s →
  ∃ l, levelMap !! LogLevel s = Some l ∧
    EmitEvent l level = (l <=? event_level level) ∧ -4 <= event_level level <= 8.
Proof.
  intros Hl. destruct (loaded_bounds environ s Hl) as (_ & _ & Hlv).
  assert (∃ l, levelMap !! LogLevel s = Some l) as [l Hm].
  { rewrite !elem_of_cons in Hlv. destruct Hlv as [-> | [-> | [-> | [-> | []%not_elem_of_nil]]]]; by eexists. }
  exists l. split_and!; [done|done| |]; unfold event_level; repeat case_match; vm_compute; congruence.
Qed.

(** ** The shutdown *)

(** [main] and the goroutine that waits for a signal.  As [net/http] documents,
    [Shutdown] makes [ListenAndServe] return at once and then waits for the
    requests under way; nothing makes [main] wait for it. *)
Inductive phase := Listening | Draining | Exited.
Record life : Type := mkLife { at_phase : phase; in_flight : nat }.
Inductive life_step : life → life → Prop :=
| L_arrive n : life_step (mkLife Listening n) (mkLife Listening (S n))
| L_finish p n : p ≠ Exited → life_step (mkLife p (S n)) (mkLife p n)
| L_signal n : life_step (mkLife Listening n) (mkLife Draining n)
| L_return n : life_step (mkLife Draining n) (mkLife Exited n).

(** No request arrives after the signal. *)
Lemma draining_shrinks l l' : life_step l l' → at_phase l ≠ Listening → (in_flight l' <= in_flight l)%nat.
Proof. intros Hs Hp. destruct Hs; cbn in *; done || lia. Qed.

(** The process can end with requests under way, although [main] asks for a
    graceful shutdown. *)
Lemma exits_with_requests_in_flight :
  rtc life_step (mkLife Listening 0) (mkLife Exited 1).
Proof.
  eapply rtc_l; [apply L_arrive|]. eapply rtc_l; [apply L_signal|]. eapply rtc_l; [apply L_return|]. apply rtc_refl.
Qed.

(** ** A concrete process *)

Section sample.
#[local] Instance plain_floats : FloatFormat := {| shortest_g := λ _, "NaN" |}.
#[local] Instance limit_one : Worker.Workers := Orchestrator.sample_worker 1.
#[local] Instance sample_tables : UnicodeTables := {| unicode_to_lower := λ r, r |}.
#[local] Instance sample_print : PrintTable := {| is_print_wide := λ _, true |}.
#[local] Instance sample_json_floats : JSONFloats := {| json_float := λ _, "0" |}.
#[local] Instance sample_errors : OSErrors := {| os_error := λ op path, op +:+ " " +:+ path |}.
#[local] Instance two_pages : Probe.Readers := Orchestrator.sample_readers 2.
#[local] Instance no_zip : CSVInput.ZipWriter := {| CSVInput.write_zip := λ _, Err "no zip" |}.
#[local] Existing Instance sample_soffice.
#[local] Existing Instance sample_chromium.
#[local] Existing Instance ContainerStats.sample_arch.

(** The router: an entry is selected when its pattern is the path. *)
Definition sample_mux (table : list (string * string)) (m p : string) : option (nat * gmap string string) :=
  (λ x : nat * (string * string), (x.1, ∅)) <$> list_find (λ e, e = (m, p)) table.

Definition sample_outside : Outside :=
  mkOutside sample_tools (λ _, false) (λ _, sample_kernel) (λ _, []) (λ _, repeat 7 16) "<dash>" "{{STATUS_LABEL}}"
    sample_mux (mret ()).
Definition sample_get (m p : string) : Incoming :=
  mkIncoming m p "" ∅ (RateLimit.mkRequest "" "10.0.0.1:555") ∅ None.
Definition sample_post : Incoming :=
  mkIncoming "POST" "/v1/convert" "r1" ∅ (RateLimit.mkRequest "" "10.0.0.1:555") ∅ (Some png_upload).
Definition sample_events : list event :=
  [Serve (sample_get "GET" "/health"); Stderr (λ _, (zero_time, zero_time)) FormatDOCX 42 0 "r1" false (bytes Worker.sample_heartbeat ++ [10]); Serve sample_post; Serve (sample_get "GET" "/v1/workers")].
Definition empty_world : World := mkWorld ∅ ∅ [] [] None "".
Definition main_env (s : Settings) (c : Cache.Manager) : Env :=
  mkEnv s c ∅ (now sample_env) (license_file sample_env) (s3 sample_env) (temp_name sample_env).
Definition sample_start : start := (main ["orchestrator"] ∅ (λ _, None) true empty_world).1.

Lemma sample_kernel_ok : kernel_ok sample_outside.
Proof.
  intros n names Hp. cbn in Hp. simplify_eq.
  repeat (constructor; [intros text Ht; vm_compute in Ht; simplify_eq; intros i Hi; vm_compute in Hi; simplify_eq;
    apply Nat.leb_le; vm_compute; reflexivity|]). constructor.
Qed.

#[local] Existing Instance Recent.plain_codec.

Lemma process_invariant_witness :
  ∃ addr s c static a, sample_start = Listen addr s c static a ∧ addr = ":8080" ∧
    let '(os, a') := run (main_env s c) sample_outside static sample_events a in
    length os = 4%nat ∧ Forall (λ o, o ≠ Panicked) os ∧ slots (srv a') <= MaxJobs s.
Proof.
  destruct sample_start as [code| |addr s c static a] eqn:Hs; [exfalso; vm_compute in Hs; discriminate..|].
  assert (Hs' := Hs). vm_compute in Hs'. injection Hs' as Ha _ _ _ _.
  exists addr, s, c, static, a. split; [reflexivity|]. split; [symmetry; exact Ha|].
  pose proof (process_invariant ["orchestrator"] (λ _, None) true empty_world (main_env s c) sample_outside addr static a
    sample_events Hs sample_kernel_ok) as Hinv.
  destruct (run (main_env s c) sample_outside static sample_events a) as [os a'] eqn:Hr.
  destruct Hinv as (Hos & [_ Hle] & _). split; [|split; assumption].
  assert (∀ es b, length (run (main_env s c) sample_outside static es b).1 = length es) as Hlen.
  { induction es as [|e es IH]; intros b; cbn; [reflexivity|]. destruct (step _ _ _ _ _) as [o b1].
    specialize (IH b1). destruct (run _ _ _ es b1). cbn in *. congruence. }
  specialize (Hlen sample_events a). rewrite Hr in Hlen. exact Hlen.
Defined.

(** What the process answers to these requests. *)
Example sample_answers :
  match sample_start with
  | Listen _ s c static a =>
      (run (main_env s c) sample_outside static sample_events a).1 = [Done (); Done (); Done (); Done ()] ∧
      sent (wd (srv (serve (main_env s c) sample_outside static (sample_get "GET" "/") a).2)) = "NOT READY"
  | _ => False
  end.
Proof. vm_compute. split; reflexivity. Qed.

Lemma main_outcome_witness :
  match (main ["orchestrator"] {["OFFICE_CONVERT_MAX_JOBS" := "99"]} (λ _, None) true empty_world).1 with
  | Exit code => code = 1
  | _ => False
  end.
Proof.
  assert (∀ x a l, ["orchestrator"] = x :: a :: l → a ≠ "healthcheck") as Hargs by discriminate.
  pose proof (main_outcome ["orchestrator"] {["OFFICE_CONVERT_MAX_JOBS" := "99"]} (λ _, None) true empty_world Hargs) as Hm.
  assert (∃ code, (main ["orchestrator"] {["OFFICE_CONVERT_MAX_JOBS" := "99"]} (λ _, None) true empty_world).1 = Exit code)
    as [code Hc] by (eexists; vm_compute; reflexivity).
  rewrite Hc in Hm |- *. destruct Hm as [Hm _]. exact Hm.
Defined.

Lemma request_id_bound_witness :
  rid (bind_request sample_outside (sample_get "GET" "/health") 0) = "07070707070707070707070707070707".
Proof.
  destruct (request_id_bound sample_outside (sample_get "GET" "/health") 0) as [Hr _]; [reflexivity|].
  rewrite Hr. vm_compute. reflexivity.
Defined.
End sample.
