(* ===== verification/Admission.v ===== *)
(** * Requests that compete for slots ([internal/server/convert.go], [convert_html.go])

    [Server] runs one request at a time.  This file interleaves any number of
    them on the two shared counters of a server: the semaphore channel [sem],
    whose sends and receives are single steps, and the atomic [activeJobs], which
    is changed in a step of its own after each of them.

    [admission_invariant] gives the bounds that hold in every state that the
    requests can reach; [overshoot] shows the state in which [activeJobs] is
    above [MAX_JOBS], because [release] frees the slot first.  [acquire_steps] and
    [release_steps] relate the steps to [Server.acquire] and [Server.release]. *)
From stdpp Require Import base tactics list numbers relations.
From Stdlib Require Import ZArith Lia Bool.
From S2P Require Import Prelude Server.
Local Open Scope Z_scope.

(** Where a request is: before the [select], between its send and [Add(1)], in
    its handler, between its receive and [Add(-1)], done, or refused. *)
Inductive place := Arriving | Holding | Working | Freed | Finished | Refused.
#[global] Instance place_eq : EqDecision place.
Proof. solve_decision. Defined.

Record state : Type := mkState { sem : Z; active : Z; requests : list place }.
Definition idle : state := mkState 0 0 [].

(** The counts of the places. *)
Definition holds (p : place) : Z := match p with Holding | Working => 1 | _ => 0 end.
Definition counts (p : place) : Z := match p with Working | Freed => 1 | _ => 0 end.
Definition between (p : place) : Z := match p with Holding | Freed => 1 | _ => 0 end.
Fixpoint total (f : place → Z) (ps : list place) : Z :=
  match ps with [] => 0 | p :: ps => f p + total f ps end.

Section admission.
Context (max_jobs : Z).

Inductive step : state → state → Prop :=
| S_arrive s : step s (mkState (sem s) (active s) (requests s ++ [Arriving]))
| S_acquire s i : requests s !! i = Some Arriving → sem s < max_jobs →
    step s (mkState (sem s + 1) (active s) (<[i := Holding]> (requests s)))
| S_refuse s i : requests s !! i = Some Arriving → ¬ sem s < max_jobs →
    step s (mkState (sem s) (active s) (<[i := Refused]> (requests s)))
| S_count s i : requests s !! i = Some Holding →
    step s (mkState (sem s) (active s + 1) (<[i := Working]> (requests s)))
| S_free s i : requests s !! i = Some Working →
    step s (mkState (sem s - 1) (active s) (<[i := Freed]> (requests s)))
| S_uncount s i : requests s !! i = Some Freed →
    step s (mkState (sem s) (active s - 1) (<[i := Finished]> (requests s))).

(** ** Counting *)

Lemma total_app f ps qs : total f (ps ++ qs) = total f ps + total f qs.
Proof. induction ps as [|p ps IH]; cbn in *; [done|]. rewrite IH. lia. Qed.

Lemma total_insert f ps i p q :
  ps !! i = Some p → total f (<[i := q]> ps) = total f ps - f p + f q.
Proof.
  revert i. induction ps as [|x ps IH]; intros [|i] Hi; cbn in *; simplify_eq; [lia|].
  rewrite IH by done. lia.
Qed.

Lemma total_nonneg f ps : (∀ p, 0 <= f p) → 0 <= total f ps.
Proof. intros Hf. induction ps as [|p ps IH]; cbn; [done|]. specialize (Hf p). lia. Qed.

(** The counters say where the requests are. *)
Definition consistent (s : state) : Prop :=
  sem s = total holds (requests s) ∧ active s = total counts (requests s) ∧ sem s <= max_jobs.

Lemma step_consistent s s' : consistent s → step s s' → consistent s'.
Proof.
  unfold consistent. intros (Hs & Ha & Hle) Hstep.
  destruct Hstep as [s|s i Hi Hlt|s i Hi Hge|s i Hi|s i Hi|s i Hi]; cbn [sem active requests];
    rewrite ?total_app, ?(total_insert _ _ _ _ _ Hi); cbn; lia.
Qed.

Lemma reachable_consistent s : 0 <= max_jobs → rtc step idle s → consistent s.
Proof.
  intros Hm Hr. assert (consistent idle) as H0 by (by split_and!).
  induction Hr as [|s1 s2 s3 Hs _ IH]; [done|]. apply IH. by eapply step_consistent.
Qed.

(** Each counted request holds a slot or has just freed it. *)
Lemma counts_split ps : total counts ps <= total holds ps + total between ps ∧
  (total between ps = 0 → total counts ps = total holds ps).
Proof.
  assert (∀ p, 0 <= between p) as Hb by (by intros []).
  induction ps as [|p ps [IH1 IH2]]; cbn; [done|]. pose proof (total_nonneg between ps Hb).
  destruct p; cbn; split; intros; try (specialize (IH2 ltac:(lia))); lia.
Qed.

(** C20: However requests interleave, at most [MAX_JOBS] of them hold a slot, the
    semaphore's length is their number, and [activeJobs] is the number of those
    between their two changes of it: never negative, and equal to the slots in use
    whenever no request is between freeing or taking its slot and the change of
    [activeJobs]. *)
Theorem admission_invariant s :
  0 <= max_jobs → rtc step idle s →
  sem s = total holds (requests s) ∧ 0 <= sem s <= max_jobs ∧
  0 <= active s <= max_jobs + total between (requests s) ∧
  (total between (requests s) = 0 → active s = sem s).
Proof.
  intros Hm Hr. destruct (reachable_consistent s Hm Hr) as (Hs & Ha & Hle).
  destruct (counts_split (requests s)) as [Hc1 Hc2].
  pose proof (total_nonneg holds (requests s) ltac:(by intros [])).
  pose proof (total_nonneg counts (requests s) ltac:(by intros [])).
  rewrite Hs in *. rewrite Ha. split_and!; try done; lia.
Qed.

(** A request is refused exactly when [MAX_JOBS] others hold a slot at that
    moment: a slot is never wasted, and an arriving request always is admitted or
    refused at once. *)
Theorem refused_only_when_full s i :
  0 <= max_jobs → rtc step idle s → requests s !! i = Some Arriving →
  ((∃ s', step s s' ∧ requests s' !! i = Some Refused) ↔ total holds (requests s) = max_jobs) ∧
  ((∃ s', step s s' ∧ requests s' !! i = Some Holding) ↔ total holds (requests s) < max_jobs).
Proof.
  intros Hm Hr Hi. destruct (reachable_consistent s Hm Hr) as (Hs & _ & Hle).
  assert (∀ p, (<[i := p]> (requests s) : list place) !! i = Some p) as Hins.
  { intros p. apply list_lookup_insert_eq. by eapply lookup_lt_Some. }
  assert (∀ s' p, step s s' → requests s' !! i = Some p → p ≠ Arriving →
    (p = Holding ∧ sem s < max_jobs) ∨ (p = Refused ∧ ¬ sem s < max_jobs)) as Hinv.
  { intros s' p Hstep. destruct Hstep as [s|s j Hj Hlt|s j Hj Hge|s j Hj|s j Hj|s j Hj]; cbn [requests sem];
      intros Hp Hne.
    1: { rewrite lookup_app_l in Hp by (by eapply lookup_lt_Some). congruence. }
    all: destruct (decide (i = j)) as [<-|Hij];
      [rewrite Hins in Hp; simplify_eq; auto|rewrite list_lookup_insert_ne in Hp by done; congruence]. }
  rewrite <- Hs. split; split.
  - intros (s' & Hstep & Hp). destruct (Hinv s' Refused Hstep Hp) as [[? _]|[_ ?]]; [done|done|]. lia.
  - intros He. eexists. split; [apply (S_refuse s i Hi); lia|apply Hins].
  - intros (s' & Hstep & Hp). destruct (Hinv s' Holding Hstep Hp) as [[_ ?]|[? _]]; done.
  - intros He. eexists. split; [by apply (S_acquire s i Hi)|apply Hins].
Qed.
End admission.

(** [activeJobs] can be above [MAX_JOBS]: a request frees its slot, another one
    takes it and is counted before the first one is discounted. *)
Lemma overshoot : rtc (step 1) idle (mkState 1 2 [Freed; Working]).
Proof.
  eapply rtc_l; [apply S_arrive|]. eapply rtc_l; [apply (S_acquire _ _ 0); [done|cbn; lia]|].
  eapply rtc_l; [apply (S_count _ _ 0); done|]. eapply rtc_l; [apply (S_free _ _ 0); done|].
  eapply rtc_l; [apply S_arrive|]. eapply rtc_l; [apply (S_acquire _ _ 1); [done|cbn; lia]|].
  eapply rtc_l; [apply (S_count _ _ 1); done|]. apply rtc_refl.
Qed.

(** ** The steps of [Server] *)

(** The counters of a server among requests [ps]. *)
Definition counters_of (sv : Server.Server) (ps : list place) : state := mkState (slots sv) (Server.activeJobs sv) ps.

Lemma acquire_steps max_jobs sv ps i :
  ps !! i = Some Arriving → slots sv < max_jobs →
  rtc (step max_jobs) (counters_of sv ps) (counters_of (acquire sv) (<[i := Working]> ps)).
Proof.
  intros Hi Hlt. eapply rtc_l; [by apply (S_acquire _ _ i)|]. eapply rtc_l; [apply (S_count _ _ i)|].
  - cbn. apply list_lookup_insert_eq. by eapply lookup_lt_Some.
  - cbn. rewrite list_insert_insert_eq. apply rtc_refl.
Qed.

Lemma release_steps max_jobs sv ps i :
  ps !! i = Some Working →
  rtc (step max_jobs) (counters_of sv ps) (counters_of (release sv) (<[i := Finished]> ps)).
Proof.
  intros Hi. eapply rtc_l; [by apply (S_free _ _ i)|]. eapply rtc_l; [apply (S_uncount _ _ i)|].
  - cbn. apply list_lookup_insert_eq. by eapply lookup_lt_Some.
  - cbn. rewrite list_insert_insert_eq. apply rtc_refl.
Qed.

(** ** Witnesses *)

Lemma admission_invariant_witness :
  sem (mkState 1 2 [Freed; Working]) = 1 ∧ 0 <= active (mkState 1 2 [Freed; Working]) <= 1 + 1.
Proof.
  destruct (admission_invariant 1 (mkState 1 2 [Freed; Working])) as (Hs & _ & Ha & _); [lia|exact overshoot|].
  split; [exact Hs|exact Ha].
Defined.

Lemma refused_only_when_full_witness :
  let s := mkState 1 2 [Freed; Working; Arriving] in
  ∃ s', step 1 s s' ∧ requests s' !! 2%nat = Some Refused.
Proof.
  intros s. assert (rtc (step 1) idle s) as Hr.
  { eapply rtc_r; [exact overshoot|]. exact (S_arrive 1 (mkState 1 2 [Freed; Working])). }
  destruct (refused_only_when_full 1 s 2) as [Hf _]; [lia|exact Hr|reflexivity|]. apply Hf. reflexivity.
Defined.
